(** * RV32IM emulator: decoder, ALU, single-cycle executor, five-stage
    pipeline and two-pass assembler, embedded from the C++ sources.

    Conventions of the embedding.
    - [Word], [Address] (uint32_t) are integers in [0, 2^32); [SignedWord]
      and [int] (int32_t) are integers in [-2^31, 2^31).  Every C++
      conversion and every wrap-around is written out with [u32] / [s32].
    - Bit operations are the ones of [Z] (two's complement on negative
      numbers), so [&], [|], [>>] on signed values are [Z.land], [Z.lor],
      [Z.shiftr].
    - A C++ operation whose behaviour is undefined or that throws (integer
      division by zero or with an unrepresentable quotient, an out-of-range
      register index, a shift by a count outside [0, 31], a loop that does
      not end) yields [None]; the code that uses it runs in the option
      monad.
    - [std::map] is a [gmap]; [std::array<Word, 32>] and [std::vector] are
      lists.  The disassembly text of an instruction, the source map's
      use by the shell and the memory access counters are display-only and
      are left out. *)

From Stdlib Require Import ZArith Lia Bool List String Ascii.
From stdpp Require Import base option list gmap strings pretty.
Import ListNotations.

Local Open Scope Z_scope.

(** The option monad used by every fallible operation. *)
Notation "x <- e1 ;; e2" := (match e1 with Some x => e2 | None => None end)
  (at level 100, e1 at next level, right associativity, only parsing).

(* ===================================================================== *)
(** ** common.hpp: basic types                                            *)
(* ===================================================================== *)

(** [static_cast<Word>]: reduction modulo 2^32. *)
Definition u32 (z : Z) : Z := z mod 2 ^ 32.

(** [static_cast<SignedWord>]: the two's-complement reading of the low 32
    bits. *)
Definition s32 (z : Z) : Z := (z + 2 ^ 31) mod 2 ^ 32 - 2 ^ 31.

(** The same conversions at 64 bits ([uint64_t], [int64_t]). *)
Definition u64 (z : Z) : Z := z mod 2 ^ 64.
Definition s64 (z : Z) : Z := (z + 2 ^ 63) mod 2 ^ 64 - 2 ^ 63.

Definition INT_MIN : Z := - 2 ^ 31.
Definition INT_MAX : Z := 2 ^ 31 - 1.

Definition NUM_REGISTERS : Z := 32.

Inductive Format := FmtR | FmtI | FmtS | FmtB | FmtU | FmtJ | FmtUNKNOWN.

Module AluOp.
Inductive t :=
| ADD | SUB
| SLL | SRL | SRA
| SLT | SLTU
| XOR | OR | AND
| MUL | MULH | MULHSU | MULHU
| DIV | DIVU | REM | REMU
| PASS_B
| NONE.
End AluOp.

Module InsType.
Inductive t :=
| ADD | SUB | SLL | SLT | SLTU | XOR | SRL | SRA | OR | AND
| ADDI | SLTI | SLTIU | XORI | ORI | ANDI | SLLI | SRLI | SRAI
| LB | LH | LW | LBU | LHU
| SB | SH | SW
| BEQ | BNE | BLT | BGE | BLTU | BGEU
| JAL | JALR
| LUI | AUIPC
| MUL | MULH | MULHSU | MULHU | DIV | DIVU | REM | REMU
| ECALL | EBREAK
| UNKNOWN.

Definition eqb (a b : t) : bool :=
  match a, b with
  | ADD, ADD | SUB, SUB | SLL, SLL | SLT, SLT | SLTU, SLTU | XOR, XOR
  | SRL, SRL | SRA, SRA | OR, OR | AND, AND
  | ADDI, ADDI | SLTI, SLTI | SLTIU, SLTIU | XORI, XORI | ORI, ORI
  | ANDI, ANDI | SLLI, SLLI | SRLI, SRLI | SRAI, SRAI
  | LB, LB | LH, LH | LW, LW | LBU, LBU | LHU, LHU
  | SB, SB | SH, SH | SW, SW
  | BEQ, BEQ | BNE, BNE | BLT, BLT | BGE, BGE | BLTU, BLTU | BGEU, BGEU
  | JAL, JAL | JALR, JALR | LUI, LUI | AUIPC, AUIPC
  | MUL, MUL | MULH, MULH | MULHSU, MULHSU | MULHU, MULHU
  | DIV, DIV | DIVU, DIVU | REM, REM | REMU, REMU
  | ECALL, ECALL | EBREAK, EBREAK | UNKNOWN, UNKNOWN => true
  | _, _ => false
  end.
End InsType.

(** Decoded instruction ([struct Instruction]); the [text] member is the
    disassembly string and is not modelled. *)
Record Instruction := mkInstruction {
  raw : Z;
  type : InsType.t;
  format : Format;
  rd : Z;
  rs1 : Z;
  rs2 : Z;
  imm : Z;
  reg_write : bool;
  mem_read : bool;
  mem_write : bool;
  mem_to_reg : bool;
  branch : bool;
  jump : bool;
  alu_src : bool;
  alu_op : AluOp.t;
  ins_pc : Z
}.

(** The default-constructed [Instruction()]: the canonical NOP. *)
Definition Instruction_default : Instruction :=
  {| raw := 0x00000013; type := InsType.ADDI; format := FmtI;
     rd := 0; rs1 := 0; rs2 := 0; imm := 0;
     reg_write := false; mem_read := false; mem_write := false;
     mem_to_reg := false; branch := false; jump := false; alu_src := false;
     alu_op := AluOp.NONE; ins_pc := 0 |}.

Definition is_nop (ins : Instruction) : bool :=
  (raw ins =? 0x00000013) || (raw ins =? 0).

(** [sign_extend(value, bits)]: [value] is a [Word]; the mask
    [~((1U << bits) - 1)] is computed on 32 bits. *)
Definition sign_extend (value : Z) (bits : Z) : Z :=
  let sign_bit := u32 (Z.shiftl 1 (bits - 1)) in
  if negb (Z.land value sign_bit =? 0) then
    let mask := u32 (Z.lnot (u32 (u32 (Z.shiftl 1 bits) - 1))) in
    s32 (Z.lor value mask)
  else s32 value.

(* ===================================================================== *)
(** ** alu.cpp                                                            *)
(* ===================================================================== *)

Module ALU.

(** [/] and [%] on [int32_t]: undefined for a zero divisor and for the
    one quotient that does not fit; otherwise truncation towards zero. *)
Definition int_div (x y : Z) : option Z :=
  if y =? 0 then None
  else if (x =? INT_MIN) && (y =? -1) then None
  else Some (Z.quot x y).

Definition int_rem (x y : Z) : option Z :=
  if y =? 0 then None
  else if (x =? INT_MIN) && (y =? -1) then None
  else Some (Z.rem x y).

(** [/] and [%] on [uint32_t]: undefined for a zero divisor. *)
Definition uint_div (x y : Z) : option Z :=
  if y =? 0 then None else Some (x / y).

Definition uint_rem (x y : Z) : option Z :=
  if y =? 0 then None else Some (x mod y).

Definition execute (op : AluOp.t) (a b : Z) : option Z :=
  let sa := s32 a in
  let sb := s32 b in
  match op with
  | AluOp.ADD => Some (u32 (a + b))
  | AluOp.SUB => Some (u32 (a - b))
  | AluOp.SLL => Some (u32 (Z.shiftl a (Z.land b 0x1F)))
  | AluOp.SRL => Some (Z.shiftr a (Z.land b 0x1F))
  | AluOp.SRA => Some (u32 (Z.shiftr sa (Z.land b 0x1F)))
  | AluOp.SLT => Some (if sa <? sb then 1 else 0)
  | AluOp.SLTU => Some (if a <? b then 1 else 0)
  | AluOp.XOR => Some (Z.lxor a b)
  | AluOp.OR => Some (Z.lor a b)
  | AluOp.AND => Some (Z.land a b)
  | AluOp.MUL =>
      let result := s64 (sa * sb) in
      Some (u32 (Z.land result 0xFFFFFFFF))
  | AluOp.MULH =>
      let result := s64 (sa * sb) in
      Some (u32 (Z.land (Z.shiftr result 32) 0xFFFFFFFF))
  | AluOp.MULHSU =>
      (* int64_t * uint64_t multiplies in uint64_t; the product is then
         stored in an int64_t *)
      let result := s64 (u64 (u64 sa * u64 b)) in
      Some (u32 (Z.land (Z.shiftr result 32) 0xFFFFFFFF))
  | AluOp.MULHU =>
      let result := u64 (u64 a * u64 b) in
      Some (u32 (Z.land (Z.shiftr result 32) 0xFFFFFFFF))
  | AluOp.DIV =>
      if sb =? 0 then Some 0xFFFFFFFF
      else if (sa =? INT_MIN) && (sb =? -1) then Some (u32 sa)
      else q <- int_div sa sb ;; Some (u32 q)
  | AluOp.DIVU =>
      if b =? 0 then Some 0xFFFFFFFF
      else uint_div a b
  | AluOp.REM =>
      if sb =? 0 then Some (u32 sa)
      else if (sa =? INT_MIN) && (sb =? -1) then Some 0
      else r <- int_rem sa sb ;; Some (u32 r)
  | AluOp.REMU =>
      if b =? 0 then Some a
      else uint_rem a b
  | AluOp.PASS_B => Some b
  | AluOp.NONE => Some 0
  end.

Definition branch_taken (ty : InsType.t) (rs1_val rs2_val : Z) : bool :=
  let s1 := s32 rs1_val in
  let s2 := s32 rs2_val in
  match ty with
  | InsType.BEQ => rs1_val =? rs2_val
  | InsType.BNE => negb (rs1_val =? rs2_val)
  | InsType.BLT => s1 <? s2
  | InsType.BGE => s1 >=? s2
  | InsType.BLTU => rs1_val <? rs2_val
  | InsType.BGEU => rs1_val >=? rs2_val
  | _ => false
  end.

End ALU.

(* ===================================================================== *)
(** ** decoder.cpp                                                        *)
(* ===================================================================== *)

(** Member-wise assignments [ins.f = v] on an [Instruction]. *)
Definition set_type (v : InsType.t) (i : Instruction) : Instruction :=
  mkInstruction (raw i) v (format i) (rd i) (rs1 i) (rs2 i) (imm i)
    (reg_write i) (mem_read i) (mem_write i) (mem_to_reg i) (branch i)
    (jump i) (alu_src i) (alu_op i) (ins_pc i).
Definition set_format (v : Format) (i : Instruction) : Instruction :=
  mkInstruction (raw i) (type i) v (rd i) (rs1 i) (rs2 i) (imm i)
    (reg_write i) (mem_read i) (mem_write i) (mem_to_reg i) (branch i)
    (jump i) (alu_src i) (alu_op i) (ins_pc i).
Definition set_imm (v : Z) (i : Instruction) : Instruction :=
  mkInstruction (raw i) (type i) (format i) (rd i) (rs1 i) (rs2 i) v
    (reg_write i) (mem_read i) (mem_write i) (mem_to_reg i) (branch i)
    (jump i) (alu_src i) (alu_op i) (ins_pc i).
Definition set_reg_write (v : bool) (i : Instruction) : Instruction :=
  mkInstruction (raw i) (type i) (format i) (rd i) (rs1 i) (rs2 i) (imm i)
    v (mem_read i) (mem_write i) (mem_to_reg i) (branch i)
    (jump i) (alu_src i) (alu_op i) (ins_pc i).
Definition set_mem_read (v : bool) (i : Instruction) : Instruction :=
  mkInstruction (raw i) (type i) (format i) (rd i) (rs1 i) (rs2 i) (imm i)
    (reg_write i) v (mem_write i) (mem_to_reg i) (branch i)
    (jump i) (alu_src i) (alu_op i) (ins_pc i).
Definition set_mem_write (v : bool) (i : Instruction) : Instruction :=
  mkInstruction (raw i) (type i) (format i) (rd i) (rs1 i) (rs2 i) (imm i)
    (reg_write i) (mem_read i) v (mem_to_reg i) (branch i)
    (jump i) (alu_src i) (alu_op i) (ins_pc i).
Definition set_mem_to_reg (v : bool) (i : Instruction) : Instruction :=
  mkInstruction (raw i) (type i) (format i) (rd i) (rs1 i) (rs2 i) (imm i)
    (reg_write i) (mem_read i) (mem_write i) v (branch i)
    (jump i) (alu_src i) (alu_op i) (ins_pc i).
Definition set_branch (v : bool) (i : Instruction) : Instruction :=
  mkInstruction (raw i) (type i) (format i) (rd i) (rs1 i) (rs2 i) (imm i)
    (reg_write i) (mem_read i) (mem_write i) (mem_to_reg i) v
    (jump i) (alu_src i) (alu_op i) (ins_pc i).
Definition set_jump (v : bool) (i : Instruction) : Instruction :=
  mkInstruction (raw i) (type i) (format i) (rd i) (rs1 i) (rs2 i) (imm i)
    (reg_write i) (mem_read i) (mem_write i) (mem_to_reg i) (branch i)
    v (alu_src i) (alu_op i) (ins_pc i).
Definition set_alu_src (v : bool) (i : Instruction) : Instruction :=
  mkInstruction (raw i) (type i) (format i) (rd i) (rs1 i) (rs2 i) (imm i)
    (reg_write i) (mem_read i) (mem_write i) (mem_to_reg i) (branch i)
    (jump i) v (alu_op i) (ins_pc i).
Definition set_alu_op (v : AluOp.t) (i : Instruction) : Instruction :=
  mkInstruction (raw i) (type i) (format i) (rd i) (rs1 i) (rs2 i) (imm i)
    (reg_write i) (mem_read i) (mem_write i) (mem_to_reg i) (branch i)
    (jump i) (alu_src i) v (ins_pc i).

Module Decoder.

Definition OP_LUI : Z := 55.      (* 0b0110111 *)
Definition OP_AUIPC : Z := 23.    (* 0b0010111 *)
Definition OP_JAL : Z := 111.     (* 0b1101111 *)
Definition OP_JALR : Z := 103.    (* 0b1100111 *)
Definition OP_BRANCH : Z := 99.   (* 0b1100011 *)
Definition OP_LOAD : Z := 3.      (* 0b0000011 *)
Definition OP_STORE : Z := 35.    (* 0b0100011 *)
Definition OP_IMM : Z := 19.      (* 0b0010011 *)
Definition OP_REG : Z := 51.      (* 0b0110011 *)
Definition OP_SYSTEM : Z := 115.  (* 0b1110011 *)

(** [(val >> lo) & ((1U << (hi - lo + 1)) - 1)] *)
Definition bits (val hi lo : Z) : Z :=
  Z.land (Z.shiftr val lo) (u32 (u32 (Z.shiftl 1 (hi - lo + 1)) - 1)).

Definition get_rd (raw : Z) : Z := bits raw 11 7.
Definition get_rs1 (raw : Z) : Z := bits raw 19 15.
Definition get_rs2 (raw : Z) : Z := bits raw 24 20.
Definition get_funct3 (raw : Z) : Z := bits raw 14 12.
Definition get_funct7 (raw : Z) : Z := bits raw 31 25.

Definition imm_i (raw : Z) : Z :=
  sign_extend (bits raw 31 20) 12.

Definition imm_s (raw : Z) : Z :=
  let imm := Z.lor (u32 (Z.shiftl (bits raw 31 25) 5)) (bits raw 11 7) in
  sign_extend imm 12.

Definition imm_b (raw : Z) : Z :=
  let imm := Z.lor (Z.lor (Z.lor
               (u32 (Z.shiftl (bits raw 31 31) 12))
               (u32 (Z.shiftl (bits raw 7 7) 11)))
               (u32 (Z.shiftl (bits raw 30 25) 5)))
               (u32 (Z.shiftl (bits raw 11 8) 1)) in
  sign_extend imm 13.

Definition imm_u (raw : Z) : Z :=
  s32 (Z.land raw 0xFFFFF000).

Definition imm_j (raw : Z) : Z :=
  let imm := Z.lor (Z.lor (Z.lor
               (u32 (Z.shiftl (bits raw 31 31) 20))
               (u32 (Z.shiftl (bits raw 19 12) 12)))
               (u32 (Z.shiftl (bits raw 20 20) 11)))
               (u32 (Z.shiftl (bits raw 30 21) 1)) in
  sign_extend imm 21.

(** The inner [switch (funct3)] statements. *)
Definition decode_branch (funct3 : Z) (ins : Instruction) : Instruction :=
  if funct3 =? 0 then set_type InsType.BEQ ins
  else if funct3 =? 1 then set_type InsType.BNE ins
  else if funct3 =? 4 then set_type InsType.BLT ins
  else if funct3 =? 5 then set_type InsType.BGE ins
  else if funct3 =? 6 then set_type InsType.BLTU ins
  else if funct3 =? 7 then set_type InsType.BGEU ins
  else set_type InsType.UNKNOWN ins.

Definition decode_load (funct3 : Z) (ins : Instruction) : Instruction :=
  if funct3 =? 0 then set_type InsType.LB ins
  else if funct3 =? 1 then set_type InsType.LH ins
  else if funct3 =? 2 then set_type InsType.LW ins
  else if funct3 =? 4 then set_type InsType.LBU ins
  else if funct3 =? 5 then set_type InsType.LHU ins
  else set_type InsType.UNKNOWN ins.

Definition decode_store (funct3 : Z) (ins : Instruction) : Instruction :=
  if funct3 =? 0 then set_type InsType.SB ins
  else if funct3 =? 1 then set_type InsType.SH ins
  else if funct3 =? 2 then set_type InsType.SW ins
  else set_type InsType.UNKNOWN ins.

Definition decode_imm (funct3 funct7 : Z) (ins : Instruction) : Instruction :=
  if funct3 =? 0 then set_alu_op AluOp.ADD (set_type InsType.ADDI ins)
  else if funct3 =? 2 then set_alu_op AluOp.SLT (set_type InsType.SLTI ins)
  else if funct3 =? 3 then set_alu_op AluOp.SLTU (set_type InsType.SLTIU ins)
  else if funct3 =? 4 then set_alu_op AluOp.XOR (set_type InsType.XORI ins)
  else if funct3 =? 6 then set_alu_op AluOp.OR (set_type InsType.ORI ins)
  else if funct3 =? 7 then set_alu_op AluOp.AND (set_type InsType.ANDI ins)
  else if funct3 =? 1 then
    set_imm (rs2 ins) (set_alu_op AluOp.SLL (set_type InsType.SLLI ins))
  else if funct3 =? 5 then
    let ins := set_imm (rs2 ins) ins in
    if negb (Z.land funct7 0x20 =? 0)
    then set_alu_op AluOp.SRA (set_type InsType.SRAI ins)
    else set_alu_op AluOp.SRL (set_type InsType.SRLI ins)
  else set_type InsType.UNKNOWN ins.

Definition decode_m (funct3 : Z) (ins : Instruction) : Instruction :=
  if funct3 =? 0 then set_alu_op AluOp.MUL (set_type InsType.MUL ins)
  else if funct3 =? 1 then set_alu_op AluOp.MULH (set_type InsType.MULH ins)
  else if funct3 =? 2 then set_alu_op AluOp.MULHSU (set_type InsType.MULHSU ins)
  else if funct3 =? 3 then set_alu_op AluOp.MULHU (set_type InsType.MULHU ins)
  else if funct3 =? 4 then set_alu_op AluOp.DIV (set_type InsType.DIV ins)
  else if funct3 =? 5 then set_alu_op AluOp.DIVU (set_type InsType.DIVU ins)
  else if funct3 =? 6 then set_alu_op AluOp.REM (set_type InsType.REM ins)
  else if funct3 =? 7 then set_alu_op AluOp.REMU (set_type InsType.REMU ins)
  else set_type InsType.UNKNOWN ins.

Definition decode_base (funct3 funct7 : Z) (ins : Instruction) : Instruction :=
  if funct3 =? 0 then
    if negb (Z.land funct7 0x20 =? 0)
    then set_alu_op AluOp.SUB (set_type InsType.SUB ins)
    else set_alu_op AluOp.ADD (set_type InsType.ADD ins)
  else if funct3 =? 1 then set_alu_op AluOp.SLL (set_type InsType.SLL ins)
  else if funct3 =? 2 then set_alu_op AluOp.SLT (set_type InsType.SLT ins)
  else if funct3 =? 3 then set_alu_op AluOp.SLTU (set_type InsType.SLTU ins)
  else if funct3 =? 4 then set_alu_op AluOp.XOR (set_type InsType.XOR ins)
  else if funct3 =? 5 then
    if negb (Z.land funct7 0x20 =? 0)
    then set_alu_op AluOp.SRA (set_type InsType.SRA ins)
    else set_alu_op AluOp.SRL (set_type InsType.SRL ins)
  else if funct3 =? 6 then set_alu_op AluOp.OR (set_type InsType.OR ins)
  else if funct3 =? 7 then set_alu_op AluOp.AND (set_type InsType.AND ins)
  else set_type InsType.UNKNOWN ins.

Definition decode (raw pc : Z) : Instruction :=
  let ins :=
    mkInstruction raw InsType.ADDI FmtI (get_rd raw) (get_rs1 raw)
      (get_rs2 raw) 0 false false false false false false false
      AluOp.NONE pc in
  let opcode := bits raw 6 0 in
  let funct3 := get_funct3 raw in
  let funct7 := get_funct7 raw in
  if opcode =? OP_LUI then
    set_alu_op AluOp.PASS_B (set_alu_src true (set_reg_write true
      (set_imm (imm_u raw) (set_format FmtU (set_type InsType.LUI ins)))))
  else if opcode =? OP_AUIPC then
    set_alu_op AluOp.ADD (set_alu_src true (set_reg_write true
      (set_imm (imm_u raw) (set_format FmtU (set_type InsType.AUIPC ins)))))
  else if opcode =? OP_JAL then
    set_jump true (set_reg_write true
      (set_imm (imm_j raw) (set_format FmtJ (set_type InsType.JAL ins))))
  else if opcode =? OP_JALR then
    set_alu_op AluOp.ADD (set_alu_src true (set_jump true
      (set_reg_write true
        (set_imm (imm_i raw) (set_format FmtI (set_type InsType.JALR ins))))))
  else if opcode =? OP_BRANCH then
    decode_branch funct3
      (set_branch true (set_imm (imm_b raw) (set_format FmtB ins)))
  else if opcode =? OP_LOAD then
    decode_load funct3
      (set_alu_op AluOp.ADD (set_alu_src true (set_mem_to_reg true
        (set_mem_read true (set_reg_write true
          (set_imm (imm_i raw) (set_format FmtI ins)))))))
  else if opcode =? OP_STORE then
    decode_store funct3
      (set_alu_op AluOp.ADD (set_alu_src true (set_mem_write true
        (set_imm (imm_s raw) (set_format FmtS ins)))))
  else if opcode =? OP_IMM then
    decode_imm funct3 funct7
      (set_alu_src true (set_reg_write true
        (set_imm (imm_i raw) (set_format FmtI ins))))
  else if opcode =? OP_REG then
    let ins := set_imm 0 (set_reg_write true (set_format FmtR ins)) in
    if funct7 =? 0x01 then decode_m funct3 ins
    else decode_base funct3 funct7 ins
  else if opcode =? OP_SYSTEM then
    let ins := set_imm (imm_i raw) (set_format FmtI ins) in
    if imm ins =? 0 then set_type InsType.ECALL ins
    else if imm ins =? 1 then set_type InsType.EBREAK ins
    else set_type InsType.UNKNOWN ins
  else
    set_format FmtUNKNOWN (set_type InsType.UNKNOWN ins).

End Decoder.

(* ===================================================================== *)
(** ** memory.cpp                                                         *)
(* ===================================================================== *)

Module Memory.

Definition TEXT_BASE : Z := 0x00000000.
Definition DATA_BASE : Z := 0x10000000.
Definition STACK_TOP : Z := 0x7FFFFFF0.

(** The sparse store [std::map<Address, Byte>]. *)
Definition t := gmap Z Z.

Definition reset : gmap Z Z := ∅.

Definition read_byte (mem : gmap Z Z) (addr : Z) : Z :=
  match mem !! addr with
  | Some v => v
  | None => 0
  end.

(** [value] is converted to [Byte] by the call. *)
Definition write_byte (mem : gmap Z Z) (addr value : Z) : gmap Z Z :=
  <[addr := value mod 2 ^ 8]> mem.

Definition read_half (mem : gmap Z Z) (addr : Z) : Z :=
  let lo := read_byte mem addr in
  let hi := read_byte mem (u32 (addr + 1)) in
  (Z.lor lo (Z.shiftl hi 8)) mod 2 ^ 16.

(** [value] is converted to [HalfWord] by the call. *)
Definition write_half (mem : gmap Z Z) (addr value : Z) : gmap Z Z :=
  let value := value mod 2 ^ 16 in
  let mem := write_byte mem addr (Z.land value 0xFF) in
  write_byte mem (u32 (addr + 1)) (Z.land (Z.shiftr value 8) 0xFF).

Definition read_word (mem : gmap Z Z) (addr : Z) : Z :=
  let b0 := read_byte mem addr in
  let b1 := read_byte mem (u32 (addr + 1)) in
  let b2 := read_byte mem (u32 (addr + 2)) in
  let b3 := read_byte mem (u32 (addr + 3)) in
  Z.lor (Z.lor (Z.lor b0 (u32 (Z.shiftl b1 8))) (u32 (Z.shiftl b2 16)))
        (u32 (Z.shiftl b3 24)).

Definition write_word (mem : gmap Z Z) (addr value : Z) : gmap Z Z :=
  let mem := write_byte mem addr (Z.land value 0xFF) in
  let mem := write_byte mem (u32 (addr + 1)) (Z.land (Z.shiftr value 8) 0xFF) in
  let mem := write_byte mem (u32 (addr + 2)) (Z.land (Z.shiftr value 16) 0xFF) in
  write_byte mem (u32 (addr + 3)) (Z.land (Z.shiftr value 24) 0xFF).

Definition read_byte_signed (mem : gmap Z Z) (addr : Z) : Z :=
  sign_extend (read_byte mem addr) 8.

Definition read_half_signed (mem : gmap Z Z) (addr : Z) : Z :=
  sign_extend (read_half mem addr) 16.

Fixpoint write_block (mem : gmap Z Z) (addr : Z) (words : list Z) : gmap Z Z :=
  match words with
  | [] => mem
  | w :: ws => write_block (write_word mem addr w) (u32 (addr + 4)) ws
  end.

Fixpoint write_bytes (mem : gmap Z Z) (addr : Z) (bytes : list Z) : gmap Z Z :=
  match bytes with
  | [] => mem
  | b :: bs => write_bytes (write_byte mem addr b) (u32 (addr + 1)) bs
  end.

End Memory.

(* ===================================================================== *)
(** ** register_file.cpp                                                  *)
(* ===================================================================== *)

Module RegisterFile.

(** [std::array<Word, NUM_REGISTERS>] *)
Definition reset : list Z := replicate 32 0.

(** [None] is the [std::out_of_range] exception. *)
Definition read (regs : list Z) (reg : Z) : option Z :=
  if (reg <? 0) || (reg >=? NUM_REGISTERS) then None
  else Some (if reg =? 0 then 0 else default 0 (regs !! Z.to_nat reg)).

Definition write (regs : list Z) (reg value : Z) : option (list Z) :=
  if (reg <? 0) || (reg >=? NUM_REGISTERS) then None
  else if negb (reg =? 0) then Some (<[Z.to_nat reg := value]> regs)
  else Some regs.

End RegisterFile.

(* ===================================================================== *)
(** ** cpu.cpp: the single-cycle executor                                 *)
(* ===================================================================== *)

Module CPU.

(** The executor together with the memory and register file it refers
    to. *)
Record t := mk {
  mem : gmap Z Z;
  regs : list Z;
  pc : Z;
  cycles : Z;
  instructions : Z;
  halted : bool;
  last_ins : Instruction;
  breakpoints : list Z
}.

Definition init (m : gmap Z Z) (r : list Z) : t :=
  mk m r Memory.TEXT_BASE 0 0 false Instruction_default [].

Definition reset (c : t) : t :=
  mk (mem c) RegisterFile.reset Memory.TEXT_BASE 0 0 false (last_ins c)
     (breakpoints c).

Definition fetch (c : t) : Z := Memory.read_word (mem c) (pc c).

Definition decode (c : t) (raw : Z) : Instruction :=
  Decoder.decode raw (pc c).

Definition execute (c : t) (ins : Instruction) (rs1_val rs2_val : Z)
  : option Z :=
  let alu_a := rs1_val in
  let alu_b := if alu_src ins then u32 (imm ins) else rs2_val in
  let alu_a := if InsType.eqb (type ins) InsType.AUIPC then pc c else alu_a in
  ALU.execute (alu_op ins) alu_a alu_b.

(** Returns the value of [memory_access] and the memory after it.  A load
    whose kind falls to [default] leaves the first [switch] and goes on to
    the store test. *)
Definition memory_access (m : gmap Z Z) (ins : Instruction)
    (alu_result rs2_val : Z) : Z * gmap Z Z :=
  let addr := alu_result in
  let after_load :=
    if mem_read ins then
      match type ins with
      | InsType.LB => Some (u32 (Memory.read_byte_signed m addr))
      | InsType.LH => Some (u32 (Memory.read_half_signed m addr))
      | InsType.LW => Some (Memory.read_word m addr)
      | InsType.LBU => Some (Memory.read_byte m addr)
      | InsType.LHU => Some (Memory.read_half m addr)
      | _ => None
      end
    else None in
  match after_load with
  | Some v => (v, m)
  | None =>
      let m :=
        if mem_write ins then
          match type ins with
          | InsType.SB => Memory.write_byte m addr (Z.land rs2_val 0xFF)
          | InsType.SH => Memory.write_half m addr (Z.land rs2_val 0xFFFF)
          | InsType.SW => Memory.write_word m addr rs2_val
          | _ => m
          end
        else m in
      (alu_result, m)
  end.

Definition writeback (r : list Z) (ins : Instruction) (result : Z)
  : option (list Z) :=
  if reg_write ins && negb (rd ins =? 0)
  then RegisterFile.write r (rd ins) result
  else Some r.

Definition has_breakpoint (c : t) (addr : Z) : bool :=
  existsb (Z.eqb addr) (breakpoints c).

Definition add_breakpoint (addr : Z) (c : t) : t :=
  if has_breakpoint c addr then c
  else mk (mem c) (regs c) (pc c) (cycles c) (instructions c) (halted c)
          (last_ins c) (breakpoints c ++ [addr]).

(** [erase(remove(begin, end, addr), end)] *)
Definition remove_breakpoint (addr : Z) (c : t) : t :=
  mk (mem c) (regs c) (pc c) (cycles c) (instructions c) (halted c)
     (last_ins c) (List.filter (fun b => negb (b =? addr)) (breakpoints c)).

Definition clear_breakpoints (c : t) : t :=
  mk (mem c) (regs c) (pc c) (cycles c) (instructions c) (halted c)
     (last_ins c) [].

(** One [step()]: the returned flag is the function's result. *)
Definition step (c : t) : option (bool * t) :=
  if halted c then Some (false, c)
  else
    let raw := fetch c in
    let ins := decode c raw in
    if InsType.eqb (type ins) InsType.ECALL then
      Some (false,
            mk (mem c) (regs c) (pc c) (u64 (cycles c + 1))
               (u64 (instructions c + 1)) true ins (breakpoints c))
    else
      rs1_val <- RegisterFile.read (regs c) (rs1 ins) ;;
      rs2_val <- RegisterFile.read (regs c) (rs2 ins) ;;
      alu_result <- execute c ins rs1_val rs2_val ;;
      let next_pc := u32 (pc c + 4) in
      let '(next_pc, alu_result) :=
        if jump ins then
          if InsType.eqb (type ins) InsType.JAL then
            (u32 (pc c + imm ins), u32 (pc c + 4))
          else if InsType.eqb (type ins) InsType.JALR then
            (Z.land (u32 (rs1_val + imm ins)) (u32 (Z.lnot 1)), u32 (pc c + 4))
          else (next_pc, alu_result)
        else if branch ins then
          if ALU.branch_taken (type ins) rs1_val rs2_val
          then (u32 (pc c + imm ins), alu_result)
          else (next_pc, alu_result)
        else (next_pc, alu_result) in
      let '(mem_result, m) := memory_access (mem c) ins alu_result rs2_val in
      let wb_result := if mem_to_reg ins then mem_result else alu_result in
      r <- writeback (regs c) ins wb_result ;;
      let c' := mk m r next_pc (u64 (cycles c + 1))
                   (u64 (instructions c + 1)) false ins (breakpoints c) in
      if has_breakpoint c' (pc c') then Some (false, c')
      else Some (true, c').

(** [while (step()) {}], cut off after [fuel] steps ([None] then, as for
    a fault). *)
Fixpoint run (fuel : nat) (c : t) : option t :=
  match fuel with
  | O => None
  | S fuel =>
      r <- step c ;;
      if fst r then run fuel (snd r) else Some (snd r)
  end.

End CPU.

(* ===================================================================== *)
(** ** common.hpp: pipeline registers                                     *)
(* ===================================================================== *)

Module IF_ID.
Record t := mk {
  instruction : Z;
  pc : Z;
  next_pc : Z;
  valid : bool
}.
Definition flush : t := mk 0x13 0 4 false.
End IF_ID.

Module ID_EX.
Record t := mk {
  ins : Instruction;
  rs1_val : Z;
  rs2_val : Z;
  pc : Z;
  next_pc : Z;
  valid : bool
}.
Definition flush : t := mk Instruction_default 0 0 0 4 false.
End ID_EX.

Module EX_MEM.
Record t := mk {
  ins : Instruction;
  alu_result : Z;
  rs2_val : Z;
  branch_target : Z;
  branch_taken : bool;
  valid : bool
}.
Definition flush : t := mk Instruction_default 0 0 0 false false.
End EX_MEM.

Module MEM_WB.
Record t := mk {
  ins : Instruction;
  alu_result : Z;
  mem_data : Z;
  valid : bool
}.
Definition flush : t := mk Instruction_default 0 0 false.
End MEM_WB.

Inductive Forward := FwdNONE | FwdEX_MEM | FwdMEM_WB.

(* ===================================================================== *)
(** ** pipeline.cpp: the five-stage pipeline                              *)
(* ===================================================================== *)

Module Pipeline.

(** The pipeline together with the memory and register file it refers
    to. *)
Record t := mk {
  mem : gmap Z Z;
  regs : list Z;
  if_id : IF_ID.t;
  id_ex : ID_EX.t;
  ex_mem : EX_MEM.t;
  mem_wb : MEM_WB.t;
  pc : Z;
  next_pc : Z;
  hazard_detection : bool;
  forwarding : bool;
  halted : bool;
  stalled : bool;
  cycles : Z;
  instructions : Z;
  stalls : Z;
  flushes : Z;
  forwards : Z;
  breakpoints : list Z
}.

(** Assignments to single members. *)
Definition set_mem (v : gmap Z Z) (p : t) : t :=
  mk v (regs p) (if_id p) (id_ex p) (ex_mem p) (mem_wb p) (pc p)
     (next_pc p) (hazard_detection p) (forwarding p) (halted p) (stalled p)
     (cycles p) (instructions p) (stalls p) (flushes p) (forwards p)
     (breakpoints p).
Definition set_regs (v : list Z) (p : t) : t :=
  mk (mem p) v (if_id p) (id_ex p) (ex_mem p) (mem_wb p) (pc p)
     (next_pc p) (hazard_detection p) (forwarding p) (halted p) (stalled p)
     (cycles p) (instructions p) (stalls p) (flushes p) (forwards p)
     (breakpoints p).
Definition set_if_id (v : IF_ID.t) (p : t) : t :=
  mk (mem p) (regs p) v (id_ex p) (ex_mem p) (mem_wb p) (pc p)
     (next_pc p) (hazard_detection p) (forwarding p) (halted p) (stalled p)
     (cycles p) (instructions p) (stalls p) (flushes p) (forwards p)
     (breakpoints p).
Definition set_id_ex (v : ID_EX.t) (p : t) : t :=
  mk (mem p) (regs p) (if_id p) v (ex_mem p) (mem_wb p) (pc p)
     (next_pc p) (hazard_detection p) (forwarding p) (halted p) (stalled p)
     (cycles p) (instructions p) (stalls p) (flushes p) (forwards p)
     (breakpoints p).
Definition set_ex_mem (v : EX_MEM.t) (p : t) : t :=
  mk (mem p) (regs p) (if_id p) (id_ex p) v (mem_wb p) (pc p)
     (next_pc p) (hazard_detection p) (forwarding p) (halted p) (stalled p)
     (cycles p) (instructions p) (stalls p) (flushes p) (forwards p)
     (breakpoints p).
Definition set_mem_wb (v : MEM_WB.t) (p : t) : t :=
  mk (mem p) (regs p) (if_id p) (id_ex p) (ex_mem p) v (pc p)
     (next_pc p) (hazard_detection p) (forwarding p) (halted p) (stalled p)
     (cycles p) (instructions p) (stalls p) (flushes p) (forwards p)
     (breakpoints p).
Definition set_pc (v : Z) (p : t) : t :=
  mk (mem p) (regs p) (if_id p) (id_ex p) (ex_mem p) (mem_wb p) v
     (next_pc p) (hazard_detection p) (forwarding p) (halted p) (stalled p)
     (cycles p) (instructions p) (stalls p) (flushes p) (forwards p)
     (breakpoints p).
Definition set_next_pc (v : Z) (p : t) : t :=
  mk (mem p) (regs p) (if_id p) (id_ex p) (ex_mem p) (mem_wb p) (pc p)
     v (hazard_detection p) (forwarding p) (halted p) (stalled p)
     (cycles p) (instructions p) (stalls p) (flushes p) (forwards p)
     (breakpoints p).
Definition set_hazard_detection (v : bool) (p : t) : t :=
  mk (mem p) (regs p) (if_id p) (id_ex p) (ex_mem p) (mem_wb p) (pc p)
     (next_pc p) v (forwarding p) (halted p) (stalled p)
     (cycles p) (instructions p) (stalls p) (flushes p) (forwards p)
     (breakpoints p).
Definition set_forwarding (v : bool) (p : t) : t :=
  mk (mem p) (regs p) (if_id p) (id_ex p) (ex_mem p) (mem_wb p) (pc p)
     (next_pc p) (hazard_detection p) v (halted p) (stalled p)
     (cycles p) (instructions p) (stalls p) (flushes p) (forwards p)
     (breakpoints p).
Definition set_halted (v : bool) (p : t) : t :=
  mk (mem p) (regs p) (if_id p) (id_ex p) (ex_mem p) (mem_wb p) (pc p)
     (next_pc p) (hazard_detection p) (forwarding p) v (stalled p)
     (cycles p) (instructions p) (stalls p) (flushes p) (forwards p)
     (breakpoints p).
Definition set_stalled (v : bool) (p : t) : t :=
  mk (mem p) (regs p) (if_id p) (id_ex p) (ex_mem p) (mem_wb p) (pc p)
     (next_pc p) (hazard_detection p) (forwarding p) (halted p) v
     (cycles p) (instructions p) (stalls p) (flushes p) (forwards p)
     (breakpoints p).
Definition set_cycles (v : Z) (p : t) : t :=
  mk (mem p) (regs p) (if_id p) (id_ex p) (ex_mem p) (mem_wb p) (pc p)
     (next_pc p) (hazard_detection p) (forwarding p) (halted p) (stalled p)
     v (instructions p) (stalls p) (flushes p) (forwards p)
     (breakpoints p).
Definition set_instructions (v : Z) (p : t) : t :=
  mk (mem p) (regs p) (if_id p) (id_ex p) (ex_mem p) (mem_wb p) (pc p)
     (next_pc p) (hazard_detection p) (forwarding p) (halted p) (stalled p)
     (cycles p) v (stalls p) (flushes p) (forwards p)
     (breakpoints p).
Definition set_stalls (v : Z) (p : t) : t :=
  mk (mem p) (regs p) (if_id p) (id_ex p) (ex_mem p) (mem_wb p) (pc p)
     (next_pc p) (hazard_detection p) (forwarding p) (halted p) (stalled p)
     (cycles p) (instructions p) v (flushes p) (forwards p)
     (breakpoints p).
Definition set_flushes (v : Z) (p : t) : t :=
  mk (mem p) (regs p) (if_id p) (id_ex p) (ex_mem p) (mem_wb p) (pc p)
     (next_pc p) (hazard_detection p) (forwarding p) (halted p) (stalled p)
     (cycles p) (instructions p) (stalls p) v (forwards p)
     (breakpoints p).
Definition set_forwards (v : Z) (p : t) : t :=
  mk (mem p) (regs p) (if_id p) (id_ex p) (ex_mem p) (mem_wb p) (pc p)
     (next_pc p) (hazard_detection p) (forwarding p) (halted p) (stalled p)
     (cycles p) (instructions p) (stalls p) (flushes p) v
     (breakpoints p).
Definition set_breakpoints (v : list Z) (p : t) : t :=
  mk (mem p) (regs p) (if_id p) (id_ex p) (ex_mem p) (mem_wb p) (pc p)
     (next_pc p) (hazard_detection p) (forwarding p) (halted p) (stalled p)
     (cycles p) (instructions p) (stalls p) (flushes p) (forwards p) v.

(** The constructor: latches are default-constructed. *)
Definition init (m : gmap Z Z) (r : list Z) : t :=
  mk m r IF_ID.flush ID_EX.flush EX_MEM.flush MEM_WB.flush
     Memory.TEXT_BASE (Memory.TEXT_BASE + 4)
     true true false false 0 0 0 0 0 [].

Definition reset (p : t) : t :=
  mk (mem p) RegisterFile.reset IF_ID.flush ID_EX.flush EX_MEM.flush
     MEM_WB.flush Memory.TEXT_BASE (Memory.TEXT_BASE + 4)
     (hazard_detection p) (forwarding p) false false 0 0 0 0 0
     (breakpoints p).

(** *** Forwarding logic *)

Definition get_forward_a (p : t) : Forward * t :=
  if negb (forwarding p) then (FwdNONE, p)
  else
    let rs1 := rs1 (ID_EX.ins (id_ex p)) in
    if rs1 =? 0 then (FwdNONE, p)
    else if EX_MEM.valid (ex_mem p)
            && reg_write (EX_MEM.ins (ex_mem p))
            && (rd (EX_MEM.ins (ex_mem p)) =? rs1)
    then (FwdEX_MEM, set_forwards (u64 (forwards p + 1)) p)
    else if MEM_WB.valid (mem_wb p)
            && reg_write (MEM_WB.ins (mem_wb p))
            && (rd (MEM_WB.ins (mem_wb p)) =? rs1)
    then (FwdMEM_WB, set_forwards (u64 (forwards p + 1)) p)
    else (FwdNONE, p).

Definition get_forward_b (p : t) : Forward * t :=
  if negb (forwarding p) then (FwdNONE, p)
  else
    let rs2 := rs2 (ID_EX.ins (id_ex p)) in
    if rs2 =? 0 then (FwdNONE, p)
    else if EX_MEM.valid (ex_mem p)
            && reg_write (EX_MEM.ins (ex_mem p))
            && (rd (EX_MEM.ins (ex_mem p)) =? rs2)
    then (FwdEX_MEM, set_forwards (u64 (forwards p + 1)) p)
    else if MEM_WB.valid (mem_wb p)
            && reg_write (MEM_WB.ins (mem_wb p))
            && (rd (MEM_WB.ins (mem_wb p)) =? rs2)
    then (FwdMEM_WB, set_forwards (u64 (forwards p + 1)) p)
    else (FwdNONE, p).

Definition get_forwarded_value (p : t) (fwd : Forward) (reg_val : Z) : Z :=
  match fwd with
  | FwdEX_MEM => EX_MEM.alu_result (ex_mem p)
  | FwdMEM_WB =>
      if mem_to_reg (MEM_WB.ins (mem_wb p))
      then MEM_WB.mem_data (mem_wb p)
      else MEM_WB.alu_result (mem_wb p)
  | FwdNONE => reg_val
  end.

(** *** Hazard detection *)

Definition detect_load_use_hazard (p : t) : bool :=
  if negb (hazard_detection p) then false
  else if ID_EX.valid (id_ex p) && mem_read (ID_EX.ins (id_ex p)) then
    let next_ins :=
      Decoder.decode (IF_ID.instruction (if_id p)) (IF_ID.pc (if_id p)) in
    if negb (rd (ID_EX.ins (id_ex p)) =? 0) then
      if (rd (ID_EX.ins (id_ex p)) =? rs1 next_ins)
         || (rd (ID_EX.ins (id_ex p)) =? rs2 next_ins)
      then true else false
    else false
  else false.

Definition detect_control_hazard (p : t) : bool :=
  EX_MEM.branch_taken (ex_mem p).

(** *** Stages *)

Definition stage_if (p : t) : t :=
  if stalled p then p
  else
    let p := set_if_id
               (IF_ID.mk (Memory.read_word (mem p) (pc p)) (pc p)
                         (u32 (pc p + 4)) true) p in
    let p := set_pc (next_pc p) p in
    set_next_pc (u32 (pc p + 4)) p.

Definition stage_id (p : t) : option t :=
  if negb (IF_ID.valid (if_id p)) then Some (set_id_ex ID_EX.flush p)
  else
    let ins :=
      Decoder.decode (IF_ID.instruction (if_id p)) (IF_ID.pc (if_id p)) in
    rs1_val <- RegisterFile.read (regs p) (rs1 ins) ;;
    rs2_val <- RegisterFile.read (regs p) (rs2 ins) ;;
    Some (set_id_ex
            (ID_EX.mk ins rs1_val rs2_val (IF_ID.pc (if_id p))
                      (IF_ID.next_pc (if_id p)) true) p).

Definition stage_ex (p : t) : option t :=
  if negb (ID_EX.valid (id_ex p)) then Some (set_ex_mem EX_MEM.flush p)
  else
    let ins := ID_EX.ins (id_ex p) in
    let '(fwd_a, p) := get_forward_a p in
    let '(fwd_b, p) := get_forward_b p in
    let rs1_val := get_forwarded_value p fwd_a (ID_EX.rs1_val (id_ex p)) in
    let rs2_val := get_forwarded_value p fwd_b (ID_EX.rs2_val (id_ex p)) in
    let alu_a := rs1_val in
    let alu_b := if alu_src ins then u32 (imm ins) else rs2_val in
    let alu_a :=
      if InsType.eqb (type ins) InsType.AUIPC then ID_EX.pc (id_ex p)
      else alu_a in
    alu_result <- ALU.execute (alu_op ins) alu_a alu_b ;;
    let '(branch_target, branch_taken, alu_result) :=
      if jump ins then
        if InsType.eqb (type ins) InsType.JAL then
          (u32 (ID_EX.pc (id_ex p) + imm ins), true,
           u32 (ID_EX.pc (id_ex p) + 4))
        else if InsType.eqb (type ins) InsType.JALR then
          (Z.land (u32 (rs1_val + imm ins)) (u32 (Z.lnot 1)), true,
           u32 (ID_EX.pc (id_ex p) + 4))
        else (0, false, alu_result)
      else if branch ins then
        if ALU.branch_taken (type ins) rs1_val rs2_val
        then (u32 (ID_EX.pc (id_ex p) + imm ins), true, alu_result)
        else (0, false, alu_result)
      else (0, false, alu_result) in
    let p := set_ex_mem
               (EX_MEM.mk ins alu_result rs2_val branch_target branch_taken
                          true) p in
    if branch_taken then
      let p := set_next_pc branch_target p in
      let p := set_pc branch_target p in
      let p := set_if_id IF_ID.flush p in
      let p := set_id_ex ID_EX.flush p in
      Some (set_flushes (u64 (flushes p + 2)) p)
    else Some p.

Definition stage_mem (p : t) : t :=
  if negb (EX_MEM.valid (ex_mem p)) then set_mem_wb MEM_WB.flush p
  else
    let ins := EX_MEM.ins (ex_mem p) in
    let addr := EX_MEM.alu_result (ex_mem p) in
    let mem_data :=
      if mem_read ins then
        match type ins with
        | InsType.LB => u32 (Memory.read_byte_signed (mem p) addr)
        | InsType.LH => u32 (Memory.read_half_signed (mem p) addr)
        | InsType.LW => Memory.read_word (mem p) addr
        | InsType.LBU => Memory.read_byte (mem p) addr
        | InsType.LHU => Memory.read_half (mem p) addr
        | _ => 0
        end
      else 0 in
    let p :=
      if mem_write ins then
        let val := EX_MEM.rs2_val (ex_mem p) in
        match type ins with
        | InsType.SB => set_mem (Memory.write_byte (mem p) addr (Z.land val 0xFF)) p
        | InsType.SH => set_mem (Memory.write_half (mem p) addr (Z.land val 0xFFFF)) p
        | InsType.SW => set_mem (Memory.write_word (mem p) addr val) p
        | _ => p
        end
      else p in
    let p := set_mem_wb
               (MEM_WB.mk ins (EX_MEM.alu_result (ex_mem p)) mem_data true)
               p in
    if negb (InsType.eqb (type ins) InsType.UNKNOWN) && negb (is_nop ins)
    then set_instructions (u64 (instructions p + 1)) p
    else p.

Definition stage_wb (p : t) : option t :=
  if negb (MEM_WB.valid (mem_wb p)) then Some p
  else
    let ins := MEM_WB.ins (mem_wb p) in
    p <- (if reg_write ins && negb (rd ins =? 0) then
            let result :=
              if mem_to_reg ins then MEM_WB.mem_data (mem_wb p)
              else MEM_WB.alu_result (mem_wb p) in
            r <- RegisterFile.write (regs p) (rd ins) result ;;
            Some (set_regs r p)
          else Some p) ;;
    if InsType.eqb (type ins) InsType.ECALL
    then Some (set_halted true p)
    else Some p.

Definition has_breakpoint (p : t) (addr : Z) : bool :=
  existsb (Z.eqb addr) (breakpoints p).

(** *** Cycle *)

(** One [cycle()]: the returned flag is the function's result. *)
Definition cycle (p : t) : option (bool * t) :=
  if halted p then Some (false, p)
  else
    let p := set_stalled (detect_load_use_hazard p) p in
    p <- (if stalled p then
            let p := set_stalls (u64 (stalls p + 1)) p in
            p <- stage_wb p ;;
            let p := stage_mem p in
            p <- stage_ex p ;;
            Some (set_id_ex ID_EX.flush p)
          else
            p <- stage_wb p ;;
            let p := stage_mem p in
            p <- stage_ex p ;;
            p <- stage_id p ;;
            Some (stage_if p)) ;;
    let p := set_cycles (u64 (cycles p + 1)) p in
    if has_breakpoint p (pc p) then Some (false, p)
    else Some (negb (halted p), p).

(** [while (cycle()) {}], cut off after [fuel] cycles ([None] then, as
    for a fault). *)
Fixpoint run (fuel : nat) (p : t) : option t :=
  match fuel with
  | O => None
  | S fuel =>
      r <- cycle p ;;
      if fst r then run fuel (snd r) else Some (snd r)
  end.

(** [n] calls of [cycle()], whatever they return (the shell's [step n]
    stops at the first [false]; a halted pipeline does nothing more). *)
Fixpoint cycles_n (n : nat) (p : t) : option t :=
  match n with
  | O => Some p
  | S n => r <- cycle p ;; cycles_n n (snd r)
  end.

(** [set_pc(addr)] of the public interface. *)
Definition set_pc_cmd (addr : Z) (p : t) : t :=
  set_next_pc (u32 (addr + 4)) (set_pc addr p).

Definition add_breakpoint (addr : Z) (p : t) : t :=
  if has_breakpoint p addr then p
  else set_breakpoints (breakpoints p ++ [addr]) p.

(** [erase(remove(begin, end, addr), end)] *)
Definition remove_breakpoint (addr : Z) (p : t) : t :=
  set_breakpoints (List.filter (fun b => negb (b =? addr)) (breakpoints p)) p.

Definition clear_breakpoints (p : t) : t := set_breakpoints [] p.

End Pipeline.

(* ===================================================================== *)
(** ** hazard_unit.cpp: the stand-alone hazard unit                       *)
(* ===================================================================== *)

Module HazardUnit.

Definition detect_load_use (id_ex : ID_EX.t) (next_ins : Instruction) : bool :=
  if negb (ID_EX.valid id_ex) then false
  else if negb (mem_read (ID_EX.ins id_ex)) then false
  else if rd (ID_EX.ins id_ex) =? 0 then false
  else
    let uses_rs1 :=
      (rs1 next_ins =? rd (ID_EX.ins id_ex)) && negb (rs1 next_ins =? 0) in
    let uses_rs2 :=
      (rs2 next_ins =? rd (ID_EX.ins id_ex)) && negb (rs2 next_ins =? 0) in
    let uses_rs2 :=
      if mem_write next_ins then
        (rs2 next_ins =? rd (ID_EX.ins id_ex)) && negb (rs2 next_ins =? 0)
      else uses_rs2 in
    uses_rs1 || uses_rs2.

Definition detect_raw (rs : Z) (ex_mem : EX_MEM.t) (mem_wb : MEM_WB.t)
  : bool :=
  if rs =? 0 then false
  else if EX_MEM.valid ex_mem && reg_write (EX_MEM.ins ex_mem)
          && (rd (EX_MEM.ins ex_mem) =? rs) then true
  else if MEM_WB.valid mem_wb && reg_write (MEM_WB.ins mem_wb)
          && (rd (MEM_WB.ins mem_wb) =? rs) then true
  else false.

Definition get_forward_rs1 (id_ex : ID_EX.t) (ex_mem : EX_MEM.t)
    (mem_wb : MEM_WB.t) : Forward :=
  let rs1 := rs1 (ID_EX.ins id_ex) in
  if rs1 =? 0 then FwdNONE
  else if EX_MEM.valid ex_mem && reg_write (EX_MEM.ins ex_mem)
          && negb (rd (EX_MEM.ins ex_mem) =? 0)
          && (rd (EX_MEM.ins ex_mem) =? rs1) then FwdEX_MEM
  else if MEM_WB.valid mem_wb && reg_write (MEM_WB.ins mem_wb)
          && negb (rd (MEM_WB.ins mem_wb) =? 0)
          && (rd (MEM_WB.ins mem_wb) =? rs1) then FwdMEM_WB
  else FwdNONE.

Definition get_forward_rs2 (id_ex : ID_EX.t) (ex_mem : EX_MEM.t)
    (mem_wb : MEM_WB.t) : Forward :=
  let rs2 := rs2 (ID_EX.ins id_ex) in
  if rs2 =? 0 then FwdNONE
  else if EX_MEM.valid ex_mem && reg_write (EX_MEM.ins ex_mem)
          && negb (rd (EX_MEM.ins ex_mem) =? 0)
          && (rd (EX_MEM.ins ex_mem) =? rs2) then FwdEX_MEM
  else if MEM_WB.valid mem_wb && reg_write (MEM_WB.ins mem_wb)
          && negb (rd (MEM_WB.ins mem_wb) =? 0)
          && (rd (MEM_WB.ins mem_wb) =? rs2) then FwdMEM_WB
  else FwdNONE.

Definition detect_branch_hazard (ex_mem : EX_MEM.t) : bool :=
  EX_MEM.valid ex_mem && EX_MEM.branch_taken ex_mem.

Definition should_stall (if_id : IF_ID.t) (id_ex : ID_EX.t) : bool :=
  if negb (IF_ID.valid if_id) || negb (ID_EX.valid id_ex) then false
  else
    let next_ins :=
      Decoder.decode (IF_ID.instruction if_id) (IF_ID.pc if_id) in
    detect_load_use id_ex next_ins.

Definition should_flush (ex_mem : EX_MEM.t) : bool :=
  detect_branch_hazard ex_mem.

End HazardUnit.

(* ===================================================================== *)
(** ** assembler.cpp: the two-pass assembler                              *)
(* ===================================================================== *)

Module Assembler.

Local Open Scope string_scope.

(** *** String helpers *)

(** [std::string::substr(pos, n)], for [pos] within the string. *)
Definition substr (s : string) (pos n : nat) : string := substring pos n s.

(** [std::string::substr(pos)] *)
Definition substr_from (s : string) (pos : nat) : string :=
  substring pos (String.length s) s.

Fixpoint find_first_of (cs : list ascii) (s : string) : option nat :=
  match s with
  | EmptyString => None
  | String c s' =>
      if existsb (Ascii.eqb c) cs then Some O
      else option_map S (find_first_of cs s')
  end.

(** [s.find(c)] *)
Definition find (c : ascii) (s : string) : option nat := find_first_of [c] s.

(** [s.rfind(c)] *)
Fixpoint rfind (c : ascii) (s : string) : option nat :=
  match s with
  | EmptyString => None
  | String d s' =>
      match rfind c s' with
      | Some i => Some (S i)
      | None => if Ascii.eqb d c then Some O else None
      end
  end.

(** The characters [" \t\r\n"]. *)
Definition blank (c : ascii) : bool :=
  existsb (Ascii.eqb c) ["032"%char; "009"%char; "013"%char; "010"%char].

Fixpoint find_first_not_blank (s : string) : option nat :=
  match s with
  | EmptyString => None
  | String c s' =>
      if blank c then option_map S (find_first_not_blank s') else Some O
  end.

Fixpoint find_last_not_blank (s : string) : option nat :=
  match s with
  | EmptyString => None
  | String c s' =>
      match find_last_not_blank s' with
      | Some i => Some (S i)
      | None => if blank c then None else Some O
      end
  end.

Definition trim (s : string) : string :=
  match find_first_not_blank s with
  | None => EmptyString
  | Some start =>
      match find_last_not_blank s with
      | None => EmptyString
      | Some e => substr s start (e - start + 1)
      end
  end.

(** [::tolower] in the "C" locale. *)
Definition tolower (c : ascii) : ascii :=
  let n := nat_of_ascii c in
  if (65 <=? n)%nat && (n <=? 90)%nat then ascii_of_nat (n + 32) else c.

Fixpoint to_lower (s : string) : string :=
  match s with
  | EmptyString => EmptyString
  | String c s' => String (tolower c) (to_lower s')
  end.

(** The successive results of [std::getline(ss, tok, delim)] on a stream
    holding [s]: a final piece without delimiter is returned when it is
    not empty, and nothing follows a final delimiter. *)
Fixpoint getlines_from (delim : ascii) (cur s : string) : list string :=
  match s with
  | EmptyString => [cur]
  | String c s' =>
      if Ascii.eqb c delim then
        cur :: match s' with
               | EmptyString => []
               | _ => getlines_from delim EmptyString s'
               end
      else getlines_from delim (cur ++ String c EmptyString) s'
  end.

Definition getlines (delim : ascii) (s : string) : list string :=
  match s with
  | EmptyString => []
  | _ => getlines_from delim EmptyString s
  end.

Definition split (s : string) (delim : ascii) : list string :=
  List.filter (fun t => negb (t =? EmptyString)) (List.map trim (getlines delim s)).

(** *** Number parsing: [std::stoi], [std::stoul] *)

(** [isspace] in the "C" locale. *)
Definition isspace (c : ascii) : bool :=
  let n := nat_of_ascii c in
  (n =? 32)%nat || ((9 <=? n)%nat && (n <=? 13)%nat).

Fixpoint skip_space (s : string) : string :=
  match s with
  | String c s' => if isspace c then skip_space s' else s
  | EmptyString => s
  end.

(** The value of a digit in the given base, if it is one. *)
Definition digit_val (base : Z) (c : ascii) : option Z :=
  let n := Z.of_nat (nat_of_ascii c) in
  let v := if (48 <=? n)%Z && (n <=? 57)%Z then n - 48
           else if (97 <=? n)%Z && (n <=? 122)%Z then n - 97 + 10
           else if (65 <=? n)%Z && (n <=? 90)%Z then n - 65 + 10
           else 36 in
  if (v <? base)%Z then Some v else None.

(** The longest run of digits at the head of [s]: its value, when there is
    at least one digit. *)
Fixpoint digits (base : Z) (acc : option Z) (s : string) : option Z :=
  match s with
  | EmptyString => acc
  | String c s' =>
      match digit_val base c with
      | Some d => digits base (Some (default 0 acc * base + d)) s'
      | None => acc
      end
  end.

(** The sign and magnitude that [strtol] / [strtoul] read: blanks, an
    optional sign, for base 16 an optional [0x] prefix, digits.  [None]
    when there is no digit ([std::invalid_argument]). *)
Definition strto (base : Z) (s : string) : option (bool * Z) :=
  let s := skip_space s in
  let '(neg, s) :=
    match s with
    | String "-" s' => (true, s')
    | String "+" s' => (false, s')
    | _ => (false, s)
    end in
  let s :=
    if (base =? 16)%Z then
      match s with
      | String "0" (String x (String h s')) =>
          if (Ascii.eqb x "x" || Ascii.eqb x "X")
             && bool_decide (is_Some (digit_val 16 h))
          then String h s' else s
      | _ => s
      end
    else s in
  m <- digits base None s ;;
  Some (neg, m).

(** [std::stoi(s)]: [None] for [std::invalid_argument] and
    [std::out_of_range]. *)
Definition stoi (s : string) : option Z :=
  r <- strto 10 s ;;
  let v := if fst r then - snd r else snd r in
  if (v <? INT_MIN)%Z || (INT_MAX <? v)%Z then None else Some v.

(** [std::stoul(s, nullptr, base)] with a 64-bit [unsigned long]: a
    minus sign negates modulo 2^64. *)
Definition stoul (s : string) (base : Z) : option Z :=
  r <- strto base s ;;
  if (2 ^ 64 - 1 <? snd r)%Z then None
  else Some (u64 (if fst r then - snd r else snd r)).

(** *** Parsing helpers *)

Definition abi : list (string * Z) :=
  [("zero",0);("ra",1);("sp",2);("gp",3);("tp",4);
   ("t0",5);("t1",6);("t2",7);("s0",8);("fp",8);("s1",9);
   ("a0",10);("a1",11);("a2",12);("a3",13);("a4",14);("a5",15);
   ("a6",16);("a7",17);("s2",18);("s3",19);("s4",20);("s5",21);
   ("s6",22);("s7",23);("s8",24);("s9",25);("s10",26);("s11",27);
   ("t3",28);("t4",29);("t5",30);("t6",31)].

Definition parse_reg (s : string) : Z :=
  let r := to_lower (trim s) in
  match r with
  | EmptyString => -1
  | String "x" rest =>
      match stoi rest with
      | Some n => if (n >=? 0)%Z && (n <? 32)%Z then n else -1
      | None => -1
      end
  | _ =>
      match List.find (fun e => fst e =? r) abi with
      | Some e => snd e
      | None => -1
      end
  end.

(** [parse_imm(s, val)]: [Some v] when it returns [true] having stored
    [v]; [None] when it returns [false], [val] untouched. *)
Definition parse_imm (s : string) : option Z :=
  let t := trim s in
  match t with
  | EmptyString => None
  | String _ (String c1 (String _ _)) =>
      if Ascii.eqb c1 "x" || Ascii.eqb c1 "X" then
        v <- stoul t 16 ;; Some (s32 v)
      else if Ascii.eqb c1 "b" || Ascii.eqb c1 "B" then
        v <- stoul (substr_from t 2) 2 ;; Some (s32 v)
      else stoi t
  | _ => stoi t
  end.

(** [parse_mem(s, offset, reg)]: the result, and the contents of [offset]
    and [reg] afterwards, given what they held before. *)
Definition parse_mem (s : string) (offset0 reg0 : Z) : bool * Z * Z :=
  match find "(" s, find ")" s with
  | Some lp, Some rp =>
      let off_str := trim (substr s 0 lp) in
      let reg_str :=
        trim (if (rp <? lp + 1)%nat then substr_from s (lp + 1)
              else substr s (lp + 1) (rp - lp - 1)) in
      let parsed :=
        if negb (off_str =? EmptyString) then
          match parse_imm off_str with
          | Some v => Some v
          | None => None
          end
        else Some 0%Z in
      match parsed with
      | None => (false, 0%Z, reg0)
      | Some offset =>
          let reg := parse_reg reg_str in
          ((reg >=? 0)%Z, offset, reg)
      end
  | _, _ => (false, offset0, reg0)
  end.

(** *** Encoding helpers *)

(** [x << n] on [int]. *)
Definition shl (x n : Z) : Z := s32 (Z.shiftl x n).

Definition enc_r (op rd f3 rs1 rs2 f7 : Z) : Z :=
  u32 (Z.lor (Z.lor (Z.lor (Z.lor (Z.lor
    (shl f7 25) (shl rs2 20)) (shl rs1 15)) (shl f3 12)) (shl rd 7)) op).

Definition enc_i (op rd f3 rs1 imm : Z) : Z :=
  u32 (Z.lor (Z.lor (Z.lor (Z.lor
    (shl (Z.land imm 0xFFF) 20) (shl rs1 15)) (shl f3 12)) (shl rd 7)) op).

Definition enc_s (op f3 rs1 rs2 imm : Z) : Z :=
  let hi := Z.land (Z.shiftr imm 5) 0x7F in
  let lo := Z.land imm 0x1F in
  u32 (Z.lor (Z.lor (Z.lor (Z.lor (Z.lor
    (shl hi 25) (shl rs2 20)) (shl rs1 15)) (shl f3 12)) (shl lo 7)) op).

Definition enc_b (op f3 rs1 rs2 imm : Z) : Z :=
  let b12 := Z.land (Z.shiftr imm 12) 1 in
  let b11 := Z.land (Z.shiftr imm 11) 1 in
  let b10_5 := Z.land (Z.shiftr imm 5) 0x3F in
  let b4_1 := Z.land (Z.shiftr imm 1) 0xF in
  u32 (Z.lor (Z.lor (Z.lor (Z.lor (Z.lor (Z.lor (Z.lor
    (shl b12 31) (shl b10_5 25)) (shl rs2 20)) (shl rs1 15))
    (shl f3 12)) (shl b4_1 8)) (shl b11 7)) op).

(** [0xFFFFF000] is an [unsigned] literal: the operands are converted. *)
Definition enc_u (op rd imm : Z) : Z :=
  Z.lor (Z.lor (Z.land (u32 imm) 0xFFFFF000) (u32 (shl rd 7))) (u32 op).

Definition enc_j (op rd imm : Z) : Z :=
  let b20 := Z.land (Z.shiftr imm 20) 1 in
  let b19_12 := Z.land (Z.shiftr imm 12) 0xFF in
  let b11 := Z.land (Z.shiftr imm 11) 1 in
  let b10_1 := Z.land (Z.shiftr imm 1) 0x3FF in
  u32 (Z.lor (Z.lor (Z.lor (Z.lor (Z.lor
    (shl b20 31) (shl b10_1 21)) (shl b11 20)) (shl b19_12 12))
    (shl rd 7)) op).

(** *** Assembler state *)

Record t := mk {
  labels : gmap string Z;
  errors : list string;
  text_out : list Z;
  data_out : list Z;
  source_map : gmap Z string;
  text_addr : Z;
  data_addr : Z;
  in_data : bool;
  line_num : Z
}.

Definition set_labels (v : gmap string Z) (a : t) : t :=
  mk v (errors a) (text_out a) (data_out a) (source_map a) (text_addr a)
     (data_addr a) (in_data a) (line_num a).
Definition set_errors (v : list string) (a : t) : t :=
  mk (labels a) v (text_out a) (data_out a) (source_map a) (text_addr a)
     (data_addr a) (in_data a) (line_num a).
Definition set_text_out (v : list Z) (a : t) : t :=
  mk (labels a) (errors a) v (data_out a) (source_map a) (text_addr a)
     (data_addr a) (in_data a) (line_num a).
Definition set_data_out (v : list Z) (a : t) : t :=
  mk (labels a) (errors a) (text_out a) v (source_map a) (text_addr a)
     (data_addr a) (in_data a) (line_num a).
Definition set_source_map (v : gmap Z string) (a : t) : t :=
  mk (labels a) (errors a) (text_out a) (data_out a) v (text_addr a)
     (data_addr a) (in_data a) (line_num a).
Definition set_text_addr (v : Z) (a : t) : t :=
  mk (labels a) (errors a) (text_out a) (data_out a) (source_map a) v
     (data_addr a) (in_data a) (line_num a).
Definition set_data_addr (v : Z) (a : t) : t :=
  mk (labels a) (errors a) (text_out a) (data_out a) (source_map a)
     (text_addr a) v (in_data a) (line_num a).
Definition set_in_data (v : bool) (a : t) : t :=
  mk (labels a) (errors a) (text_out a) (data_out a) (source_map a)
     (text_addr a) (data_addr a) v (line_num a).
Definition set_line_num (v : Z) (a : t) : t :=
  mk (labels a) (errors a) (text_out a) (data_out a) (source_map a)
     (text_addr a) (data_addr a) (in_data a) v.

(** *** Emit and error *)

Definition emit (w : Z) (src : string) (a : t) : t :=
  let a := set_source_map (<[text_addr a := src]> (source_map a)) a in
  let a := set_text_out (app (text_out a) [w]) a in
  set_text_addr (u32 (text_addr a + 4)) a.

Definition error (msg : string) (a : t) : t :=
  set_errors
    (app (errors a) ["Line " +:+ pretty (line_num a) +:+ ": " +:+ msg]) a.

(** [text_addr += 4] *)
Definition reserve (a : t) : t := set_text_addr (u32 (text_addr a + 4)) a.

(** The recurring statement
    [if (!first_pass) emit(w, src); else text_addr += 4;] *)
Definition emit_or_reserve (first_pass : bool) (w : Z) (src : string)
    (a : t) : t :=
  if negb first_pass then emit w src a else reserve a.

(** [data_out.push_back(b)]: the argument is converted to [Byte]. *)
Definition push_data (b : Z) (a : t) : t :=
  set_data_out (app (data_out a) [b mod 2 ^ 8]) a.

(** *** Directives *)

Definition word_item (first_pass : bool) (a : t) (s : string) : t :=
  match parse_imm s with
  | Some val =>
      let a :=
        if negb first_pass && in_data a then
          fold_left
            (fun a j => push_data (Z.land (Z.shiftr val (j * 8)) 0xFF) a)
            [0; 1; 2; 3]%Z a
        else a in
      if in_data a then set_data_addr (u32 (data_addr a + 4)) a else a
  | None => a
  end.

Definition half_item (first_pass : bool) (a : t) (s : string) : t :=
  match parse_imm s with
  | Some val =>
      let a :=
        if negb first_pass && in_data a then
          push_data (Z.land (Z.shiftr val 8) 0xFF)
            (push_data (Z.land val 0xFF) a)
        else a in
      if in_data a then set_data_addr (u32 (data_addr a + 2)) a else a
  | None => a
  end.

Definition byte_item (first_pass : bool) (a : t) (s : string) : t :=
  match parse_imm s with
  | Some val =>
      let a :=
        if negb first_pass && in_data a then push_data (Z.land val 0xFF) a
        else a in
      if in_data a then set_data_addr (u32 (data_addr a + 1)) a else a
  | None => a
  end.

(** The bytes of the string literal of [.asciz], escapes resolved; a
    backslash that ends the literal stands for itself. *)
Fixpoint asciz_bytes (str : string) : list Z :=
  match str with
  | EmptyString => []
  | String c s' =>
      if Ascii.eqb c "\" then
        match s' with
        | String e s'' =>
            (if Ascii.eqb e "n" then 10
             else if Ascii.eqb e "t" then 9
             else if Ascii.eqb e "r" then 13
             else if Ascii.eqb e "0" then 0
             else if Ascii.eqb e "\" then 92
             else if Ascii.eqb e "034" then 34
             else Z.of_nat (nat_of_ascii e))%Z :: asciz_bytes s''
        | EmptyString => [Z.of_nat (nat_of_ascii c)]
        end
      else Z.of_nat (nat_of_ascii c) :: asciz_bytes s'
  end.

(** [while (data_addr % align != 0) { if (!first_pass) push 0; data_addr++; }] *)
Fixpoint align_data (fuel : nat) (align : Z) (first_pass : bool) (a : t)
  : option t :=
  if (data_addr a mod align =? 0)%Z then Some a
  else
    match fuel with
    | O => None
    | S fuel =>
        let a := if negb first_pass then push_data 0 a else a in
        align_data fuel align first_pass
          (set_data_addr (u32 (data_addr a + 1)) a)
    end.

(** [while (text_addr % align != 0) { if (!first_pass) emit(NOP, empty);
    else text_addr += 4; }] *)
Fixpoint align_text (fuel : nat) (align : Z) (first_pass : bool) (a : t)
  : option t :=
  if (text_addr a mod align =? 0)%Z then Some a
  else
    match fuel with
    | O => None
    | S fuel =>
        align_text fuel align first_pass
          (emit_or_reserve first_pass 0x00000013 EmptyString a)
    end.

(** [None]: the shift [1 << p] is undefined, or the loop of [.align] does
    not end (the loops are cut off after [align] rounds, which any run
    that ends stays below). *)
Definition handle_directive (line : string) (first_pass : bool) (a : t)
  : option t :=
  match split line " " with
  | [] => Some a
  | p0 :: args =>
      let dir := to_lower p0 in
      if dir =? ".text" then Some (set_in_data false a)
      else if dir =? ".data" then Some (set_in_data true a)
      else if (dir =? ".globl") || (dir =? ".global") then Some a
      else if dir =? ".word" then
        Some (fold_left (word_item first_pass) args a)
      else if dir =? ".half" then
        Some (fold_left (half_item first_pass) args a)
      else if dir =? ".byte" then
        Some (fold_left (byte_item first_pass) args a)
      else if (dir =? ".asciz") || (dir =? ".string") then
        match find "034" line, rfind "034" line with
        | Some q1, Some q2 =>
            if (q1 <? q2)%nat then
              let bytes := asciz_bytes (substr line (q1 + 1) (q2 - q1 - 1)) in
              let len := Z.of_nat (List.length bytes) in
              let a :=
                if negb first_pass && in_data a then
                  push_data 0 (fold_left (fun a c => push_data c a) bytes a)
                else a in
              Some (if in_data a
                    then set_data_addr (u32 (data_addr a + (len + 1))) a
                    else a)
            else Some a
        | _, _ => Some a
        end
      else if dir =? ".space" then
        match args with
        | s1 :: _ =>
            match parse_imm s1 with
            | Some sz =>
                let a :=
                  if negb first_pass && in_data a then
                    fold_left (fun a _ => push_data 0 a)
                              (replicate (Z.to_nat sz) tt) a
                  else a in
                Some (if in_data a
                      then set_data_addr (u32 (data_addr a + sz)) a
                      else a)
            | None => Some a
            end
        | [] => Some a
        end
      else if dir =? ".align" then
        match args with
        | s1 :: _ =>
            match parse_imm s1 with
            | Some p =>
                if (p <? 0)%Z || (31 <? p)%Z then None
                else
                  let align := u32 (shl 1 p) in
                  if in_data a
                  then align_data (Z.to_nat align) align first_pass a
                  else align_text (Z.to_nat align) align first_pass a
            | None => Some a
            end
        | [] => Some a
        end
      else Some a
  end.

(** *** Pseudo-instructions *)

(** [ops[i]] *)
Definition op (ops : list string) (i : nat) : string :=
  nth i ops EmptyString.

(** [it->second - text_addr], stored in a [SignedWord]. *)
Definition rel (addr : Z) (a : t) : Z := s32 (u32 (addr - text_addr a)).

(** The second-pass body shared by [bnez], [blez], [bgez], [bltz], [bgtz],
    [bgt], [ble], [bgtu] and [bleu]: the branch is emitted when the label
    is found, and nothing happens otherwise. *)
Definition branch_label (first_pass : bool) (f3 r1 r2 : Z)
    (label src : string) (a : t) : t :=
  if negb first_pass then
    match labels a !! label with
    | Some addr => emit (enc_b 99 f3 r1 r2 (rel addr a)) src a
    | None => a
    end
  else reserve a.

(** The body shared by [call] and [tail]. *)
Definition jump_label (first_pass : bool) (rd : Z) (label src : string)
    (a : t) : t :=
  if negb first_pass then
    match labels a !! label with
    | Some addr => emit (enc_j 111 rd (rel addr a)) src a
    | None => error ("Unknown label: " +:+ label) a
    end
  else reserve a.

(** The result pairs the returned flag with the state. *)
Definition handle_pseudo (mnem : string) (ops : list string) (src : string)
    (first_pass : bool) (a : t) : bool * t :=
  let n := List.length ops in
  if mnem =? "nop" then
    (true, emit_or_reserve first_pass 0x00000013 src a)
  else if (mnem =? "mv") && (n =? 2)%nat then
    let rd := parse_reg (op ops 0) in
    let rs := parse_reg (op ops 1) in
    (true, emit_or_reserve first_pass (enc_i 19 rd 0 rs 0) src a)
  else if (mnem =? "not") && (n =? 2)%nat then
    let rd := parse_reg (op ops 0) in
    let rs := parse_reg (op ops 1) in
    (true, emit_or_reserve first_pass (enc_i 19 rd 4 rs (-1)) src a)
  else if (mnem =? "neg") && (n =? 2)%nat then
    let rd := parse_reg (op ops 0) in
    let rs := parse_reg (op ops 1) in
    (true, emit_or_reserve first_pass (enc_r 51 rd 0 0 rs 32) src a)
  else if (mnem =? "seqz") && (n =? 2)%nat then
    let rd := parse_reg (op ops 0) in
    let rs := parse_reg (op ops 1) in
    (true, emit_or_reserve first_pass (enc_i 19 rd 3 rs 1) src a)
  else if (mnem =? "snez") && (n =? 2)%nat then
    let rd := parse_reg (op ops 0) in
    let rs := parse_reg (op ops 1) in
    (true, emit_or_reserve first_pass (enc_r 51 rd 3 0 rs 0) src a)
  else if (mnem =? "sltz") && (n =? 2)%nat then
    let rd := parse_reg (op ops 0) in
    let rs := parse_reg (op ops 1) in
    (true, emit_or_reserve first_pass (enc_r 51 rd 2 rs 0 0) src a)
  else if (mnem =? "sgtz") && (n =? 2)%nat then
    let rd := parse_reg (op ops 0) in
    let rs := parse_reg (op ops 1) in
    (true, emit_or_reserve first_pass (enc_r 51 rd 2 0 rs 0) src a)
  else if (mnem =? "li") && (n =? 2)%nat then
    let rd := parse_reg (op ops 0) in
    match parse_imm (op ops 1) with
    | None => (true, error "Invalid immediate" a)
    | Some imm =>
        if (imm >=? -2048)%Z && (imm <? 2048)%Z then
          (true, emit_or_reserve first_pass (enc_i 19 rd 0 0 imm) src a)
        else
          let upper := Z.land (Z.shiftr (s32 (imm + 0x800)) 12) 0xFFFFF in
          let lower := s32 (u32 imm - u32 (Z.shiftl upper 12)) in
          if negb first_pass then
            let a := emit (enc_u 55 rd (s32 (u32 (Z.shiftl upper 12)))) src a in
            (true, if negb (lower =? 0)%Z
                   then emit (enc_i 19 rd 0 rd lower) src a else a)
          else
            let a := reserve a in
            (true, if negb (lower =? 0)%Z then reserve a else a)
    end
  else if (mnem =? "la") && (n =? 2)%nat then
    let rd := parse_reg (op ops 0) in
    let label := trim (op ops 1) in
    if negb first_pass then
      match labels a !! label with
      | None => (true, error ("Unknown label: " +:+ label) a)
      | Some addr =>
          let off := rel addr a in
          let upper := Z.land (Z.shiftr (s32 (off + 0x800)) 12) 0xFFFFF in
          let lower := s32 (u32 off - u32 (Z.shiftl upper 12)) in
          let a := emit (enc_u 23 rd (s32 (u32 (Z.shiftl upper 12)))) src a in
          (true, emit (enc_i 19 rd 0 rd lower) src a)
      end
    else (true, set_text_addr (u32 (text_addr a + 8)) a)
  else if (mnem =? "j") && (n =? 1)%nat then
    if negb first_pass then
      match parse_imm (op ops 0) with
      | Some off => (true, emit (enc_j 111 0 off) src a)
      | None =>
          match labels a !! op ops 0 with
          | Some addr => (true, emit (enc_j 111 0 (rel addr a)) src a)
          | None => (true, error ("Unknown label: " +:+ op ops 0) a)
          end
      end
    else (true, reserve a)
  else if (mnem =? "jr") && (n =? 1)%nat then
    let rs := parse_reg (op ops 0) in
    (true, emit_or_reserve first_pass (enc_i 103 0 0 rs 0) src a)
  else if mnem =? "ret" then
    (true, emit_or_reserve first_pass (enc_i 103 0 0 1 0) src a)
  else if (mnem =? "call") && (n =? 1)%nat then
    (true, jump_label first_pass 1 (op ops 0) src a)
  else if (mnem =? "tail") && (n =? 1)%nat then
    (true, jump_label first_pass 0 (op ops 0) src a)
  else if (mnem =? "beqz") && (n =? 2)%nat then
    let rs := parse_reg (op ops 0) in
    if negb first_pass then
      match parse_imm (op ops 1) with
      | Some off => (true, emit (enc_b 99 0 rs 0 off) src a)
      | None =>
          match labels a !! op ops 1 with
          | Some addr => (true, emit (enc_b 99 0 rs 0 (rel addr a)) src a)
          | None => (true, a)
          end
      end
    else (true, reserve a)
  else if (mnem =? "bnez") && (n =? 2)%nat then
    let rs := parse_reg (op ops 0) in
    (true, branch_label first_pass 1 rs 0 (op ops 1) src a)
  else if (mnem =? "blez") && (n =? 2)%nat then
    let rs := parse_reg (op ops 0) in
    (true, branch_label first_pass 5 0 rs (op ops 1) src a)
  else if (mnem =? "bgez") && (n =? 2)%nat then
    let rs := parse_reg (op ops 0) in
    (true, branch_label first_pass 5 rs 0 (op ops 1) src a)
  else if (mnem =? "bltz") && (n =? 2)%nat then
    let rs := parse_reg (op ops 0) in
    (true, branch_label first_pass 4 rs 0 (op ops 1) src a)
  else if (mnem =? "bgtz") && (n =? 2)%nat then
    let rs := parse_reg (op ops 0) in
    (true, branch_label first_pass 4 0 rs (op ops 1) src a)
  else if (mnem =? "bgt") && (n =? 3)%nat then
    let rs := parse_reg (op ops 0) in
    let rt := parse_reg (op ops 1) in
    (true, branch_label first_pass 4 rt rs (op ops 2) src a)
  else if (mnem =? "ble") && (n =? 3)%nat then
    let rs := parse_reg (op ops 0) in
    let rt := parse_reg (op ops 1) in
    (true, branch_label first_pass 5 rt rs (op ops 2) src a)
  else if (mnem =? "bgtu") && (n =? 3)%nat then
    let rs := parse_reg (op ops 0) in
    let rt := parse_reg (op ops 1) in
    (true, branch_label first_pass 6 rt rs (op ops 2) src a)
  else if (mnem =? "bleu") && (n =? 3)%nat then
    let rs := parse_reg (op ops 0) in
    let rt := parse_reg (op ops 1) in
    (true, branch_label first_pass 7 rt rs (op ops 2) src a)
  else (false, a).

(** *** Real instructions *)

(** mnemonic, (funct3, funct7) *)
Definition r_ops : list (string * (Z * Z)) :=
  [("add",(0,0)); ("sub",(0,32));
   ("sll",(1,0)); ("slt",(2,0));
   ("sltu",(3,0)); ("xor",(4,0));
   ("srl",(5,0)); ("sra",(5,32));
   ("or",(6,0)); ("and",(7,0));
   ("mul",(0,1)); ("mulh",(1,1));
   ("mulhsu",(2,1)); ("mulhu",(3,1));
   ("div",(4,1)); ("divu",(5,1));
   ("rem",(6,1)); ("remu",(7,1))]%Z.

Definition i_arith : list (string * Z) :=
  [("addi",0); ("slti",2); ("sltiu",3); ("xori",4); ("ori",6); ("andi",7)]%Z.

Definition loads : list (string * Z) :=
  [("lb",0); ("lh",1); ("lw",2); ("lbu",4); ("lhu",5)]%Z.

Definition stores : list (string * Z) :=
  [("sb",0); ("sh",1); ("sw",2)]%Z.

Definition branches : list (string * Z) :=
  [("beq",0); ("bne",1); ("blt",4); ("bge",5); ("bltu",6); ("bgeu",7)]%Z.

(** [m.find(key)] on one of the tables above. *)
Definition lookup {A} (key : string) (m : list (string * A)) : option A :=
  option_map snd (List.find (fun e => fst e =? key) m).

Section Uninitialised.

(** What a local [int] or [SignedWord] holds when it is read without
    having been assigned (an operand that fails to parse leaves it so). *)
Variable indet : Z.

(** Each table is consulted together with the operand count, as in
    [it != m.end() && ops.size() == k]. *)
Definition handle_instruction (mnem : string) (ops : list string)
    (src : string) (first_pass : bool) (a : t) : t :=
  let n := List.length ops in
  match (if (n =? 3)%nat then lookup mnem r_ops else None) with
  | Some (f3, f7) =>
      let rd := parse_reg (op ops 0) in
      let rs1 := parse_reg (op ops 1) in
      let rs2 := parse_reg (op ops 2) in
      emit_or_reserve first_pass (enc_r 51 rd f3 rs1 rs2 f7) src a
  | None =>
  match (if (n =? 3)%nat then lookup mnem i_arith else None) with
  | Some f3 =>
      let rd := parse_reg (op ops 0) in
      let rs1 := parse_reg (op ops 1) in
      let imm := default indet (parse_imm (op ops 2)) in
      emit_or_reserve first_pass (enc_i 19 rd f3 rs1 imm) src a
  | None =>
  if ((mnem =? "slli") || (mnem =? "srli") || (mnem =? "srai"))
     && (n =? 3)%nat then
    let rd := parse_reg (op ops 0) in
    let rs1 := parse_reg (op ops 1) in
    let shamt := default indet (parse_imm (op ops 2)) in
    let f3 := if mnem =? "slli" then 1 else 5 in
    let f7 := if mnem =? "srai" then 32 else 0 in
    let ins :=
      u32 (Z.lor (Z.lor (Z.lor (Z.lor (Z.lor
        (shl f7 25) (shl (Z.land shamt 0x1F) 20)) (shl rs1 15))
        (shl f3 12)) (shl rd 7)) 19) in
    emit_or_reserve first_pass ins src a
  else
  match (if (n =? 2)%nat then lookup mnem loads else None) with
  | Some f3 =>
      let rd := parse_reg (op ops 0) in
      let '(_, off, rs1) := parse_mem (op ops 1) indet indet in
      emit_or_reserve first_pass (enc_i 3 rd f3 rs1 off) src a
  | None =>
  match (if (n =? 2)%nat then lookup mnem stores else None) with
  | Some f3 =>
      let rs2 := parse_reg (op ops 0) in
      let '(_, off, rs1) := parse_mem (op ops 1) indet indet in
      emit_or_reserve first_pass (enc_s 35 f3 rs1 rs2 off) src a
  | None =>
  match (if (n =? 3)%nat then lookup mnem branches else None) with
  | Some f3 =>
      let rs1 := parse_reg (op ops 0) in
      let rs2 := parse_reg (op ops 1) in
      if negb first_pass then
        match parse_imm (op ops 2) with
        | Some off => emit (enc_b 99 f3 rs1 rs2 off) src a
        | None =>
            match labels a !! op ops 2 with
            | Some addr => emit (enc_b 99 f3 rs1 rs2 (rel addr a)) src a
            | None => error ("Unknown label: " +:+ op ops 2) a
            end
        end
      else reserve a
  | None =>
  if mnem =? "jal" then
    let operands :=
      if (n =? 1)%nat then Some (1, op ops 0)
      else if (n =? 2)%nat then Some (parse_reg (op ops 0), op ops 1)
      else None in
    match operands with
    | None => error "Invalid jal format" a
    | Some (rd, target) =>
        if negb first_pass then
          match parse_imm target with
          | Some off => emit (enc_j 111 rd off) src a
          | None =>
              match labels a !! target with
              | Some addr => emit (enc_j 111 rd (rel addr a)) src a
              | None => error ("Unknown label: " +:+ target) a
              end
          end
        else reserve a
    end
  else if mnem =? "jalr" then
    let '(rd, rs1, off) :=
      if (n =? 1)%nat then (1, parse_reg (op ops 0), 0)
      else if (n =? 2)%nat then
        let '(_, off, rs1) := parse_mem (op ops 1) 0 0 in
        (parse_reg (op ops 0), rs1, off)
      else if (n =? 3)%nat then
        (parse_reg (op ops 0), parse_reg (op ops 1),
         default 0 (parse_imm (op ops 2)))
      else (1, 0, 0) in
    emit_or_reserve first_pass (enc_i 103 rd 0 rs1 off) src a
  else if (mnem =? "lui") && (n =? 2)%nat then
    let rd := parse_reg (op ops 0) in
    let imm := default indet (parse_imm (op ops 1)) in
    emit_or_reserve first_pass (enc_u 55 rd (shl imm 12)) src a
  else if (mnem =? "auipc") && (n =? 2)%nat then
    let rd := parse_reg (op ops 0) in
    let imm := default indet (parse_imm (op ops 1)) in
    emit_or_reserve first_pass (enc_u 23 rd (shl imm 12)) src a
  else if mnem =? "ecall" then
    emit_or_reserve first_pass 0x00000073 src a
  else if mnem =? "ebreak" then
    emit_or_reserve first_pass 0x00100073 src a
  else error ("Unknown instruction: " +:+ mnem) a
  end end end end end.

(** *** Process line *)

(** The line without blanks around it and without its comment. *)
Definition strip (orig : string) : string :=
  let line := trim orig in
  match find "#" line with
  | Some hash => trim (substr line 0 hash)
  | None => line
  end.

(** The label in front of the first colon and what follows the colon. *)
Definition label_prefix (line : string) : option (string * string) :=
  match find ":" line with
  | Some colon =>
      Some (trim (substr line 0 colon), trim (substr_from line (colon + 1)))
  | None => None
  end.

(** The mnemonic and the operands of an instruction line. *)
Definition mnemonic_operands (line : string) : string * list string :=
  let '(mnem, rest) :=
    match find_first_of ["032"%char; "009"%char] line with
    | Some sp =>
        (to_lower (trim (substr line 0 sp)), trim (substr_from line sp))
    | None => (to_lower line, EmptyString)
    end in
  (mnem, split rest ",").

Definition process_line (orig : string) (first_pass : bool) (a : t)
  : option t :=
  let line := strip orig in
  if line =? EmptyString then Some a
  else
    let '(line, a) :=
      match label_prefix line with
      | Some (label, rest) =>
          let a :=
            if first_pass then
              set_labels
                (<[label := if in_data a then data_addr a else text_addr a]>
                   (labels a)) a
            else a in
          (rest, a)
      | None => (line, a)
      end in
    match line with
    | EmptyString => Some a
    | String "." _ => handle_directive line first_pass a
    | _ =>
        if negb (in_data a) then
          let '(mnem, ops) := mnemonic_operands line in
          let '(is_pseudo, a') := handle_pseudo mnem ops orig first_pass a in
          if negb is_pseudo
          then Some (handle_instruction mnem ops orig first_pass a)
          else Some a'
        else Some a
    end.

(** *** Main assemble *)

Record Result := mkResult {
  success : bool;
  text : list Z;
  data : list Z;
  res_text_addr : Z;
  res_data_addr : Z;
  symbols : gmap string Z;
  res_source_map : gmap Z string;
  res_errors : list string
}.

(** One sweep: [for (l : lines) { line_num++; process_line(l, pass); }] *)
Fixpoint sweep (first_pass : bool) (lines : list string) (a : t)
  : option t :=
  match lines with
  | [] => Some a
  | l :: ls =>
      a <- process_line l first_pass
             (set_line_num (s32 (line_num a + 1)) a) ;;
      sweep first_pass ls a
  end.

(** The settings made before each sweep. *)
Definition rewind (a : t) : t :=
  set_line_num 0
    (set_in_data false
      (set_data_addr Memory.DATA_BASE
        (set_text_addr Memory.TEXT_BASE a))).

(** The state after the [clear()] calls that open [assemble]. *)
Definition fresh : t := mk ∅ [] [] [] ∅ 0 0 false 0.

Definition assemble (source : string) : option Result :=
  let lines := getlines "010" source in
  a <- sweep true lines (rewind fresh) ;;
  a <- sweep false lines (rewind a) ;;
  Some (mkResult (match errors a with [] => true | _ => false end)
          (text_out a) (data_out a) Memory.TEXT_BASE Memory.DATA_BASE
          (labels a) (source_map a) (errors a)).

End Uninitialised.

End Assembler.

(* ===================================================================== *)
(** ** emulator.cpp: program loading                                      *)
(* ===================================================================== *)

Module Emulator.

(** [load_source]: the memory and the register file after a successful
    load; [None] when the function returns [false] (or the assembler
    does not return). *)
Definition load_source (indet : Z) (source : string)
  : option (gmap Z Z * list Z) :=
  res <- Assembler.assemble indet source ;;
  if negb (Assembler.success res) then None
  else
    let mem := Memory.reset in
    let regs := RegisterFile.reset in
    let mem := Memory.write_block mem (Assembler.res_text_addr res)
                 (Assembler.text res) in
    let mem := Memory.write_bytes mem (Assembler.res_data_addr res)
                 (Assembler.data res) in
    regs <- RegisterFile.write regs 2 Memory.STACK_TOP ;;
    Some (mem, regs).

(** The pipeline as the emulator holds it after [load_source]. *)
Definition pipeline (indet : Z) (source : string) : option Pipeline.t :=
  mr <- load_source indet source ;;
  Some (Pipeline.init (fst mr) (snd mr)).

(** The single-cycle executor after [load_source]. *)
Definition cpu (indet : Z) (source : string) : option CPU.t :=
  mr <- load_source indet source ;;
  Some (CPU.init (fst mr) (snd mr)).

End Emulator.

(* ===================================================================== *)
(** * Properties                                                          *)
(* ===================================================================== *)

(* --------------------------------------------------------------------- *)
(** ** Programs and states used in the statements                         *)
(* --------------------------------------------------------------------- *)

Definition nl : string := String "010" EmptyString.

(** Scenario 2 of the specification (load-use hazard). *)
Definition load_use_source : string :=
  ("addi x1,x0,0x100" +:+ nl +:+ "sw x0,0(x1)" +:+ nl +:+ "lw x2,0(x1)" +:+ nl
   +:+ "addi x3,x2,1")%string.

(** Scenario 3 of the specification (taken branch). *)
Definition branch_source : string :=
  ("addi x1,x0,1" +:+ nl +:+ "addi x2,x0,2" +:+ nl +:+ "beq x1,x1,skip" +:+ nl
   +:+ "addi x2,x0,99" +:+ nl +:+ "skip: addi x3,x2,0")%string.

(** A halting program with a read two instructions after the write. *)
Definition raw_dependency_source : string :=
  ("addi x1,x0,5" +:+ nl +:+ "nop" +:+ nl +:+ "addi x2,x1,0" +:+ nl
   +:+ "ecall")%string.

(** A program that jumps to a data word which decodes to [UNKNOWN]: the
    word has the load opcode and the unassigned funct3 011, with rd = 1,
    rs1 = 0 and immediate 5. *)
Definition unknown_load_source : string :=
  (".data" +:+ nl +:+ ".word 0x00503083" +:+ nl +:+ ".text" +:+ nl
   +:+ "lui x5, 0x10000" +:+ nl +:+ "jr x5")%string.

(** [n] calls of [CPU::step]. *)
Fixpoint cpu_steps (n : nat) (c : CPU.t) : option CPU.t :=
  match n with
  | O => Some c
  | S n => r <- CPU.step c ;; cpu_steps n (snd r)
  end.

(** What [decode] makes of the all-zero word. *)
Definition zero_ins (pc : Z) : Instruction :=
  mkInstruction 0 InsType.UNKNOWN FmtUNKNOWN 0 0 0 0
    false false false false false false false AluOp.NONE pc.

(** A pipeline that has run off the program into zeroed memory: every
    latch holds the all-zero word, both switches are on, no breakpoint is
    set.  [p] and [q] are [pc] and [next_pc]; the other addresses are those
    recorded in the latches. *)
Definition idle (M : gmap Z Z) (R : list Z) (a3 a2 a1 b1 a b p q : Z)
    (c i st fl fw : Z) : Pipeline.t :=
  Pipeline.mk M R
    (IF_ID.mk 0 a b true)
    (ID_EX.mk (zero_ins a1) 0 0 a1 b1 true)
    (EX_MEM.mk (zero_ins a2) 0 0 0 false true)
    (MEM_WB.mk (zero_ins a3) 0 0 true)
    p q true true false false c i st fl fw [].

(** The idle pipeline about to fetch at [p], with memory [M], registers
    [R] and the stall and flush counters at [st] and [fl]. *)
Definition idle_at (M : gmap Z Z) (R : list Z) (st fl : Z) (p : Z)
    (s : Pipeline.t) : Prop :=
  exists a3 a2 a1 b1 a b c i fw,
    s = idle M R a3 a2 a1 b1 a b p (p + 4) c i st fl fw.

(** The stages of a cycle that does not stall, and the bookkeeping that
    ends every cycle. *)
Definition advance (p : Pipeline.t) : option Pipeline.t :=
  match Pipeline.stage_wb p with
  | Some p =>
      match Pipeline.stage_ex (Pipeline.stage_mem p) with
      | Some p =>
          match Pipeline.stage_id p with
          | Some p => Some (Pipeline.stage_if p)
          | None => None
          end
      | None => None
      end
  | None => None
  end.

Definition finish (p : Pipeline.t) : bool * Pipeline.t :=
  let p := Pipeline.set_cycles (u64 (Pipeline.cycles p + 1)) p in
  if Pipeline.has_breakpoint p (Pipeline.pc p) then (false, p)
  else (negb (Pipeline.halted p), p).

(** Memory and registers of the two scenarios once the program has left
    the pipeline. *)
Definition branch_mem : gmap Z Z :=
  Memory.write_block ∅ 0 [1048723; 2097427; 1082467; 103809299; 65939].
Definition branch_regs : list Z := [0; 1; 2; 2] ++ replicate 28 0.

Definition load_use_mem : gmap Z Z :=
  Memory.write_word
    (Memory.write_block ∅ 0 [268435603; 40995; 41219; 1114515]) 0x100 0.
Definition load_use_regs : list Z :=
  [0; 256; 268435603; 2147483633] ++ replicate 28 0.

(** The ten branch pseudo-instructions, each with a label that is
    defined nowhere. *)
Definition silent_label_lines : list string :=
  ["beqz x1, nowhere"; "bnez x1, nowhere"; "blez x1, nowhere";
   "bgez x1, nowhere"; "bltz x1, nowhere"; "bgtz x1, nowhere";
   "bgt x1, x2, nowhere"; "ble x1, x2, nowhere"; "bgtu x1, x2, nowhere";
   "bleu x1, x2, nowhere"]%string.

(* --------------------------------------------------------------------- *)
(** ** Latch contents, stage summaries and reachable states              *)
(* --------------------------------------------------------------------- *)

(** An instruction record as it occurs in a latch: default-constructed or
    produced by the decoder. *)
Definition decoded (i : Instruction) : Prop :=
  i = Instruction_default \/ exists raw pc, i = Decoder.decode raw pc.

(** What the proofs need to know about such a record. *)
Record sane (i : Instruction) : Prop := {
  sane_rd : 0 <= rd i < 32;
  sane_rs1 : 0 <= rs1 i < 32;
  sane_rs2 : 0 <= rs2 i < 32;
  sane_load : mem_read i = true -> jump i = false /\ branch i = false;
  sane_ctrl : jump i = true \/ branch i = true -> mem_write i = false
}.

(** The members of the pipeline that writeback, memory and execute leave to
    the front of the pipeline. *)
Definition same_control (p p' : Pipeline.t) : Prop :=
  Pipeline.hazard_detection p' = Pipeline.hazard_detection p /\
  Pipeline.forwarding p' = Pipeline.forwarding p /\
  Pipeline.stalled p' = Pipeline.stalled p /\
  Pipeline.breakpoints p' = Pipeline.breakpoints p.

(** What one run of the execute stage does to the pipeline: nothing but a
    bubble when ID/EX is empty; otherwise EX/MEM receives the instruction,
    and a taken branch or jump redirects both program counters and
    squashes IF/ID and ID/EX. *)
Definition ex_bubble (p p3 : Pipeline.t) : Prop :=
  ID_EX.valid (Pipeline.id_ex p) = false /\
  Pipeline.ex_mem p3 = EX_MEM.flush /\
  Pipeline.if_id p3 = Pipeline.if_id p /\
  Pipeline.id_ex p3 = Pipeline.id_ex p /\
  Pipeline.pc p3 = Pipeline.pc p /\
  Pipeline.next_pc p3 = Pipeline.next_pc p.

Definition ex_falls_through (p p3 : Pipeline.t) : Prop :=
  ID_EX.valid (Pipeline.id_ex p) = true /\
  EX_MEM.ins (Pipeline.ex_mem p3) = ID_EX.ins (Pipeline.id_ex p) /\
  EX_MEM.valid (Pipeline.ex_mem p3) = true /\
  EX_MEM.branch_taken (Pipeline.ex_mem p3) = false /\
  Pipeline.if_id p3 = Pipeline.if_id p /\
  Pipeline.id_ex p3 = Pipeline.id_ex p /\
  Pipeline.pc p3 = Pipeline.pc p /\
  Pipeline.next_pc p3 = Pipeline.next_pc p.

Definition ex_redirects (p p3 : Pipeline.t) : Prop :=
  ID_EX.valid (Pipeline.id_ex p) = true /\
  EX_MEM.ins (Pipeline.ex_mem p3) = ID_EX.ins (Pipeline.id_ex p) /\
  EX_MEM.valid (Pipeline.ex_mem p3) = true /\
  EX_MEM.branch_taken (Pipeline.ex_mem p3) = true /\
  (jump (ID_EX.ins (Pipeline.id_ex p)) = true \/
   branch (ID_EX.ins (Pipeline.id_ex p)) = true) /\
  Pipeline.pc p3 = EX_MEM.branch_target (Pipeline.ex_mem p3) /\
  Pipeline.next_pc p3 = EX_MEM.branch_target (Pipeline.ex_mem p3) /\
  Pipeline.if_id p3 = IF_ID.flush /\
  Pipeline.id_ex p3 = ID_EX.flush /\
  Pipeline.flushes p3 = u64 (Pipeline.flushes p + 2).

(** The stages of a cycle that stalls. *)
Definition hold (p : Pipeline.t) : option Pipeline.t :=
  match Pipeline.stage_wb p with
  | Some p =>
      match Pipeline.stage_ex (Pipeline.stage_mem p) with
      | Some p => Some (Pipeline.set_id_ex ID_EX.flush p)
      | None => None
      end
  | None => None
  end.

(** Every latch holds a default-constructed or a decoded instruction. *)
Definition wf (p : Pipeline.t) : Prop :=
  decoded (ID_EX.ins (Pipeline.id_ex p)) /\
  decoded (EX_MEM.ins (Pipeline.ex_mem p)) /\
  decoded (MEM_WB.ins (Pipeline.mem_wb p)).

(** The states of a pipeline in use: constructed over some memory and
    register file, then driven through its public interface, the memory
    and the registers being open to the loader and to the other executor
    between cycles. *)
Inductive reachable : Pipeline.t -> Prop :=
| reach_init m r : reachable (Pipeline.init m r)
| reach_cycle p b p' :
    reachable p -> Pipeline.cycle p = Some (b, p') -> reachable p'
| reach_reset p : reachable p -> reachable (Pipeline.reset p)
| reach_set_pc p addr : reachable p -> reachable (Pipeline.set_pc_cmd addr p)
| reach_hazard p v :
    reachable p -> reachable (Pipeline.set_hazard_detection v p)
| reach_forwarding p v :
    reachable p -> reachable (Pipeline.set_forwarding v p)
| reach_add_breakpoint p addr :
    reachable p -> reachable (Pipeline.add_breakpoint addr p)
| reach_clear_breakpoints p :
    reachable p -> reachable (Pipeline.clear_breakpoints p)
| reach_shared p m r :
    reachable p -> reachable (Pipeline.set_mem m (Pipeline.set_regs r p)).

(** The test of [get_forward_a] / [get_forward_b] against EX/MEM for the
    source register [rs]. *)
Definition ex_mem_hit (p : Pipeline.t) (rs : Z) : bool :=
  EX_MEM.valid (Pipeline.ex_mem p)
  && reg_write (EX_MEM.ins (Pipeline.ex_mem p))
  && (rd (EX_MEM.ins (Pipeline.ex_mem p)) =? rs).

Definition mem_wb_hit (p : Pipeline.t) (rs : Z) : bool :=
  MEM_WB.valid (Pipeline.mem_wb p)
  && reg_write (MEM_WB.ins (Pipeline.mem_wb p))
  && (rd (MEM_WB.ins (Pipeline.mem_wb p)) =? rs).

(** The pipeline four cycles into the branch program ([beq] in ID/EX) and
    three cycles into the program with the read-after-write dependency. *)
Definition branch_state : Pipeline.t :=
  Pipeline.mk branch_mem ([0; 0; 2147483632] ++ replicate 29 0)
    (IF_ID.mk 103809299 12 16 true)
    (ID_EX.mk (Decoder.decode 1082467 8) 0 0 8 12 true)
    (EX_MEM.mk (Decoder.decode 2097427 4) 2 2147483632 0 false true)
    (MEM_WB.mk (Decoder.decode 1048723 0) 1 0 true)
    16 20 true true false false 4 1 0 0 0 [].

Definition raw_dependency_state : Pipeline.t :=
  Pipeline.mk (Memory.write_block ∅ 0 [5243027; 19; 33043; 115])
    ([0; 0; 2147483632] ++ replicate 29 0)
    (IF_ID.mk 33043 8 12 true)
    (ID_EX.mk (Decoder.decode 19 4) 0 0 4 8 true)
    (EX_MEM.mk (Decoder.decode 5243027 0) 5 0 0 false true)
    MEM_WB.flush 12 16 true true false false 3 0 0 0 0 [].

(* --------------------------------------------------------------------- *)
(** ** The two passes of the assembler compared                           *)
(* --------------------------------------------------------------------- *)

(** The cursors and the section flag of the two passes agree. *)
Definition synced (a1 a2 : Assembler.t) : Prop :=
  Assembler.text_addr a1 = Assembler.text_addr a2 /\
  Assembler.data_addr a1 = Assembler.data_addr a2 /\
  Assembler.in_data a1 = Assembler.in_data a2.

(** The text cursor after [k] words. *)
Definition bump (k : nat) (x : Z) : Z := Nat.iter k (fun x => u32 (x + 4)) x.

(** From [a] to [a'] the second pass has emitted [k] words and left the
    symbol table alone. *)
Definition emitted (k : nat) (a a' : Assembler.t) : Prop :=
  Assembler.labels a' = Assembler.labels a /\
  List.length (Assembler.text_out a') =
    (List.length (Assembler.text_out a) + k)%nat /\
  Assembler.text_addr a' = bump k (Assembler.text_addr a).

(** Every label the second pass looks up for the instruction [mnem ops] is
    in the symbol table [tbl].  An operand that parses as a number is not
    looked up, except by [bnez], [blez], [bgez], [bltz], [bgtz], [bgt],
    [ble], [bgtu] and [bleu], which look it up whatever it is. *)
Definition known (tbl : gmap string Z) (l : string) : bool :=
  bool_decide (is_Some (tbl !! l)).

Definition known_or_number (tbl : gmap string Z) (l : string) : bool :=
  match Assembler.parse_imm l with Some _ => true | None => known tbl l end.

(** The conditional branches and [jal]. *)
Definition resolved_real (tbl : gmap string Z) (mnem : string)
    (ops : list string) : bool :=
  let n := List.length ops in
  match (if (n =? 3)%nat then Assembler.lookup mnem Assembler.branches
         else None) with
  | Some _ => known_or_number tbl (Assembler.op ops 2)
  | None =>
      if (mnem =? "jal")%string then
        if (n =? 1)%nat then known_or_number tbl (Assembler.op ops 0)
        else if (n =? 2)%nat then known_or_number tbl (Assembler.op ops 1)
        else true
      else true
  end.

(** The pseudo-instructions with a label, then the real ones. *)
Definition resolved (tbl : gmap string Z) (mnem : string) (ops : list string)
  : bool :=
  let n := List.length ops in
  if (mnem =? "la")%string && (n =? 2)%nat then
    known tbl (Assembler.trim (Assembler.op ops 1))
  else if (mnem =? "j")%string && (n =? 1)%nat then
    known_or_number tbl (Assembler.op ops 0)
  else if (mnem =? "call")%string && (n =? 1)%nat then
    known tbl (Assembler.op ops 0)
  else if (mnem =? "tail")%string && (n =? 1)%nat then
    known tbl (Assembler.op ops 0)
  else if (mnem =? "beqz")%string && (n =? 2)%nat then
    known_or_number tbl (Assembler.op ops 1)
  else if (mnem =? "bnez")%string && (n =? 2)%nat then
    known tbl (Assembler.op ops 1)
  else if (mnem =? "blez")%string && (n =? 2)%nat then
    known tbl (Assembler.op ops 1)
  else if (mnem =? "bgez")%string && (n =? 2)%nat then
    known tbl (Assembler.op ops 1)
  else if (mnem =? "bltz")%string && (n =? 2)%nat then
    known tbl (Assembler.op ops 1)
  else if (mnem =? "bgtz")%string && (n =? 2)%nat then
    known tbl (Assembler.op ops 1)
  else if (mnem =? "bgt")%string && (n =? 3)%nat then
    known tbl (Assembler.op ops 2)
  else if (mnem =? "ble")%string && (n =? 3)%nat then
    known tbl (Assembler.op ops 2)
  else if (mnem =? "bgtu")%string && (n =? 3)%nat then
    known tbl (Assembler.op ops 2)
  else if (mnem =? "bleu")%string && (n =? 3)%nat then
    known tbl (Assembler.op ops 2)
  else resolved_real tbl mnem ops.

(** What the comparison of the two passes on a pseudo-instruction comes
    to: the same answer, the passes in step if it is one, and the labels of
    the real instruction resolved if it is not. *)
Definition pseudo_ok (tbl : gmap string Z) (mnem : string)
    (ops : list string) (a2 : Assembler.t)
    (r1 r2 : bool * Assembler.t) : Prop :=
  fst r1 = fst r2 /\
  (fst r1 = true ->
   synced (snd r1) (snd r2) /\ exists k, emitted k a2 (snd r2)) /\
  (fst r1 = false -> resolved_real tbl mnem ops = true).

(** The same for a source line: its instruction, if it has one, is
    resolved. *)
Definition line_resolved (tbl : gmap string Z) (orig : string) : bool :=
  let line := Assembler.strip orig in
  if (line =? EmptyString)%string then true
  else
    let rest :=
      match Assembler.label_prefix line with
      | Some (_, rest) => rest
      | None => line
      end in
    match rest with
    | EmptyString => true
    | String "." _ => true
    | _ =>
        let '(mnem, ops) := Assembler.mnemonic_operands rest in
        resolved tbl mnem ops
    end.

(** The two passes in step after an instruction. *)
Definition real_ok (a2 b1 b2 : Assembler.t) : Prop :=
  synced b1 b2 /\ exists k, emitted k a2 b2.

(** The first pass emits nothing. *)
Definition kept (a b : Assembler.t) : Prop :=
  Assembler.text_out b = Assembler.text_out a.

(** A program with labels, pseudo-instructions and an alignment. *)
Definition lockstep_lines : list string :=
  ["start: li x1, 100000"; "la x2, start"; "loop: addi x1, x1, -1";
   "bnez x1, loop"; ".align 4"; "beq x1, x2, 8"; "call start";
   "j start"]%string.




(* --------------------------------------------------------------------- *)
(** ** Tables and summaries used in the further properties               *)
(* --------------------------------------------------------------------- *)

(** The instruction kind and the ALU operation that each mnemonic of the
    assembler's tables names. *)
Definition r_kinds : list (string * (InsType.t * AluOp.t)) :=
  [("add", (InsType.ADD, AluOp.ADD)); ("sub", (InsType.SUB, AluOp.SUB));
   ("sll", (InsType.SLL, AluOp.SLL)); ("slt", (InsType.SLT, AluOp.SLT));
   ("sltu", (InsType.SLTU, AluOp.SLTU)); ("xor", (InsType.XOR, AluOp.XOR));
   ("srl", (InsType.SRL, AluOp.SRL)); ("sra", (InsType.SRA, AluOp.SRA));
   ("or", (InsType.OR, AluOp.OR)); ("and", (InsType.AND, AluOp.AND));
   ("mul", (InsType.MUL, AluOp.MUL)); ("mulh", (InsType.MULH, AluOp.MULH));
   ("mulhsu", (InsType.MULHSU, AluOp.MULHSU));
   ("mulhu", (InsType.MULHU, AluOp.MULHU));
   ("div", (InsType.DIV, AluOp.DIV)); ("divu", (InsType.DIVU, AluOp.DIVU));
   ("rem", (InsType.REM, AluOp.REM)); ("remu", (InsType.REMU, AluOp.REMU))]%string.

Definition i_kinds : list (string * (InsType.t * AluOp.t)) :=
  [("addi", (InsType.ADDI, AluOp.ADD)); ("slti", (InsType.SLTI, AluOp.SLT));
   ("sltiu", (InsType.SLTIU, AluOp.SLTU)); ("xori", (InsType.XORI, AluOp.XOR));
   ("ori", (InsType.ORI, AluOp.OR)); ("andi", (InsType.ANDI, AluOp.AND))]%string.

Definition load_kinds : list (string * InsType.t) :=
  [("lb", InsType.LB); ("lh", InsType.LH); ("lw", InsType.LW);
   ("lbu", InsType.LBU); ("lhu", InsType.LHU)]%string.

Definition store_kinds : list (string * InsType.t) :=
  [("sb", InsType.SB); ("sh", InsType.SH); ("sw", InsType.SW)]%string.

Definition branch_kinds : list (string * InsType.t) :=
  [("beq", InsType.BEQ); ("bne", InsType.BNE); ("blt", InsType.BLT);
   ("bge", InsType.BGE); ("bltu", InsType.BLTU); ("bgeu", InsType.BGEU)]%string.

(** A name in upper case, to spell register names the other way. *)
Definition toupper (c : ascii) : ascii :=
  let n := nat_of_ascii c in
  if (97 <=? n)%nat && (n <=? 122)%nat then ascii_of_nat (n - 32) else c.

Fixpoint to_upper (s : string) : string :=
  match s with
  | EmptyString => EmptyString
  | String c s' => String (toupper c) (to_upper s')
  end.

(** The statistics of a pipeline. *)
Definition counters (p : Pipeline.t) : Z * Z * Z * Z * Z :=
  (Pipeline.cycles p, Pipeline.instructions p, Pipeline.stalls p,
   Pipeline.flushes p, Pipeline.forwards p).

(** What [stage_mem] counts as an instruction: a valid EX/MEM latch whose
    record is neither [UNKNOWN] nor a NOP. *)
Definition counted (p : Pipeline.t) : bool :=
  EX_MEM.valid (Pipeline.ex_mem p)
  && negb (InsType.eqb (type (EX_MEM.ins (Pipeline.ex_mem p))) InsType.UNKNOWN)
  && negb (is_nop (EX_MEM.ins (Pipeline.ex_mem p))).

(** What the execute stage counts as a forward for source register [rs]:
    forwarding is on, ID/EX is valid, [rs] is not [x0] and the register
    test against EX/MEM succeeds. *)
Definition forwarded (p : Pipeline.t) (rs : Z) : bool :=
  Pipeline.forwarding p && ID_EX.valid (Pipeline.id_ex p)
  && negb (rs =? 0) && ex_mem_hit p rs.

(** The instruction kind and ALU operation that go with each shift
    mnemonic. *)
Definition shift_kinds : list (string * (InsType.t * AluOp.t)) :=
  [("slli", (InsType.SLLI, AluOp.SLL)); ("srli", (InsType.SRLI, AluOp.SRL));
   ("srai", (InsType.SRAI, AluOp.SRA))]%string.

(** The program image held by an assembler state: the text is made of
    32-bit words and the data of bytes. *)
Definition word32 (w : Z) : Prop := 0 <= w < 2 ^ 32.

Definition byte8 (b : Z) : Prop := 0 <= b < 2 ^ 8.

Definition image_ok (a : Assembler.t) : Prop :=
  List.Forall word32 (Assembler.text_out a) /\
  List.Forall byte8 (Assembler.data_out a).

(* --------------------------------------------------------------------- *)
(** ** Words                                                              *)
(* --------------------------------------------------------------------- *)

Lemma u32_range z : 0 <= u32 z < 2 ^ 32.
Proof. unfold u32. apply Z.mod_pos_bound. lia. Qed.

Lemma u32_small z : 0 <= z < 2 ^ 32 -> u32 z = z.
Proof. intros. unfold u32. apply Z.mod_small. lia. Qed.

Lemma s32_range z : - 2 ^ 31 <= s32 z < 2 ^ 31.
Proof. unfold s32. pose proof (Z.mod_pos_bound (z + 2 ^ 31) (2 ^ 32)). lia. Qed.

Lemma s32_small z : - 2 ^ 31 <= z < 2 ^ 31 -> s32 z = z.
Proof. intros. unfold s32. rewrite Z.mod_small by lia. lia. Qed.

Lemma s32_u32 z : s32 (u32 z) = s32 z.
Proof.
  unfold s32, u32. f_equal.
  rewrite Zplus_mod_idemp_l. reflexivity.
Qed.

Lemma u32_s32 z : u32 (s32 z) = u32 z.
Proof.
  unfold s32, u32.
  rewrite <- Zminus_mod_idemp_l. rewrite Z.mod_mod by lia.
  rewrite Zminus_mod_idemp_l. f_equal. lia.
Qed.

Lemma s32_word z : 0 <= z < 2 ^ 32 ->
  s32 z = if z <? 2 ^ 31 then z else z - 2 ^ 32.
Proof.
  intros. unfold s32. destruct (Z.ltb_spec z (2 ^ 31)).
  - rewrite Z.mod_small by lia. lia.
  - replace (z + 2 ^ 31) with ((z - 2 ^ 31) + 1 * 2 ^ 32) by lia.
    rewrite Z_mod_plus_full. rewrite Z.mod_small by lia. lia.
Qed.


(* --------------------------------------------------------------------- *)
(** ** ALU: division                                                      *)
(* --------------------------------------------------------------------- *)

Lemma quot_bound x y :
  - 2 ^ 31 <= x < 2 ^ 31 -> - 2 ^ 31 <= y < 2 ^ 31 -> y <> 0 ->
  ~ (x = - 2 ^ 31 /\ y = -1) ->
  - 2 ^ 31 <= Z.quot x y < 2 ^ 31.
Proof.
  intros Hx Hy Hy0 Hov.
  Z.to_euclidean_division_equations. nia.
Qed.

Lemma rem_bound x y :
  - 2 ^ 31 <= x < 2 ^ 31 -> - 2 ^ 31 <= y < 2 ^ 31 -> y <> 0 ->
  - 2 ^ 31 <= Z.rem x y < 2 ^ 31.
Proof.
  intros Hx Hy Hy0.
  Z.to_euclidean_division_equations. nia.
Qed.

(** C9.  For all 32-bit operands: DIV and DIVU by zero give 0xFFFFFFFF, REM
    and REMU by zero give the dividend; INT_MIN / -1 gives INT_MIN for DIV
    and 0 for REM; in every other case DIV and REM are the signed quotient
    and remainder (truncated towards zero) and DIVU and REMU the unsigned
    ones; no division reaches an undefined C++ operation. *)
Theorem alu_division_semantics (a b : Z) :
  0 <= a < 2 ^ 32 -> 0 <= b < 2 ^ 32 ->
  (b = 0 ->
     ALU.execute AluOp.DIV a b = Some 0xFFFFFFFF /\
     ALU.execute AluOp.DIVU a b = Some 0xFFFFFFFF /\
     ALU.execute AluOp.REM a b = Some a /\
     ALU.execute AluOp.REMU a b = Some a) /\
  (a = 0x80000000 -> b = 0xFFFFFFFF ->
     ALU.execute AluOp.DIV a b = Some 0x80000000 /\
     ALU.execute AluOp.REM a b = Some 0) /\
  (b <> 0 -> ~ (a = 0x80000000 /\ b = 0xFFFFFFFF) ->
     exists q r,
       ALU.execute AluOp.DIV a b = Some q /\
       ALU.execute AluOp.REM a b = Some r /\
       0 <= q < 2 ^ 32 /\ 0 <= r < 2 ^ 32 /\
       s32 q = Z.quot (s32 a) (s32 b) /\
       s32 r = Z.rem (s32 a) (s32 b)) /\
  (b <> 0 ->
     ALU.execute AluOp.DIVU a b = Some (a / b) /\
     ALU.execute AluOp.REMU a b = Some (a mod b) /\
     0 <= a / b < 2 ^ 32 /\ 0 <= a mod b < 2 ^ 32) /\
  (is_Some (ALU.execute AluOp.DIV a b) /\
   is_Some (ALU.execute AluOp.DIVU a b) /\
   is_Some (ALU.execute AluOp.REM a b) /\
   is_Some (ALU.execute AluOp.REMU a b)).
Proof.
  intros Ha Hb.
  assert (Hsb0 : s32 b = 0 <-> b = 0).
  { rewrite s32_word by lia. destruct (Z.ltb_spec b (2 ^ 31)); lia. }
  assert (Hsa : s32 a = INT_MIN <-> a = 0x80000000).
  { unfold INT_MIN. rewrite s32_word by lia.
    destruct (Z.ltb_spec a (2 ^ 31)); lia. }
  assert (Hsb : s32 b = -1 <-> b = 0xFFFFFFFF).
  { rewrite s32_word by lia. destruct (Z.ltb_spec b (2 ^ 31)); lia. }
  assert (Hzero : b = 0 ->
     ALU.execute AluOp.DIV a b = Some 0xFFFFFFFF /\
     ALU.execute AluOp.DIVU a b = Some 0xFFFFFFFF /\
     ALU.execute AluOp.REM a b = Some a /\
     ALU.execute AluOp.REMU a b = Some a).
  { intros ->. cbn [ALU.execute].
    replace (s32 0) with 0 by reflexivity. cbn [Z.eqb].
    rewrite u32_s32, u32_small by lia. auto. }
  assert (Hover : a = 0x80000000 -> b = 0xFFFFFFFF ->
     ALU.execute AluOp.DIV a b = Some 0x80000000 /\
     ALU.execute AluOp.REM a b = Some 0).
  { intros -> ->. split; reflexivity. }
  assert (Hsigned : b <> 0 -> ~ (a = 0x80000000 /\ b = 0xFFFFFFFF) ->
     exists q r,
       ALU.execute AluOp.DIV a b = Some q /\
       ALU.execute AluOp.REM a b = Some r /\
       0 <= q < 2 ^ 32 /\ 0 <= r < 2 ^ 32 /\
       s32 q = Z.quot (s32 a) (s32 b) /\
       s32 r = Z.rem (s32 a) (s32 b)).
  { intros Hb0 Hnov.
    assert (Hsb0' : s32 b <> 0) by (rewrite Hsb0; exact Hb0).
    assert (Hg : (s32 a =? INT_MIN) && (s32 b =? -1) = false).
    { apply andb_false_iff.
      destruct (Z.eqb_spec (s32 a) INT_MIN) as [E1|]; [|auto].
      destruct (Z.eqb_spec (s32 b) (-1)) as [E2|]; [|auto].
      exfalso. apply Hnov. split; [apply Hsa, E1 | apply Hsb, E2]. }
    assert (Hnov' : ~ (s32 a = - 2 ^ 31 /\ s32 b = -1)).
    { intros [E1 E2]. apply Hnov. split; [apply Hsa, E1 | apply Hsb, E2]. }
    pose proof (s32_range a) as Ra. pose proof (s32_range b) as Rb.
    pose proof (quot_bound _ _ Ra Rb Hsb0' Hnov') as Hq.
    pose proof (rem_bound _ _ Ra Rb Hsb0') as Hr.
    exists (u32 (Z.quot (s32 a) (s32 b))), (u32 (Z.rem (s32 a) (s32 b))).
    cbn [ALU.execute]. unfold ALU.int_div, ALU.int_rem.
    apply Z.eqb_neq in Hsb0'. rewrite Hsb0', Hg.
    repeat split; try apply u32_range.
    - rewrite s32_u32. apply s32_small, Hq.
    - rewrite s32_u32. apply s32_small, Hr. }
  assert (Hunsigned : b <> 0 ->
     ALU.execute AluOp.DIVU a b = Some (a / b) /\
     ALU.execute AluOp.REMU a b = Some (a mod b) /\
     0 <= a / b < 2 ^ 32 /\ 0 <= a mod b < 2 ^ 32).
  { intros Hb0. cbn [ALU.execute]. unfold ALU.uint_div, ALU.uint_rem.
    apply Z.eqb_neq in Hb0 as Hb0'. rewrite Hb0'.
    split; [reflexivity | split; [reflexivity |]].
    split; Z.to_euclidean_division_equations; nia. }
  repeat apply conj; try assumption.
  all: destruct (Z.eq_dec b 0) as [E|E];
    [ destruct (Hzero E) as (H1 & H2 & H3 & H4); eauto |].
  all: try (destruct (Hunsigned E) as (H1 & H2 & _); eauto; fail).
  all: destruct (Z.eq_dec a 0x80000000) as [Ea|Ea];
       [ destruct (Z.eq_dec b 0xFFFFFFFF) as [Eb|Eb];
         [ destruct (Hover Ea Eb) as (H1 & H2); eauto |] |].
  all: edestruct Hsigned as (q & r & H1 & H2 & _); [exact E | lia | eauto].
Qed.

Lemma alu_division_semantics_witness :
  0 <= 10 < 2 ^ 32 /\ 0 <= 0 < 2 ^ 32 /\
  ALU.execute AluOp.DIV 10 0 = Some 0xFFFFFFFF.
Proof.
  assert (Ha : 0 <= 10 < 2 ^ 32) by lia.
  assert (Hb : 0 <= 0 < 2 ^ 32) by lia.
  split; [exact Ha | split; [exact Hb |]].
  destruct (alu_division_semantics 10 0 Ha Hb) as [Hz _].
  apply Hz. reflexivity.
Defined.

(* --------------------------------------------------------------------- *)
(** ** Immediate fields: encoder against decoder                          *)
(* --------------------------------------------------------------------- *)

(** Bit-level facts, turned into arithmetic. *)
Lemma lor_disjoint_add a b k :
  0 <= k -> a mod 2 ^ k = 0 -> 0 <= b < 2 ^ k -> Z.lor a b = a + b.
Proof.
  intros Hk Ha Hb.
  assert (Hland : Z.land a b = 0).
  { apply Z.bits_inj'. intros n Hn. rewrite Z.land_spec, Z.bits_0.
    destruct (Z.lt_ge_cases n k).
    - rewrite <- (Z.mod_pow2_bits_low a k n) by lia. rewrite Ha, Z.bits_0.
      reflexivity.
    - rewrite <- (Z.mod_small b (2 ^ k)) by lia.
      rewrite Z.mod_pow2_bits_high by lia. apply andb_false_r. }
  rewrite <- Z.lxor_lor by exact Hland.
  symmetry. apply Z.add_nocarry_lxor. exact Hland.
Qed.

Lemma land_shifted_ones x w k :
  0 <= w -> 0 <= k ->
  Z.land x (Z.shiftl (Z.ones w) k) = (x / 2 ^ k) mod 2 ^ w * 2 ^ k.
Proof.
  intros Hw Hk.
  rewrite <- Z.shiftl_mul_pow2, <- Z.land_ones, <- Z.shiftr_div_pow2 by lia.
  apply Z.bits_inj'. intros n Hn.
  rewrite Z.land_spec, !Z.shiftl_spec by lia.
  destruct (Z.lt_ge_cases n k).
  - rewrite !(Z.testbit_neg_r _ (n - k)) by lia. apply andb_false_r.
  - rewrite Z.land_spec, Z.shiftr_spec by lia.
    replace (n - k + k) with n by lia. reflexivity.
Qed.

Ltac mask_to_mod :=
  repeat match goal with
  | |- context [Z.land ?x ?m] =>
      let n := eval vm_compute in (Z.log2 (m + 1)) in
      change (Z.land x m) with (Z.land x (Z.ones n));
      rewrite (Z.land_ones x n) by lia
  end.

Ltac arith_side := first [lia | Z.div_mod_to_equations; lia].

Ltac lor_step a b :=
  first [ rewrite (lor_disjoint_add a b 7) by arith_side
        | rewrite (lor_disjoint_add a b 8) by arith_side
        | rewrite (lor_disjoint_add a b 12) by arith_side
        | rewrite (lor_disjoint_add a b 15) by arith_side
        | rewrite (lor_disjoint_add a b 20) by arith_side
        | rewrite (lor_disjoint_add a b 21) by arith_side
        | rewrite (lor_disjoint_add a b 25) by arith_side
        | rewrite (lor_disjoint_add a b 31) by arith_side
        | rewrite (lor_disjoint_add a b 1) by arith_side
        | rewrite (lor_disjoint_add a b 5) by arith_side
        | rewrite (lor_disjoint_add a b 11) by arith_side ].

Ltac lor_to_add :=
  repeat match goal with
  | |- context [Z.lor ?a ?b] =>
      lazymatch a with context [Z.lor _ _] => fail | _ => idtac end;
      lazymatch b with context [Z.lor _ _] => fail | _ => idtac end;
      lor_step a b
  end.

Lemma shl_small x n : 0 <= n -> 0 <= x * 2 ^ n < 2 ^ 31 ->
  Assembler.shl x n = x * 2 ^ n.
Proof.
  intros. unfold Assembler.shl. rewrite Z.shiftl_mul_pow2 by lia.
  rewrite s32_word by lia. destruct (Z.ltb_spec (x * 2 ^ n) (2 ^ 31)); lia.
Qed.

Lemma shl_top x n : 0 <= n -> 0 <= x * 2 ^ n < 2 ^ 32 ->
  Assembler.shl x n = x * 2 ^ n - 2 ^ 32 * (x * 2 ^ n / 2 ^ 31).
Proof.
  intros. unfold Assembler.shl. rewrite Z.shiftl_mul_pow2 by lia.
  rewrite s32_word by lia. destruct (Z.ltb_spec (x * 2 ^ n) (2 ^ 31)).
  - rewrite Z.div_small by lia. lia.
  - replace (x * 2 ^ n / 2 ^ 31) with 1; [lia|].
    Z.div_mod_to_equations; lia.
Qed.

Lemma bits_arith raw hi lo :
  0 <= lo <= hi -> hi - lo + 1 < 32 ->
  Decoder.bits raw hi lo = (raw / 2 ^ lo) mod 2 ^ (hi - lo + 1).
Proof.
  intros. unfold Decoder.bits.
  rewrite Z.shiftl_mul_pow2, Z.mul_1_l by lia.
  assert (0 < 2 ^ (hi - lo + 1) < 2 ^ 32).
  { split; [apply Z.pow_pos_nonneg; lia | apply Z.pow_lt_mono_r; lia]. }
  rewrite (u32_small (2 ^ _)) by lia. rewrite u32_small by lia.
  replace (2 ^ (hi - lo + 1) - 1) with (Z.ones (hi - lo + 1)) by (rewrite Z.ones_equiv; lia).
  rewrite Z.land_ones by lia. rewrite Z.shiftr_div_pow2 by lia. reflexivity.
Qed.

Lemma sign_extend_arith v n :
  0 < n < 32 -> 0 <= v < 2 ^ n ->
  sign_extend v n = if v <? 2 ^ (n - 1) then v else v - 2 ^ n.
Proof.
  intros Hn Hv. unfold sign_extend.
  assert (Hp : 0 < 2 ^ (n - 1) /\ 2 * 2 ^ (n - 1) = 2 ^ n /\ 2 ^ n <= 2 ^ 31).
  { repeat split; [apply Z.pow_pos_nonneg; lia | | apply Z.pow_le_mono_r; lia].
    rewrite <- Z.pow_succ_r by lia. f_equal. lia. }
  rewrite !Z.shiftl_mul_pow2, !Z.mul_1_l by lia.
  rewrite (u32_small (2 ^ (n - 1))) by lia.
  rewrite (u32_small (2 ^ n)) by lia.
  rewrite (u32_small (2 ^ n - 1)) by lia.
  replace (2 ^ (n - 1)) with (Z.shiftl (Z.ones 1) (n - 1)) at 1
    by (rewrite Z.shiftl_mul_pow2 by lia; change (Z.ones 1) with 1; lia).
  rewrite land_shifted_ones by lia.
  assert (Hbit : v / 2 ^ (n - 1) = if v <? 2 ^ (n - 1) then 0 else 1).
  { destruct (Z.ltb_spec v (2 ^ (n - 1))).
    - apply Z.div_small. lia.
    - symmetry. apply Z.div_unique with (r := v - 2 ^ (n - 1)); lia. }
  rewrite Hbit.
  destruct (Z.ltb_spec v (2 ^ (n - 1))).
  - change (0 mod 2 ^ 1) with 0. rewrite Z.mul_0_l. cbn [Z.eqb negb].
    rewrite s32_word by lia. destruct (Z.ltb_spec v (2 ^ 31)); lia.
  - change (1 mod 2 ^ 1) with 1. rewrite Z.mul_1_l.
    destruct (Z.eqb_spec (2 ^ (n - 1)) 0); [lia|]. cbn [negb].
    assert (Hmask : u32 (Z.lnot (2 ^ n - 1)) = 2 ^ 32 - 2 ^ n).
    { unfold Z.lnot, u32.
      replace (Z.pred (- (2 ^ n - 1))) with ((2 ^ 32 - 2 ^ n) + (-1) * 2 ^ 32) by lia.
      rewrite Z_mod_plus_full. apply Z.mod_small. lia. }
    rewrite Hmask. rewrite Z.lor_comm.
    rewrite (lor_disjoint_add _ _ n); try lia.
    + rewrite s32_word by lia.
      destruct (Z.ltb_spec (2 ^ 32 - 2 ^ n + v) (2 ^ 31)); lia.
    + replace (2 ^ 32) with (2 ^ (32 - n) * 2 ^ n)
        by (rewrite <- Z.pow_add_r by lia; f_equal; lia).
      replace (2 ^ (32 - n) * 2 ^ n - 2 ^ n) with ((2 ^ (32 - n) - 1) * 2 ^ n) by lia.
      apply Z.mod_mul. lia.
Qed.

Lemma enc_i_value op rd f3 rs1 imm :
  0 <= op < 128 -> 0 <= rd < 32 -> 0 <= f3 < 8 -> 0 <= rs1 < 32 ->
  Assembler.enc_i op rd f3 rs1 imm =
  imm mod 2 ^ 12 * 2 ^ 20 + rs1 * 2 ^ 15 + f3 * 2 ^ 12 + rd * 2 ^ 7 + op.
Proof.
  intros. unfold Assembler.enc_i. mask_to_mod.
  pose proof (Z.mod_pos_bound imm (2 ^ 12) ltac:(lia)).
  rewrite (shl_top _ 20), !shl_small by lia.
  lor_to_add. unfold u32. Z.div_mod_to_equations. lia.
Qed.

Lemma imm_i_roundtrip op rd f3 rs1 imm :
  0 <= op < 128 -> 0 <= rd < 32 -> 0 <= f3 < 8 -> 0 <= rs1 < 32 ->
  - 2048 <= imm < 2048 ->
  Decoder.imm_i (Assembler.enc_i op rd f3 rs1 imm) = imm.
Proof.
  intros. rewrite enc_i_value by lia. unfold Decoder.imm_i.
  rewrite bits_arith by lia.
  pose proof (Z.mod_pos_bound imm (2 ^ 12) ltac:(lia)).
  replace ((imm mod 2 ^ 12 * 2 ^ 20 + rs1 * 2 ^ 15 + f3 * 2 ^ 12 + rd * 2 ^ 7 + op) / 2 ^ 20)
    with (imm mod 2 ^ 12) by (Z.div_mod_to_equations; lia).
  change (31 - 20 + 1) with 12. rewrite Z.mod_mod by lia.
  rewrite sign_extend_arith by lia.
  destruct (Z.ltb_spec (imm mod 2 ^ 12) (2 ^ (12 - 1))); Z.div_mod_to_equations; lia.
Qed.

Lemma imm_s_roundtrip op f3 rs1 rs2 imm :
  0 <= op < 128 -> 0 <= f3 < 8 -> 0 <= rs1 < 32 -> 0 <= rs2 < 32 ->
  - 2048 <= imm < 2048 ->
  Decoder.imm_s (Assembler.enc_s op f3 rs1 rs2 imm) = imm.
Proof.
  intros. unfold Assembler.enc_s. cbv zeta. mask_to_mod.
  rewrite !Z.shiftr_div_pow2 by lia.
  pose proof (Z.mod_pos_bound (imm / 2 ^ 5) (2 ^ 7) ltac:(lia)).
  pose proof (Z.mod_pos_bound imm (2 ^ 5) ltac:(lia)).
  rewrite (shl_top _ 25), !shl_small by lia.
  lor_to_add.
  set (hi := (imm / 2 ^ 5) mod 2 ^ 7) in *.
  set (lo := imm mod 2 ^ 5) in *.
  assert (Hraw : u32 (hi * 2 ^ 25 - 2 ^ 32 * (hi * 2 ^ 25 / 2 ^ 31) + rs2 * 2 ^ 20 +
                      rs1 * 2 ^ 15 + f3 * 2 ^ 12 + lo * 2 ^ 7 + op)
                 = hi * 2 ^ 25 + rs2 * 2 ^ 20 + rs1 * 2 ^ 15 + f3 * 2 ^ 12 + lo * 2 ^ 7 + op).
  { unfold u32. Z.div_mod_to_equations. lia. }
  rewrite Hraw. unfold Decoder.imm_s.
  rewrite !bits_arith by lia.
  replace ((hi * 2 ^ 25 + rs2 * 2 ^ 20 + rs1 * 2 ^ 15 + f3 * 2 ^ 12 + lo * 2 ^ 7 + op) / 2 ^ 25 mod 2 ^ (31 - 25 + 1))
    with hi by (Z.div_mod_to_equations; lia).
  replace ((hi * 2 ^ 25 + rs2 * 2 ^ 20 + rs1 * 2 ^ 15 + f3 * 2 ^ 12 + lo * 2 ^ 7 + op) / 2 ^ 7 mod 2 ^ (11 - 7 + 1))
    with lo by (Z.div_mod_to_equations; lia).
  rewrite Z.shiftl_mul_pow2 by lia. rewrite u32_small by lia.
  lor_to_add.
  rewrite sign_extend_arith by lia.
  subst hi lo.
  destruct (Z.ltb_spec ((imm / 2 ^ 5) mod 2 ^ 7 * 2 ^ 5 + imm mod 2 ^ 5) (2 ^ (12 - 1)));
    Z.div_mod_to_equations; lia.
Qed.

Lemma imm_b_roundtrip op f3 rs1 rs2 imm :
  0 <= op < 128 -> 0 <= f3 < 8 -> 0 <= rs1 < 32 -> 0 <= rs2 < 32 ->
  - 4096 <= imm < 4096 -> imm mod 2 = 0 ->
  Decoder.imm_b (Assembler.enc_b op f3 rs1 rs2 imm) = imm.
Proof.
  intros Hop Hf3 Hrs1 Hrs2 Himm Heven.
  unfold Assembler.enc_b. cbv zeta. mask_to_mod.
  rewrite !Z.shiftr_div_pow2 by lia.
  pose proof (Z.mod_pos_bound (imm / 2 ^ 12) (2 ^ 1) ltac:(lia)).
  pose proof (Z.mod_pos_bound (imm / 2 ^ 11) (2 ^ 1) ltac:(lia)).
  pose proof (Z.mod_pos_bound (imm / 2 ^ 5) (2 ^ 6) ltac:(lia)).
  pose proof (Z.mod_pos_bound (imm / 2 ^ 1) (2 ^ 4) ltac:(lia)).
  set (b12 := (imm / 2 ^ 12) mod 2 ^ 1) in *.
  set (b11 := (imm / 2 ^ 11) mod 2 ^ 1) in *.
  set (b10_5 := (imm / 2 ^ 5) mod 2 ^ 6) in *.
  set (b4_1 := (imm / 2 ^ 1) mod 2 ^ 4) in *.
  rewrite (shl_top _ 31), !shl_small by lia.
  lor_to_add.
  assert (Hraw : u32 (b12 * 2 ^ 31 - 2 ^ 32 * (b12 * 2 ^ 31 / 2 ^ 31) + b10_5 * 2 ^ 25 +
                      rs2 * 2 ^ 20 + rs1 * 2 ^ 15 + f3 * 2 ^ 12 + b4_1 * 2 ^ 8 +
                      b11 * 2 ^ 7 + op)
                 = b12 * 2 ^ 31 + b10_5 * 2 ^ 25 + rs2 * 2 ^ 20 + rs1 * 2 ^ 15 +
                   f3 * 2 ^ 12 + b4_1 * 2 ^ 8 + b11 * 2 ^ 7 + op).
  { unfold u32. Z.div_mod_to_equations. lia. }
  rewrite Hraw. unfold Decoder.imm_b.
  rewrite !bits_arith by lia.
  set (raw := b12 * 2 ^ 31 + b10_5 * 2 ^ 25 + rs2 * 2 ^ 20 + rs1 * 2 ^ 15 +
              f3 * 2 ^ 12 + b4_1 * 2 ^ 8 + b11 * 2 ^ 7 + op).
  replace (raw / 2 ^ 31 mod 2 ^ (31 - 31 + 1)) with b12
    by (subst raw; Z.div_mod_to_equations; lia).
  replace (raw / 2 ^ 7 mod 2 ^ (7 - 7 + 1)) with b11
    by (subst raw; Z.div_mod_to_equations; lia).
  replace (raw / 2 ^ 25 mod 2 ^ (30 - 25 + 1)) with b10_5
    by (subst raw; Z.div_mod_to_equations; lia).
  replace (raw / 2 ^ 8 mod 2 ^ (11 - 8 + 1)) with b4_1
    by (subst raw; Z.div_mod_to_equations; lia).
  rewrite !Z.shiftl_mul_pow2 by lia. rewrite !u32_small by lia.
  lor_to_add.
  rewrite sign_extend_arith by lia.
  subst b12 b11 b10_5 b4_1.
  match goal with |- context [?x <? ?y] => destruct (Z.ltb_spec x y) end;
    Z.div_mod_to_equations; lia.
Qed.

Lemma land_upper20 x :
  Z.land x 0xFFFFF000 = (x / 2 ^ 12) mod 2 ^ 20 * 2 ^ 12.
Proof.
  change 0xFFFFF000 with (Z.shiftl (Z.ones 20) 12).
  apply land_shifted_ones; lia.
Qed.

Lemma imm_u_roundtrip op rd p :
  0 <= op < 128 -> 0 <= rd < 32 -> - 2 ^ 19 <= p < 2 ^ 19 ->
  Decoder.imm_u (Assembler.enc_u op rd (p * 2 ^ 12)) = p * 2 ^ 12 /\
  Assembler.shl p 12 = p * 2 ^ 12 /\
  Z.shiftr (Decoder.imm_u (Assembler.enc_u op rd (Assembler.shl p 12))) 12 = p.
Proof.
  intros Hop Hrd Hp.
  assert (Hshl : Assembler.shl p 12 = p * 2 ^ 12).
  { unfold Assembler.shl. rewrite Z.shiftl_mul_pow2 by lia.
    unfold s32. Z.div_mod_to_equations. lia. }
  assert (Hrt : Decoder.imm_u (Assembler.enc_u op rd (p * 2 ^ 12)) = p * 2 ^ 12).
  { unfold Assembler.enc_u.
    rewrite shl_small by lia. rewrite (u32_small (rd * 2 ^ 7)), (u32_small op) by lia.
    rewrite land_upper20.
    assert (Hu : (u32 (p * 2 ^ 12) / 2 ^ 12) mod 2 ^ 20 * 2 ^ 12 = u32 (p * 2 ^ 12)).
    { unfold u32. Z.div_mod_to_equations. lia. }
    rewrite Hu.
    pose proof (Z.mod_pos_bound (p * 2 ^ 12) (2 ^ 32) ltac:(lia)) as Hb.
    assert (Hm : u32 (p * 2 ^ 12) mod 2 ^ 12 = 0).
    { unfold u32. Z.div_mod_to_equations. lia. }
    fold (u32 (p * 2 ^ 12)) in Hb.
    set (w := u32 (p * 2 ^ 12)) in *.
    lor_to_add. unfold Decoder.imm_u.
    rewrite land_upper20.
    replace ((w + rd * 2 ^ 7 + op) / 2 ^ 12 mod 2 ^ 20 * 2 ^ 12) with w
      by (Z.div_mod_to_equations; lia).
    subst w. unfold s32, u32. Z.div_mod_to_equations. lia. }
  repeat split; [exact Hrt | exact Hshl |].
  rewrite Hshl, Hrt. rewrite Z.shiftr_div_pow2 by lia.
  apply Z.div_mul. lia.
Qed.

Lemma imm_j_roundtrip op rd imm :
  0 <= op < 128 -> 0 <= rd < 32 ->
  - 2 ^ 20 <= imm < 2 ^ 20 -> imm mod 2 = 0 ->
  Decoder.imm_j (Assembler.enc_j op rd imm) = imm.
Proof.
  intros Hop Hrd Himm Heven.
  unfold Assembler.enc_j. cbv zeta. mask_to_mod.
  rewrite !Z.shiftr_div_pow2 by lia.
  pose proof (Z.mod_pos_bound (imm / 2 ^ 20) (2 ^ 1) ltac:(lia)).
  pose proof (Z.mod_pos_bound (imm / 2 ^ 12) (2 ^ 8) ltac:(lia)).
  pose proof (Z.mod_pos_bound (imm / 2 ^ 11) (2 ^ 1) ltac:(lia)).
  pose proof (Z.mod_pos_bound (imm / 2 ^ 1) (2 ^ 10) ltac:(lia)).
  set (b20 := (imm / 2 ^ 20) mod 2 ^ 1) in *.
  set (b19_12 := (imm / 2 ^ 12) mod 2 ^ 8) in *.
  set (b11 := (imm / 2 ^ 11) mod 2 ^ 1) in *.
  set (b10_1 := (imm / 2 ^ 1) mod 2 ^ 10) in *.
  rewrite (shl_top _ 31), !shl_small by lia.
  lor_to_add.
  assert (Hraw : u32 (b20 * 2 ^ 31 - 2 ^ 32 * (b20 * 2 ^ 31 / 2 ^ 31) + b10_1 * 2 ^ 21 +
                      b11 * 2 ^ 20 + b19_12 * 2 ^ 12 + rd * 2 ^ 7 + op)
                 = b20 * 2 ^ 31 + b10_1 * 2 ^ 21 + b11 * 2 ^ 20 + b19_12 * 2 ^ 12 +
                   rd * 2 ^ 7 + op).
  { unfold u32. Z.div_mod_to_equations. lia. }
  rewrite Hraw. unfold Decoder.imm_j.
  rewrite !bits_arith by lia.
  set (raw := b20 * 2 ^ 31 + b10_1 * 2 ^ 21 + b11 * 2 ^ 20 + b19_12 * 2 ^ 12 +
              rd * 2 ^ 7 + op).
  replace (raw / 2 ^ 31 mod 2 ^ (31 - 31 + 1)) with b20
    by (subst raw; Z.div_mod_to_equations; lia).
  replace (raw / 2 ^ 12 mod 2 ^ (19 - 12 + 1)) with b19_12
    by (subst raw; Z.div_mod_to_equations; lia).
  replace (raw / 2 ^ 20 mod 2 ^ (20 - 20 + 1)) with b11
    by (subst raw; Z.div_mod_to_equations; lia).
  replace (raw / 2 ^ 21 mod 2 ^ (30 - 21 + 1)) with b10_1
    by (subst raw; Z.div_mod_to_equations; lia).
  rewrite !Z.shiftl_mul_pow2 by lia. rewrite !u32_small by lia.
  lor_to_add.
  rewrite sign_extend_arith by lia.
  subst b20 b19_12 b11 b10_1.
  match goal with |- context [?x <? ?y] => destruct (Z.ltb_spec x y) end;
    Z.div_mod_to_equations; lia.
Qed.

(** C8.  For each format and each immediate the format can represent,
    the decoder's reconstruction of the encoder's word is the immediate:
    I and S on 12 signed bits, B on 13 signed bits with bit 0 clear, J on
    21 signed bits with bit 0 clear; for U the immediate is the 20-bit
    payload placed in bits 31..12 (what [lui] and [auipc] pass to [enc_u]),
    and the payload is read back from the upper bits. *)
Theorem immediate_roundtrip (op rd f3 rs1 rs2 imm : Z) :
  0 <= op < 128 -> 0 <= rd < 32 -> 0 <= f3 < 8 ->
  0 <= rs1 < 32 -> 0 <= rs2 < 32 ->
  (- 2 ^ 11 <= imm < 2 ^ 11 ->
     Decoder.imm_i (Assembler.enc_i op rd f3 rs1 imm) = imm) /\
  (- 2 ^ 11 <= imm < 2 ^ 11 ->
     Decoder.imm_s (Assembler.enc_s op f3 rs1 rs2 imm) = imm) /\
  (- 2 ^ 12 <= imm < 2 ^ 12 -> imm mod 2 = 0 ->
     Decoder.imm_b (Assembler.enc_b op f3 rs1 rs2 imm) = imm) /\
  (- 2 ^ 19 <= imm < 2 ^ 19 ->
     Decoder.imm_u (Assembler.enc_u op rd (imm * 2 ^ 12)) = imm * 2 ^ 12 /\
     Assembler.shl imm 12 = imm * 2 ^ 12 /\
     Z.shiftr (Decoder.imm_u (Assembler.enc_u op rd (Assembler.shl imm 12))) 12
       = imm) /\
  (- 2 ^ 20 <= imm < 2 ^ 20 -> imm mod 2 = 0 ->
     Decoder.imm_j (Assembler.enc_j op rd imm) = imm).
Proof.
  intros Hop Hrd Hf3 Hrs1 Hrs2. repeat apply conj.
  - intros. apply imm_i_roundtrip; lia.
  - intros. apply imm_s_roundtrip; lia.
  - intros. apply imm_b_roundtrip; lia.
  - intros. apply imm_u_roundtrip; lia.
  - intros. apply imm_j_roundtrip; lia.
Qed.

Lemma immediate_roundtrip_witness :
  Decoder.imm_b (Assembler.enc_b 99 0 1 2 (-4096)) = -4096.
Proof.
  apply (immediate_roundtrip 99 0 0 1 2 (-4096)); try lia.
  reflexivity.
Defined.


(* --------------------------------------------------------------------- *)
(** ** The pipeline running through zeroed memory                         *)
(* --------------------------------------------------------------------- *)

Lemma decode_zero pc : Decoder.decode 0 pc = zero_ins pc.
Proof. reflexivity. Qed.

Lemma cycle_not_stalled p :
  Pipeline.halted p = false ->
  Pipeline.detect_load_use_hazard p = false ->
  Pipeline.cycle p =
  option_map finish (advance (Pipeline.set_stalled false p)).
Proof.
  intros Hh Hs. unfold Pipeline.cycle. rewrite Hh, Hs.
  unfold advance, finish.
  cbn [Pipeline.stalled Pipeline.set_stalled].
  destruct (Pipeline.stage_wb _) as [p1|]; [|reflexivity].
  destruct (Pipeline.stage_ex _) as [p2|]; [|reflexivity].
  destruct (Pipeline.stage_id _) as [p3|]; [|reflexivity].
  cbn [option_map].
  destruct (Pipeline.has_breakpoint _ _); reflexivity.
Qed.

Section IdleStages.
Variables (M : gmap Z Z) (R : list Z).
Variables (fi : IF_ID.t) (de : ID_EX.t) (em : EX_MEM.t) (mw : MEM_WB.t).
Variables (p q : Z) (hd fw h s : bool) (c i st fl fwd : Z) (bp : list Z).

Lemma detect_zero a1 v1 v2 pc1 n1 :
  Pipeline.detect_load_use_hazard
    (Pipeline.mk M R fi (ID_EX.mk (zero_ins a1) v1 v2 pc1 n1 true) em mw
                 p q hd fw h s c i st fl fwd bp) = false.
Proof. destruct hd; reflexivity. Qed.

Lemma wb_zero a3 x y :
  Pipeline.stage_wb
    (Pipeline.mk M R fi de em (MEM_WB.mk (zero_ins a3) x y true)
                 p q hd fw h s c i st fl fwd bp) =
  Some (Pipeline.mk M R fi de em (MEM_WB.mk (zero_ins a3) x y true)
                 p q hd fw h s c i st fl fwd bp).
Proof. reflexivity. Qed.

Lemma mem_zero a2 ar r2 bt tk :
  Pipeline.stage_mem
    (Pipeline.mk M R fi de (EX_MEM.mk (zero_ins a2) ar r2 bt tk true) mw
                 p q hd fw h s c i st fl fwd bp) =
  Pipeline.mk M R fi de (EX_MEM.mk (zero_ins a2) ar r2 bt tk true)
              (MEM_WB.mk (zero_ins a2) ar 0 true)
              p q hd fw h s c i st fl fwd bp.
Proof. reflexivity. Qed.

Lemma ex_zero a1 v1 v2 pc1 n1 :
  Pipeline.stage_ex
    (Pipeline.mk M R fi (ID_EX.mk (zero_ins a1) v1 v2 pc1 n1 true) em mw
                 p q hd fw h s c i st fl fwd bp) =
  Some (Pipeline.mk M R fi (ID_EX.mk (zero_ins a1) v1 v2 pc1 n1 true)
                 (EX_MEM.mk (zero_ins a1) 0 v2 0 false true) mw
                 p q hd fw h s c i st fl fwd bp).
Proof. destruct fw; reflexivity. Qed.

Lemma id_zero a b :
  Pipeline.stage_id
    (Pipeline.mk M R (IF_ID.mk 0 a b true) de em mw
                 p q hd fw h s c i st fl fwd bp) =
  Some (Pipeline.mk M R (IF_ID.mk 0 a b true)
                 (ID_EX.mk (zero_ins a) 0 0 a b true) em mw
                 p q hd fw h s c i st fl fwd bp).
Proof. reflexivity. Qed.

Lemma if_running :
  Pipeline.stage_if
    (Pipeline.mk M R fi de em mw p q hd fw h false c i st fl fwd bp) =
  Pipeline.mk M R (IF_ID.mk (Memory.read_word M p) p (u32 (p + 4)) true)
              de em mw q (u32 (q + 4)) hd fw h false c i st fl fwd bp.
Proof. reflexivity. Qed.
End IdleStages.

Lemma idle_cycle M R a3 a2 a1 b1 a b p q c i st fl fw :
  Memory.read_word M p = 0 ->
  Pipeline.cycle (idle M R a3 a2 a1 b1 a b p q c i st fl fw) =
  Some (true, idle M R a2 a1 a b p (u32 (p + 4)) q (u32 (q + 4))
                (u64 (c + 1)) i st fl fw).
Proof.
  intros Hm.
  rewrite cycle_not_stalled by (reflexivity || apply detect_zero).
  unfold idle, advance, Pipeline.set_stalled. cbn [Pipeline.mem Pipeline.regs Pipeline.if_id Pipeline.id_ex
       Pipeline.ex_mem Pipeline.mem_wb Pipeline.pc Pipeline.next_pc
       Pipeline.hazard_detection Pipeline.forwarding Pipeline.halted
       Pipeline.stalled Pipeline.cycles Pipeline.instructions
       Pipeline.stalls Pipeline.flushes Pipeline.forwards
       Pipeline.breakpoints].
  rewrite wb_zero, mem_zero, ex_zero, id_zero, if_running, Hm.
  reflexivity.
Qed.

(** Memory that holds only zero bytes from [hi] on reads as zero there. *)
Lemma read_word_above (M : gmap Z Z) hi x :
  map_Forall (fun k v => hi <= k -> v = 0) M ->
  0 <= hi <= x -> x + 3 < 2 ^ 32 ->
  Memory.read_word M x = 0.
Proof.
  intros HM Hx Hb.
  assert (Hbyte : forall y, hi <= y -> Memory.read_byte M y = 0).
  { intros y Hy. unfold Memory.read_byte.
    destruct (M !! y) as [v|] eqn:E; [|reflexivity].
    apply HM in E. auto. }
  unfold Memory.read_word.
  rewrite (u32_small (x + 1)), (u32_small (x + 2)), (u32_small (x + 3)) by lia.
  rewrite !Hbyte by lia. reflexivity.
Qed.

Lemma cycles_n_add n m p :
  Pipeline.cycles_n (n + m) p =
  match Pipeline.cycles_n n p with
  | Some p' => Pipeline.cycles_n m p'
  | None => None
  end.
Proof.
  revert p. induction n as [|n IH]; intros p; cbn [Nat.add Pipeline.cycles_n].
  - reflexivity.
  - destruct (Pipeline.cycle p) as [[b p']|]; [apply IH | reflexivity].
Qed.

Lemma idle_run (M : gmap Z Z) R st fl hi :
  map_Forall (fun k v => hi <= k -> v = 0) M -> 0 <= hi ->
  forall k p s,
    idle_at M R st fl p s -> hi <= p -> p + 4 * Z.of_nat k + 4 < 2 ^ 32 ->
    exists s', Pipeline.cycles_n k s = Some s' /\
               idle_at M R st fl (p + 4 * Z.of_nat k) s'.
Proof.
  intros HM Hhi. induction k as [|k IH]; intros p s Hs Hp Hb.
  - exists s. split; [reflexivity|]. replace (p + 4 * Z.of_nat 0) with p by lia.
    exact Hs.
  - destruct Hs as (a3 & a2 & a1 & b1 & a & b & c & i & fw & ->).
    cbn [Pipeline.cycles_n].
    rewrite idle_cycle by (apply (read_word_above M hi); [exact HM | lia | lia]).
    cbn [snd].
    rewrite (u32_small (p + 4 + 4)) by lia.
    destruct (IH (p + 4) (idle M R a2 a1 a b p (u32 (p + 4)) (p + 4) (p + 4 + 4)
                            (u64 (c + 1)) i st fl fw)) as (s' & Hrun & Hs').
    + repeat eexists.
    + lia.
    + lia.
    + exists s'. split; [exact Hrun|].
      replace (p + 4 * Z.of_nat (S k)) with (p + 4 + 4 * Z.of_nat k) by lia.
      exact Hs'.
Qed.

(* --------------------------------------------------------------------- *)
(** ** Scenarios on the pipeline                                          *)
(* --------------------------------------------------------------------- *)

Lemma idle_observe M R st fl p s :
  idle_at M R st fl p s ->
  Pipeline.regs s = R /\ Pipeline.mem s = M /\
  Pipeline.stalls s = st /\ Pipeline.flushes s = fl /\
  Pipeline.halted s = false.
Proof.
  intros (a3 & a2 & a1 & b1 & a & b & c & i & fw & ->).
  repeat split.
Qed.

(** A run of [n] cycles that reaches an idle pipeline after [n0] of them
    stays idle up to the cycle at which the fetch address would wrap. *)
Lemma run_through_idle (M : gmap Z Z) R st fl hi p0 n0 pc0 s0 n :
  map_Forall (fun k v => hi <= k -> v = 0) M -> 0 <= hi <= pc0 ->
  Pipeline.cycles_n n0 p0 = Some s0 ->
  idle_at M R st fl pc0 s0 ->
  (n0 <= n)%nat ->
  pc0 + 4 * (Z.of_nat n - Z.of_nat n0) + 4 < 2 ^ 32 ->
  exists s, Pipeline.cycles_n n p0 = Some s /\
            idle_at M R st fl (pc0 + 4 * (Z.of_nat n - Z.of_nat n0)) s.
Proof.
  intros HM Hhi Hrun Hidle Hn Hb.
  replace n with (n0 + (n - n0))%nat by lia.
  rewrite cycles_n_add, Hrun.
  destruct (idle_run M R st fl hi HM (proj1 Hhi) (n - n0)%nat pc0 s0 Hidle)
    as (s & Hs & Hat); [lia | lia |].
  exists s. split; [exact Hs|].
  replace (Z.of_nat (n0 + (n - n0)) - Z.of_nat n0) with (Z.of_nat (n - n0)) by lia.
  exact Hat.
Qed.

(** A check that can be run on a given memory. *)
Lemma zero_above_check (M : gmap Z Z) hi :
  forallb (fun kv => (fst kv <? hi) || (snd kv =? 0)) (map_to_list M) = true ->
  map_Forall (fun k v => hi <= k -> v = 0) M.
Proof.
  intros Hc k v Hkv Hk.
  rewrite forallb_forall in Hc.
  specialize (Hc (k, v)). cbn [fst snd] in Hc.
  assert (Hin : In (k, v) (map_to_list M)).
  { apply list_elem_of_In, elem_of_map_to_list, Hkv. }
  apply Hc in Hin. apply orb_true_iff in Hin. destruct Hin as [Hin|Hin]; lia.
Qed.

Lemma branch_mem_zero : map_Forall (fun k v => 20 <= k -> v = 0) branch_mem.
Proof. apply zero_above_check. vm_compute. reflexivity. Qed.

Lemma load_use_mem_zero : map_Forall (fun k v => 16 <= k -> v = 0) load_use_mem.
Proof. apply zero_above_check. vm_compute. reflexivity. Qed.

Lemma branch_reaches_idle indet :
  exists p0 s,
    Emulator.pipeline indet branch_source = Some p0 /\
    Pipeline.cycles_n 12 p0 = Some s /\
    idle_at branch_mem branch_regs 0 2 44 s.
Proof.
  eexists. eexists. split; [vm_compute; reflexivity|].
  split; [vm_compute; reflexivity|].
  exists 28, 32, 36, 40, 40, 44, 12, 5, 0. vm_compute. reflexivity.
Qed.

Lemma load_use_reaches_idle indet :
  exists p0 s,
    Emulator.pipeline indet load_use_source = Some p0 /\
    Pipeline.cycles_n 9 p0 = Some s /\
    idle_at load_use_mem load_use_regs 1 0 32 s.
Proof.
  eexists. eexists. split; [vm_compute; reflexivity|].
  split; [vm_compute; reflexivity|].
  exists 16, 20, 24, 28, 28, 32, 9, 4, 1. vm_compute. reflexivity.
Qed.

(** C10.  The taken-branch program, assembled, loaded and run on the
    pipeline: the [beq] is resolved by EX in cycle 5, which squashes the two
    younger latches and counts two flushes; from cycle 9 on (and as long as
    the fetch address has not wrapped around the address space) x2 holds 2,
    x3 holds 2 and the flush counter is 2. *)
Theorem taken_branch_scenario (indet : Z) (n : nat) :
  (9 <= n)%nat -> Z.of_nat n < 2 ^ 30 ->
  exists p0 p5 p,
    Emulator.pipeline indet branch_source = Some p0 /\
    (* the branch is resolved by EX in cycle 5, which squashes the two
       younger latches *)
    Pipeline.cycles_n 5 p0 = Some p5 /\
    type (EX_MEM.ins (Pipeline.ex_mem p5)) = InsType.BEQ /\
    EX_MEM.branch_taken (Pipeline.ex_mem p5) = true /\
    EX_MEM.branch_target (Pipeline.ex_mem p5) = 16 /\
    ID_EX.valid (Pipeline.id_ex p5) = false /\
    Pipeline.flushes p5 = 2 /\
    (* the state from cycle 9 on *)
    Pipeline.cycles_n n p0 = Some p /\
    RegisterFile.read (Pipeline.regs p) 2 = Some 2 /\
    RegisterFile.read (Pipeline.regs p) 3 = Some 2 /\
    Pipeline.flushes p = 2.
Proof.
  intros Hn Hb.
  destruct (branch_reaches_idle indet) as (p0 & s & Hp0 & Hrun & Hidle).
  assert (Hfive : exists p5, Pipeline.cycles_n 5 p0 = Some p5 /\
    type (EX_MEM.ins (Pipeline.ex_mem p5)) = InsType.BEQ /\
    EX_MEM.branch_taken (Pipeline.ex_mem p5) = true /\
    EX_MEM.branch_target (Pipeline.ex_mem p5) = 16 /\
    ID_EX.valid (Pipeline.id_ex p5) = false /\
    Pipeline.flushes p5 = 2).
  { vm_compute in Hp0. injection Hp0 as <-.
    eexists. split; [vm_compute; reflexivity|]. repeat split. }
  destruct Hfive as (p5 & H5 & Hf).
  assert (Hlate : exists p, Pipeline.cycles_n n p0 = Some p /\
    RegisterFile.read (Pipeline.regs p) 2 = Some 2 /\
    RegisterFile.read (Pipeline.regs p) 3 = Some 2 /\
    Pipeline.flushes p = 2).
  { destruct (le_lt_dec 12 n) as [Hge|Hlt].
    - destruct (run_through_idle branch_mem branch_regs 0 2 20 p0 12 44 s n
                  branch_mem_zero ltac:(lia) Hrun Hidle Hge ltac:(lia))
        as (p & Hp & Hat).
      apply idle_observe in Hat. destruct Hat as (HR & _ & _ & Hfl & _).
      exists p. rewrite HR, Hfl. repeat split; try exact Hp; reflexivity.
    - vm_compute in Hp0. injection Hp0 as <-.
      assert (Hcases : n = 9%nat \/ n = 10%nat \/ n = 11%nat) by lia.
      destruct Hcases as [-> | [-> | ->]];
        (eexists; split; [vm_compute; reflexivity | repeat split]). }
  destruct Hlate as (p & Hp & Hr).
  exists p0, p5, p. tauto.
Qed.

Lemma taken_branch_scenario_witness :
  (9 <= 9)%nat /\ Z.of_nat 9 < 2 ^ 30 /\
  exists p0 p,
    Emulator.pipeline 0 branch_source = Some p0 /\
    Pipeline.cycles_n 9 p0 = Some p /\
    RegisterFile.read (Pipeline.regs p) 3 = Some 2.
Proof.
  assert (H1 : (9 <= 9)%nat) by lia.
  assert (H2 : Z.of_nat 9 < 2 ^ 30) by lia.
  split; [exact H1 | split; [exact H2 |]].
  destruct (taken_branch_scenario 0 9 H1 H2)
    as (p0 & p5 & p & Hp0 & _ & _ & _ & _ & _ & _ & Hp & _ & Hx3 & _).
  exists p0, p. auto.
Defined.

(** C2.  The load-use program, assembled, loaded by the emulator (which
    puts the stack pointer 0x7FFFFFF0 in x2) and run on the pipeline: one
    stall and no flush are counted, but from cycle 9 on x3 holds
    0x7FFFFFF1, not 1, and x2 holds the word at address 0: the [lw] computes
    its address from the stale x1 and the [addi] adds 1 to the stale x2. *)
Theorem load_use_scenario (indet : Z) (n : nat) :
  (9 <= n)%nat -> Z.of_nat n < 2 ^ 30 ->
  exists p0 p,
    Emulator.pipeline indet load_use_source = Some p0 /\
    RegisterFile.read (Pipeline.regs p0) 2 = Some 0x7FFFFFF0 /\
    Pipeline.cycles_n n p0 = Some p /\
    Pipeline.stalls p = 1 /\
    Pipeline.flushes p = 0 /\
    RegisterFile.read (Pipeline.regs p) 2 = Some 0x10000093 /\
    RegisterFile.read (Pipeline.regs p) 3 = Some 0x7FFFFFF1.
Proof.
  intros Hn Hb.
  destruct (load_use_reaches_idle indet) as (p0 & s & Hp0 & Hrun & Hidle).
  destruct (run_through_idle load_use_mem load_use_regs 1 0 16 p0 9 32 s n
              load_use_mem_zero ltac:(lia) Hrun Hidle Hn ltac:(lia))
    as (p & Hp & Hat).
  apply idle_observe in Hat. destruct Hat as (HR & _ & Hst & Hfl & _).
  exists p0, p. rewrite HR, Hst, Hfl.
  repeat split; try assumption; try reflexivity.
  vm_compute in Hp0. injection Hp0 as <-. reflexivity.
Qed.

Lemma load_use_scenario_witness :
  (9 <= 9)%nat /\ Z.of_nat 9 < 2 ^ 30 /\
  exists p0 p,
    Emulator.pipeline 0 load_use_source = Some p0 /\
    Pipeline.cycles_n 9 p0 = Some p /\
    RegisterFile.read (Pipeline.regs p) 3 = Some 0x7FFFFFF1.
Proof.
  assert (H1 : (9 <= 9)%nat) by lia.
  assert (H2 : Z.of_nat 9 < 2 ^ 30) by lia.
  split; [exact H1 | split; [exact H2 |]].
  destruct (load_use_scenario 0 9 H1 H2)
    as (p0 & p & Hp0 & _ & Hp & _ & _ & _ & Hx3).
  exists p0, p. auto.
Defined.

(** C1.  A halting program on which the two executors, started from the
    same memory and registers, with hazard detection and forwarding on, end
    with different register files: the pipeline leaves 0 in x2, the
    single-cycle executor 5. *)
Theorem pipeline_differs_from_single_cycle (indet : Z) :
  exists p0 c0 p c,
    Emulator.pipeline indet raw_dependency_source = Some p0 /\
    Emulator.cpu indet raw_dependency_source = Some c0 /\
    Pipeline.mem p0 = CPU.mem c0 /\ Pipeline.regs p0 = CPU.regs c0 /\
    Pipeline.hazard_detection p0 = true /\ Pipeline.forwarding p0 = true /\
    Pipeline.run 64 p0 = Some p /\ Pipeline.halted p = true /\
    CPU.run 64 c0 = Some c /\ CPU.halted c = true /\
    RegisterFile.read (Pipeline.regs p) 2 = Some 0 /\
    RegisterFile.read (CPU.regs c) 2 = Some 5 /\
    Pipeline.regs p <> CPU.regs c.
Proof.
  eexists. eexists. eexists. eexists.
  split; [vm_compute; reflexivity|].
  split; [vm_compute; reflexivity|].
  split; [reflexivity|]. split; [reflexivity|].
  split; [reflexivity|]. split; [reflexivity|].
  split; [vm_compute; reflexivity|]. split; [reflexivity|].
  split; [vm_compute; reflexivity|]. split; [reflexivity|].
  split; [reflexivity|]. split; [reflexivity|].
  intros H. discriminate H.
Qed.

(** C5.  A single-cycle step of an instruction that decodes to [UNKNOWN]
    and changes a register: the word 0x00503083 (load opcode, funct3 011)
    makes the step write rs1 + imm = 5 to x1; memory is unchanged and the
    PC advances by 4. *)
Theorem unknown_load_writes_register (indet : Z) :
  exists c0 c c',
    Emulator.cpu indet unknown_load_source = Some c0 /\
    cpu_steps 2 c0 = Some c /\
    CPU.halted c = false /\
    type (Decoder.decode (CPU.fetch c) (CPU.pc c)) = InsType.UNKNOWN /\
    CPU.step c = Some (true, c') /\
    RegisterFile.read (CPU.regs c) 1 = Some 0 /\
    RegisterFile.read (CPU.regs c') 1 = Some 5 /\
    CPU.mem c' = CPU.mem c /\
    CPU.pc c' = u32 (CPU.pc c + 4).
Proof.
  eexists. eexists. eexists.
  split; [vm_compute; reflexivity|].
  split; [vm_compute; reflexivity|].
  split; [reflexivity|].
  split; [reflexivity|].
  split; [vm_compute; reflexivity|].
  repeat split.
Qed.

(** C7.  For each of [beqz], [bnez], [blez], [bgez], [bltz], [bgtz], [bgt],
    [ble], [bgtu], [bleu] used with an undefined label, the assembler
    returns with an empty error list, [success] set and no code, whereas
    [j] with the same label reports the error. *)
Theorem unresolved_label_not_reported (indet : Z) :
  Forall (fun line =>
    exists res,
      Assembler.assemble indet line = Some res /\
      Assembler.symbols res !! "nowhere"%string = None /\
      Assembler.res_errors res = [] /\
      Assembler.success res = true /\
      Assembler.text res = []) silent_label_lines /\
  exists res,
    Assembler.assemble indet "j nowhere" = Some res /\
    Assembler.res_errors res = ["Line 1: Unknown label: nowhere"%string] /\
    Assembler.success res = false.
Proof.
  split.
  - repeat constructor;
      (eexists; split; [vm_compute; reflexivity | repeat split]).
  - eexists; split; [vm_compute; reflexivity | repeat split].
Qed.

(** C6, counterexample.  For the one-line program [j nowhere] the first
    pass advances the text cursor by 4 and the second pass emits nothing. *)
Lemma pass1_reserves_without_emission :
  exists a1 a2,
    Assembler.sweep 0 true ["j nowhere"%string] (Assembler.rewind Assembler.fresh) = Some a1 /\
    Assembler.sweep 0 false ["j nowhere"%string] (Assembler.rewind a1) = Some a2 /\
    Assembler.text_addr a1 = 4 /\
    Assembler.text_addr a2 = 0 /\ Assembler.text_out a2 = [].
Proof.
  eexists. eexists.
  split; [vm_compute; reflexivity|].
  split; [vm_compute; reflexivity|].
  repeat split.
Qed.

(* --------------------------------------------------------------------- *)
(** ** The latches of a pipeline in use                                   *)
(* --------------------------------------------------------------------- *)

Ltac decode_paths :=
  unfold Decoder.decode, Decoder.decode_branch, Decoder.decode_load,
    Decoder.decode_store, Decoder.decode_imm, Decoder.decode_m,
    Decoder.decode_base;
  cbv zeta;
  repeat match goal with
         | |- context [if ?c then _ else _] => destruct c
         end.

Lemma bits_range raw hi lo :
  0 <= lo <= hi -> hi - lo + 1 < 32 ->
  0 <= Decoder.bits raw hi lo < 2 ^ (hi - lo + 1).
Proof.
  intros. rewrite bits_arith by lia. apply Z.mod_pos_bound.
  apply Z.pow_pos_nonneg; lia.
Qed.

Lemma decode_rd raw pc : rd (Decoder.decode raw pc) = Decoder.get_rd raw.
Proof. decode_paths; reflexivity. Qed.
Lemma decode_rs1 raw pc : rs1 (Decoder.decode raw pc) = Decoder.get_rs1 raw.
Proof. decode_paths; reflexivity. Qed.
Lemma decode_rs2 raw pc : rs2 (Decoder.decode raw pc) = Decoder.get_rs2 raw.
Proof. decode_paths; reflexivity. Qed.

Lemma decode_load_not_ctrl raw pc :
  mem_read (Decoder.decode raw pc) = true ->
  jump (Decoder.decode raw pc) = false /\ branch (Decoder.decode raw pc) = false.
Proof. decode_paths; cbn; intros H; try discriminate H; split; reflexivity. Qed.

Lemma decode_ctrl_not_store raw pc :
  jump (Decoder.decode raw pc) = true \/ branch (Decoder.decode raw pc) = true ->
  mem_write (Decoder.decode raw pc) = false.
Proof.
  decode_paths; cbn; intros [H|H]; try discriminate H; reflexivity.
Qed.

Lemma decoded_sane i : decoded i -> sane i.
Proof.
  intros [-> | (raw & pc & ->)].
  - split; cbn; try lia; try discriminate; try (intros [H|H]; discriminate H).
  - split.
    + rewrite decode_rd. apply (bits_range raw 11 7); lia.
    + rewrite decode_rs1. apply (bits_range raw 19 15); lia.
    + rewrite decode_rs2. apply (bits_range raw 24 20); lia.
    + apply decode_load_not_ctrl.
    + apply decode_ctrl_not_store.
Qed.

Lemma same_control_refl p : same_control p p.
Proof. repeat split. Qed.

Lemma same_control_trans p q r :
  same_control p q -> same_control q r -> same_control p r.
Proof. unfold same_control. intuition congruence. Qed.

(** *** Writeback *)

Lemma stage_wb_spec p p1 :
  Pipeline.stage_wb p = Some p1 ->
  Pipeline.mem p1 = Pipeline.mem p /\
  Pipeline.if_id p1 = Pipeline.if_id p /\
  Pipeline.id_ex p1 = Pipeline.id_ex p /\
  Pipeline.ex_mem p1 = Pipeline.ex_mem p /\
  Pipeline.mem_wb p1 = Pipeline.mem_wb p /\
  Pipeline.pc p1 = Pipeline.pc p /\
  Pipeline.next_pc p1 = Pipeline.next_pc p /\
  same_control p p1.
Proof.
  unfold Pipeline.stage_wb, same_control.
  destruct (negb (MEM_WB.valid (Pipeline.mem_wb p))).
  - intros [= <-]. repeat split.
  - destruct (reg_write _ && negb _).
    + destruct (RegisterFile.write _ _ _) as [r|]; [|discriminate].
      destruct (InsType.eqb _ _); intros [= <-]; repeat split.
    + destruct (InsType.eqb _ _); intros [= <-]; repeat split.
Qed.

Lemma register_write_total r reg v :
  0 <= reg < 32 -> is_Some (RegisterFile.write r reg v).
Proof.
  intros H. unfold RegisterFile.write, NUM_REGISTERS.
  destruct (Z.ltb_spec reg 0); [lia|].
  destruct (Z.geb_spec reg 32); [lia|]. cbn.
  destruct (negb (reg =? 0)); eauto.
Qed.

Lemma register_read_total r reg :
  0 <= reg < 32 -> is_Some (RegisterFile.read r reg).
Proof.
  intros H. unfold RegisterFile.read, NUM_REGISTERS.
  destruct (Z.ltb_spec reg 0); [lia|].
  destruct (Z.geb_spec reg 32); [lia|]. cbn. eauto.
Qed.

Lemma stage_wb_total p :
  sane (MEM_WB.ins (Pipeline.mem_wb p)) -> is_Some (Pipeline.stage_wb p).
Proof.
  intros Hs. unfold Pipeline.stage_wb.
  destruct (negb _); [eauto|].
  destruct (reg_write _ && negb _).
  - destruct (register_write_total (Pipeline.regs p)
                (rd (MEM_WB.ins (Pipeline.mem_wb p)))
                (if mem_to_reg (MEM_WB.ins (Pipeline.mem_wb p))
                 then MEM_WB.mem_data (Pipeline.mem_wb p)
                 else MEM_WB.alu_result (Pipeline.mem_wb p)))
      as [r Hr]; [apply Hs|].
    rewrite Hr. destruct (InsType.eqb _ _); eauto.
  - destruct (InsType.eqb _ _); eauto.
Qed.

(** *** Memory stage *)

Lemma stage_mem_spec p :
  let p2 := Pipeline.stage_mem p in
  Pipeline.regs p2 = Pipeline.regs p /\
  Pipeline.if_id p2 = Pipeline.if_id p /\
  Pipeline.id_ex p2 = Pipeline.id_ex p /\
  Pipeline.ex_mem p2 = Pipeline.ex_mem p /\
  Pipeline.pc p2 = Pipeline.pc p /\
  Pipeline.next_pc p2 = Pipeline.next_pc p /\
  Pipeline.halted p2 = Pipeline.halted p /\
  same_control p p2 /\
  MEM_WB.valid (Pipeline.mem_wb p2) = EX_MEM.valid (Pipeline.ex_mem p) /\
  MEM_WB.ins (Pipeline.mem_wb p2) =
    (if EX_MEM.valid (Pipeline.ex_mem p)
     then EX_MEM.ins (Pipeline.ex_mem p) else Instruction_default) /\
  (mem_write (EX_MEM.ins (Pipeline.ex_mem p)) = false ->
   Pipeline.mem p2 = Pipeline.mem p).
Proof.
  unfold Pipeline.stage_mem, same_control.
  destruct (EX_MEM.valid (Pipeline.ex_mem p)); cbn [negb].
  2: { repeat split. }
  destruct (mem_write (EX_MEM.ins (Pipeline.ex_mem p)));
    destruct (negb _ && negb _);
    destruct (type (EX_MEM.ins (Pipeline.ex_mem p)));
    repeat split; intros; discriminate.
Qed.

(** *** Execute *)

Lemma alu_execute_total op a b : is_Some (ALU.execute op a b).
Proof.
  destruct op; cbn [ALU.execute]; eauto.
  - unfold ALU.int_div.
    destruct (s32 b =? 0); [eauto|].
    destruct ((s32 a =? INT_MIN) && (s32 b =? -1)); eauto.
  - unfold ALU.uint_div. destruct (b =? 0); eauto.
  - unfold ALU.int_rem.
    destruct (s32 b =? 0); [eauto|].
    destruct ((s32 a =? INT_MIN) && (s32 b =? -1)); eauto.
  - unfold ALU.uint_rem. destruct (b =? 0); eauto.
Qed.

Lemma get_forward_a_frame p :
  exists f, snd (Pipeline.get_forward_a p) = Pipeline.set_forwards f p.
Proof.
  unfold Pipeline.get_forward_a.
  repeat match goal with
         | |- context [if ?c then _ else _] => destruct c
         end; cbn [snd]; eauto; exists (Pipeline.forwards p); destruct p; reflexivity.
Qed.

Lemma get_forward_b_frame p :
  exists f, snd (Pipeline.get_forward_b p) = Pipeline.set_forwards f p.
Proof.
  unfold Pipeline.get_forward_b.
  repeat match goal with
         | |- context [if ?c then _ else _] => destruct c
         end; cbn [snd]; eauto; exists (Pipeline.forwards p); destruct p; reflexivity.
Qed.

Lemma stage_ex_spec p p3 :
  Pipeline.stage_ex p = Some p3 ->
  (Pipeline.mem p3 = Pipeline.mem p /\
   Pipeline.regs p3 = Pipeline.regs p /\
   Pipeline.mem_wb p3 = Pipeline.mem_wb p /\
   Pipeline.halted p3 = Pipeline.halted p /\
   same_control p p3) /\
  (ex_bubble p p3 \/ ex_falls_through p p3 \/ ex_redirects p p3).
Proof.
  unfold Pipeline.stage_ex, same_control.
  destruct (ID_EX.valid (Pipeline.id_ex p)) eqn:Hv; cbn [negb].
  2: { intros [= <-]. split; [repeat split|]. left. repeat split. exact Hv. }
  destruct (Pipeline.get_forward_a p) as [fa pa] eqn:Ha.
  destruct (get_forward_a_frame p) as [f1 Hf1]. rewrite Ha in Hf1.
  cbn [snd] in Hf1. subst pa.
  destruct (Pipeline.get_forward_b _) as [fb pb] eqn:Hb.
  destruct (get_forward_b_frame (Pipeline.set_forwards f1 p)) as [f2 Hf2].
  rewrite Hb in Hf2. cbn [snd] in Hf2. subst pb.
  destruct (ALU.execute _ _ _) as [ar|]; [|discriminate].
  destruct (jump (ID_EX.ins (Pipeline.id_ex p))) eqn:Hj;
    [ destruct (InsType.eqb _ InsType.JAL);
      [| destruct (InsType.eqb _ InsType.JALR)]
    | destruct (branch (ID_EX.ins (Pipeline.id_ex p))) eqn:Hbr;
      [ destruct (ALU.branch_taken _ _ _) |] ];
    intros [= <-]; (split; [repeat split|]);
    first [ right; right; repeat split; auto; fail
          | right; left; repeat split; auto; fail ].
Qed.

Lemma stage_ex_total p : is_Some (Pipeline.stage_ex p).
Proof.
  unfold Pipeline.stage_ex.
  destruct (negb _); [eauto|].
  destruct (Pipeline.get_forward_a p) as [fa pa].
  destruct (Pipeline.get_forward_b pa) as [fb pb].
  match goal with
  | |- context [ALU.execute ?o ?a ?b] =>
      destruct (alu_execute_total o a b) as [ar Har]; rewrite Har
  end.
  repeat match goal with
         | |- context [if ?c then _ else _] => destruct c
         end; eauto.
Qed.

(** *** Decode and fetch *)

Lemma stage_id_spec p p4 :
  Pipeline.stage_id p = Some p4 ->
  Pipeline.mem p4 = Pipeline.mem p /\
  Pipeline.regs p4 = Pipeline.regs p /\
  Pipeline.if_id p4 = Pipeline.if_id p /\
  Pipeline.ex_mem p4 = Pipeline.ex_mem p /\
  Pipeline.mem_wb p4 = Pipeline.mem_wb p /\
  Pipeline.pc p4 = Pipeline.pc p /\
  Pipeline.next_pc p4 = Pipeline.next_pc p /\
  Pipeline.halted p4 = Pipeline.halted p /\
  same_control p p4 /\
  (if IF_ID.valid (Pipeline.if_id p) then
     ID_EX.ins (Pipeline.id_ex p4) =
       Decoder.decode (IF_ID.instruction (Pipeline.if_id p))
                      (IF_ID.pc (Pipeline.if_id p)) /\
     ID_EX.pc (Pipeline.id_ex p4) = IF_ID.pc (Pipeline.if_id p) /\
     ID_EX.valid (Pipeline.id_ex p4) = true
   else Pipeline.id_ex p4 = ID_EX.flush).
Proof.
  unfold Pipeline.stage_id, same_control.
  destruct (IF_ID.valid (Pipeline.if_id p)); cbn [negb].
  2: { intros [= <-]. repeat split. }
  destruct (RegisterFile.read _ _) as [v1|]; [|discriminate].
  destruct (RegisterFile.read _ _) as [v2|]; [|discriminate].
  intros [= <-]. repeat split.
Qed.

Lemma stage_id_total p : is_Some (Pipeline.stage_id p).
Proof.
  unfold Pipeline.stage_id.
  destruct (negb _); [eauto|].
  pose proof (decoded_sane
                (Decoder.decode (IF_ID.instruction (Pipeline.if_id p))
                                (IF_ID.pc (Pipeline.if_id p)))
                (or_intror (ex_intro _ _ (ex_intro _ _ eq_refl)))) as Hs.
  destruct (register_read_total (Pipeline.regs p) _ (sane_rs1 _ Hs)) as [v1 ->].
  destruct (register_read_total (Pipeline.regs p) _ (sane_rs2 _ Hs)) as [v2 ->].
  eauto.
Qed.

Lemma stage_if_spec p :
  Pipeline.stalled p = false ->
  let p5 := Pipeline.stage_if p in
  Pipeline.mem p5 = Pipeline.mem p /\
  Pipeline.regs p5 = Pipeline.regs p /\
  Pipeline.id_ex p5 = Pipeline.id_ex p /\
  Pipeline.ex_mem p5 = Pipeline.ex_mem p /\
  Pipeline.mem_wb p5 = Pipeline.mem_wb p /\
  Pipeline.halted p5 = Pipeline.halted p /\
  same_control p p5 /\
  Pipeline.if_id p5 =
    IF_ID.mk (Memory.read_word (Pipeline.mem p) (Pipeline.pc p))
             (Pipeline.pc p) (u32 (Pipeline.pc p + 4)) true /\
  Pipeline.pc p5 = Pipeline.next_pc p /\
  Pipeline.next_pc p5 = u32 (Pipeline.next_pc p + 4).
Proof.
  intros Hs. unfold Pipeline.stage_if, same_control. rewrite Hs.
  repeat split; exact Hs.
Qed.

(** *** The cycle *)

Lemma cycle_stalled p :
  Pipeline.halted p = false ->
  Pipeline.detect_load_use_hazard p = true ->
  Pipeline.cycle p =
  option_map finish
    (hold (Pipeline.set_stalls (u64 (Pipeline.stalls p + 1))
             (Pipeline.set_stalled true p))).
Proof.
  intros Hh Hs. unfold Pipeline.cycle. rewrite Hh, Hs.
  unfold hold, finish.
  cbn [Pipeline.stalled Pipeline.set_stalled Pipeline.stalls].
  destruct (Pipeline.stage_wb _) as [p1|]; [|reflexivity].
  destruct (Pipeline.stage_ex _) as [p2|]; [|reflexivity].
  cbn [option_map].
  destruct (Pipeline.has_breakpoint _ _); reflexivity.
Qed.

Lemma detect_true p :
  Pipeline.detect_load_use_hazard p = true ->
  ID_EX.valid (Pipeline.id_ex p) = true /\
  mem_read (ID_EX.ins (Pipeline.id_ex p)) = true.
Proof.
  unfold Pipeline.detect_load_use_hazard.
  destruct (negb _); [discriminate|].
  destruct (ID_EX.valid _); [|discriminate].
  destruct (mem_read _); [|discriminate]. auto.
Qed.

Lemma detect_bubble p :
  ID_EX.valid (Pipeline.id_ex p) = false ->
  Pipeline.detect_load_use_hazard p = false.
Proof.
  intros H. unfold Pipeline.detect_load_use_hazard. rewrite H.
  destruct (negb _); reflexivity.
Qed.

Lemma decoded_default : decoded Instruction_default.
Proof. left. reflexivity. Qed.

Lemma decoded_decode raw pc : decoded (Decoder.decode raw pc).
Proof. right. eauto. Qed.

Lemma wf_back p pw pe :
  wf p ->
  Pipeline.stage_wb p = Some pw ->
  Pipeline.stage_ex (Pipeline.stage_mem pw) = Some pe ->
  decoded (ID_EX.ins (Pipeline.id_ex pe)) /\
  decoded (EX_MEM.ins (Pipeline.ex_mem pe)) /\
  decoded (MEM_WB.ins (Pipeline.mem_wb pe)).
Proof.
  intros (Hd & He & Hm) Hwb Hex.
  apply stage_wb_spec in Hwb.
  destruct Hwb as (_ & _ & Hde & Hem & _).
  pose proof (stage_mem_spec pw) as Hmem. cbv zeta in Hmem.
  destruct Hmem as (_ & _ & Hde2 & Hem2 & _ & _ & _ & _ & _ & Hins & _).
  apply stage_ex_spec in Hex.
  destruct Hex as ((_ & _ & Hmw & _) & Hcase).
  assert (Hm' : decoded (MEM_WB.ins (Pipeline.mem_wb pe))).
  { rewrite Hmw, Hins. destruct (EX_MEM.valid _).
    - rewrite Hem. exact He.
    - apply decoded_default. }
  assert (Hd' : decoded (ID_EX.ins (Pipeline.id_ex (Pipeline.stage_mem pw)))).
  { rewrite Hde2, Hde. exact Hd. }
  destruct Hcase as [Hc | [Hc | Hc]].
  - destruct Hc as (_ & -> & _ & -> & _). repeat split; auto using decoded_default.
  - destruct Hc as (_ & -> & _ & _ & _ & -> & _). repeat split; auto.
  - destruct Hc as (_ & -> & _ & _ & _ & _ & _ & _ & -> & _).
    repeat split; auto using decoded_default.
Qed.

Lemma wf_cycle p b p' :
  wf p -> Pipeline.cycle p = Some (b, p') -> wf p'.
Proof.
  intros Hwf Hc.
  destruct (Pipeline.halted p) eqn:Hh.
  { unfold Pipeline.cycle in Hc. rewrite Hh in Hc. injection Hc as _ <-. exact Hwf. }
  assert (Hfin : forall q, option_map finish q = Some (b, p') ->
            exists q', q = Some q' /\
              Pipeline.id_ex p' = Pipeline.id_ex q' /\
              Pipeline.ex_mem p' = Pipeline.ex_mem q' /\
              Pipeline.mem_wb p' = Pipeline.mem_wb q').
  { intros [q'|]; [|discriminate]. cbn [option_map]. unfold finish.
    cbv zeta. destruct (Pipeline.has_breakpoint _ _); intros [= _ <-]; eauto. }
  destruct (Pipeline.detect_load_use_hazard p) eqn:Hs.
  - rewrite cycle_stalled in Hc by assumption.
    apply Hfin in Hc. destruct Hc as (q' & Hq & E1 & E2 & E3).
    unfold hold in Hq.
    destruct (Pipeline.stage_wb _) as [pw|] eqn:Hwb; [|discriminate].
    destruct (Pipeline.stage_ex _) as [pe|] eqn:Hex; [|discriminate].
    injection Hq as <-.
    assert (Hb : decoded (ID_EX.ins (Pipeline.id_ex pe)) /\
                 decoded (EX_MEM.ins (Pipeline.ex_mem pe)) /\
                 decoded (MEM_WB.ins (Pipeline.mem_wb pe))).
    { eapply wf_back; [| exact Hwb | exact Hex]. exact Hwf. }
    destruct Hb as (_ & He & Hm).
    unfold wf. rewrite E1, E2, E3. cbn. auto using decoded_default.
  - rewrite cycle_not_stalled in Hc by assumption.
    apply Hfin in Hc. destruct Hc as (q' & Hq & E1 & E2 & E3).
    unfold advance in Hq.
    destruct (Pipeline.stage_wb _) as [pw|] eqn:Hwb; [|discriminate].
    destruct (Pipeline.stage_ex _) as [pe|] eqn:Hex; [|discriminate].
    destruct (Pipeline.stage_id _) as [pi|] eqn:Hid; [|discriminate].
    injection Hq as <-.
    assert (Hb : decoded (ID_EX.ins (Pipeline.id_ex pe)) /\
                 decoded (EX_MEM.ins (Pipeline.ex_mem pe)) /\
                 decoded (MEM_WB.ins (Pipeline.mem_wb pe))).
    { eapply wf_back; [| exact Hwb | exact Hex]. exact Hwf. }
    destruct Hb as (_ & He & Hm).
    apply stage_id_spec in Hid.
    destruct Hid as (_ & _ & _ & Hem & Hmw & _ & _ & _ & _ & Hde).
    unfold wf. rewrite E1, E2, E3.
    unfold Pipeline.stage_if. destruct (Pipeline.stalled pi); cbn;
      rewrite ?Hem, ?Hmw; (repeat split; auto);
      destruct (IF_ID.valid _);
      [ destruct Hde as (-> & _); apply decoded_decode
      | rewrite Hde; apply decoded_default
      | destruct Hde as (-> & _); apply decoded_decode
      | rewrite Hde; apply decoded_default ].
Qed.

Lemma reachable_wf p : reachable p -> wf p.
Proof.
  induction 1 as [m r | p b p' _ IH Hc | p _ IH | p addr _ IH | p v _ IH
                  | p v _ IH | p addr _ IH | p _ IH | p m r _ IH].
  - repeat split; apply decoded_default.
  - exact (wf_cycle p b p' IH Hc).
  - repeat split; apply decoded_default.
  - exact IH.
  - exact IH.
  - exact IH.
  - unfold Pipeline.add_breakpoint. destruct (Pipeline.has_breakpoint _ _); exact IH.
  - exact IH.
  - exact IH.
Qed.

(** No exception escapes a cycle. *)
Lemma cycle_total p : wf p -> exists b p', Pipeline.cycle p = Some (b, p').
Proof.
  intros (Hd & He & Hm).
  destruct (Pipeline.halted p) eqn:Hh.
  { unfold Pipeline.cycle. rewrite Hh. eauto. }
  assert (Hback : forall q, Pipeline.mem_wb q = Pipeline.mem_wb p ->
            exists pw pe, Pipeline.stage_wb q = Some pw /\
                          Pipeline.stage_ex (Pipeline.stage_mem pw) = Some pe).
  { intros q Hq.
    destruct (stage_wb_total q) as [pw Hpw].
    { rewrite Hq. apply decoded_sane, Hm. }
    destruct (stage_ex_total (Pipeline.stage_mem pw)) as [pe Hpe]. eauto. }
  destruct (Pipeline.detect_load_use_hazard p) eqn:Hs.
  - rewrite cycle_stalled by assumption.
    destruct (Hback (Pipeline.set_stalls (u64 (Pipeline.stalls p + 1))
                       (Pipeline.set_stalled true p)) eq_refl)
      as (pw & pe & Hw & Hx).
    unfold hold. rewrite Hw, Hx. cbn [option_map].
    destruct (finish _) as [b p']. eauto.
  - rewrite cycle_not_stalled by assumption.
    destruct (Hback (Pipeline.set_stalled false p) eq_refl)
      as (pw & pe & Hw & Hx).
    destruct (stage_id_total pe) as [pi Hi].
    unfold advance. rewrite Hw, Hx, Hi. cbn [option_map].
    destruct (finish _) as [b p']. eauto.
Qed.

(* --------------------------------------------------------------------- *)
(** ** Forwarding                                                         *)
(* --------------------------------------------------------------------- *)

Lemma shadowed_hit p rs :
  (MEM_WB.valid (Pipeline.mem_wb p) = true ->
   EX_MEM.valid (Pipeline.ex_mem p) = true /\
   MEM_WB.ins (Pipeline.mem_wb p) = EX_MEM.ins (Pipeline.ex_mem p)) ->
  ex_mem_hit p rs = false -> mem_wb_hit p rs = false.
Proof.
  unfold ex_mem_hit, mem_wb_hit. intros H.
  destruct (MEM_WB.valid (Pipeline.mem_wb p)); [|reflexivity].
  destruct H as (-> & ->); [reflexivity|]. auto.
Qed.

Lemma forward_a_cases p :
  (MEM_WB.valid (Pipeline.mem_wb p) = true ->
   EX_MEM.valid (Pipeline.ex_mem p) = true /\
   MEM_WB.ins (Pipeline.mem_wb p) = EX_MEM.ins (Pipeline.ex_mem p)) ->
  fst (Pipeline.get_forward_a p) = FwdNONE \/
  fst (Pipeline.get_forward_a p) = FwdEX_MEM.
Proof.
  intros H. unfold Pipeline.get_forward_a.
  destruct (negb _); [auto|].
  destruct (_ =? 0); [auto|].
  fold (ex_mem_hit p (rs1 (ID_EX.ins (Pipeline.id_ex p)))).
  fold (mem_wb_hit p (rs1 (ID_EX.ins (Pipeline.id_ex p)))).
  destruct (ex_mem_hit _ _) eqn:E; [auto|].
  rewrite (shadowed_hit _ _ H E). auto.
Qed.

Lemma forward_b_cases p :
  (MEM_WB.valid (Pipeline.mem_wb p) = true ->
   EX_MEM.valid (Pipeline.ex_mem p) = true /\
   MEM_WB.ins (Pipeline.mem_wb p) = EX_MEM.ins (Pipeline.ex_mem p)) ->
  fst (Pipeline.get_forward_b p) = FwdNONE \/
  fst (Pipeline.get_forward_b p) = FwdEX_MEM.
Proof.
  intros H. unfold Pipeline.get_forward_b.
  destruct (negb _); [auto|].
  destruct (_ =? 0); [auto|].
  fold (ex_mem_hit p (rs2 (ID_EX.ins (Pipeline.id_ex p)))).
  fold (mem_wb_hit p (rs2 (ID_EX.ins (Pipeline.id_ex p)))).
  destruct (ex_mem_hit _ _) eqn:E; [auto|].
  rewrite (shadowed_hit _ _ H E). auto.
Qed.

(** At the moment EX selects its operands, MEM/WB holds what EX/MEM holds. *)
Lemma ex_never_selects_mem_wb (p p1 : Pipeline.t) :
  Pipeline.stage_wb p = Some p1 ->
  let p2 := Pipeline.stage_mem p1 in
  let pa := snd (Pipeline.get_forward_a p2) in
  let pb := snd (Pipeline.get_forward_b pa) in
  let fwd_a := fst (Pipeline.get_forward_a p2) in
  let fwd_b := fst (Pipeline.get_forward_b pa) in
  (MEM_WB.valid (Pipeline.mem_wb p2) = true ->
   EX_MEM.valid (Pipeline.ex_mem p2) = true /\
   MEM_WB.ins (Pipeline.mem_wb p2) = EX_MEM.ins (Pipeline.ex_mem p2)) /\
  fwd_a <> FwdMEM_WB /\ fwd_b <> FwdMEM_WB /\
  (Pipeline.get_forwarded_value pb fwd_a (ID_EX.rs1_val (Pipeline.id_ex pb))
     = ID_EX.rs1_val (Pipeline.id_ex p) \/
   Pipeline.get_forwarded_value pb fwd_a (ID_EX.rs1_val (Pipeline.id_ex pb))
     = EX_MEM.alu_result (Pipeline.ex_mem p)) /\
  (Pipeline.get_forwarded_value pb fwd_b (ID_EX.rs2_val (Pipeline.id_ex pb))
     = ID_EX.rs2_val (Pipeline.id_ex p) \/
   Pipeline.get_forwarded_value pb fwd_b (ID_EX.rs2_val (Pipeline.id_ex pb))
     = EX_MEM.alu_result (Pipeline.ex_mem p)).
Proof.
  intros Hwb p2 pa pb fwd_a fwd_b.
  apply stage_wb_spec in Hwb.
  destruct Hwb as (_ & _ & Hde & Hem & _).
  pose proof (stage_mem_spec p1) as Hmem. cbv zeta in Hmem. fold p2 in Hmem.
  destruct Hmem as (_ & _ & Hde2 & Hem2 & _ & _ & _ & _ & Hv & Hins & _).
  assert (Hshadow : MEM_WB.valid (Pipeline.mem_wb p2) = true ->
            EX_MEM.valid (Pipeline.ex_mem p2) = true /\
            MEM_WB.ins (Pipeline.mem_wb p2) = EX_MEM.ins (Pipeline.ex_mem p2)).
  { intros Hval. rewrite Hv in Hval. rewrite Hem2, Hins, Hval. auto. }
  destruct (get_forward_a_frame p2) as [f1 Hf1]. fold pa in Hf1.
  destruct (get_forward_b_frame pa) as [f2 Hf2]. fold pb in Hf2.
  assert (Hshadow_a : MEM_WB.valid (Pipeline.mem_wb pa) = true ->
            EX_MEM.valid (Pipeline.ex_mem pa) = true /\
            MEM_WB.ins (Pipeline.mem_wb pa) = EX_MEM.ins (Pipeline.ex_mem pa)).
  { rewrite Hf1. exact Hshadow. }
  assert (Hlatch : Pipeline.id_ex pb = Pipeline.id_ex p /\
                   Pipeline.ex_mem pb = Pipeline.ex_mem p).
  { rewrite Hf2, Hf1. cbn. rewrite Hde2, Hem2, Hde, Hem. auto. }
  destruct Hlatch as (Lde & Lem).
  pose proof (forward_a_cases p2 Hshadow) as Ca. fold fwd_a in Ca.
  pose proof (forward_b_cases pa Hshadow_a) as Cb. fold fwd_b in Cb.
  split; [exact Hshadow|].
  split; [destruct Ca as [-> | ->]; discriminate|].
  split; [destruct Cb as [-> | ->]; discriminate|].
  split.
  - destruct Ca as [-> | ->]; cbn [Pipeline.get_forwarded_value];
      rewrite ?Lde, ?Lem; auto.
  - destruct Cb as [-> | ->]; cbn [Pipeline.get_forwarded_value];
      rewrite ?Lde, ?Lem; auto.
Qed.

(** The back of a cycle: writeback, memory and execute run in this order on
    the latches the cycle started with, whether the cycle stalls or not. *)
Lemma cycle_back p b p' :
  Pipeline.halted p = false ->
  Pipeline.cycle p = Some (b, p') ->
  exists p0 p1 pe,
    Pipeline.id_ex p0 = Pipeline.id_ex p /\
    Pipeline.ex_mem p0 = Pipeline.ex_mem p /\
    Pipeline.mem_wb p0 = Pipeline.mem_wb p /\
    Pipeline.stage_wb p0 = Some p1 /\
    Pipeline.stage_ex (Pipeline.stage_mem p1) = Some pe /\
    Pipeline.ex_mem p' = Pipeline.ex_mem pe /\
    Pipeline.mem_wb p' = Pipeline.mem_wb pe.
Proof.
  intros Hh Hc.
  assert (Hfin : forall q, option_map finish q = Some (b, p') ->
            exists q', q = Some q' /\
              Pipeline.ex_mem p' = Pipeline.ex_mem q' /\
              Pipeline.mem_wb p' = Pipeline.mem_wb q').
  { intros [q'|]; [|discriminate]. cbn [option_map]. unfold finish.
    cbv zeta. destruct (Pipeline.has_breakpoint _ _); intros [= _ <-]; eauto. }
  destruct (Pipeline.detect_load_use_hazard p) eqn:Hs.
  - rewrite cycle_stalled in Hc by assumption.
    apply Hfin in Hc. destruct Hc as (q' & Hq & E2 & E3).
    unfold hold in Hq.
    destruct (Pipeline.stage_wb _) as [pw|] eqn:Hwb; [|discriminate].
    destruct (Pipeline.stage_ex _) as [pe|] eqn:Hex; [|discriminate].
    injection Hq as <-.
    eexists. exists pw, pe.
    split; [|split; [|split; [|split; [exact Hwb|split; [exact Hex|split; [exact E2|exact E3]]]]]];
      reflexivity.
  - rewrite cycle_not_stalled in Hc by assumption.
    apply Hfin in Hc. destruct Hc as (q' & Hq & E2 & E3).
    unfold advance in Hq.
    destruct (Pipeline.stage_wb _) as [pw|] eqn:Hwb; [|discriminate].
    destruct (Pipeline.stage_ex _) as [pe|] eqn:Hex; [|discriminate].
    destruct (Pipeline.stage_id _) as [pi|] eqn:Hid; [|discriminate].
    injection Hq as <-.
    apply stage_id_spec in Hid.
    destruct Hid as (_ & _ & _ & Hem & Hmw & _).
    eexists. exists pw, pe.
    split; [|split; [|split; [|split; [exact Hwb|split; [exact Hex|split]]]]];
      try reflexivity.
    + rewrite E2. unfold Pipeline.stage_if.
      destruct (Pipeline.stalled pi); cbn; exact Hem.
    + rewrite E3. unfold Pipeline.stage_if.
      destruct (Pipeline.stalled pi); cbn; exact Hmw.
Qed.

(** C3.  In every cycle of every pipeline state (reachable or not) the
    stages run writeback, memory, execute; when execute selects its
    operands MEM/WB, if valid, holds the instruction of EX/MEM, so neither
    [get_forward_a] nor [get_forward_b] answers [MEM_WB], and each operand
    is the value latched in ID/EX or the ALU result in EX/MEM at the start
    of the cycle: the result of the instruction that was in MEM/WB at the
    start of the cycle, two ahead of the one in EX, is never forwarded. *)
Theorem mem_wb_forwarding_never_selected (p : Pipeline.t) (b : bool)
    (p' : Pipeline.t) :
  Pipeline.halted p = false ->
  Pipeline.cycle p = Some (b, p') ->
  exists p0 p1 pe,
    (* the stages of this cycle *)
    Pipeline.id_ex p0 = Pipeline.id_ex p /\
    Pipeline.ex_mem p0 = Pipeline.ex_mem p /\
    Pipeline.mem_wb p0 = Pipeline.mem_wb p /\
    Pipeline.stage_wb p0 = Some p1 /\
    Pipeline.stage_ex (Pipeline.stage_mem p1) = Some pe /\
    Pipeline.ex_mem p' = Pipeline.ex_mem pe /\
    (* the state execute runs on *)
    let p2 := Pipeline.stage_mem p1 in
    let pa := snd (Pipeline.get_forward_a p2) in
    let pb := snd (Pipeline.get_forward_b pa) in
    let fwd_a := fst (Pipeline.get_forward_a p2) in
    let fwd_b := fst (Pipeline.get_forward_b pa) in
    (MEM_WB.valid (Pipeline.mem_wb p2) = true ->
     EX_MEM.valid (Pipeline.ex_mem p2) = true /\
     MEM_WB.ins (Pipeline.mem_wb p2) = EX_MEM.ins (Pipeline.ex_mem p2)) /\
    fwd_a <> FwdMEM_WB /\ fwd_b <> FwdMEM_WB /\
    (Pipeline.get_forwarded_value pb fwd_a (ID_EX.rs1_val (Pipeline.id_ex pb))
       = ID_EX.rs1_val (Pipeline.id_ex p) \/
     Pipeline.get_forwarded_value pb fwd_a (ID_EX.rs1_val (Pipeline.id_ex pb))
       = EX_MEM.alu_result (Pipeline.ex_mem p)) /\
    (Pipeline.get_forwarded_value pb fwd_b (ID_EX.rs2_val (Pipeline.id_ex pb))
       = ID_EX.rs2_val (Pipeline.id_ex p) \/
     Pipeline.get_forwarded_value pb fwd_b (ID_EX.rs2_val (Pipeline.id_ex pb))
       = EX_MEM.alu_result (Pipeline.ex_mem p)).
Proof.
  intros Hh Hc.
  destruct (cycle_back p b p' Hh Hc)
    as (p0 & p1 & pe & Hde & Hem & Hmw & Hwb & Hex & E & _).
  exists p0, p1, pe.
  repeat (split; [assumption|]).
  pose proof (ex_never_selects_mem_wb p0 p1 Hwb) as H.
  cbv zeta in H |- *. rewrite Hde, Hem in H. exact H.
Qed.

Lemma mem_wb_forwarding_never_selected_witness :
  exists p0 p',
    Emulator.pipeline 0 raw_dependency_source = Some p0 /\
    Pipeline.cycles_n 3 p0 = Some raw_dependency_state /\
    Pipeline.cycle raw_dependency_state = Some (true, p') /\
    exists q q',
      Pipeline.stage_wb q = Some q' /\
      fst (Pipeline.get_forward_a (Pipeline.stage_mem q')) <> FwdMEM_WB.
Proof.
  set (p0 := Pipeline.init (Memory.write_block ∅ 0 [5243027; 19; 33043; 115])
               ([0; 0; 2147483632] ++ replicate 29 0)).
  set (p' := match Pipeline.cycle raw_dependency_state with
             | Some (_, p) => p
             | None => raw_dependency_state
             end).
  assert (H0 : Emulator.pipeline 0 raw_dependency_source = Some p0)
    by (vm_compute; reflexivity).
  assert (H3 : Pipeline.cycles_n 3 p0 = Some raw_dependency_state)
    by (vm_compute; reflexivity).
  assert (Hc : Pipeline.cycle raw_dependency_state = Some (true, p'))
    by (vm_compute; reflexivity).
  destruct (mem_wb_forwarding_never_selected raw_dependency_state true p'
              eq_refl Hc)
    as (q & q' & _ & _ & _ & _ & Hw & _ & _ & _ & Ha & _).
  exists p0, p'.
  split; [exact H0|]. split; [exact H3|]. split; [exact Hc|].
  exists q, q'. split; [exact Hw | exact Ha].
Defined.

(* --------------------------------------------------------------------- *)
(** ** Redirection                                                        *)
(* --------------------------------------------------------------------- *)

Lemma advance_spec q q' :
  advance q = Some q' ->
  exists pw pe pi,
    Pipeline.stage_wb q = Some pw /\
    Pipeline.stage_ex (Pipeline.stage_mem pw) = Some pe /\
    Pipeline.stage_id pe = Some pi /\
    q' = Pipeline.stage_if pi.
Proof.
  unfold advance.
  intros H.
  destruct (Pipeline.stage_wb q) as [pw|]; [|discriminate].
  destruct (Pipeline.stage_ex (Pipeline.stage_mem pw)) as [pe|] eqn:Hx;
    [|discriminate].
  destruct (Pipeline.stage_id pe) as [pi|] eqn:Hi; [|discriminate].
  injection H as <-. exists pw, pe, pi. auto.
Qed.

Lemma finish_spec q b p' :
  finish q = (b, p') ->
  Pipeline.mem p' = Pipeline.mem q /\
  Pipeline.if_id p' = Pipeline.if_id q /\
  Pipeline.id_ex p' = Pipeline.id_ex q /\
  Pipeline.ex_mem p' = Pipeline.ex_mem q /\
  Pipeline.pc p' = Pipeline.pc q /\
  Pipeline.next_pc p' = Pipeline.next_pc q /\
  Pipeline.halted p' = Pipeline.halted q.
Proof.
  unfold finish. cbv zeta.
  destruct (Pipeline.has_breakpoint _ _); intros [= _ <-]; repeat split.
Qed.

Lemma reachable_cycles_n n : forall p p',
  reachable p -> Pipeline.cycles_n n p = Some p' -> reachable p'.
Proof.
  induction n as [|n IH]; intros p p' Hr; cbn [Pipeline.cycles_n].
  - intros [= <-]. exact Hr.
  - destruct (Pipeline.cycle p) as [[b q]|] eqn:Hc; [|discriminate].
    cbn. apply IH. exact (reach_cycle p b q Hr Hc).
Qed.

(** A cycle that does not stall, stage by stage. *)
Lemma cycle_front p b p' :
  Pipeline.halted p = false ->
  Pipeline.detect_load_use_hazard p = false ->
  Pipeline.cycle p = Some (b, p') ->
  exists pw pe pi,
    Pipeline.stage_wb (Pipeline.set_stalled false p) = Some pw /\
    Pipeline.stage_ex (Pipeline.stage_mem pw) = Some pe /\
    Pipeline.stage_id pe = Some pi /\
    finish (Pipeline.stage_if pi) = (b, p') /\
    Pipeline.stalled pi = false.
Proof.
  intros Hh Hs Hc. rewrite cycle_not_stalled in Hc by assumption.
  destruct (advance _) as [q|] eqn:Hq; [|discriminate].
  cbn [option_map] in Hc. injection Hc as Hc.
  apply advance_spec in Hq. destruct Hq as (pw & pe & pi & Hw & Hx & Hi & ->).
  exists pw, pe, pi. repeat (split; [assumption|]).
  apply stage_wb_spec in Hw. destruct Hw as (_ & _ & _ & _ & _ & _ & _ & Hw).
  pose proof (stage_mem_spec pw) as Hm. cbv zeta in Hm.
  destruct Hm as (_ & _ & _ & _ & _ & _ & _ & Hm & _).
  apply stage_ex_spec in Hx. destruct Hx as ((_ & _ & _ & _ & Hx) & _).
  apply stage_id_spec in Hi.
  destruct Hi as (_ & _ & _ & _ & _ & _ & _ & _ & Hi & _).
  destruct Hw as (_ & _ & Hw & _). destruct Hm as (_ & _ & Hm & _).
  destruct Hx as (_ & _ & Hx & _). destruct Hi as (_ & _ & Hi & _).
  rewrite Hi, Hx, Hm, Hw. reflexivity.
Qed.

(** C4.  In a cycle of a reachable, running pipeline whose execute stage
    resolves a taken branch or jump (EX/MEM says so when the cycle ends):
    the cycle did not stall; the execute stage left the branch target in
    both [pc] and [next_pc]; the fetch stage of the same cycle put the word
    at the target in IF/ID, ID/EX being squashed; and, unless the pipeline
    has halted, the next cycle does not stall, decodes that word into ID/EX
    and fetches the word at the target again, memory being unchanged in
    between: after it ID/EX and IF/ID both hold the instruction at the
    target and [pc] has moved on to the word behind it. *)
Theorem branch_target_fetched_twice (p : Pipeline.t) (b : bool)
    (p1 : Pipeline.t) :
  reachable p ->
  Pipeline.halted p = false ->
  Pipeline.cycle p = Some (b, p1) ->
  EX_MEM.branch_taken (Pipeline.ex_mem p1) = true ->
  let t := EX_MEM.branch_target (Pipeline.ex_mem p1) in
  let w := Memory.read_word (Pipeline.mem p1) t in
  (* the cycle of the branch *)
  Pipeline.detect_load_use_hazard p = false /\
  (exists pw pe pi,
     Pipeline.stage_wb (Pipeline.set_stalled false p) = Some pw /\
     Pipeline.stage_ex (Pipeline.stage_mem pw) = Some pe /\
     Pipeline.stage_id pe = Some pi /\
     finish (Pipeline.stage_if pi) = (b, p1) /\
     Pipeline.pc pe = t /\ Pipeline.next_pc pe = t) /\
  Pipeline.if_id p1 = IF_ID.mk w t (u32 (t + 4)) true /\
  Pipeline.id_ex p1 = ID_EX.flush /\
  Pipeline.pc p1 = t /\
  Pipeline.next_pc p1 = u32 (t + 4) /\
  (* the cycle after it *)
  (Pipeline.halted p1 = false ->
   Pipeline.detect_load_use_hazard p1 = false /\
   exists b2 p2,
     Pipeline.cycle p1 = Some (b2, p2) /\
     Pipeline.mem p2 = Pipeline.mem p1 /\
     ID_EX.ins (Pipeline.id_ex p2) = Decoder.decode w t /\
     ID_EX.pc (Pipeline.id_ex p2) = t /\
     ID_EX.valid (Pipeline.id_ex p2) = true /\
     Pipeline.if_id p2 = IF_ID.mk w t (u32 (t + 4)) true /\
     Pipeline.pc p2 = u32 (t + 4)).
Proof.
  intros Hr Hh Hc Ht. cbv zeta.
  pose proof (reachable_wf p Hr) as Hwf.
  pose proof (reachable_wf p1 (reach_cycle p b p1 Hr Hc)) as Hwf1.
  (* the cycle of the branch does not stall *)
  assert (Hs : Pipeline.detect_load_use_hazard p = false).
  { destruct (Pipeline.detect_load_use_hazard p) eqn:Hs; [|reflexivity].
    exfalso.
    destruct (detect_true p Hs) as (_ & Hld).
    destruct Hwf as (Hd & _). apply decoded_sane in Hd.
    destruct (sane_load _ Hd Hld) as (Hj & Hb).
    rewrite cycle_stalled in Hc by assumption.
    unfold hold in Hc.
    destruct (Pipeline.stage_wb _) as [pw|] eqn:Hw; [|discriminate].
    destruct (Pipeline.stage_ex _) as [pe|] eqn:Hx; [|discriminate].
    cbn [option_map] in Hc. injection Hc as Hc.
    apply finish_spec in Hc. destruct Hc as (_ & _ & _ & He & _).
    cbn in He. rewrite He in Ht.
    apply stage_wb_spec in Hw. destruct Hw as (_ & _ & Hw & _).
    pose proof (stage_mem_spec pw) as Hm. cbv zeta in Hm.
    destruct Hm as (_ & _ & Hm & _).
    apply stage_ex_spec in Hx. destruct Hx as (_ & [Hx | [Hx | Hx]]).
    - destruct Hx as (_ & Hx & _). rewrite Hx in Ht. discriminate.
    - destruct Hx as (_ & _ & _ & Hx & _). congruence.
    - destruct Hx as (_ & _ & _ & _ & Hx & _).
      rewrite Hm, Hw in Hx. cbn in Hx. destruct Hx; congruence. }
  split; [exact Hs|].
  destruct (cycle_front p b p1 Hh Hs Hc)
    as (pw & pe & pi & Hw & Hx & Hi & Hf & Hst).
  pose proof (finish_spec _ _ _ Hf) as (Fm & Ff & Fd & Fe & Fp & Fn & Fh).
  pose proof (stage_if_spec pi Hst) as Hif. cbv zeta in Hif.
  destruct Hif as (Im & _ & Id & Ie & _ & _ & _ & If_ & Ip & In_).
  pose proof (stage_id_spec pe pi Hi)
    as (Dm & _ & Df & De & _ & Dp & Dn & _ & _ & Dd).
  pose proof (stage_ex_spec _ _ Hx) as (_ & Hcase).
  assert (Ee : Pipeline.ex_mem p1 = Pipeline.ex_mem pe) by congruence.
  rewrite Ee in Ht.
  destruct Hcase as [Hb | [Hb | Hb]].
  { destruct Hb as (_ & Hb & _). rewrite Hb in Ht. discriminate. }
  { destruct Hb as (_ & _ & _ & Hb & _). congruence. }
  destruct Hb as (_ & Xi & _ & _ & Xc & Xp & Xn & Xf & Xd & _).
  rewrite Xf in Dd. cbn [IF_ID.valid IF_ID.flush] in Dd.
  assert (Bp : Pipeline.pc pi = EX_MEM.branch_target (Pipeline.ex_mem p1))
    by congruence.
  assert (Bn : Pipeline.next_pc pi = EX_MEM.branch_target (Pipeline.ex_mem p1))
    by congruence.
  assert (Bm : Pipeline.mem p1 = Pipeline.mem pi) by congruence.
  assert (R1 : Pipeline.if_id p1 =
               IF_ID.mk (Memory.read_word (Pipeline.mem p1)
                           (EX_MEM.branch_target (Pipeline.ex_mem p1)))
                        (EX_MEM.branch_target (Pipeline.ex_mem p1))
                        (u32 (EX_MEM.branch_target (Pipeline.ex_mem p1) + 4))
                        true).
  { rewrite Ff, If_, Bm, Bp. reflexivity. }
  assert (R2 : Pipeline.id_ex p1 = ID_EX.flush) by congruence.
  assert (R3 : Pipeline.pc p1 = EX_MEM.branch_target (Pipeline.ex_mem p1))
    by congruence.
  assert (R4 : Pipeline.next_pc p1 =
               u32 (EX_MEM.branch_target (Pipeline.ex_mem p1) + 4)).
  { rewrite Fn, In_, Bn. reflexivity. }
  split.
  { exists pw, pe, pi. repeat (split; [assumption|]). split; congruence. }
  repeat (split; [assumption|]).
  (* the next cycle *)
  intros Hh1.
  assert (Hs1 : Pipeline.detect_load_use_hazard p1 = false).
  { apply detect_bubble. rewrite R2. reflexivity. }
  split; [exact Hs1|].
  destruct (cycle_total p1 Hwf1) as (b2 & p2 & Hc2).
  exists b2, p2. split; [exact Hc2|].
  destruct (cycle_front p1 b2 p2 Hh1 Hs1 Hc2)
    as (qw & qe & qi & Hw2 & Hx2 & Hi2 & Hf2 & Hst2).
  pose proof (finish_spec _ _ _ Hf2) as (Gm & Gf & Gd & _ & Gp & _ & _).
  pose proof (stage_if_spec qi Hst2) as Hif. cbv zeta in Hif.
  destruct Hif as (Jm & _ & Jd & _ & _ & _ & _ & Jf & Jp & _).
  pose proof (stage_id_spec qe qi Hi2)
    as (Km & _ & _ & _ & _ & Kp & Kn & _ & _ & Kd).
  pose proof (stage_ex_spec _ _ Hx2) as ((Lm & _) & Lcase).
  pose proof (stage_mem_spec qw) as Hm. cbv zeta in Hm.
  destruct Hm as (_ & Mf & Md & _ & Mp & Mn & _ & _ & _ & _ & Mm).
  pose proof (stage_wb_spec _ _ Hw2) as (Wm & Wf & Wd & We & _ & Wp & Wn & _).
  cbn in Wm, Wf, Wd, We, Wp, Wn.
  (* the branch in EX/MEM does not store *)
  assert (Hnw : mem_write (EX_MEM.ins (Pipeline.ex_mem qw)) = false).
  { rewrite We, Ee, Xi.
    destruct Hwf1 as (_ & He1 & _). apply decoded_sane in He1.
    rewrite Ee, Xi in He1. exact (sane_ctrl _ He1 Xc). }
  specialize (Mm Hnw).
  assert (Lb : ex_bubble (Pipeline.stage_mem qw) qe).
  { assert (Hv : ID_EX.valid (Pipeline.id_ex (Pipeline.stage_mem qw)) = false).
    { rewrite Md, Wd, R2. reflexivity. }
    destruct Lcase as [Hb | [Hb | Hb]]; [exact Hb | |];
      destruct Hb as (Hb & _); congruence. }
  destruct Lb as (_ & _ & Lf & _ & Lp & Ln).
  assert (Qf : Pipeline.if_id qe = Pipeline.if_id p1) by congruence.
  assert (Qp : Pipeline.pc qi = Pipeline.pc p1) by congruence.
  assert (Qn : Pipeline.next_pc qi = Pipeline.next_pc p1) by congruence.
  assert (Qm : Pipeline.mem qi = Pipeline.mem p1) by congruence.
  rewrite Qf, R1 in Kd. cbn [IF_ID.valid IF_ID.instruction IF_ID.pc] in Kd.
  destruct Kd as (K1 & K2 & K3).
  split; [congruence|].
  split; [rewrite Gd, Jd; exact K1|].
  split; [rewrite Gd, Jd; exact K2|].
  split; [rewrite Gd, Jd; exact K3|].
  split.
  - rewrite Gf, Jf, Qm, Qp, R3. reflexivity.
  - rewrite Gp, Jp, Qn, R4. reflexivity.
Qed.

Lemma branch_target_fetched_twice_witness :
  exists p0 b p1 b2 p2,
    Emulator.pipeline 0 branch_source = Some p0 /\
    Pipeline.cycles_n 4 p0 = Some branch_state /\
    Pipeline.cycle branch_state = Some (b, p1) /\
    EX_MEM.branch_target (Pipeline.ex_mem p1) = 16 /\
    IF_ID.pc (Pipeline.if_id p1) = 16 /\
    Pipeline.cycle p1 = Some (b2, p2) /\
    ID_EX.pc (Pipeline.id_ex p2) = 16 /\
    IF_ID.pc (Pipeline.if_id p2) = 16.
Proof.
  set (p0 := Pipeline.init branch_mem ([0; 0; 2147483632] ++ replicate 29 0)).
  set (p1 := match Pipeline.cycle branch_state with
             | Some (_, p) => p
             | None => branch_state
             end).
  assert (H0 : Emulator.pipeline 0 branch_source = Some p0)
    by (vm_compute; reflexivity).
  assert (H4 : Pipeline.cycles_n 4 p0 = Some branch_state)
    by (vm_compute; reflexivity).
  assert (Hc : Pipeline.cycle branch_state = Some (true, p1))
    by (vm_compute; reflexivity).
  assert (Ht : EX_MEM.branch_taken (Pipeline.ex_mem p1) = true)
    by (vm_compute; reflexivity).
  assert (Hh : Pipeline.halted p1 = false) by (vm_compute; reflexivity).
  assert (Hg : EX_MEM.branch_target (Pipeline.ex_mem p1) = 16)
    by (vm_compute; reflexivity).
  pose proof (reachable_cycles_n 4 _ _ (reach_init _ _) H4) as Hr.
  destruct (branch_target_fetched_twice branch_state true p1 Hr eq_refl Hc Ht)
    as (_ & _ & Hf & _ & _ & _ & Hn).
  destruct (Hn Hh) as (_ & b2 & p2 & Hc2 & _ & _ & Hd & _ & Hf2 & _).
  rewrite Hg in Hf, Hd, Hf2.
  exists p0, true, p1, b2, p2.
  split; [exact H0|]. split; [exact H4|]. split; [exact Hc|].
  split; [exact Hg|]. split; [rewrite Hf; reflexivity|].
  split; [exact Hc2|]. split; [exact Hd|].
  rewrite Hf2. reflexivity.
Defined.


(* --------------------------------------------------------------------- *)
(** ** The two passes of the assembler                                    *)
(* --------------------------------------------------------------------- *)

Lemma bump_add j k x : bump (j + k) x = bump j (bump k x).
Proof. unfold bump. apply Nat.iter_add. Qed.

Lemma bump_u32 k x :
  0 <= x < 2 ^ 32 -> bump k x = u32 (x + 4 * Z.of_nat k).
Proof.
  intros Hx. induction k as [|k IH].
  - cbn. unfold u32. rewrite Z.add_0_r, Z.mod_small; lia.
  - unfold bump in *. rewrite Nat.iter_succ, IH. unfold u32.
    rewrite Zplus_mod_idemp_l. f_equal. lia.
Qed.

Lemma u32_twice x : u32 (u32 (x + 4) + 4) = u32 (x + 8).
Proof. unfold u32. rewrite Zplus_mod_idemp_l. f_equal. lia. Qed.

Lemma emitted_refl a : emitted 0 a a.
Proof. unfold emitted. cbn. auto. Qed.

Lemma emitted_trans j k a b c :
  emitted k a b -> emitted j b c -> emitted (j + k) a c.
Proof.
  unfold emitted. intros (L1 & N1 & T1) (L2 & N2 & T2).
  rewrite L2, N2, T2, L1, N1, T1, bump_add. repeat split. lia.
Qed.

Lemma emitted_emit w s a : emitted 1 a (Assembler.emit w s a).
Proof.
  unfold emitted, Assembler.emit. cbn. rewrite length_app. cbn. auto.
Qed.

(** Steps of the second pass, read from the outside in. *)
Lemma em_here a : exists k, emitted k a a.
Proof. exists 0%nat. apply emitted_refl. Qed.

Lemma em_emit w s a b :
  (exists k, emitted k a b) -> exists k, emitted k a (Assembler.emit w s b).
Proof.
  intros (k & H). exists (1 + k)%nat.
  exact (emitted_trans _ _ _ _ _ H (emitted_emit w s b)).
Qed.

Lemma em_error m a b :
  (exists k, emitted k a b) -> exists k, emitted k a (Assembler.error m b).
Proof. intros (k & H). exists k. exact H. Qed.

Lemma em_in_data v a b :
  (exists k, emitted k a b) ->
  exists k, emitted k a (Assembler.set_in_data v b).
Proof. intros (k & H). exists k. exact H. Qed.

Lemma em_data_addr v a b :
  (exists k, emitted k a b) ->
  exists k, emitted k a (Assembler.set_data_addr v b).
Proof. intros (k & H). exists k. exact H. Qed.

Lemma em_push v a b :
  (exists k, emitted k a b) ->
  exists k, emitted k a (Assembler.push_data v b).
Proof. intros (k & H). exists k. exact H. Qed.

Lemma em_line_num v a b :
  (exists k, emitted k a b) ->
  exists k, emitted k a (Assembler.set_line_num v b).
Proof. intros (k & H). exists k. exact H. Qed.

Lemma em_if (c : bool) a x y :
  (exists k, emitted k a x) -> (exists k, emitted k a y) ->
  exists k, emitted k a (if c then x else y).
Proof. destruct c; auto. Qed.

Lemma em_fold {A} (f : Assembler.t -> A -> Assembler.t) (l : list A) :
  (forall a b x, (exists k, emitted k a b) -> exists k, emitted k a (f b x)) ->
  forall a b, (exists k, emitted k a b) ->
              exists k, emitted k a (fold_left f l b).
Proof.
  intros Hf. induction l as [|x l IH]; intros a b Hb; cbn; auto.
Qed.

Create HintDb second_pass.
#[local] Hint Resolve em_here em_emit em_error em_in_data em_data_addr
  em_push em_line_num em_if : second_pass.

Lemma em_word_item a b s :
  (exists k, emitted k a b) ->
  exists k, emitted k a (Assembler.word_item false b s).
Proof.
  intros H. unfold Assembler.word_item.
  destruct (Assembler.parse_imm s); [|exact H].
  cbv zeta. cbn [fold_left].
  repeat match goal with
         | |- context [if ?c then _ else _] => destruct c
         end; auto 10 with second_pass.
Qed.

Lemma em_half_item a b s :
  (exists k, emitted k a b) ->
  exists k, emitted k a (Assembler.half_item false b s).
Proof.
  intros H. unfold Assembler.half_item.
  destruct (Assembler.parse_imm s); [|exact H].
  cbv zeta.
  repeat match goal with
         | |- context [if ?c then _ else _] => destruct c
         end; auto 10 with second_pass.
Qed.

Lemma em_byte_item a b s :
  (exists k, emitted k a b) ->
  exists k, emitted k a (Assembler.byte_item false b s).
Proof.
  intros H. unfold Assembler.byte_item.
  destruct (Assembler.parse_imm s); [|exact H].
  cbv zeta.
  repeat match goal with
         | |- context [if ?c then _ else _] => destruct c
         end; auto 10 with second_pass.
Qed.

(** *** The two passes side by side *)

Ltac sync_crush :=
  unfold synced, Assembler.emit_or_reserve, Assembler.emit, Assembler.reserve,
    Assembler.error, Assembler.push_data in *;
  cbn in *; intuition (try congruence).

Lemma sy_step w s a1 a2 :
  synced a1 a2 -> synced (Assembler.reserve a1) (Assembler.emit w s a2).
Proof. sync_crush. Qed.

Lemma sy_step2 w s w' s' a1 a2 :
  synced a1 a2 ->
  synced (Assembler.set_text_addr (u32 (Assembler.text_addr a1 + 8)) a1)
         (Assembler.emit w s (Assembler.emit w' s' a2)).
Proof.
  intros (H1 & H2 & H3). unfold synced, Assembler.emit. cbn.
  rewrite u32_twice, H1. auto.
Qed.

Lemma sy_error_l m a1 a2 : synced a1 a2 -> synced (Assembler.error m a1) a2.
Proof. sync_crush. Qed.

Lemma sy_error_r m a1 a2 : synced a1 a2 -> synced a1 (Assembler.error m a2).
Proof. sync_crush. Qed.

Lemma sy_emit_or_reserve w s w' s' a1 a2 :
  synced a1 a2 ->
  synced (Assembler.emit_or_reserve true w s a1)
         (Assembler.emit_or_reserve false w' s' a2).
Proof. sync_crush. Qed.

Lemma sy_labels l a1 a2 :
  synced a1 a2 -> synced (Assembler.set_labels l a1) a2.
Proof. sync_crush. Qed.

Lemma sy_line_num v w a1 a2 :
  synced a1 a2 ->
  synced (Assembler.set_line_num v a1) (Assembler.set_line_num w a2).
Proof. sync_crush. Qed.

Lemma sy_in_data v a1 a2 :
  synced a1 a2 ->
  synced (Assembler.set_in_data v a1) (Assembler.set_in_data v a2).
Proof. sync_crush. Qed.

Lemma sy_word_item s a1 a2 :
  synced a1 a2 ->
  synced (Assembler.word_item true a1 s) (Assembler.word_item false a2 s).
Proof.
  intros (H1 & H2 & H3). unfold Assembler.word_item.
  destruct (Assembler.parse_imm s); [|repeat split; assumption].
  cbn [negb andb fold_left]. cbv zeta.
  destruct (Assembler.in_data a2) eqn:E; rewrite H3;
    unfold synced; cbn; rewrite ?E, ?H3; cbn; rewrite ?H2; auto.
Qed.

Lemma sy_half_item s a1 a2 :
  synced a1 a2 ->
  synced (Assembler.half_item true a1 s) (Assembler.half_item false a2 s).
Proof.
  intros (H1 & H2 & H3). unfold Assembler.half_item.
  destruct (Assembler.parse_imm s); [|repeat split; assumption].
  cbn [negb andb]. cbv zeta.
  destruct (Assembler.in_data a2) eqn:E; rewrite H3;
    unfold synced; cbn; rewrite ?E, ?H3; cbn; rewrite ?H2; auto.
Qed.

Lemma sy_byte_item s a1 a2 :
  synced a1 a2 ->
  synced (Assembler.byte_item true a1 s) (Assembler.byte_item false a2 s).
Proof.
  intros (H1 & H2 & H3). unfold Assembler.byte_item.
  destruct (Assembler.parse_imm s); [|repeat split; assumption].
  cbn [negb andb]. cbv zeta.
  destruct (Assembler.in_data a2) eqn:E; rewrite H3;
    unfold synced; cbn; rewrite ?E, ?H3; cbn; rewrite ?H2; auto.
Qed.

Lemma sy_fold (f g : Assembler.t -> string -> Assembler.t) l :
  (forall s a1 a2, synced a1 a2 -> synced (f a1 s) (g a2 s)) ->
  forall a1 a2, synced a1 a2 -> synced (fold_left f l a1) (fold_left g l a2).
Proof.
  intros Hf. induction l as [|x l IH]; intros a1 a2 H; cbn; auto.
Qed.

(** Pushed bytes leave the cursors and the flag alone. *)
Lemma sy_pushes {A} (f : Assembler.t -> A -> Assembler.t) (l : list A) :
  (forall a x, synced a (f a x) /\ synced (f a x) a) ->
  forall a1 a2, synced a1 a2 -> synced a1 (fold_left f l a2).
Proof.
  intros Hf. induction l as [|x l IH]; intros a1 a2 H; cbn; auto.
  apply IH. destruct (Hf a2 x) as ((E1 & E2 & E3) & _).
  destruct H as (H1 & H2 & H3). unfold synced.
  rewrite <- E1, <- E2, <- E3. auto.
Qed.

(** *** [.align] *)

Lemma align_text_lockstep al fuel : forall a1 a2 a1',
  synced a1 a2 ->
  Assembler.align_text fuel al true a1 = Some a1' ->
  exists a2',
    Assembler.align_text fuel al false a2 = Some a2' /\
    synced a1' a2' /\ exists k, emitted k a2 a2'.
Proof.
  induction fuel as [|fuel IH]; intros a1 a2 a1' Hs;
    pose proof Hs as (H1 & _); cbn [Assembler.align_text]; rewrite <- H1;
    destruct (Assembler.text_addr a1 mod al =? 0).
  - intros [= <-]. eauto with second_pass.
  - discriminate.
  - intros [= <-]. eauto with second_pass.
  - intros H.
    destruct (IH _ (Assembler.emit_or_reserve false 19 EmptyString a2) _
                (sy_emit_or_reserve _ _ _ _ _ _ Hs) H)
      as (a2' & Ha & Hs' & k & Hk).
    exists a2'. split; [exact Ha|]. split; [exact Hs'|].
    exists (k + 1)%nat.
    exact (emitted_trans _ _ _ _ _ (emitted_emit _ _ _) Hk).
Qed.

Lemma align_data_lockstep al fuel : forall a1 a2 a1',
  synced a1 a2 ->
  Assembler.align_data fuel al true a1 = Some a1' ->
  exists a2',
    Assembler.align_data fuel al false a2 = Some a2' /\
    synced a1' a2' /\ exists k, emitted k a2 a2'.
Proof.
  induction fuel as [|fuel IH]; intros a1 a2 a1' Hs;
    pose proof Hs as (H1 & H2 & H3); cbn [Assembler.align_data];
    rewrite <- H2; destruct (Assembler.data_addr a1 mod al =? 0).
  - intros [= <-]. eauto with second_pass.
  - discriminate.
  - intros [= <-]. eauto with second_pass.
  - cbn [negb]. cbv zeta. intros H.
    assert (Hs1 : synced
              (Assembler.set_data_addr (u32 (Assembler.data_addr a1 + 1)) a1)
              (Assembler.set_data_addr
                 (u32 (Assembler.data_addr (Assembler.push_data 0 a2) + 1))
                 (Assembler.push_data 0 a2))).
    { unfold synced. cbn. rewrite H2. auto. }
    destruct (IH _ _ _ Hs1 H) as (a2' & Ha & Hs' & k & Hk).
    exists a2'. split; [exact Ha|]. split; [exact Hs'|].
    exists k. destruct Hk as (K1 & K2 & K3). repeat split; assumption.
Qed.

(** *** Directives *)

(** Pushing data bytes touches nothing the passes are compared on. *)
Lemma pushes_frame {A} (f : Assembler.t -> A -> Assembler.t) (l : list A) :
  (forall a x, exists b, f a x = Assembler.push_data b a) ->
  forall a,
    let a' := fold_left f l a in
    Assembler.text_addr a' = Assembler.text_addr a /\
    Assembler.data_addr a' = Assembler.data_addr a /\
    Assembler.in_data a' = Assembler.in_data a /\
    Assembler.labels a' = Assembler.labels a /\
    Assembler.text_out a' = Assembler.text_out a.
Proof.
  intros Hf. induction l as [|x l IH]; intros a; cbn; [auto 6|].
  destruct (Hf a x) as (b & ->).
  destruct (IH (Assembler.push_data b a)) as (E1 & E2 & E3 & E4 & E5).
  cbv zeta in *. rewrite E1, E2, E3, E4, E5. cbn. auto 6.
Qed.

Lemma pushes_lockstep {A} (f : Assembler.t -> A -> Assembler.t) (l : list A)
    (d : Z) a1 a2 :
  (forall a x, exists b, f a x = Assembler.push_data b a) ->
  synced a1 a2 ->
  let b1 := if Assembler.in_data a1
            then Assembler.set_data_addr (u32 (Assembler.data_addr a1 + d)) a1
            else a1 in
  let p2 := fold_left f l a2 in
  (synced b1 (if Assembler.in_data p2
              then Assembler.set_data_addr (u32 (Assembler.data_addr p2 + d)) p2
              else p2) /\
   exists k, emitted k a2
               (if Assembler.in_data p2
                then Assembler.set_data_addr
                       (u32 (Assembler.data_addr p2 + d)) p2
                else p2)) /\
  (synced b1 (if Assembler.in_data (Assembler.push_data 0 p2)
              then Assembler.set_data_addr
                     (u32 (Assembler.data_addr (Assembler.push_data 0 p2) + d))
                     (Assembler.push_data 0 p2)
              else Assembler.push_data 0 p2) /\
   exists k, emitted k a2
               (if Assembler.in_data (Assembler.push_data 0 p2)
                then Assembler.set_data_addr
                       (u32 (Assembler.data_addr (Assembler.push_data 0 p2) + d))
                       (Assembler.push_data 0 p2)
                else Assembler.push_data 0 p2)).
Proof.
  intros Hf (H1 & H2 & H3). cbv zeta.
  destruct (pushes_frame f l Hf a2) as (E1 & E2 & E3 & E4 & E5).
  cbv zeta in *. cbn [Assembler.in_data Assembler.push_data
                      Assembler.set_data_out Assembler.data_addr].
  rewrite E3, E2, H3, H2.
  destruct (Assembler.in_data a2);
    (split; (split; [unfold synced; cbn; rewrite ?E1, ?E2, ?E3; auto
                    |exists 0%nat; unfold emitted; cbn;
                     rewrite ?E1, ?E4, ?E5; auto])).
Qed.

Lemma directive_lockstep line a1 a2 a1' :
  synced a1 a2 ->
  Assembler.handle_directive line true a1 = Some a1' ->
  exists a2',
    Assembler.handle_directive line false a2 = Some a2' /\
    synced a1' a2' /\ exists k, emitted k a2 a2'.
Proof.
  intros Hs. pose proof Hs as (H1 & H2 & H3).
  unfold Assembler.handle_directive.
  destruct (Assembler.split line " ") as [|p0 args].
  { intros [= <-]. eauto with second_pass. }
  cbv zeta.
  destruct (_ =? ".text")%string.
  { intros [= <-]. eexists. split; [reflexivity|].
    split; [apply sy_in_data; exact Hs | auto with second_pass]. }
  destruct (_ =? ".data")%string.
  { intros [= <-]. eexists. split; [reflexivity|].
    split; [apply sy_in_data; exact Hs | auto with second_pass]. }
  destruct (_ || _).
  { intros [= <-]. eauto with second_pass. }
  destruct (_ =? ".word")%string.
  { intros [= <-]. eexists. split; [reflexivity|]. split.
    - apply sy_fold; [apply sy_word_item | exact Hs].
    - apply em_fold; [intros; apply em_word_item; assumption | apply em_here]. }
  destruct (_ =? ".half")%string.
  { intros [= <-]. eexists. split; [reflexivity|]. split.
    - apply sy_fold; [apply sy_half_item | exact Hs].
    - apply em_fold; [intros; apply em_half_item; assumption | apply em_here]. }
  destruct (_ =? ".byte")%string.
  { intros [= <-]. eexists. split; [reflexivity|]. split.
    - apply sy_fold; [apply sy_byte_item | exact Hs].
    - apply em_fold; [intros; apply em_byte_item; assumption | apply em_here]. }
  destruct (_ || _).
  { destruct (Assembler.find _ line) as [q1|];
      [|intros [= <-]; eauto with second_pass].
    destruct (Assembler.rfind _ line) as [q2|];
      [|intros [= <-]; eauto with second_pass].
    destruct (q1 <? q2)%nat; [|intros [= <-]; eauto with second_pass].
    cbn [negb andb]. cbv zeta. intros [= <-].
    eexists. split; [reflexivity|].
    match goal with
    | |- context [fold_left ?f ?l a2] =>
        destruct (pushes_lockstep f l
                    (Z.of_nat (List.length l) + 1) a1 a2) as (Hn & Hy);
          [intros; eexists; reflexivity | exact Hs |]
    end.
    cbv zeta in Hn, Hy.
    destruct (Assembler.in_data a2) eqn:E; [exact Hy|].
    rewrite H3, E.
    split; [exact Hs | apply em_here]. }
  destruct (_ =? ".space")%string.
  { destruct args as [|s1 args]; [intros [= <-]; eauto with second_pass|].
    destruct (Assembler.parse_imm s1) as [sz|];
      [|intros [= <-]; eauto with second_pass].
    cbn [negb andb]. cbv zeta. intros [= <-].
    eexists. split; [reflexivity|].
    match goal with
    | |- context [fold_left ?f ?l a2] =>
        destruct (pushes_lockstep f l sz a1 a2) as (Hn & Hy);
          [intros; eexists; reflexivity | exact Hs |]
    end.
    cbv zeta in Hn, Hy.
    destruct (Assembler.in_data a2) eqn:E; [exact Hn|].
    rewrite H3, E.
    split; [exact Hs | apply em_here]. }
  destruct (_ =? ".align")%string.
  { destruct args as [|s1 args]; [intros [= <-]; eauto with second_pass|].
    destruct (Assembler.parse_imm s1) as [p|];
      [|intros [= <-]; eauto with second_pass].
    destruct (_ || _); [discriminate|].
    rewrite H3. destruct (Assembler.in_data a2).
    - apply align_data_lockstep. exact Hs.
    - apply align_text_lockstep. exact Hs. }
  intros [= <-]. eauto with second_pass.
Qed.

(** *** Instructions *)

Lemma known_true tbl l : known tbl l = true -> is_Some (tbl !! l).
Proof. unfold known. apply bool_decide_eq_true. Qed.

Ltac lockstep_leaf :=
  unfold Assembler.emit_or_reserve, Assembler.branch_label,
    Assembler.jump_label, known_or_number;
  change (negb true) with false; change (negb false) with true; cbv iota;
  repeat match goal with
         | |- context [Assembler.parse_imm ?x] =>
             destruct (Assembler.parse_imm x)
         end;
  try match goal with
      | |- known _ ?l = true -> _ =>
          let H := fresh in
          let v := fresh in
          let E := fresh in
          intros H; apply known_true in H; destruct H as [v E]; rewrite E
      end;
  intros;
  repeat match goal with
         | |- context [if ?c then _ else _] => destruct c
         end;
  unfold pseudo_ok; cbn [fst snd];
  (split; [reflexivity|]);
  (split; [intros _ | intros; discriminate]);
  (split;
   [ eauto 6 using sy_step, sy_step2, sy_error_l, sy_error_r
   | auto 6 with second_pass ]).

Lemma pseudo_lockstep mnem ops src a1 a2 :
  synced a1 a2 ->
  resolved (Assembler.labels a2) mnem ops = true ->
  pseudo_ok (Assembler.labels a2) mnem ops a2
    (Assembler.handle_pseudo mnem ops src true a1)
    (Assembler.handle_pseudo mnem ops src false a2).
Proof.
  intros Hs. unfold Assembler.handle_pseudo, resolved. cbv zeta.
  repeat match goal with
         | |- _ -> pseudo_ok _ _ _ _ (if ?c then _ else _) _ =>
             destruct c; [lockstep_leaf |]
         end.
  intros Hr. unfold pseudo_ok. cbn [fst snd].
  split; [reflexivity|]. split; [discriminate|]. intros _. exact Hr.
Qed.

Ltac real_leaf :=
  unfold Assembler.emit_or_reserve, known_or_number;
  change (negb true) with false; change (negb false) with true; cbv iota;
  repeat match goal with
         | |- context [Assembler.parse_imm ?x] =>
             destruct (Assembler.parse_imm x)
         end;
  try match goal with
      | |- known _ ?l = true -> _ =>
          let H := fresh in
          let v := fresh in
          let E := fresh in
          intros H; apply known_true in H; destruct H as [v E]; rewrite E
      end;
  intros;
  repeat match goal with
         | |- context [if ?c then _ else _] => destruct c
         end;
  unfold real_ok;
  (split;
   [ eauto 6 using sy_step, sy_step2, sy_error_l, sy_error_r
   | auto 6 with second_pass ]).

Lemma real_lockstep indet mnem ops src a1 a2 :
  synced a1 a2 ->
  resolved_real (Assembler.labels a2) mnem ops = true ->
  real_ok a2 (Assembler.handle_instruction indet mnem ops src true a1)
             (Assembler.handle_instruction indet mnem ops src false a2).
Proof.
  intros Hs. unfold Assembler.handle_instruction, resolved_real. cbv zeta.
  change (negb true) with false. change (negb false) with true. cbv iota.
  repeat (match goal with
          | |- _ -> real_ok _ (match (if ?c then _ else _) with _ => _ end) _ =>
              destruct c
          | |- _ -> real_ok _ (match ?x with _ => _ end) _ =>
              destruct x
          end; cbv iota).
  all: real_leaf.
Qed.

(** *** Lines and sweeps *)

Lemma dot_match {A} (c : ascii) (x y : A) :
  match c with "."%char => x | _ => y end =
  if Ascii.eqb c "." then x else y.
Proof. destruct c as [[] [] [] [] [] [] [] []]; reflexivity. Qed.

Lemma body_lockstep indet orig rest a1 a2 a1' :
  synced a1 a2 ->
  match rest with
  | EmptyString => true
  | String "." _ => true
  | _ =>
      let '(mnem, ops) := Assembler.mnemonic_operands rest in
      resolved (Assembler.labels a2) mnem ops
  end = true ->
  match rest with
  | EmptyString => Some a1
  | String "." _ => Assembler.handle_directive rest true a1
  | _ =>
      if negb (Assembler.in_data a1) then
        let '(mnem, ops) := Assembler.mnemonic_operands rest in
        let '(is_pseudo, a') := Assembler.handle_pseudo mnem ops orig true a1 in
        if negb is_pseudo
        then Some (Assembler.handle_instruction indet mnem ops orig true a1)
        else Some a'
      else Some a1
  end = Some a1' ->
  exists a2',
    match rest with
    | EmptyString => Some a2
    | String "." _ => Assembler.handle_directive rest false a2
    | _ =>
        if negb (Assembler.in_data a2) then
          let '(mnem, ops) := Assembler.mnemonic_operands rest in
          let '(is_pseudo, a') :=
            Assembler.handle_pseudo mnem ops orig false a2 in
          if negb is_pseudo
          then Some (Assembler.handle_instruction indet mnem ops orig false a2)
          else Some a'
        else Some a2
    end = Some a2' /\
    synced a1' a2' /\ exists k, emitted k a2 a2'.
Proof.
  intros Hs. pose proof Hs as (H1 & H2 & H3).
  destruct rest as [|c rest].
  { intros _ [= <-]. eauto with second_pass. }
  rewrite !dot_match. destruct (Ascii.eqb c ".").
  { intros _. apply directive_lockstep. exact Hs. }
  rewrite H3. destruct (Assembler.in_data a2); cbn [negb].
  { intros _ [= <-]. eauto with second_pass. }
  destruct (Assembler.mnemonic_operands _) as [mnem ops].
  intros Hr.
  pose proof (pseudo_lockstep mnem ops orig a1 a2 Hs Hr) as Hp.
  destruct (Assembler.handle_pseudo mnem ops orig true a1) as [f1 b1].
  destruct (Assembler.handle_pseudo mnem ops orig false a2) as [f2 b2].
  destruct Hp as (Hf & Ht & Hn). cbn [fst snd] in Hf, Ht, Hn. subst f2.
  destruct f1; cbn [negb]; intros [= <-].
  - exists b2. split; [reflexivity|]. apply Ht. reflexivity.
  - eexists. split; [reflexivity|].
    apply (real_lockstep indet mnem ops orig a1 a2 Hs). apply Hn. reflexivity.
Qed.

Lemma line_lockstep indet line a1 a2 a1' :
  synced a1 a2 ->
  line_resolved (Assembler.labels a2) line = true ->
  Assembler.process_line indet line true a1 = Some a1' ->
  exists a2',
    Assembler.process_line indet line false a2 = Some a2' /\
    synced a1' a2' /\ exists k, emitted k a2 a2'.
Proof.
  intros Hs. unfold Assembler.process_line, line_resolved. cbv zeta.
  destruct (_ =? EmptyString)%string.
  { intros _ [= <-]. eauto with second_pass. }
  destruct (Assembler.label_prefix _) as [[label rest]|].
  - apply body_lockstep. apply sy_labels. exact Hs.
  - apply body_lockstep. exact Hs.
Qed.

Lemma sweep_lockstep indet lines : forall a1 a2 a1',
  synced a1 a2 ->
  Forall (fun l => line_resolved (Assembler.labels a2) l = true) lines ->
  Assembler.sweep indet true lines a1 = Some a1' ->
  exists a2',
    Assembler.sweep indet false lines a2 = Some a2' /\
    synced a1' a2' /\ exists k, emitted k a2 a2'.
Proof.
  induction lines as [|l ls IH]; intros a1 a2 a1' Hs Hr; cbn [Assembler.sweep].
  { intros [= <-]. eauto with second_pass. }
  inversion Hr as [|? ? Hl Hls]; subst.
  destruct (Assembler.process_line indet l true _) as [b1|] eqn:E1;
    [|discriminate].
  cbn. intros Hsw.
  destruct (line_lockstep indet l _
              (Assembler.set_line_num (s32 (Assembler.line_num a2 + 1)) a2)
              b1 (sy_line_num _ _ _ _ Hs) Hl E1)
    as (b2 & E2 & Hs2 & k & Hk).
  rewrite E2. cbn.
  assert (Hl2 : Assembler.labels b2 = Assembler.labels a2)
    by (destruct Hk as (-> & _); reflexivity).
  rewrite <- Hl2 in Hls.
  destruct (IH b1 b2 a1' Hs2 Hls Hsw) as (a2' & E3 & Hs3 & j & Hj).
  exists a2'. split; [exact E3|]. split; [exact Hs3|].
  exists (j + k)%nat.
  apply (emitted_trans j k a2 b2 a2'); [|exact Hj].
  destruct Hk as (K1 & K2 & K3). repeat split; assumption.
Qed.

(** *** The first pass emits nothing *)

Lemma kept_fold {A} (f : Assembler.t -> A -> Assembler.t) (l : list A) :
  (forall a x, kept a (f a x)) -> forall a, kept a (fold_left f l a).
Proof.
  intros Hf. induction l as [|x l IH]; intros a; cbn; [reflexivity|].
  unfold kept in *. rewrite IH. apply Hf.
Qed.

Lemma kept_align_text al fuel : forall a a',
  Assembler.align_text fuel al true a = Some a' -> kept a a'.
Proof.
  induction fuel as [|fuel IH]; intros a a'; cbn [Assembler.align_text];
    destruct (_ =? 0); try discriminate; try (intros [= <-]; reflexivity).
  intros H. apply IH in H. exact H.
Qed.

Lemma kept_align_data al fuel : forall a a',
  Assembler.align_data fuel al true a = Some a' -> kept a a'.
Proof.
  induction fuel as [|fuel IH]; intros a a'; cbn [Assembler.align_data];
    destruct (_ =? 0); try discriminate; try (intros [= <-]; reflexivity).
  intros H. apply IH in H. exact H.
Qed.

Ltac kept_cases :=
  change (negb true) with false; cbv iota zeta; cbn [andb];
  repeat match goal with
         | |- context [match ?x with _ => _ end] => destruct x
         end;
  try reflexivity.

Lemma kept_directive line a a' :
  Assembler.handle_directive line true a = Some a' -> kept a a'.
Proof.
  unfold Assembler.handle_directive.
  destruct (Assembler.split line " ") as [|p0 args];
    [intros [= <-]; reflexivity|].
  cbv zeta.
  repeat match goal with
         | |- (if ?c then _ else _) = _ -> _ =>
             destruct c;
               [ try (intros [= <-]; first
                        [ reflexivity
                        | apply kept_fold; intros;
                          unfold Assembler.word_item, Assembler.half_item,
                            Assembler.byte_item; kept_cases ]) |]
         end.
  - kept_cases; intros [= <-]; reflexivity.
  - kept_cases; intros [= <-]; reflexivity.
  - destruct args as [|s1 args]; [intros [= <-]; reflexivity|].
    destruct (Assembler.parse_imm s1); [|intros [= <-]; reflexivity].
    destruct (_ || _); [discriminate|].
    destruct (Assembler.in_data a);
      [apply kept_align_data | apply kept_align_text].
  - intros [= <-]. reflexivity.
Qed.

Lemma kept_pseudo mnem ops src a :
  kept a (snd (Assembler.handle_pseudo mnem ops src true a)).
Proof.
  unfold Assembler.handle_pseudo, Assembler.emit_or_reserve,
    Assembler.branch_label, Assembler.jump_label.
  change (negb true) with false. cbv iota zeta.
  repeat match goal with
         | |- kept _ (snd (if ?c then _ else _)) =>
             destruct c; [try reflexivity |]
         end; try reflexivity.
  destruct (Assembler.parse_imm _); [|reflexivity].
  repeat match goal with
         | |- context [if ?c then _ else _] => destruct c
         end; reflexivity.
Qed.

Lemma kept_real indet mnem ops src a :
  kept a (Assembler.handle_instruction indet mnem ops src true a).
Proof.
  unfold Assembler.handle_instruction, Assembler.emit_or_reserve.
  change (negb true) with false. cbv iota zeta.
  repeat (match goal with
          | |- kept _ (match (if ?c then _ else _) with _ => _ end) =>
              destruct c
          | |- kept _ (match ?x with _ => _ end) => destruct x
          end; cbv iota); reflexivity.
Qed.

Lemma kept_line indet line a a' :
  Assembler.process_line indet line true a = Some a' -> kept a a'.
Proof.
  unfold Assembler.process_line. cbv zeta.
  destruct (_ =? EmptyString)%string; [intros [= <-]; reflexivity|].
  assert (Hb : forall rest b,
             kept a b ->
             match rest with
             | EmptyString => Some b
             | String "." _ => Assembler.handle_directive rest true b
             | _ =>
                 if negb (Assembler.in_data b) then
                   let '(mnem, ops) := Assembler.mnemonic_operands rest in
                   let '(is_pseudo, a') :=
                     Assembler.handle_pseudo mnem ops line true b in
                   if negb is_pseudo
                   then Some (Assembler.handle_instruction indet mnem ops
                                line true b)
                   else Some a'
                 else Some b
             end = Some a' -> kept a a').
  { intros rest b Hk. unfold kept in *.
    destruct rest as [|c rest]; [intros [= <-]; exact Hk|].
    rewrite dot_match. destruct (Ascii.eqb c ".").
    { intros H. apply kept_directive in H. unfold kept in H. congruence. }
    destruct (negb _); [|intros [= <-]; exact Hk].
    destruct (Assembler.mnemonic_operands _) as [mnem ops].
    pose proof (kept_pseudo mnem ops line b) as Hp.
    destruct (Assembler.handle_pseudo mnem ops line true b) as [f b'].
    destruct f; cbn [negb]; intros [= <-].
    - unfold kept in Hp. cbn in Hp. congruence.
    - rewrite (kept_real indet mnem ops line b). exact Hk. }
  destruct (Assembler.label_prefix _) as [[label rest]|]; apply Hb;
    reflexivity.
Qed.

Lemma kept_sweep indet lines : forall a a',
  Assembler.sweep indet true lines a = Some a' -> kept a a'.
Proof.
  induction lines as [|l ls IH]; intros a a'; cbn [Assembler.sweep].
  { intros [= <-]. reflexivity. }
  destruct (Assembler.process_line indet l true _) as [b|] eqn:E;
    [|discriminate].
  cbn. intros H. apply IH in H. apply kept_line in E.
  unfold kept in *. cbn in E. congruence.
Qed.

(** The whole program: when every label the second pass looks up is in
    the symbol table the first pass has built, the assembler returns, and
    the text cursor the first pass ends on is four times the number of words
    in the text it returns. *)
Lemma assemble_in_step (indet : Z) (src : string) (a1 : Assembler.t) :
  Assembler.sweep indet true (Assembler.getlines "010" src)
    (Assembler.rewind Assembler.fresh) = Some a1 ->
  Forall (fun l => line_resolved (Assembler.labels a1) l = true)
         (Assembler.getlines "010" src) ->
  exists res,
    Assembler.assemble indet src = Some res /\
    Assembler.symbols res = Assembler.labels a1 /\
    Assembler.text_addr a1 =
      u32 (4 * Z.of_nat (List.length (Assembler.text res))).
Proof.
  intros H1 Hr. unfold Assembler.assemble. cbv zeta. rewrite H1. cbn [mbind option_bind].
  assert (Hs : synced (Assembler.rewind Assembler.fresh) (Assembler.rewind a1))
    by (repeat split).
  destruct (sweep_lockstep indet _ _ (Assembler.rewind a1) a1 Hs Hr H1)
    as (a2 & E & (Hs' & _) & k & Hl & Hn & Ht).
  rewrite E. cbn [mbind option_bind].
  eexists. split; [reflexivity|]. cbn.
  split; [exact Hl|].
  pose proof (kept_sweep indet _ _ _ H1) as Hk. unfold kept in Hk.
  cbn in Hn, Hk, Ht. rewrite Hk in Hn. cbn in Hn. rewrite Hn, Hs', Ht.
  apply (bump_u32 k 0). lia.
Qed.

(** C6, amended.  Let the two passes start a run of source lines with the
    same cursors and section, the text cursor being a 32-bit word, and let
    every label the second pass looks up on these lines be in its symbol
    table.  If the first pass gets through the lines, so does the second,
    which leaves its symbol table alone and emits some [k] words; the first
    pass has advanced its text cursor by [4 * k] bytes, and the cursors and
    the section of the two passes agree again. *)
Theorem passes_in_step (indet : Z) (lines : list string)
    (a1 a2 a1' : Assembler.t) :
  synced a1 a2 ->
  0 <= Assembler.text_addr a1 < 2 ^ 32 ->
  Forall (fun l => line_resolved (Assembler.labels a2) l = true) lines ->
  Assembler.sweep indet true lines a1 = Some a1' ->
  exists a2' k,
    Assembler.sweep indet false lines a2 = Some a2' /\
    Assembler.labels a2' = Assembler.labels a2 /\
    List.length (Assembler.text_out a2') =
      (List.length (Assembler.text_out a2) + k)%nat /\
    Assembler.text_addr a1' =
      u32 (Assembler.text_addr a1 + 4 * Z.of_nat k) /\
    synced a1' a2'.
Proof.
  intros Hs Hx Hr Hsw.
  destruct (sweep_lockstep indet lines a1 a2 a1' Hs Hr Hsw)
    as (a2' & E & Hs' & k & Hl & Hn & Ht).
  exists a2', k. repeat (split; [assumption|]).
  split; [|exact Hs'].
  destruct Hs as (H1 & _). destruct Hs' as (H1' & _).
  rewrite H1', Ht, <- H1. apply bump_u32. exact Hx.
Qed.

Lemma passes_in_step_witness :
  exists a1 a2 k,
    Assembler.sweep 0 true lockstep_lines (Assembler.rewind Assembler.fresh)
      = Some a1 /\
    Assembler.sweep 0 false lockstep_lines (Assembler.rewind a1) = Some a2 /\
    List.length (Assembler.text_out a2) = k /\
    Assembler.text_addr a1 = u32 (4 * Z.of_nat k) /\
    Assembler.text_addr a1 = 44.
Proof.
  set (a1 := match Assembler.sweep 0 true lockstep_lines
                     (Assembler.rewind Assembler.fresh) with
             | Some a => a
             | None => Assembler.fresh
             end).
  assert (H1 : Assembler.sweep 0 true lockstep_lines
                 (Assembler.rewind Assembler.fresh) = Some a1)
    by (vm_compute; reflexivity).
  assert (Hs : synced (Assembler.rewind Assembler.fresh) (Assembler.rewind a1))
    by (repeat split).
  assert (Hx : 0 <= Assembler.text_addr (Assembler.rewind Assembler.fresh)
               < 2 ^ 32) by (change (0 <= 0 < 2 ^ 32); lia).
  assert (Hr : Forall (fun l => line_resolved
                                  (Assembler.labels (Assembler.rewind a1)) l
                                = true) lockstep_lines)
    by (repeat constructor; vm_compute; reflexivity).
  assert (H0 : Assembler.text_out (Assembler.rewind a1) = [])
    by (vm_compute; reflexivity).
  assert (Ha : Assembler.text_addr a1 = 44) by (vm_compute; reflexivity).
  destruct (passes_in_step 0 lockstep_lines _ _ a1 Hs Hx Hr H1)
    as (a2 & k & E & _ & Hn & Ht & _).
  rewrite H0 in Hn.
  exists a1, a2, k.
  split; [exact H1|]. split; [exact E|]. split; [exact Hn|].
  split; [exact Ht | exact Ha].
Defined.

(* --------------------------------------------------------------------- *)
(** ** The single-cycle executor on [UNKNOWN] instructions                 *)
(* --------------------------------------------------------------------- *)

(** The control bits of a record the decoder marks [UNKNOWN]: it is no
    jump, and it writes a register only on the load path. *)
Lemma decode_unknown raw pc :
  type (Decoder.decode raw pc) = InsType.UNKNOWN ->
  jump (Decoder.decode raw pc) = false /\
  (mem_read (Decoder.decode raw pc) = false ->
   reg_write (Decoder.decode raw pc) = false).
Proof.
  pose proof (bits_range raw 14 12 ltac:(lia) ltac:(lia)) as Hf.
  change (2 ^ (14 - 12 + 1)) with 8 in Hf.
  unfold Decoder.decode, Decoder.decode_branch, Decoder.decode_load,
    Decoder.decode_store, Decoder.decode_imm, Decoder.decode_m,
    Decoder.decode_base, Decoder.get_funct3.
  cbv zeta.
  repeat match goal with
         | |- context [if ?c then _ else _] => destruct c eqn:?
         end;
    cbn; intros H; try discriminate H; auto;
    repeat match goal with
           | E : (_ =? _) = false |- _ => apply Z.eqb_neq in E
           end; lia.
Qed.

(** A single-cycle step of an [UNKNOWN] instruction runs to its end, leaves
    memory alone and advances the PC by 4; the register file is left alone
    unless the record has [mem_read] set, that is, unless it comes from the
    load opcode. *)
Lemma unknown_step (c : CPU.t) :
  CPU.halted c = false ->
  let ins := Decoder.decode (CPU.fetch c) (CPU.pc c) in
  type ins = InsType.UNKNOWN ->
  exists b c',
    CPU.step c = Some (b, c') /\
    CPU.mem c' = CPU.mem c /\
    CPU.pc c' = u32 (CPU.pc c + 4) /\
    (mem_read ins = false -> CPU.regs c' = CPU.regs c).
Proof.
  intros Hh ins Ht.
  destruct (decode_unknown _ _ Ht) as (Hj & Hw). fold ins in Hj, Hw.
  pose proof (decoded_sane ins (decoded_decode _ _)) as Hs.
  unfold CPU.step, CPU.execute, CPU.memory_access, CPU.writeback.
  rewrite Hh. cbv zeta. unfold CPU.decode. fold ins.
  rewrite Ht, Hj. cbn [InsType.eqb ALU.branch_taken].
  destruct (register_read_total (CPU.regs c) _ (sane_rs1 _ Hs)) as [v1 ->].
  destruct (register_read_total (CPU.regs c) _ (sane_rs2 _ Hs)) as [v2 ->].
  match goal with
  | |- context [ALU.execute ?o ?a ?b] =>
      destruct (alu_execute_total o a b) as [ar ->]
  end.
  replace (if branch ins then (u32 (CPU.pc c + 4), ar)
           else (u32 (CPU.pc c + 4), ar))
    with (u32 (CPU.pc c + 4), ar) by (destruct (branch ins); reflexivity).
  cbv iota beta.
  replace (if mem_read ins then None else None) with (@None Z)
    by (destruct (mem_read ins); reflexivity).
  replace (if mem_write ins then CPU.mem c else CPU.mem c) with (CPU.mem c)
    by (destruct (mem_write ins); reflexivity).
  cbv iota beta.
  destruct (register_write_total (CPU.regs c) (rd ins)
              (if mem_to_reg ins then ar else ar) (sane_rd _ Hs)) as [r Hr].
  destruct (reg_write ins && negb (rd ins =? 0)) eqn:Hrw.
  - rewrite Hr.
    destruct (CPU.has_breakpoint _ _); eexists; eexists;
      (split; [reflexivity|]); cbn; (split; [reflexivity|]);
      (split; [reflexivity|]); intros Hmr; rewrite (Hw Hmr) in Hrw;
      discriminate Hrw.
  - destruct (CPU.has_breakpoint _ _); eexists; eexists;
      (split; [reflexivity|]); cbn; auto.
Qed.

(* ===================================================================== *)
(** * Further properties of the code                                     *)
(* ===================================================================== *)

(* --------------------------------------------------------------------- *)
(** ** Memory: bytes, half-words, words                                   *)
(* --------------------------------------------------------------------- *)

Lemma read_write_byte_eq m a v :
  Memory.read_byte (Memory.write_byte m a v) a = v mod 2 ^ 8.
Proof.
  unfold Memory.read_byte, Memory.write_byte. rewrite lookup_insert_eq.
  reflexivity.
Qed.

Lemma read_write_byte_ne m a b v :
  a <> b -> Memory.read_byte (Memory.write_byte m a v) b = Memory.read_byte m b.
Proof.
  intros H. unfold Memory.read_byte, Memory.write_byte.
  rewrite lookup_insert_ne by exact H. reflexivity.
Qed.

Lemma byte_of_word v k :
  0 <= k -> Z.land (Z.shiftr v k) 0xFF mod 2 ^ 8 = (v / 2 ^ k) mod 2 ^ 8.
Proof.
  intros Hk. change 0xFF with (Z.ones 8).
  rewrite Z.land_ones, Z.shiftr_div_pow2 by lia.
  apply Z.mod_mod. lia.
Qed.

Lemma word_of_bytes b0 b1 b2 b3 :
  0 <= b0 < 2 ^ 8 -> 0 <= b1 < 2 ^ 8 -> 0 <= b2 < 2 ^ 8 -> 0 <= b3 < 2 ^ 8 ->
  Z.lor (Z.lor (Z.lor b0 (u32 (Z.shiftl b1 8))) (u32 (Z.shiftl b2 16)))
        (u32 (Z.shiftl b3 24))
  = b0 + b1 * 2 ^ 8 + b2 * 2 ^ 16 + b3 * 2 ^ 24.
Proof.
  intros H0 H1 H2 H3.
  rewrite !Z.shiftl_mul_pow2 by lia. rewrite !u32_small by lia.
  rewrite (Z.lor_comm b0).
  rewrite (lor_disjoint_add (b1 * 2 ^ 8) b0 8) by arith_side.
  rewrite (Z.lor_comm (b1 * 2 ^ 8 + b0)).
  rewrite (lor_disjoint_add (b2 * 2 ^ 16) _ 16) by arith_side.
  rewrite (Z.lor_comm (b2 * 2 ^ 16 + _)).
  rewrite (lor_disjoint_add (b3 * 2 ^ 24) _ 24) by arith_side.
  lia.
Qed.

(** The four byte addresses of a word are distinct, also where the
    address space wraps. *)
Lemma word_addresses a :
  0 <= a < 2 ^ 32 ->
  a <> u32 (a + 1) /\ a <> u32 (a + 2) /\ a <> u32 (a + 3) /\
  u32 (a + 1) <> u32 (a + 2) /\ u32 (a + 1) <> u32 (a + 3) /\
  u32 (a + 2) <> u32 (a + 3).
Proof. intros H. unfold u32. repeat split; Z.div_mod_to_equations; lia. Qed.

Lemma read_word_bytes m a :
  Memory.read_word m a =
  Z.lor (Z.lor (Z.lor (Memory.read_byte m a)
                      (u32 (Z.shiftl (Memory.read_byte m (u32 (a + 1))) 8)))
               (u32 (Z.shiftl (Memory.read_byte m (u32 (a + 2))) 16)))
        (u32 (Z.shiftl (Memory.read_byte m (u32 (a + 3))) 24)).
Proof. reflexivity. Qed.

Lemma write_word_bytes m a v :
  0 <= a < 2 ^ 32 ->
  let m' := Memory.write_word m a v in
  Memory.read_byte m' a = v mod 2 ^ 8 /\
  Memory.read_byte m' (u32 (a + 1)) = (v / 2 ^ 8) mod 2 ^ 8 /\
  Memory.read_byte m' (u32 (a + 2)) = (v / 2 ^ 16) mod 2 ^ 8 /\
  Memory.read_byte m' (u32 (a + 3)) = (v / 2 ^ 24) mod 2 ^ 8.
Proof.
  intros Ha. destruct (word_addresses a Ha) as (N1 & N2 & N3 & N4 & N5 & N6).
  cbv zeta. unfold Memory.write_word.
  repeat split.
  - rewrite !read_write_byte_ne by congruence.
    rewrite read_write_byte_eq. change 0xFF with (Z.ones 8).
    rewrite Z.land_ones by lia. apply Z.mod_mod. lia.
  - rewrite !read_write_byte_ne by congruence.
    rewrite read_write_byte_eq. apply byte_of_word. lia.
  - rewrite !read_write_byte_ne by congruence.
    rewrite read_write_byte_eq. apply byte_of_word. lia.
  - rewrite read_write_byte_eq. apply byte_of_word. lia.
Qed.

Lemma write_word_other m a v b :
  b <> a -> b <> u32 (a + 1) -> b <> u32 (a + 2) -> b <> u32 (a + 3) ->
  Memory.read_byte (Memory.write_word m a v) b = Memory.read_byte m b.
Proof.
  intros. unfold Memory.write_word.
  rewrite !read_write_byte_ne by congruence. reflexivity.
Qed.

Lemma memory_word_bytes_value m a v :
  0 <= a < 2 ^ 32 -> 0 <= v < 2 ^ 32 ->
  Memory.read_word (Memory.write_word m a v) a = v.
Proof.
  intros Ha Hv.
  destruct (write_word_bytes m a v Ha) as (B0 & B1 & B2 & B3).
  cbv zeta in *.
  rewrite read_word_bytes, B0, B1, B2, B3.
  rewrite word_of_bytes by (apply Z.mod_pos_bound; lia).
  Z.div_mod_to_equations. lia.
Qed.

(** X1.  A word written is the word read back, at every address, also
    where the four bytes wrap around the end of the address space; its
    least significant byte is the one at the address itself. *)
Theorem memory_word_roundtrip (m : gmap Z Z) (a v : Z) :
  0 <= a < 2 ^ 32 -> 0 <= v < 2 ^ 32 ->
  Memory.read_word (Memory.write_word m a v) a = v /\
  Memory.read_byte (Memory.write_word m a v) a = v mod 2 ^ 8.
Proof.
  intros Ha Hv. split.
  - apply memory_word_bytes_value; assumption.
  - apply (write_word_bytes m a v Ha).
Qed.

Lemma memory_word_roundtrip_witness :
  Memory.read_word (Memory.write_word ∅ 0xFFFFFFFE 0x12345678) 0xFFFFFFFE
  = 0x12345678.
Proof.
  apply (memory_word_roundtrip ∅ 0xFFFFFFFE 0x12345678); lia.
Defined.

(** X2.  Writing a word changes the four bytes of the word and no other:
    every other address reads as before, and an address never written
    reads 0. *)
Theorem memory_write_word_frame (m : gmap Z Z) (a v b : Z) :
  0 <= a < 2 ^ 32 ->
  b <> a -> b <> u32 (a + 1) -> b <> u32 (a + 2) -> b <> u32 (a + 3) ->
  Memory.read_byte (Memory.write_word m a v) b = Memory.read_byte m b /\
  (m !! b = None -> Memory.read_byte (Memory.write_word m a v) b = 0).
Proof.
  intros Ha H0 H1 H2 H3.
  rewrite write_word_other by assumption.
  split; [reflexivity|]. intros Hb. unfold Memory.read_byte. rewrite Hb.
  reflexivity.
Qed.

Lemma memory_write_word_frame_witness :
  Memory.read_byte (Memory.write_word ∅ 16 0xFFFFFFFF) 20 = 0.
Proof.
  assert (Ha : 0 <= 16 < 2 ^ 32) by lia.
  assert (H0 : 20 <> 16) by lia.
  assert (H1 : 20 <> u32 (16 + 1)) by (vm_compute; lia).
  assert (H2 : 20 <> u32 (16 + 2)) by (vm_compute; lia).
  assert (H3 : 20 <> u32 (16 + 3)) by (vm_compute; lia).
  destruct (memory_write_word_frame ∅ 16 0xFFFFFFFF 20 Ha H0 H1 H2 H3)
    as (_ & H).
  apply H. reflexivity.
Defined.

(** X3.  Half-words and bytes written are read back as the low 16 (8) bits
    of the value; the signed reads give the two's-complement reading of
    those bits. *)
Theorem memory_half_byte_roundtrip (m : gmap Z Z) (a v : Z) :
  0 <= a < 2 ^ 32 ->
  let h := v mod 2 ^ 16 in
  let b := v mod 2 ^ 8 in
  Memory.read_half (Memory.write_half m a v) a = h /\
  Memory.read_half_signed (Memory.write_half m a v) a =
    (if h <? 2 ^ 15 then h else h - 2 ^ 16) /\
  Memory.read_byte (Memory.write_byte m a v) a = b /\
  Memory.read_byte_signed (Memory.write_byte m a v) a =
    (if b <? 2 ^ 7 then b else b - 2 ^ 8).
Proof.
  intros Ha h b.
  assert (Hh : 0 <= h < 2 ^ 16) by (apply Z.mod_pos_bound; lia).
  assert (Hb : 0 <= b < 2 ^ 8) by (apply Z.mod_pos_bound; lia).
  assert (Hn : a <> u32 (a + 1)) by apply (word_addresses a Ha).
  assert (Hr : Memory.read_half (Memory.write_half m a v) a = h).
  { unfold Memory.read_half, Memory.write_half. cbv zeta. fold h.
    rewrite read_write_byte_ne by congruence.
    rewrite !read_write_byte_eq.
    change 0xFF with (Z.ones 8). rewrite !Z.land_ones by lia.
    rewrite Z.shiftr_div_pow2, Z.shiftl_mul_pow2 by lia.
    rewrite !Z.mod_mod by lia.
    rewrite Z.lor_comm.
    rewrite (lor_disjoint_add _ _ 8) by arith_side.
    Z.div_mod_to_equations. lia. }
  split; [exact Hr|]. split.
  - unfold Memory.read_half_signed. rewrite Hr.
    apply (sign_extend_arith h 16); lia.
  - split; [apply read_write_byte_eq|].
    unfold Memory.read_byte_signed. rewrite read_write_byte_eq. fold b.
    apply (sign_extend_arith b 8); lia.
Qed.

Lemma memory_half_byte_roundtrip_witness :
  Memory.read_half_signed (Memory.write_half ∅ 8 0xFFFE) 8 = -2.
Proof.
  assert (Ha : 0 <= 8 < 2 ^ 32) by lia.
  destruct (memory_half_byte_roundtrip ∅ 8 0xFFFE Ha) as (_ & H & _).
  exact H.
Defined.

(** *** Blocks *)

Lemma u32_add_l a k : u32 (u32 a + k) = u32 (a + k).
Proof. unfold u32. apply Zplus_mod_idemp_l. Qed.

Lemma write_block_other ws : forall m a b,
  0 <= a < 2 ^ 32 ->
  (forall k, 0 <= k < 4 * Z.of_nat (List.length ws) -> b <> u32 (a + k)) ->
  Memory.read_byte (Memory.write_block m a ws) b = Memory.read_byte m b.
Proof.
  induction ws as [|w ws IH]; intros m a b Ha Hb; cbn [Memory.write_block];
    [reflexivity|].
  cbn [List.length] in Hb.
  rewrite IH.
  - apply write_word_other.
    + rewrite <- (u32_small a Ha). replace a with (a + 0) at 1 by lia.
      apply Hb. lia.
    + apply Hb. lia.
    + apply Hb. lia.
    + apply Hb. lia.
  - apply u32_range.
  - intros k Hk. rewrite u32_add_l.
    replace (a + 4 + k) with (a + (4 + k)) by lia. apply Hb. lia.
Qed.

Lemma read_word_same m m' a :
  (forall j, 0 <= j < 4 ->
     Memory.read_byte m' (u32 (a + j)) = Memory.read_byte m (u32 (a + j))) ->
  0 <= a < 2 ^ 32 ->
  Memory.read_word m' a = Memory.read_word m a.
Proof.
  intros H Ha. rewrite !read_word_bytes.
  rewrite !(H 1), !(H 2), !(H 3) by lia.
  pose proof (H 0 ltac:(lia)) as H0. rewrite Z.add_0_r, u32_small in H0 by lia.
  rewrite H0. reflexivity.
Qed.

Lemma write_block_read ws : forall m a i w,
  0 <= a < 2 ^ 32 ->
  Z.of_nat (List.length ws) <= 2 ^ 30 ->
  ws !! i = Some w -> 0 <= w < 2 ^ 32 ->
  Memory.read_word (Memory.write_block m a ws) (u32 (a + 4 * Z.of_nat i)) = w.
Proof.
  induction ws as [|w0 ws IH]; intros m a i w Ha Hl Hi Hw; [discriminate|].
  cbn [Memory.write_block]. cbn [List.length] in Hl.
  destruct i as [|i].
  - injection Hi as ->. change (Z.of_nat 0) with 0.
    rewrite Z.mul_0_r, Z.add_0_r. rewrite (u32_small a) by lia.
    rewrite (read_word_same (Memory.write_word m a w)).
    + apply memory_word_bytes_value; assumption.
    + intros j Hj. apply write_block_other; [apply u32_range|].
      intros k Hk. rewrite u32_add_l. unfold u32.
      Z.div_mod_to_equations. lia.
    + exact Ha.
  - cbn in Hi.
    replace (u32 (a + 4 * Z.of_nat (S i)))
      with (u32 (u32 (a + 4) + 4 * Z.of_nat i))
      by (rewrite u32_add_l; f_equal; lia).
    apply IH; [apply u32_range | lia | exact Hi | exact Hw].
Qed.

(** X4.  After a block of words has been written from an address, the
    word read at the address of the [i]-th word is the [i]-th word, as long
    as the block does not wrap onto itself (at most 2^30 words). *)
Theorem memory_block_roundtrip (m : gmap Z Z) (a : Z) (ws : list Z)
    (i : nat) (w : Z) :
  0 <= a < 2 ^ 32 ->
  Z.of_nat (List.length ws) <= 2 ^ 30 ->
  ws !! i = Some w -> 0 <= w < 2 ^ 32 ->
  Memory.read_word (Memory.write_block m a ws) (u32 (a + 4 * Z.of_nat i)) = w.
Proof. intros. apply write_block_read; assumption. Qed.

Lemma memory_block_roundtrip_witness :
  Memory.read_word (Memory.write_block ∅ 0xFFFFFFFC [19; 115; 51])
                   (u32 (0xFFFFFFFC + 4 * Z.of_nat 2)) = 51.
Proof.
  apply (memory_block_roundtrip ∅ 0xFFFFFFFC [19; 115; 51] 2 51);
    [lia | cbn; lia | reflexivity | lia].
Defined.

(* --------------------------------------------------------------------- *)
(** ** The register file                                                  *)
(* --------------------------------------------------------------------- *)

(** X5.  The register file of 32 words: an index outside [0, 32) makes
    both [read] and [write] throw; inside, a write succeeds and keeps the
    size, after which x0 still reads 0, the written register reads the
    value written and every other register reads what it read before. *)
Theorem register_file_read_write (regs : list Z) (r r' v : Z) :
  List.length regs = 32%nat ->
  (r < 0 \/ 32 <= r ->
   RegisterFile.read regs r = None /\ RegisterFile.write regs r v = None) /\
  (0 <= r < 32 -> 0 <= r' < 32 ->
   exists regs',
     RegisterFile.write regs r v = Some regs' /\
     List.length regs' = 32%nat /\
     RegisterFile.read regs' r' =
       (if r' =? 0 then Some 0
        else if r' =? r then Some v
        else RegisterFile.read regs r')).
Proof.
  intros Hl. unfold RegisterFile.read, RegisterFile.write, NUM_REGISTERS.
  split.
  - intros Hr.
    destruct (Z.ltb_spec r 0); [split; reflexivity|].
    destruct (Z.geb_spec r 32); [split; reflexivity|]. lia.
  - intros Hr Hr'.
    destruct (Z.ltb_spec r 0); [lia|].
    destruct (Z.geb_spec r 32); [lia|].
    destruct (Z.ltb_spec r' 0); [lia|].
    destruct (Z.geb_spec r' 32); [lia|]. cbn [orb].
    destruct (Z.eqb_spec r 0) as [->|Hr0]; cbn [negb].
    + exists regs. split; [reflexivity|]. split; [exact Hl|].
      destruct (Z.eqb_spec r' 0); reflexivity.
    + eexists. split; [reflexivity|]. split.
      { rewrite length_insert. exact Hl. }
      destruct (Z.eqb_spec r' 0); [reflexivity|].
      destruct (Z.eqb_spec r' r) as [->|Hne].
      * rewrite list_lookup_insert_eq by lia. reflexivity.
      * rewrite list_lookup_insert_ne by lia. reflexivity.
Qed.

Lemma register_file_read_write_witness :
  exists regs',
    RegisterFile.write RegisterFile.reset 5 7 = Some regs' /\
    RegisterFile.read regs' 5 = Some 7.
Proof.
  destruct (register_file_read_write RegisterFile.reset 5 5 7 eq_refl)
    as (_ & H).
  destruct (H ltac:(lia) ltac:(lia)) as (regs' & Hw & _ & Hr).
  exists regs'. split; [exact Hw | exact Hr].
Defined.

(* --------------------------------------------------------------------- *)
(** ** ALU: results are words, products and shifts                        *)
(* --------------------------------------------------------------------- *)

Lemma log2_word x : 0 < x -> (x < 2 ^ 32 <-> Z.log2 x < 32).
Proof. intros. apply Z.log2_lt_pow2. assumption. Qed.

Lemma lor_word a b :
  0 <= a < 2 ^ 32 -> 0 <= b < 2 ^ 32 -> 0 <= Z.lor a b < 2 ^ 32.
Proof.
  intros Ha Hb. split; [apply Z.lor_nonneg; lia|].
  destruct (Z.eq_dec (Z.lor a b) 0) as [->|Hz]; [lia|].
  assert (0 <= Z.lor a b) by (apply Z.lor_nonneg; lia).
  apply log2_word; [lia|].
  rewrite Z.log2_lor by lia.
  destruct (Z.eq_dec a 0) as [->|]; destruct (Z.eq_dec b 0) as [->|];
    cbn; try lia.
  - apply Z.max_lub_lt; [lia | apply log2_word; lia].
  - apply Z.max_lub_lt; [apply log2_word; lia | lia].
  - apply Z.max_lub_lt; apply log2_word; lia.
Qed.

Lemma land_word a b :
  0 <= a < 2 ^ 32 -> 0 <= b < 2 ^ 32 -> 0 <= Z.land a b < 2 ^ 32.
Proof.
  intros Ha Hb. split; [apply Z.land_nonneg; lia|].
  destruct (Z.eq_dec (Z.land a b) 0) as [->|Hz]; [lia|].
  assert (0 <= Z.land a b) by (apply Z.land_nonneg; lia).
  apply log2_word; [lia|].
  pose proof (Z.log2_land a b ltac:(lia) ltac:(lia)).
  destruct (Z.eq_dec a 0) as [->|]; [rewrite Z.land_0_l in Hz; lia|].
  assert (Z.log2 a < 32) by (apply log2_word; lia). lia.
Qed.

Lemma lxor_word a b :
  0 <= a < 2 ^ 32 -> 0 <= b < 2 ^ 32 -> 0 <= Z.lxor a b < 2 ^ 32.
Proof.
  intros Ha Hb. split; [apply Z.lxor_nonneg; lia|].
  destruct (Z.eq_dec (Z.lxor a b) 0) as [->|Hz]; [lia|].
  assert (0 <= Z.lxor a b) by (apply Z.lxor_nonneg; lia).
  apply log2_word; [lia|].
  pose proof (Z.log2_lxor a b ltac:(lia) ltac:(lia)).
  assert (Z.log2 a < 32).
  { destruct (Z.eq_dec a 0) as [->|]; [cbn; lia | apply log2_word; lia]. }
  assert (Z.log2 b < 32).
  { destruct (Z.eq_dec b 0) as [->|]; [cbn; lia | apply log2_word; lia]. }
  lia.
Qed.

Lemma shift_amount b : 0 <= Z.land b 0x1F < 32.
Proof.
  change 0x1F with (Z.ones 5). rewrite Z.land_ones by lia.
  apply Z.mod_pos_bound. lia.
Qed.

Lemma alu_word op a b r :
  0 <= a < 2 ^ 32 -> 0 <= b < 2 ^ 32 ->
  ALU.execute op a b = Some r -> 0 <= r < 2 ^ 32.
Proof.
  intros Ha Hb.
  destruct op; cbn [ALU.execute]; cbv zeta;
    try (intros [= <-]; apply u32_range).
  - (* SRL *)
    intros [= <-]. pose proof (shift_amount b).
    rewrite Z.shiftr_div_pow2 by lia.
    assert (0 < 2 ^ Z.land b 31) by (apply Z.pow_pos_nonneg; lia).
    split; [apply Z.div_pos; lia|].
    apply Z.le_lt_trans with a; [|lia].
    apply Z.div_le_upper_bound; nia.
  - (* SLT *) intros [= <-]. destruct (_ <? _); lia.
  - (* SLTU *) intros [= <-]. destruct (_ <? _); lia.
  - intros [= <-]. apply lxor_word; assumption.
  - intros [= <-]. apply lor_word; assumption.
  - intros [= <-]. apply land_word; assumption.
  - (* DIV *)
    destruct (s32 b =? 0); [intros [= <-]; lia|].
    destruct ((s32 a =? INT_MIN) && (s32 b =? -1));
      [intros [= <-]; apply u32_range|].
    destruct (ALU.int_div _ _); [|discriminate].
    intros [= <-]. apply u32_range.
  - (* DIVU *)
    destruct (Z.eqb_spec b 0); [intros [= <-]; lia|].
    unfold ALU.uint_div. destruct (Z.eqb_spec b 0); [lia|].
    intros [= <-]. split; [apply Z.div_pos; lia|].
    apply Z.le_lt_trans with a; [|lia].
    apply Z.div_le_upper_bound; nia.
  - (* REM *)
    destruct (s32 b =? 0); [intros [= <-]; apply u32_range|].
    destruct ((s32 a =? INT_MIN) && (s32 b =? -1)); [intros [= <-]; lia|].
    destruct (ALU.int_rem _ _); [|discriminate].
    intros [= <-]. apply u32_range.
  - (* REMU *)
    destruct (Z.eqb_spec b 0); [intros [= <-]; lia|].
    unfold ALU.uint_rem. destruct (Z.eqb_spec b 0); [lia|].
    intros [= <-]. pose proof (Z.mod_pos_bound a b). lia.
  - intros [= <-]. lia.
  - intros [= <-]. lia.
Qed.

(** X6.  On 32-bit operands every ALU operation returns (no operation
    faults, whatever the operands) and what it returns is a 32-bit word. *)
Theorem alu_result_is_word (op : AluOp.t) (a b : Z) :
  0 <= a < 2 ^ 32 -> 0 <= b < 2 ^ 32 ->
  exists r, ALU.execute op a b = Some r /\ 0 <= r < 2 ^ 32.
Proof.
  intros Ha Hb. destruct (alu_execute_total op a b) as [r Hr].
  exists r. split; [exact Hr|]. exact (alu_word op a b r Ha Hb Hr).
Qed.

Lemma alu_result_is_word_witness :
  exists r, ALU.execute AluOp.SRA 0x80000000 31 = Some r /\ 0 <= r < 2 ^ 32.
Proof. apply (alu_result_is_word AluOp.SRA 0x80000000 31); lia. Defined.

Lemma s64_small z : - 2 ^ 63 <= z < 2 ^ 63 -> s64 z = z.
Proof. intros. unfold s64. rewrite Z.mod_small by lia. lia. Qed.

Lemma s64_u64 z : s64 (u64 z) = s64 z.
Proof. unfold s64, u64. rewrite Zplus_mod_idemp_l. reflexivity. Qed.

Lemma s64_mod_mul x y : s64 (u64 x * u64 y) = s64 (x * y).
Proof.
  unfold s64, u64. f_equal.
  rewrite <- Zplus_mod_idemp_l. rewrite <- Z.mul_mod by lia.
  rewrite Zplus_mod_idemp_l. reflexivity.
Qed.

Lemma low_word z : u32 (Z.land z 0xFFFFFFFF) = z mod 2 ^ 32.
Proof.
  change 0xFFFFFFFF with (Z.ones 32). rewrite Z.land_ones by lia.
  unfold u32. apply Z.mod_mod. lia.
Qed.

Lemma high_word z : u32 (Z.land (Z.shiftr z 32) 0xFFFFFFFF) = u32 (z / 2 ^ 32).
Proof. rewrite low_word, Z.shiftr_div_pow2 by lia. reflexivity. Qed.

(** X7.  The four multiplications on 32-bit operands: MUL is the low word
    of the product; MULH, MULHSU and MULHU are the high word of the product
    of the operands read as signed x signed, signed x unsigned and
    unsigned x unsigned (the 64-bit intermediate never overflows). *)
Theorem alu_multiply_semantics (a b : Z) :
  0 <= a < 2 ^ 32 -> 0 <= b < 2 ^ 32 ->
  ALU.execute AluOp.MUL a b = Some ((a * b) mod 2 ^ 32) /\
  ALU.execute AluOp.MULH a b = Some (u32 ((s32 a * s32 b) / 2 ^ 32)) /\
  ALU.execute AluOp.MULHSU a b = Some (u32 ((s32 a * b) / 2 ^ 32)) /\
  ALU.execute AluOp.MULHU a b = Some ((a * b) / 2 ^ 32).
Proof.
  intros Ha Hb. cbn [ALU.execute]. cbv zeta.
  pose proof (s32_range a) as Hsa. pose proof (s32_range b) as Hsb.
  assert (Hss : s64 (s32 a * s32 b) = s32 a * s32 b)
    by (apply s64_small; nia).
  repeat split.
  - rewrite low_word, Hss. f_equal.
    rewrite (Z.mul_mod (s32 a) (s32 b)) by lia.
    change (s32 a mod 2 ^ 32) with (u32 (s32 a)).
    change (s32 b mod 2 ^ 32) with (u32 (s32 b)).
    rewrite !u32_s32, (u32_small a), (u32_small b) by lia. reflexivity.
  - rewrite high_word, Hss. reflexivity.
  - rewrite high_word. f_equal. f_equal. f_equal.
    rewrite s64_u64, s64_mod_mul. apply s64_small. nia.
  - rewrite high_word. unfold u64.
    rewrite (Z.mod_small a), (Z.mod_small b) by lia.
    rewrite (Z.mod_small (a * b)) by nia.
    apply f_equal. apply u32_small.
    split; [apply Z.div_pos; nia|].
    apply Z.div_lt_upper_bound; nia.
Qed.

Lemma alu_multiply_semantics_witness :
  ALU.execute AluOp.MULH 0xFFFFFFFF 0xFFFFFFFF = Some 0.
Proof.
  assert (Ha : 0 <= 0xFFFFFFFF < 2 ^ 32) by lia.
  destruct (alu_multiply_semantics 0xFFFFFFFF 0xFFFFFFFF Ha Ha)
    as (_ & H & _).
  exact H.
Defined.

(** X8.  The three shifts on 32-bit operands use the low five bits of the
    second operand as the count: SLL multiplies by 2^count and keeps the
    low word, SRL divides the unsigned and SRA the signed reading of the
    first operand by 2^count, rounding down. *)
Theorem alu_shift_semantics (a b : Z) :
  0 <= a < 2 ^ 32 -> 0 <= b < 2 ^ 32 ->
  let k := b mod 32 in
  ALU.execute AluOp.SLL a b = Some ((a * 2 ^ k) mod 2 ^ 32) /\
  ALU.execute AluOp.SRL a b = Some (a / 2 ^ k) /\
  ALU.execute AluOp.SRA a b = Some (u32 (s32 a / 2 ^ k)).
Proof.
  intros Ha Hb k. cbn [ALU.execute]. cbv zeta.
  assert (Hk : Z.land b 0x1F = k).
  { change 0x1F with (Z.ones 5). rewrite Z.land_ones by lia. reflexivity. }
  assert (0 <= k < 32) by (apply Z.mod_pos_bound; lia).
  rewrite Hk.
  rewrite Z.shiftl_mul_pow2, !Z.shiftr_div_pow2 by lia.
  repeat split.
Qed.

Lemma alu_shift_semantics_witness :
  ALU.execute AluOp.SRA 0x80000000 33 = Some 0xC0000000.
Proof.
  assert (Ha : 0 <= 0x80000000 < 2 ^ 32) by lia.
  assert (Hb : 0 <= 33 < 2 ^ 32) by lia.
  destruct (alu_shift_semantics 0x80000000 33 Ha Hb) as (_ & _ & H).
  exact H.
Defined.

(* --------------------------------------------------------------------- *)
(** ** Encoder against decoder: whole instructions                        *)
(* --------------------------------------------------------------------- *)

(** The fields of a word laid out as
    [funct7 | rs2 | rs1 | funct3 | rd | opcode]. *)
Lemma word_fields f7 rs2 rs1 f3 rd op :
  0 <= f7 < 128 -> 0 <= rs2 < 32 -> 0 <= rs1 < 32 -> 0 <= f3 < 8 ->
  0 <= rd < 32 -> 0 <= op < 128 ->
  let raw := f7 * 2 ^ 25 + rs2 * 2 ^ 20 + rs1 * 2 ^ 15 + f3 * 2 ^ 12 +
             rd * 2 ^ 7 + op in
  Decoder.bits raw 6 0 = op /\ Decoder.get_rd raw = rd /\
  Decoder.get_funct3 raw = f3 /\ Decoder.get_rs1 raw = rs1 /\
  Decoder.get_rs2 raw = rs2 /\ Decoder.get_funct7 raw = f7.
Proof.
  intros Hf7 Hrs2 Hrs1 Hf3 Hrd Hop w. unfold Decoder.get_rd,
    Decoder.get_funct3, Decoder.get_rs1, Decoder.get_rs2, Decoder.get_funct7.
  rewrite !bits_arith by lia.
  repeat split; subst w; Z.div_mod_to_equations; lia.
Qed.

Lemma enc_r_value op rd f3 rs1 rs2 f7 :
  0 <= op < 128 -> 0 <= rd < 32 -> 0 <= f3 < 8 -> 0 <= rs1 < 32 ->
  0 <= rs2 < 32 -> 0 <= f7 < 128 ->
  Assembler.enc_r op rd f3 rs1 rs2 f7 =
  f7 * 2 ^ 25 + rs2 * 2 ^ 20 + rs1 * 2 ^ 15 + f3 * 2 ^ 12 + rd * 2 ^ 7 + op.
Proof.
  intros. unfold Assembler.enc_r.
  rewrite (shl_top _ 25), !shl_small by lia.
  lor_to_add. unfold u32. Z.div_mod_to_equations. lia.
Qed.

Lemma enc_i_shape op rd f3 rs1 imm :
  0 <= op < 128 -> 0 <= rd < 32 -> 0 <= f3 < 8 -> 0 <= rs1 < 32 ->
  Assembler.enc_i op rd f3 rs1 imm =
  (imm mod 2 ^ 12 / 2 ^ 5) * 2 ^ 25 + (imm mod 2 ^ 5) * 2 ^ 20 +
  rs1 * 2 ^ 15 + f3 * 2 ^ 12 + rd * 2 ^ 7 + op.
Proof.
  intros. rewrite enc_i_value by lia. Z.div_mod_to_equations. lia.
Qed.

Lemma enc_s_value op f3 rs1 rs2 imm :
  0 <= op < 128 -> 0 <= f3 < 8 -> 0 <= rs1 < 32 -> 0 <= rs2 < 32 ->
  Assembler.enc_s op f3 rs1 rs2 imm =
  ((imm / 2 ^ 5) mod 2 ^ 7) * 2 ^ 25 + rs2 * 2 ^ 20 + rs1 * 2 ^ 15 +
  f3 * 2 ^ 12 + (imm mod 2 ^ 5) * 2 ^ 7 + op.
Proof.
  intros. unfold Assembler.enc_s. cbv zeta. mask_to_mod.
  rewrite !Z.shiftr_div_pow2 by lia.
  pose proof (Z.mod_pos_bound (imm / 2 ^ 5) (2 ^ 7) ltac:(lia)).
  pose proof (Z.mod_pos_bound imm (2 ^ 5) ltac:(lia)).
  rewrite (shl_top _ 25), !shl_small by lia.
  lor_to_add. unfold u32. Z.div_mod_to_equations. lia.
Qed.

Lemma enc_b_value op f3 rs1 rs2 imm :
  0 <= op < 128 -> 0 <= f3 < 8 -> 0 <= rs1 < 32 -> 0 <= rs2 < 32 ->
  Assembler.enc_b op f3 rs1 rs2 imm =
  ((imm / 2 ^ 12) mod 2 ^ 1 * 2 ^ 6 + (imm / 2 ^ 5) mod 2 ^ 6) * 2 ^ 25 +
  rs2 * 2 ^ 20 + rs1 * 2 ^ 15 + f3 * 2 ^ 12 +
  ((imm / 2 ^ 1) mod 2 ^ 4 * 2 + (imm / 2 ^ 11) mod 2 ^ 1) * 2 ^ 7 + op.
Proof.
  intros. unfold Assembler.enc_b. cbv zeta. mask_to_mod.
  rewrite !Z.shiftr_div_pow2 by lia.
  pose proof (Z.mod_pos_bound (imm / 2 ^ 12) (2 ^ 1) ltac:(lia)).
  pose proof (Z.mod_pos_bound (imm / 2 ^ 11) (2 ^ 1) ltac:(lia)).
  pose proof (Z.mod_pos_bound (imm / 2 ^ 5) (2 ^ 6) ltac:(lia)).
  pose proof (Z.mod_pos_bound (imm / 2 ^ 1) (2 ^ 4) ltac:(lia)).
  rewrite (shl_top _ 31), !shl_small by lia.
  lor_to_add. unfold u32. Z.div_mod_to_equations. lia.
Qed.

(** The decoder on each opcode. *)
Lemma decode_op_reg raw pc :
  Decoder.bits raw 6 0 = 51 ->
  Decoder.decode raw pc =
  let ins := set_imm 0 (set_reg_write true (set_format FmtR
    (mkInstruction raw InsType.ADDI FmtI (Decoder.get_rd raw)
       (Decoder.get_rs1 raw) (Decoder.get_rs2 raw) 0 false false false false
       false false false AluOp.NONE pc))) in
  if Decoder.get_funct7 raw =? 1
  then Decoder.decode_m (Decoder.get_funct3 raw) ins
  else Decoder.decode_base (Decoder.get_funct3 raw) (Decoder.get_funct7 raw) ins.
Proof. intros H. unfold Decoder.decode. rewrite H. reflexivity. Qed.

Lemma decode_op_imm raw pc :
  Decoder.bits raw 6 0 = 19 ->
  Decoder.decode raw pc =
  Decoder.decode_imm (Decoder.get_funct3 raw) (Decoder.get_funct7 raw)
    (set_alu_src true (set_reg_write true (set_imm (Decoder.imm_i raw)
      (set_format FmtI
        (mkInstruction raw InsType.ADDI FmtI (Decoder.get_rd raw)
           (Decoder.get_rs1 raw) (Decoder.get_rs2 raw) 0 false false false
           false false false false AluOp.NONE pc))))).
Proof. intros H. unfold Decoder.decode. rewrite H. reflexivity. Qed.

Lemma decode_op_load raw pc :
  Decoder.bits raw 6 0 = 3 ->
  Decoder.decode raw pc =
  Decoder.decode_load (Decoder.get_funct3 raw)
    (set_alu_op AluOp.ADD (set_alu_src true (set_mem_to_reg true
      (set_mem_read true (set_reg_write true
        (set_imm (Decoder.imm_i raw) (set_format FmtI
          (mkInstruction raw InsType.ADDI FmtI (Decoder.get_rd raw)
             (Decoder.get_rs1 raw) (Decoder.get_rs2 raw) 0 false false false
             false false false false AluOp.NONE pc)))))))).
Proof. intros H. unfold Decoder.decode. rewrite H. reflexivity. Qed.

Lemma decode_op_store raw pc :
  Decoder.bits raw 6 0 = 35 ->
  Decoder.decode raw pc =
  Decoder.decode_store (Decoder.get_funct3 raw)
    (set_alu_op AluOp.ADD (set_alu_src true (set_mem_write true
      (set_imm (Decoder.imm_s raw) (set_format FmtS
        (mkInstruction raw InsType.ADDI FmtI (Decoder.get_rd raw)
           (Decoder.get_rs1 raw) (Decoder.get_rs2 raw) 0 false false false
           false false false false AluOp.NONE pc)))))).
Proof. intros H. unfold Decoder.decode. rewrite H. reflexivity. Qed.

Lemma decode_op_branch raw pc :
  Decoder.bits raw 6 0 = 99 ->
  Decoder.decode raw pc =
  Decoder.decode_branch (Decoder.get_funct3 raw)
    (set_branch true (set_imm (Decoder.imm_b raw) (set_format FmtB
      (mkInstruction raw InsType.ADDI FmtI (Decoder.get_rd raw)
         (Decoder.get_rs1 raw) (Decoder.get_rs2 raw) 0 false false false
         false false false false AluOp.NONE pc)))).
Proof. intros H. unfold Decoder.decode. rewrite H. reflexivity. Qed.

(** Going through a table of the assembler entry by entry. *)
Ltac table_cases H :=
  unfold Assembler.lookup, Assembler.r_ops, Assembler.i_arith,
    Assembler.loads, Assembler.stores, Assembler.branches in H;
  cbn [List.find fst] in H;
  repeat match type of H with
         | context [(?s =? ?m)%string] =>
             destruct (String.eqb_spec s m);
               [subst m; cbn [option_map snd] in H; inversion H; subst | ]
         end;
  try discriminate H.

(** What [handle_instruction] does in the second pass for a mnemonic of
    each table. *)
Lemma handle_r indet mnem f3 f7 ops src a :
  Assembler.lookup mnem Assembler.r_ops = Some (f3, f7) ->
  List.length ops = 3%nat ->
  Assembler.handle_instruction indet mnem ops src false a =
  Assembler.emit
    (Assembler.enc_r 51 (Assembler.parse_reg (Assembler.op ops 0)) f3
       (Assembler.parse_reg (Assembler.op ops 1))
       (Assembler.parse_reg (Assembler.op ops 2)) f7) src a.
Proof.
  intros Hl Hn. unfold Assembler.handle_instruction. rewrite Hn.
  cbn [Nat.eqb]. rewrite Hl. reflexivity.
Qed.

Lemma handle_i indet mnem f3 ops src a :
  Assembler.lookup mnem Assembler.i_arith = Some f3 ->
  List.length ops = 3%nat ->
  Assembler.handle_instruction indet mnem ops src false a =
  Assembler.emit
    (Assembler.enc_i 19 (Assembler.parse_reg (Assembler.op ops 0)) f3
       (Assembler.parse_reg (Assembler.op ops 1))
       (default indet (Assembler.parse_imm (Assembler.op ops 2)))) src a.
Proof.
  intros Hl Hn. unfold Assembler.handle_instruction. rewrite Hn.
  cbn [Nat.eqb]. rewrite Hl.
  assert (Hr : Assembler.lookup mnem Assembler.r_ops = None)
    by (table_cases Hl; reflexivity).
  rewrite Hr. reflexivity.
Qed.

Lemma handle_load indet mnem f3 ops src a :
  Assembler.lookup mnem Assembler.loads = Some f3 ->
  List.length ops = 2%nat ->
  Assembler.handle_instruction indet mnem ops src false a =
  let '(_, off, rs1) := Assembler.parse_mem (Assembler.op ops 1) indet indet in
  Assembler.emit
    (Assembler.enc_i 3 (Assembler.parse_reg (Assembler.op ops 0)) f3 rs1 off)
    src a.
Proof.
  intros Hl Hn. unfold Assembler.handle_instruction. rewrite Hn.
  cbn [Nat.eqb]. rewrite Hl.
  assert (Hs : ((mnem =? "slli") || (mnem =? "srli") || (mnem =? "srai"))%string
               = false) by (table_cases Hl; reflexivity).
  rewrite Hs. reflexivity.
Qed.

Lemma handle_store indet mnem f3 ops src a :
  Assembler.lookup mnem Assembler.stores = Some f3 ->
  List.length ops = 2%nat ->
  Assembler.handle_instruction indet mnem ops src false a =
  let '(_, off, rs1) := Assembler.parse_mem (Assembler.op ops 1) indet indet in
  Assembler.emit
    (Assembler.enc_s 35 f3 rs1 (Assembler.parse_reg (Assembler.op ops 0)) off)
    src a.
Proof.
  intros Hl Hn. unfold Assembler.handle_instruction. rewrite Hn.
  cbn [Nat.eqb]. rewrite Hl.
  assert (Hs : ((mnem =? "slli") || (mnem =? "srli") || (mnem =? "srai"))%string
               = false) by (table_cases Hl; reflexivity).
  assert (Hd : Assembler.lookup mnem Assembler.loads = None)
    by (table_cases Hl; reflexivity).
  rewrite Hs, Hd. reflexivity.
Qed.

Lemma handle_branch indet mnem f3 ops src a :
  Assembler.lookup mnem Assembler.branches = Some f3 ->
  List.length ops = 3%nat ->
  Assembler.handle_instruction indet mnem ops src false a =
  match Assembler.parse_imm (Assembler.op ops 2) with
  | Some off =>
      Assembler.emit
        (Assembler.enc_b 99 f3 (Assembler.parse_reg (Assembler.op ops 0))
           (Assembler.parse_reg (Assembler.op ops 1)) off) src a
  | None =>
      match Assembler.labels a !! Assembler.op ops 2 with
      | Some addr =>
          Assembler.emit
            (Assembler.enc_b 99 f3 (Assembler.parse_reg (Assembler.op ops 0))
               (Assembler.parse_reg (Assembler.op ops 1))
               (Assembler.rel addr a)) src a
      | None =>
          Assembler.error ("Unknown label: " +:+ Assembler.op ops 2) a
      end
  end.
Proof.
  intros Hl Hn. unfold Assembler.handle_instruction. rewrite Hn.
  cbn [Nat.eqb]. rewrite Hl.
  assert (Hr : Assembler.lookup mnem Assembler.r_ops = None)
    by (table_cases Hl; reflexivity).
  assert (Hi : Assembler.lookup mnem Assembler.i_arith = None)
    by (table_cases Hl; reflexivity).
  assert (Hs : ((mnem =? "slli") || (mnem =? "srli") || (mnem =? "srai"))%string
               = false) by (table_cases Hl; reflexivity).
  rewrite Hr, Hi, Hs. reflexivity.
Qed.

Lemma text_out_emit w src a :
  Assembler.text_out (Assembler.emit w src a) = Assembler.text_out a ++ [w] /\
  Assembler.errors (Assembler.emit w src a) = Assembler.errors a.
Proof. split; reflexivity. Qed.

(** X9.  A register-register instruction ([add], [sub], ..., [remu]: the
    eighteen mnemonics of the table) with three operands naming registers
    is assembled into one word, without an error; the decoder reads that
    word back as the instruction kind and ALU operation of that name, with
    the same three registers, writing a register and touching neither
    memory nor the PC. *)
Theorem assembled_r_type_decodes (indet : Z) (mnem : string) (f3 f7 : Z)
    (ops : list string) (src : string) (a : Assembler.t) (pc : Z) :
  Assembler.lookup mnem Assembler.r_ops = Some (f3, f7) ->
  List.length ops = 3%nat ->
  0 <= Assembler.parse_reg (Assembler.op ops 0) < 32 ->
  0 <= Assembler.parse_reg (Assembler.op ops 1) < 32 ->
  0 <= Assembler.parse_reg (Assembler.op ops 2) < 32 ->
  exists w,
    Assembler.text_out (Assembler.handle_instruction indet mnem ops src false a)
      = Assembler.text_out a ++ [w] /\
    Assembler.errors (Assembler.handle_instruction indet mnem ops src false a)
      = Assembler.errors a /\
    let i := Decoder.decode w pc in
    Assembler.lookup mnem r_kinds = Some (type i, alu_op i) /\
    rd i = Assembler.parse_reg (Assembler.op ops 0) /\
    rs1 i = Assembler.parse_reg (Assembler.op ops 1) /\
    rs2 i = Assembler.parse_reg (Assembler.op ops 2) /\
    reg_write i = true /\ alu_src i = false /\
    mem_read i = false /\ mem_write i = false /\
    branch i = false /\ jump i = false.
Proof.
  intros Hl Hn Hrd Hrs1 Hrs2.
  rewrite (handle_r indet mnem f3 f7 ops src a Hl Hn).
  eexists. split; [reflexivity|]. split; [reflexivity|].
  set (rd_ := Assembler.parse_reg (Assembler.op ops 0)) in *.
  set (rs1_ := Assembler.parse_reg (Assembler.op ops 1)) in *.
  set (rs2_ := Assembler.parse_reg (Assembler.op ops 2)) in *.
  assert (Hf : 0 <= f3 < 8 /\ 0 <= f7 < 128).
  { table_cases Hl; lia. }
  destruct Hf as (Hf3 & Hf7).
  rewrite enc_r_value by lia.
  destruct (word_fields f7 rs2_ rs1_ f3 rd_ 51) as (E0 & E1 & E2 & E3 & E4 & E5);
    try lia.
  cbv zeta in *. rewrite (decode_op_reg _ pc E0). cbv zeta.
  rewrite E1, E2, E3, E4, E5.
  table_cases Hl; cbn; repeat split.
Qed.

Lemma assembled_r_type_decodes_witness :
  exists w,
    Assembler.text_out
      (Assembler.handle_instruction 0 "sub" ["x5"; "t1"; "a0"]%string
         "sub x5, t1, a0" false Assembler.fresh) = [w] /\
    type (Decoder.decode w 0) = InsType.SUB /\
    rd (Decoder.decode w 0) = 5 /\
    rs1 (Decoder.decode w 0) = 6 /\
    rs2 (Decoder.decode w 0) = 10.
Proof.
  destruct (assembled_r_type_decodes 0 "sub" 0 32 ["x5"; "t1"; "a0"]%string
              "sub x5, t1, a0" Assembler.fresh 0 eq_refl eq_refl)
    as (w & Ht & _ & Hk & Hrd & Hrs1 & Hrs2 & _);
    [vm_compute; split; [discriminate | reflexivity] ..|].
  exists w. cbv zeta in Hk, Hrd, Hrs1, Hrs2.
  assert (Hs : Assembler.lookup "sub" r_kinds = Some (InsType.SUB, AluOp.SUB))
    by reflexivity.
  rewrite Hs in Hk. injection Hk as Hk _.
  split; [exact Ht|].
  split; [symmetry; exact Hk|].
  split; [exact Hrd|]. split; [exact Hrs1 | exact Hrs2].
Defined.

(** X10.  An immediate instruction ([addi], [slti], [sltiu], [xori], [ori],
    [andi]) with two registers and an immediate that fits 12 signed bits
    is assembled into one word, without an error; the decoder reads the
    word back as the kind and ALU operation of that name, with the same
    registers and the same immediate, taking its second ALU operand from
    the immediate. *)
Theorem assembled_i_type_decodes (indet : Z) (mnem : string) (f3 : Z)
    (ops : list string) (src : string) (a : Assembler.t) (pc imm_ : Z) :
  Assembler.lookup mnem Assembler.i_arith = Some f3 ->
  List.length ops = 3%nat ->
  0 <= Assembler.parse_reg (Assembler.op ops 0) < 32 ->
  0 <= Assembler.parse_reg (Assembler.op ops 1) < 32 ->
  Assembler.parse_imm (Assembler.op ops 2) = Some imm_ ->
  - 2048 <= imm_ < 2048 ->
  exists w,
    Assembler.text_out (Assembler.handle_instruction indet mnem ops src false a)
      = Assembler.text_out a ++ [w] /\
    Assembler.errors (Assembler.handle_instruction indet mnem ops src false a)
      = Assembler.errors a /\
    let i := Decoder.decode w pc in
    Assembler.lookup mnem i_kinds = Some (type i, alu_op i) /\
    rd i = Assembler.parse_reg (Assembler.op ops 0) /\
    rs1 i = Assembler.parse_reg (Assembler.op ops 1) /\
    imm i = imm_ /\
    reg_write i = true /\ alu_src i = true /\
    mem_read i = false /\ mem_write i = false /\
    branch i = false /\ jump i = false.
Proof.
  intros Hl Hn Hrd Hrs1 Hi Himm.
  rewrite (handle_i indet mnem f3 ops src a Hl Hn). rewrite Hi.
  change (default indet (Some imm_)) with imm_.
  eexists. split; [reflexivity|]. split; [reflexivity|].
  set (rd_ := Assembler.parse_reg (Assembler.op ops 0)) in *.
  set (rs1_ := Assembler.parse_reg (Assembler.op ops 1)) in *.
  assert (Hf3 : 0 <= f3 < 8) by (table_cases Hl; lia).
  assert (Hr : Decoder.imm_i (Assembler.enc_i 19 rd_ f3 rs1_ imm_) = imm_)
    by (apply imm_i_roundtrip; lia).
  pose proof (enc_i_shape 19 rd_ f3 rs1_ imm_ ltac:(lia) Hrd Hf3 Hrs1) as Hw.
  set (w := Assembler.enc_i 19 rd_ f3 rs1_ imm_) in *.
  destruct (word_fields (imm_ mod 2 ^ 12 / 2 ^ 5) (imm_ mod 2 ^ 5) rs1_ f3 rd_ 19)
    as (E0 & E1 & E2 & E3 & E4 & E5);
    try lia; try (Z.div_mod_to_equations; lia).
  cbv zeta in *. rewrite <- Hw in E0, E1, E2, E3, E4, E5.
  rewrite (decode_op_imm _ pc E0). rewrite E1, E2, E3, Hr.
  clearbody w. table_cases Hl; cbn; repeat split.
Qed.

Lemma assembled_i_type_decodes_witness :
  exists w,
    Assembler.text_out
      (Assembler.handle_instruction 0 "andi" ["x5"; "t1"; "-7"]%string
         "andi x5, t1, -7" false Assembler.fresh) = [w] /\
    imm (Decoder.decode w 0) = -7.
Proof.
  destruct (assembled_i_type_decodes 0 "andi" 7 ["x5"; "t1"; "-7"]%string
              "andi x5, t1, -7" Assembler.fresh 0 (-7) eq_refl eq_refl)
    as (w & Ht & _ & _ & _ & _ & Hi & _);
    [vm_compute; split; [discriminate | reflexivity] ..
    | vm_compute; reflexivity | lia |].
  exists w. split; [exact Ht | exact Hi].
Defined.

(** X11.  A load ([lb], [lh], [lw], [lbu], [lhu]) whose operands parse as
    a register and an [offset(register)] with a 12-bit offset is assembled
    into one word that the decoder reads back as the load of that name:
    same destination, base register and offset, reading memory into the
    register. *)
Theorem assembled_load_decodes (indet : Z) (mnem : string) (f3 : Z)
    (ops : list string) (src : string) (a : Assembler.t)
    (pc off_ rs1_ : Z) (ok : bool) :
  Assembler.lookup mnem Assembler.loads = Some f3 ->
  List.length ops = 2%nat ->
  0 <= Assembler.parse_reg (Assembler.op ops 0) < 32 ->
  Assembler.parse_mem (Assembler.op ops 1) indet indet = (ok, off_, rs1_) ->
  0 <= rs1_ < 32 -> - 2048 <= off_ < 2048 ->
  exists w,
    Assembler.text_out (Assembler.handle_instruction indet mnem ops src false a)
      = Assembler.text_out a ++ [w] /\
    let i := Decoder.decode w pc in
    Assembler.lookup mnem load_kinds = Some (type i) /\
    rd i = Assembler.parse_reg (Assembler.op ops 0) /\
    rs1 i = rs1_ /\ imm i = off_ /\
    reg_write i = true /\ mem_read i = true /\ mem_to_reg i = true /\
    alu_src i = true /\ alu_op i = AluOp.ADD /\
    mem_write i = false /\ branch i = false /\ jump i = false.
Proof.
  intros Hl Hn Hrd Hm Hrs1 Hoff.
  rewrite (handle_load indet mnem f3 ops src a Hl Hn). rewrite Hm.
  eexists. split; [reflexivity|].
  set (rd_ := Assembler.parse_reg (Assembler.op ops 0)) in *.
  assert (Hf3 : 0 <= f3 < 8) by (table_cases Hl; lia).
  assert (Hr : Decoder.imm_i (Assembler.enc_i 3 rd_ f3 rs1_ off_) = off_)
    by (apply imm_i_roundtrip; lia).
  pose proof (enc_i_shape 3 rd_ f3 rs1_ off_ ltac:(lia) Hrd Hf3 Hrs1) as Hw.
  set (w := Assembler.enc_i 3 rd_ f3 rs1_ off_) in *.
  destruct (word_fields (off_ mod 2 ^ 12 / 2 ^ 5) (off_ mod 2 ^ 5) rs1_ f3 rd_ 3)
    as (E0 & E1 & E2 & E3 & E4 & E5);
    try lia; try (Z.div_mod_to_equations; lia).
  cbv zeta in *. rewrite <- Hw in E0, E1, E2, E3, E4, E5.
  rewrite (decode_op_load _ pc E0). rewrite E1, E2, E3, Hr.
  clearbody w. table_cases Hl; cbn; repeat split.
Qed.

Lemma assembled_load_decodes_witness :
  exists w,
    Assembler.text_out
      (Assembler.handle_instruction 0 "lhu" ["a0"; "-4(sp)"]%string
         "lhu a0, -4(sp)" false Assembler.fresh) = [w] /\
    type (Decoder.decode w 0) = InsType.LHU /\
    rs1 (Decoder.decode w 0) = 2 /\ imm (Decoder.decode w 0) = -4.
Proof.
  destruct (assembled_load_decodes 0 "lhu" 5 ["a0"; "-4(sp)"]%string
              "lhu a0, -4(sp)" Assembler.fresh 0 (-4) 2 true eq_refl eq_refl)
    as (w & Ht & Hk & _ & Hrs1 & Hi & _);
    [vm_compute; split; [discriminate | reflexivity]
    | vm_compute; reflexivity | lia | lia |].
  exists w. cbv zeta in Hk.
  assert (Hs : Assembler.lookup "lhu" load_kinds = Some InsType.LHU)
    by reflexivity.
  rewrite Hs in Hk. injection Hk as Hk.
  split; [exact Ht|]. split; [symmetry; exact Hk|].
  split; [exact Hrs1 | exact Hi].
Defined.

(** X12.  A store ([sb], [sh], [sw]) whose operands parse as a register and
    an [offset(register)] with a 12-bit offset is assembled into one word
    that the decoder reads back as the store of that name: same source
    register, base register and offset, writing memory and no register. *)
Theorem assembled_store_decodes (indet : Z) (mnem : string) (f3 : Z)
    (ops : list string) (src : string) (a : Assembler.t)
    (pc off_ rs1_ : Z) (ok : bool) :
  Assembler.lookup mnem Assembler.stores = Some f3 ->
  List.length ops = 2%nat ->
  0 <= Assembler.parse_reg (Assembler.op ops 0) < 32 ->
  Assembler.parse_mem (Assembler.op ops 1) indet indet = (ok, off_, rs1_) ->
  0 <= rs1_ < 32 -> - 2048 <= off_ < 2048 ->
  exists w,
    Assembler.text_out (Assembler.handle_instruction indet mnem ops src false a)
      = Assembler.text_out a ++ [w] /\
    let i := Decoder.decode w pc in
    Assembler.lookup mnem store_kinds = Some (type i) /\
    rs2 i = Assembler.parse_reg (Assembler.op ops 0) /\
    rs1 i = rs1_ /\ imm i = off_ /\
    mem_write i = true /\ alu_src i = true /\ alu_op i = AluOp.ADD /\
    reg_write i = false /\ mem_read i = false /\
    branch i = false /\ jump i = false.
Proof.
  intros Hl Hn Hrs2 Hm Hrs1 Hoff.
  rewrite (handle_store indet mnem f3 ops src a Hl Hn). rewrite Hm.
  eexists. split; [reflexivity|].
  set (rs2_ := Assembler.parse_reg (Assembler.op ops 0)) in *.
  assert (Hf3 : 0 <= f3 < 8) by (table_cases Hl; lia).
  assert (Hr : Decoder.imm_s (Assembler.enc_s 35 f3 rs1_ rs2_ off_) = off_)
    by (apply imm_s_roundtrip; lia).
  pose proof (enc_s_value 35 f3 rs1_ rs2_ off_ ltac:(lia) Hf3 Hrs1 Hrs2) as Hw.
  set (w := Assembler.enc_s 35 f3 rs1_ rs2_ off_) in *.
  destruct (word_fields ((off_ / 2 ^ 5) mod 2 ^ 7) rs2_ rs1_ f3
              (off_ mod 2 ^ 5) 35)
    as (E0 & E1 & E2 & E3 & E4 & E5);
    try lia; try (Z.div_mod_to_equations; lia).
  cbv zeta in *. rewrite <- Hw in E0, E1, E2, E3, E4, E5.
  rewrite (decode_op_store _ pc E0). rewrite E2, E3, E4, Hr.
  clearbody w. table_cases Hl; cbn; repeat split.
Qed.

Lemma assembled_store_decodes_witness :
  exists w,
    Assembler.text_out
      (Assembler.handle_instruction 0 "sw" ["ra"; "12(sp)"]%string
         "sw ra, 12(sp)" false Assembler.fresh) = [w] /\
    type (Decoder.decode w 0) = InsType.SW /\
    rs2 (Decoder.decode w 0) = 1 /\ imm (Decoder.decode w 0) = 12.
Proof.
  destruct (assembled_store_decodes 0 "sw" 2 ["ra"; "12(sp)"]%string
              "sw ra, 12(sp)" Assembler.fresh 0 12 2 true eq_refl eq_refl)
    as (w & Ht & Hk & Hrs2 & _ & Hi & _);
    [vm_compute; split; [discriminate | reflexivity]
    | vm_compute; reflexivity | lia | lia |].
  exists w. cbv zeta in Hk.
  assert (Hs : Assembler.lookup "sw" store_kinds = Some InsType.SW)
    by reflexivity.
  rewrite Hs in Hk. injection Hk as Hk.
  split; [exact Ht|]. split; [symmetry; exact Hk|].
  split; [exact Hrs2 | exact Hi].
Defined.

Lemma rel_target addr a :
  u32 (Assembler.text_addr a + Assembler.rel addr a) = u32 addr.
Proof.
  unfold Assembler.rel, s32, u32.
  rewrite <- Zplus_mod_idemp_r.
  rewrite <- (Zminus_mod_idemp_l ((_ + 2 ^ 31) mod 2 ^ 32)).
  rewrite Z.mod_mod by lia.
  rewrite Zminus_mod_idemp_l.
  rewrite Zplus_mod_idemp_r.
  replace (Assembler.text_addr a +
           ((addr - Assembler.text_addr a) mod 2 ^ 32 + 2 ^ 31 - 2 ^ 31))
    with ((addr - Assembler.text_addr a) mod 2 ^ 32 + Assembler.text_addr a)
    by lia.
  rewrite Zplus_mod_idemp_l. f_equal. lia.
Qed.

(** An operand is tried as a number before it is looked up as a label,
    and [parse_imm] reads a name whose second character is [x] in base 16
    as far as it goes: the label [exit] is the number 14. *)
Lemma label_read_as_number : Assembler.parse_imm "exit" = Some 14.
Proof. vm_compute. reflexivity. Qed.

(** X13.  A conditional branch ([beq], [bne], [blt], [bge], [bltu],
    [bgeu]) on two registers is assembled into one word that the decoder
    reads back as the branch of that name with the same registers and the
    same offset, when the target operand is one that [parse_imm] reads as
    an even offset on 13 signed bits, or one that [parse_imm] does not read
    as a number and that is a label of the symbol table at such a
    distance; for such a label the offset added to the address of the
    branch is the address of the label.  (A label that [parse_imm] reads
    as a number is taken as that number, not looked up.) *)
Theorem assembled_branch_decodes (indet : Z) (mnem : string) (f3 : Z)
    (ops : list string) (src : string) (a : Assembler.t) (pc off_ : Z) :
  Assembler.lookup mnem Assembler.branches = Some f3 ->
  List.length ops = 3%nat ->
  0 <= Assembler.parse_reg (Assembler.op ops 0) < 32 ->
  0 <= Assembler.parse_reg (Assembler.op ops 1) < 32 ->
  (Assembler.parse_imm (Assembler.op ops 2) = Some off_ \/
   Assembler.parse_imm (Assembler.op ops 2) = None /\
   exists addr, Assembler.labels a !! Assembler.op ops 2 = Some addr /\
                off_ = Assembler.rel addr a) ->
  - 4096 <= off_ < 4096 -> off_ mod 2 = 0 ->
  exists w,
    Assembler.text_out (Assembler.handle_instruction indet mnem ops src false a)
      = Assembler.text_out a ++ [w] /\
    let i := Decoder.decode w pc in
    Assembler.lookup mnem branch_kinds = Some (type i) /\
    rs1 i = Assembler.parse_reg (Assembler.op ops 0) /\
    rs2 i = Assembler.parse_reg (Assembler.op ops 1) /\
    imm i = off_ /\
    branch i = true /\ jump i = false /\ reg_write i = false /\
    mem_read i = false /\ mem_write i = false /\
    (forall addr,
       Assembler.parse_imm (Assembler.op ops 2) = None ->
       Assembler.labels a !! Assembler.op ops 2 = Some addr ->
       u32 (Assembler.text_addr a + imm i) = u32 addr).
Proof.
  intros Hl Hn Hrs1 Hrs2 Ht Hoff Hev.
  rewrite (handle_branch indet mnem f3 ops src a Hl Hn).
  set (rs1_ := Assembler.parse_reg (Assembler.op ops 0)) in *.
  set (rs2_ := Assembler.parse_reg (Assembler.op ops 1)) in *.
  assert (Hf3 : 0 <= f3 < 8) by (table_cases Hl; lia).
  assert (Hr : Decoder.imm_b (Assembler.enc_b 99 f3 rs1_ rs2_ off_) = off_)
    by (apply imm_b_roundtrip; lia).
  pose proof (enc_b_value 99 f3 rs1_ rs2_ off_ ltac:(lia) Hf3 Hrs1 Hrs2) as Hw.
  set (w := Assembler.enc_b 99 f3 rs1_ rs2_ off_) in *.
  assert (Hemit :
    match Assembler.parse_imm (Assembler.op ops 2) with
    | Some off =>
        Assembler.emit (Assembler.enc_b 99 f3 rs1_ rs2_ off) src a
    | None =>
        match Assembler.labels a !! Assembler.op ops 2 with
        | Some addr =>
            Assembler.emit
              (Assembler.enc_b 99 f3 rs1_ rs2_ (Assembler.rel addr a)) src a
        | None => Assembler.error ("Unknown label: " +:+ Assembler.op ops 2) a
        end
    end = Assembler.emit w src a).
  { destruct Ht as [-> | (-> & addr & -> & ->)]; reflexivity. }
  rewrite Hemit. exists w. split; [reflexivity|].
  pose proof (Z.mod_pos_bound (off_ / 2 ^ 12) (2 ^ 1) ltac:(lia)).
  pose proof (Z.mod_pos_bound (off_ / 2 ^ 11) (2 ^ 1) ltac:(lia)).
  pose proof (Z.mod_pos_bound (off_ / 2 ^ 5) (2 ^ 6) ltac:(lia)).
  pose proof (Z.mod_pos_bound (off_ / 2 ^ 1) (2 ^ 4) ltac:(lia)).
  destruct (word_fields
              ((off_ / 2 ^ 12) mod 2 ^ 1 * 2 ^ 6 + (off_ / 2 ^ 5) mod 2 ^ 6)
              rs2_ rs1_ f3
              ((off_ / 2 ^ 1) mod 2 ^ 4 * 2 + (off_ / 2 ^ 11) mod 2 ^ 1) 99)
    as (E0 & E1 & E2 & E3 & E4 & E5); try lia.
  cbv zeta in *. rewrite <- Hw in E0, E1, E2, E3, E4, E5.
  rewrite (decode_op_branch _ pc E0). rewrite E2, E3, E4, Hr.
  assert (Htarget : forall addr,
             Assembler.parse_imm (Assembler.op ops 2) = None ->
             Assembler.labels a !! Assembler.op ops 2 = Some addr ->
             u32 (Assembler.text_addr a + off_) = u32 addr).
  { intros addr Hp Hla.
    destruct Ht as [Hs | (_ & addr' & Hla' & ->)]; [congruence|].
    assert (addr' = addr) by congruence. subst addr'. apply rel_target. }
  clearbody w. clear Hemit.
  table_cases Hl; cbn; repeat split; exact Htarget.
Qed.

Lemma assembled_branch_decodes_witness :
  let a := Assembler.set_labels (<["done"%string := 8]> ∅) Assembler.fresh in
  exists w,
    Assembler.text_out
      (Assembler.handle_instruction 0 "bltu" ["a0"; "a1"; "done"]%string
         "bltu a0, a1, done" false a) = [w] /\
    type (Decoder.decode w 0) = InsType.BLTU /\
    imm (Decoder.decode w 0) = 8.
Proof.
  intros a.
  destruct (assembled_branch_decodes 0 "bltu" 6 ["a0"; "a1"; "done"]%string
              "bltu a0, a1, done" a 0 8 eq_refl eq_refl)
    as (w & Ht & Hk & _ & _ & Hi & _);
    [vm_compute; split; [discriminate | reflexivity] ..
    | right; split; [vm_compute; reflexivity|];
      exists 8; split; vm_compute; reflexivity
    | lia | reflexivity |].
  exists w. cbv zeta in Hk.
  assert (Hs : Assembler.lookup "bltu" branch_kinds = Some InsType.BLTU)
    by reflexivity.
  rewrite Hs in Hk. injection Hk as Hk.
  split; [exact Ht|]. split; [symmetry; exact Hk | exact Hi].
Defined.

(* --------------------------------------------------------------------- *)
(** ** Constants and addresses: [li] and [la]                             *)
(* --------------------------------------------------------------------- *)

Lemma decode_op_lui raw pc :
  Decoder.bits raw 6 0 = 55 ->
  Decoder.decode raw pc =
  set_alu_op AluOp.PASS_B (set_alu_src true (set_reg_write true
    (set_imm (Decoder.imm_u raw) (set_format FmtU (set_type InsType.LUI
      (mkInstruction raw InsType.ADDI FmtI (Decoder.get_rd raw)
         (Decoder.get_rs1 raw) (Decoder.get_rs2 raw) 0 false false false
         false false false false AluOp.NONE pc)))))).
Proof. intros H. unfold Decoder.decode. rewrite H. reflexivity. Qed.

Lemma decode_op_auipc raw pc :
  Decoder.bits raw 6 0 = 23 ->
  Decoder.decode raw pc =
  set_alu_op AluOp.ADD (set_alu_src true (set_reg_write true
    (set_imm (Decoder.imm_u raw) (set_format FmtU (set_type InsType.AUIPC
      (mkInstruction raw InsType.ADDI FmtI (Decoder.get_rd raw)
         (Decoder.get_rs1 raw) (Decoder.get_rs2 raw) 0 false false false
         false false false false AluOp.NONE pc)))))).
Proof. intros H. unfold Decoder.decode. rewrite H. reflexivity. Qed.

(** The word of a U-type instruction whose immediate has the 20-bit
    payload [t] in its upper bits. *)
Lemma enc_u_upper op rd_ x t :
  0 <= op < 128 -> 0 <= rd_ < 32 -> 0 <= t < 2 ^ 20 ->
  u32 x = t * 2 ^ 12 ->
  let w := Assembler.enc_u op rd_ x in
  Decoder.bits w 6 0 = op /\ Decoder.get_rd w = rd_ /\
  Decoder.imm_u w = s32 (t * 2 ^ 12).
Proof.
  intros Hop Hrd Ht Hx. cbv zeta. unfold Assembler.enc_u.
  rewrite Hx. rewrite shl_small by lia.
  rewrite (u32_small (rd_ * 2 ^ 7)), (u32_small op) by lia.
  rewrite land_upper20.
  replace ((t * 2 ^ 12 / 2 ^ 12) mod 2 ^ 20 * 2 ^ 12) with (t * 2 ^ 12)
    by (Z.div_mod_to_equations; lia).
  lor_to_add.
  unfold Decoder.get_rd, Decoder.imm_u. rewrite !bits_arith by lia.
  rewrite land_upper20.
  repeat split; [Z.div_mod_to_equations; lia .. |].
  f_equal. Z.div_mod_to_equations. lia.
Qed.

(** The split of a 32-bit constant into the upper 20 bits and a signed
    12-bit rest. *)
Lemma upper_lower (v : Z) :
  - 2 ^ 31 <= v < 2 ^ 31 - 2048 ->
  let upper := Z.land (Z.shiftr (s32 (v + 0x800)) 12) 0xFFFFF in
  let lower := s32 (u32 v - u32 (Z.shiftl upper 12)) in
  0 <= upper < 2 ^ 20 /\
  u32 (s32 (u32 (Z.shiftl upper 12))) = upper * 2 ^ 12 /\
  - 2048 <= lower < 2048 /\
  u32 (s32 (upper * 2 ^ 12) + lower) = u32 v.
Proof.
  intros Hv. cbv zeta.
  rewrite s32_small by lia.
  change 0xFFFFF with (Z.ones 20). rewrite Z.land_ones by lia.
  rewrite Z.shiftr_div_pow2, Z.shiftl_mul_pow2 by lia.
  set (t := ((v + 2048) / 2 ^ 12) mod 2 ^ 20).
  assert (Ht : 0 <= t < 2 ^ 20) by (apply Z.mod_pos_bound; lia).
  split; [exact Ht|].
  rewrite u32_s32. rewrite !(u32_small (t * 2 ^ 12)) by lia.
  split; [reflexivity|].
  assert (Hl : s32 (u32 v - t * 2 ^ 12) = (v + 2048) mod 2 ^ 12 - 2048).
  { subst t. unfold s32, u32. Z.div_mod_to_equations. lia. }
  rewrite Hl.
  split; [pose proof (Z.mod_pos_bound (v + 2048) (2 ^ 12)); lia|].
  subst t. unfold s32, u32. Z.div_mod_to_equations. lia.
Qed.

Lemma handle_li ops src a :
  List.length ops = 2%nat ->
  Assembler.handle_pseudo "li" ops src false a =
  match Assembler.parse_imm (Assembler.op ops 1) with
  | None => (true, Assembler.error "Invalid immediate" a)
  | Some imm =>
      let rd := Assembler.parse_reg (Assembler.op ops 0) in
      if (imm >=? -2048) && (imm <? 2048) then
        (true, Assembler.emit (Assembler.enc_i 19 rd 0 0 imm) src a)
      else
        let upper := Z.land (Z.shiftr (s32 (imm + 0x800)) 12) 0xFFFFF in
        let lower := s32 (u32 imm - u32 (Z.shiftl upper 12)) in
        let a := Assembler.emit
                   (Assembler.enc_u 55 rd (s32 (u32 (Z.shiftl upper 12))))
                   src a in
        (true, if negb (lower =? 0)
               then Assembler.emit (Assembler.enc_i 19 rd 0 rd lower) src a
               else a)
  end.
Proof.
  intros Hn. unfold Assembler.handle_pseudo. rewrite Hn. reflexivity.
Qed.

Lemma decode_addi rd_ rs1_ v pc :
  0 <= rd_ < 32 -> 0 <= rs1_ < 32 -> - 2048 <= v < 2048 ->
  let i := Decoder.decode (Assembler.enc_i 19 rd_ 0 rs1_ v) pc in
  type i = InsType.ADDI /\ alu_op i = AluOp.ADD /\
  rd i = rd_ /\ rs1 i = rs1_ /\ imm i = v /\
  reg_write i = true /\ alu_src i = true.
Proof.
  intros Hrd Hrs1 Hv.
  assert (Hr : Decoder.imm_i (Assembler.enc_i 19 rd_ 0 rs1_ v) = v)
    by (apply imm_i_roundtrip; lia).
  pose proof (enc_i_shape 19 rd_ 0 rs1_ v ltac:(lia) Hrd ltac:(lia) Hrs1) as Hw.
  set (w := Assembler.enc_i 19 rd_ 0 rs1_ v) in *.
  destruct (word_fields (v mod 2 ^ 12 / 2 ^ 5) (v mod 2 ^ 5) rs1_ 0 rd_ 19)
    as (E0 & E1 & E2 & E3 & E4 & E5);
    try lia; try (Z.div_mod_to_equations; lia).
  cbv zeta in *. rewrite <- Hw in E0, E1, E2, E3, E4, E5.
  rewrite (decode_op_imm _ pc E0). rewrite E1, E2, E3, Hr.
  clearbody w. cbn. repeat split.
Qed.

(** The two parts exactly: the low part is the low 12 bits of the
    constant read as a signed number, the high part is the rest. *)
Lemma upper_lower_exact (v : Z) :
  - 2 ^ 31 <= v < 2 ^ 31 - 2048 ->
  let upper := Z.land (Z.shiftr (s32 (v + 0x800)) 12) 0xFFFFF in
  let lower := s32 (u32 v - u32 (Z.shiftl upper 12)) in
  lower = (v + 2048) mod 4096 - 2048 /\
  s32 (upper * 2 ^ 12) = v - ((v + 2048) mod 4096 - 2048).
Proof.
  intros Hv. cbv zeta.
  rewrite (s32_small (v + 2048)) by lia.
  change 0xFFFFF with (Z.ones 20). rewrite Z.land_ones by lia.
  rewrite Z.shiftr_div_pow2, Z.shiftl_mul_pow2 by lia.
  set (t := ((v + 2048) / 2 ^ 12) mod 2 ^ 20).
  assert (Ht : 0 <= t < 2 ^ 20) by (apply Z.mod_pos_bound; lia).
  rewrite !(u32_small (t * 2 ^ 12)) by lia.
  change 4096 with (2 ^ 12).
  split.
  - subst t. unfold s32, u32. Z.div_mod_to_equations. lia.
  - subst t. unfold s32. Z.div_mod_to_equations. lia.
Qed.

(** X14.  [li rd, imm] with a register and a constant (below 2^31 - 2048,
    so that the rounding addition does not overflow) is assembled without
    an error.  Let [lo] be the low 12 bits of the constant read as a signed
    number.  When the constant fits 12 signed bits the output is the one
    word [addi rd, x0, imm]; when it does not and [lo] is 0, the one word
    [lui rd, imm]; when it does not and [lo] is not 0, the two words
    [lui rd, imm - lo] and [addi rd, rd, lo]. *)
Theorem li_materializes_constant (ops : list string) (src : string)
    (a : Assembler.t) (pc1 pc2 imm_ : Z) :
  List.length ops = 2%nat ->
  0 <= Assembler.parse_reg (Assembler.op ops 0) < 32 ->
  Assembler.parse_imm (Assembler.op ops 1) = Some imm_ ->
  - 2 ^ 31 <= imm_ < 2 ^ 31 - 2048 ->
  let rd_ := Assembler.parse_reg (Assembler.op ops 0) in
  let a' := snd (Assembler.handle_pseudo "li" ops src false a) in
  let lo := (imm_ + 2048) mod 4096 - 2048 in
  Assembler.errors a' = Assembler.errors a /\
  if (-2048 <=? imm_) && (imm_ <? 2048) then
    exists w,
      Assembler.text_out a' = Assembler.text_out a ++ [w] /\
      let i := Decoder.decode w pc1 in
      type i = InsType.ADDI /\ alu_op i = AluOp.ADD /\
      rd i = rd_ /\ rs1 i = 0 /\ imm i = imm_ /\
      reg_write i = true /\ alu_src i = true
  else if lo =? 0 then
    exists w,
      Assembler.text_out a' = Assembler.text_out a ++ [w] /\
      let i := Decoder.decode w pc1 in
      type i = InsType.LUI /\ alu_op i = AluOp.PASS_B /\
      rd i = rd_ /\ imm i = imm_ /\
      reg_write i = true /\ alu_src i = true
  else
    exists w1 w2,
      Assembler.text_out a' = Assembler.text_out a ++ [w1; w2] /\
      let i1 := Decoder.decode w1 pc1 in
      let i2 := Decoder.decode w2 pc2 in
      type i1 = InsType.LUI /\ alu_op i1 = AluOp.PASS_B /\
      rd i1 = rd_ /\ imm i1 = imm_ - lo /\
      reg_write i1 = true /\ alu_src i1 = true /\
      type i2 = InsType.ADDI /\ alu_op i2 = AluOp.ADD /\
      rd i2 = rd_ /\ rs1 i2 = rd_ /\ imm i2 = lo /\
      reg_write i2 = true /\ alu_src i2 = true.
Proof.
  intros Hn Hrd Hi Himm. cbv zeta.
  rewrite (handle_li ops src a Hn), Hi. cbv zeta.
  set (rd_ := Assembler.parse_reg (Assembler.op ops 0)) in *.
  replace ((imm_ >=? -2048) && (imm_ <? 2048))
    with ((-2048 <=? imm_) && (imm_ <? 2048))
    by (rewrite Z.geb_leb; reflexivity).
  destruct ((-2048 <=? imm_) && (imm_ <? 2048)) eqn:Hsmall.
  - (* one addi *)
    cbn [snd]. split; [reflexivity|].
    eexists. split; [reflexivity|].
    assert (Hs : -2048 <= imm_ < 2048) by lia.
    destruct (decode_addi rd_ 0 imm_ pc1 Hrd ltac:(lia) Hs)
      as (D1 & D2 & D3 & D4 & D5 & D6 & D7).
    cbv zeta in *. repeat split; assumption.
  - destruct (upper_lower imm_ Himm) as (Hu & Hx & Hlo & _).
    destruct (upper_lower_exact imm_ Himm) as (Hl & Hh).
    cbv zeta in *.
    set (upper := Z.land (Z.shiftr (s32 (imm_ + 2048)) 12) 1048575) in *.
    set (lower := s32 (u32 imm_ - u32 (Z.shiftl upper 12))) in *.
    destruct (enc_u_upper 55 rd_ (s32 (u32 (Z.shiftl upper 12))) upper
                ltac:(lia) Hrd Hu Hx) as (U0 & U1 & U2).
    cbv zeta in *. rewrite Hh in U2. rewrite <- Hl.
    destruct (Z.eqb_spec lower 0) as [Hz | Hnz]; cbn [negb snd].
    + (* lui alone *)
      split; [reflexivity|].
      eexists. split; [reflexivity|]. cbv beta iota zeta.
      rewrite (decode_op_lui _ pc1 U0). cbn. rewrite U1, U2.
      repeat split. lia.
    + (* lui, addi *)
      split; [reflexivity|].
      exists (Assembler.enc_u 55 rd_ (s32 (u32 (Z.shiftl upper 12)))),
             (Assembler.enc_i 19 rd_ 0 rd_ lower).
      split; [symmetry; apply (app_assoc (Assembler.text_out a) [_] [_])|].
      destruct (decode_addi rd_ rd_ lower pc2 Hrd Hrd Hlo)
        as (D1 & D2 & D3 & D4 & D5 & D6 & D7).
      cbv beta iota zeta in *.
      rewrite (decode_op_lui _ pc1 U0). cbn. rewrite U1, U2, D5.
      repeat split; first [assumption | lia].
Qed.

Lemma li_materializes_constant_witness :
  exists w1 w2,
    Assembler.text_out
      (snd (Assembler.handle_pseudo "li" ["t0"; "0x12345FFF"]%string
              "li t0, 0x12345FFF" false Assembler.fresh)) = [w1; w2] /\
    imm (Decoder.decode w1 0) = 0x12346000 /\
    imm (Decoder.decode w2 4) = -1.
Proof.
  destruct (li_materializes_constant ["t0"; "0x12345FFF"]%string
              "li t0, 0x12345FFF" Assembler.fresh 0 4 0x12345FFF eq_refl)
    as (_ & H);
    [vm_compute; split; [discriminate | reflexivity]
    | vm_compute; reflexivity | lia |].
  change ((-2048 <=? 0x12345FFF) && (0x12345FFF <? 2048)) with false in H.
  change ((0x12345FFF + 2048) mod 4096 - 2048) with (-1) in H.
  change (-1 =? 0) with false in H. cbv iota zeta in H.
  destruct H as (w1 & w2 & Ht & _ & _ & _ & H1 & _ & _ & _ & _ & _ & _ & H2 & _).
  exists w1, w2. split; [exact Ht|]. split; [exact H1 | exact H2].
Defined.

Lemma handle_la ops src a :
  List.length ops = 2%nat ->
  Assembler.handle_pseudo "la" ops src false a =
  let rd := Assembler.parse_reg (Assembler.op ops 0) in
  let label := Assembler.trim (Assembler.op ops 1) in
  match Assembler.labels a !! label with
  | None => (true, Assembler.error ("Unknown label: " +:+ label) a)
  | Some addr =>
      let off := Assembler.rel addr a in
      let upper := Z.land (Z.shiftr (s32 (off + 0x800)) 12) 0xFFFFF in
      let lower := s32 (u32 off - u32 (Z.shiftl upper 12)) in
      let a := Assembler.emit
                 (Assembler.enc_u 23 rd (s32 (u32 (Z.shiftl upper 12))))
                 src a in
      (true, Assembler.emit (Assembler.enc_i 19 rd 0 rd lower) src a)
  end.
Proof.
  intros Hn. unfold Assembler.handle_pseudo. rewrite Hn. reflexivity.
Qed.

(** X15.  [la rd, label] with a register and a label of the symbol table
    (whose distance is below 2^31 - 2048, so that the rounding addition
    does not overflow) is assembled without an error into
    [auipc rd, hi] and [addi rd, rd, lo], where the address of the [auipc]
    plus [hi + lo] is the address of the label modulo 2^32. *)
Theorem la_materializes_address (ops : list string) (src : string)
    (a : Assembler.t) (pc1 pc2 addr : Z) :
  List.length ops = 2%nat ->
  0 <= Assembler.parse_reg (Assembler.op ops 0) < 32 ->
  Assembler.labels a !! Assembler.trim (Assembler.op ops 1) = Some addr ->
  Assembler.rel addr a < 2 ^ 31 - 2048 ->
  let rd_ := Assembler.parse_reg (Assembler.op ops 0) in
  let a' := snd (Assembler.handle_pseudo "la" ops src false a) in
  Assembler.errors a' = Assembler.errors a /\
  exists w1 w2,
    Assembler.text_out a' = Assembler.text_out a ++ [w1; w2] /\
    let i1 := Decoder.decode w1 pc1 in
    let i2 := Decoder.decode w2 pc2 in
    type i1 = InsType.AUIPC /\ alu_op i1 = AluOp.ADD /\ rd i1 = rd_ /\
    reg_write i1 = true /\ alu_src i1 = true /\
    type i2 = InsType.ADDI /\ alu_op i2 = AluOp.ADD /\ rd i2 = rd_ /\
    rs1 i2 = rd_ /\ reg_write i2 = true /\ alu_src i2 = true /\
    u32 (Assembler.text_addr a + (imm i1 + imm i2)) = u32 addr.
Proof.
  intros Hn Hrd Hl Hrel. cbv zeta.
  rewrite (handle_la ops src a Hn). cbv zeta. rewrite Hl.
  set (rd_ := Assembler.parse_reg (Assembler.op ops 0)) in *.
  assert (Hv : - 2 ^ 31 <= Assembler.rel addr a < 2 ^ 31 - 2048).
  { split; [|exact Hrel]. unfold Assembler.rel. apply s32_range. }
  destruct (upper_lower _ Hv) as (Hu & Hx & Hlo & Hsum).
  cbv zeta in *.
  set (upper := Z.land (Z.shiftr (s32 (Assembler.rel addr a + 2048)) 12)
                  1048575) in *.
  set (lower := s32 (u32 (Assembler.rel addr a) - u32 (Z.shiftl upper 12))) in *.
  destruct (enc_u_upper 23 rd_ (s32 (u32 (Z.shiftl upper 12))) upper
              ltac:(lia) Hrd Hu Hx) as (U0 & U1 & U2).
  cbv zeta in *. cbn [snd].
  split; [reflexivity|].
  exists (Assembler.enc_u 23 rd_ (s32 (u32 (Z.shiftl upper 12)))),
         (Assembler.enc_i 19 rd_ 0 rd_ lower).
  split; [symmetry; apply (app_assoc (Assembler.text_out a) [_] [_])|].
  destruct (decode_addi rd_ rd_ lower pc2 Hrd Hrd Hlo)
    as (D1 & D2 & D3 & D4 & D5 & D6 & D7).
  cbv beta iota zeta in *.
  rewrite (decode_op_auipc _ pc1 U0). cbn. rewrite U1, U2, D5.
  repeat split; try assumption.
  rewrite <- (rel_target addr a).
  unfold u32 in *. rewrite <- Zplus_mod_idemp_r, Hsum, Zplus_mod_idemp_r.
  reflexivity.
Qed.

Lemma la_materializes_address_witness :
  exists w1 w2,
    Assembler.text_out
      (snd (Assembler.handle_pseudo "la" ["a0"; "msg"]%string "la a0, msg"
              false
              (Assembler.set_labels (<["msg"%string := 0x10000004]> ∅)
                 Assembler.fresh))) = [w1; w2] /\
    u32 (0 + (imm (Decoder.decode w1 0) + imm (Decoder.decode w2 4)))
      = u32 0x10000004.
Proof.
  destruct (la_materializes_address ["a0"; "msg"]%string "la a0, msg"
              (Assembler.set_labels (<["msg"%string := 0x10000004]> ∅)
                 Assembler.fresh) 0 4 0x10000004 eq_refl)
    as (_ & w1 & w2 & Ht & Hd);
    [vm_compute; split; [discriminate | reflexivity]
    | vm_compute; reflexivity | vm_compute; reflexivity |].
  exists w1, w2. cbv zeta in *. split; [exact Ht|].
  apply Hd.
Defined.

(* --------------------------------------------------------------------- *)
(** ** Register names and pseudo-instructions                             *)
(* --------------------------------------------------------------------- *)

Lemma abi_range :
  Forall (fun e : string * Z => 0 <= snd e < 32) Assembler.abi.
Proof. repeat constructor; cbn; lia. Qed.

(** X16.  [parse_reg] answers a register index or -1, never anything
    else.  Each of the names x0 ... x31 and each ABI name is read as its
    register, in lower case, in upper case between blanks, and in whatever
    spelling gives the name once the blanks around it are dropped and its
    letters are put in lower case; [x32] and the empty string give -1. *)
Theorem parse_reg_names (s : string) :
  - 1 <= Assembler.parse_reg s < 32 /\
  Forall (fun n =>
            let x := ("x" +:+ pretty n)%string in
            Assembler.parse_reg x = Z.of_nat n /\
            Assembler.parse_reg (" " +:+ to_upper x +:+ String "009" " ")
              = Z.of_nat n /\
            (Assembler.to_lower (Assembler.trim s) = x ->
             Assembler.parse_reg s = Z.of_nat n))
         (seq 0 32) /\
  Forall (fun e =>
            Assembler.parse_reg (fst e) = snd e /\
            Assembler.parse_reg (" " +:+ to_upper (fst e) +:+ String "009" " ")
              = snd e /\
            (Assembler.to_lower (Assembler.trim s) = fst e ->
             Assembler.parse_reg s = snd e))
         Assembler.abi /\
  Assembler.parse_reg "x32" = -1 /\ Assembler.parse_reg "" = -1.
Proof.
  split.
  - unfold Assembler.parse_reg.
    set (r := Assembler.to_lower (Assembler.trim s)).
    assert (Ha : - 1 <=
                 match List.find (fun e => (fst e =? r)%string) Assembler.abi with
                 | Some e => snd e
                 | None => -1
                 end < 32).
    { destruct (List.find _ _) as [e|] eqn:Hf; [|lia].
      apply find_some in Hf. destruct Hf as (Hin & _).
      pose proof (proj1 (List.Forall_forall _ _) abi_range e Hin) as Hr.
      cbv beta in Hr. lia. }
    assert (Hx : forall rest,
               - 1 <= match Assembler.stoi rest with
                      | Some n => if (n >=? 0) && (n <? 32) then n else -1
                      | None => -1
                      end < 32).
    { intros rest. destruct (Assembler.stoi rest) as [n|]; [|lia].
      destruct (Z.geb_spec n 0), (Z.ltb_spec n 32); cbn; lia. }
    destruct r as [|c rest]; [lia|].
    destruct (Ascii.eqb_spec c "x") as [->|Hc]; [apply Hx|].
    destruct c as [[] [] [] [] [] [] [] []]; try exact Ha; try apply Hx.
  - split; [|split; [|split; vm_compute; reflexivity]].
    + repeat (apply List.Forall_cons;
              [ cbv zeta;
                split; [vm_compute; reflexivity|];
                split; [vm_compute; reflexivity|];
                intros Hs; unfold Assembler.parse_reg; cbv zeta;
                rewrite Hs; vm_compute; reflexivity |]).
      apply List.Forall_nil.
    + repeat (apply List.Forall_cons;
              [ split; [vm_compute; reflexivity|];
                split; [vm_compute; reflexivity|];
                intros Hs; unfold Assembler.parse_reg; cbv zeta;
                rewrite Hs; vm_compute; reflexivity |]).
      apply List.Forall_nil.
Qed.

Lemma parse_reg_names_witness :
  Assembler.parse_reg (String "009" " sP ") = 2 /\
  Assembler.parse_reg "  X17" = 17.
Proof.
  split.
  - destruct (parse_reg_names (String "009" " sP ")) as (_ & _ & Ha & _).
    destruct (proj1 (List.Forall_forall _ _) Ha ("sp"%string, 2))
      as (_ & _ & Hs).
    + cbn. auto 10.
    + apply Hs. vm_compute. reflexivity.
  - destruct (parse_reg_names "  X17") as (_ & Hx & _).
    destruct (proj1 (List.Forall_forall _ _) Hx 17%nat) as (_ & _ & Hs).
    + apply in_seq. lia.
    + apply Hs. vm_compute. reflexivity.
Defined.

(** X17.  The pseudo-instructions without a label are shorthands: in both
    passes [handle_pseudo] leaves the assembler in the state in which
    [handle_instruction] leaves it for the real instruction they stand
    for ([nop] for [addi x0, x0, 0], [mv d, s] for [addi d, s, 0],
    [not d, s] for [xori d, s, -1], [neg d, s] for [sub d, x0, s],
    [seqz d, s] for [sltiu d, s, 1], [snez d, s] for [sltu d, x0, s],
    [sltz d, s] for [slt d, s, x0], [sgtz d, s] for [slt d, x0, s],
    [jr s] for [jalr x0, s, 0] and [ret] for [jalr x0, ra, 0]). *)
Theorem pseudo_instructions_are_shorthands (indet : Z) (d s src : string)
    (first_pass : bool) (a : Assembler.t) :
  let pseudo m ops := Assembler.handle_pseudo m ops src first_pass a in
  let real m ops := Assembler.handle_instruction indet m ops src first_pass a in
  pseudo "nop" [] = (true, real "addi" ["x0"; "x0"; "0"]) /\
  pseudo "mv" [d; s] = (true, real "addi" [d; s; "0"]) /\
  pseudo "not" [d; s] = (true, real "xori" [d; s; "-1"]) /\
  pseudo "neg" [d; s] = (true, real "sub" [d; "x0"; s]) /\
  pseudo "seqz" [d; s] = (true, real "sltiu" [d; s; "1"]) /\
  pseudo "snez" [d; s] = (true, real "sltu" [d; "x0"; s]) /\
  pseudo "sltz" [d; s] = (true, real "slt" [d; s; "x0"]) /\
  pseudo "sgtz" [d; s] = (true, real "slt" [d; "x0"; s]) /\
  pseudo "jr" [s] = (true, real "jalr" ["x0"; s; "0"]) /\
  pseudo "ret" [] = (true, real "jalr" ["x0"; "ra"; "0"]).
Proof.
  cbv zeta. repeat split; reflexivity.
Qed.

(* --------------------------------------------------------------------- *)
(** ** The single-cycle executor                                          *)
(* --------------------------------------------------------------------- *)

Lemma writeback_spec r ins v :
  0 <= rd ins < 32 ->
  exists r',
    CPU.writeback r ins v = Some r' /\
    List.length r' = List.length r /\
    (forall k, k <> rd ins -> RegisterFile.read r' k = RegisterFile.read r k) /\
    (reg_write ins = false -> r' = r).
Proof.
  intros Hrd. unfold CPU.writeback.
  destruct (reg_write ins); cbn [andb].
  2: { exists r. repeat split; auto. }
  destruct (Z.eqb_spec (rd ins) 0) as [Hz|Hz]; cbn [negb].
  { exists r. repeat split; auto. }
  unfold RegisterFile.write, NUM_REGISTERS.
  destruct (Z.ltb_spec (rd ins) 0); [lia|].
  destruct (Z.geb_spec (rd ins) 32); [lia|]. cbn [orb].
  destruct (Z.eqb_spec (rd ins) 0); [lia|]. cbn [negb].
  eexists. split; [reflexivity|]. split; [apply length_insert|].
  split; [|discriminate].
  intros k Hk. unfold RegisterFile.read.
  destruct ((k <? 0) || (k >=? NUM_REGISTERS)) eqn:Hb; [reflexivity|].
  unfold NUM_REGISTERS in Hb.
  destruct (Z.ltb_spec k 0); [discriminate|].
  rewrite list_lookup_insert_ne by lia. reflexivity.
Qed.

Lemma memory_access_spec m ins ar v2 :
  mem_write ins = false -> snd (CPU.memory_access m ins ar v2) = m.
Proof.
  intros H. unfold CPU.memory_access. rewrite H.
  destruct (mem_read ins); [destruct (type ins)|]; reflexivity.
Qed.

(** X18.  No exception escapes a step of the single-cycle executor,
    whatever the memory, the register file and the PC: the step returns,
    keeps the size of the register file and the breakpoints, changes no
    register other than the destination of the fetched instruction, and
    changes memory only if the instruction has [mem_write] set (a halted
    executor changes nothing at all). *)
Theorem cpu_step_never_faults (c : CPU.t) :
  let ins := Decoder.decode (CPU.fetch c) (CPU.pc c) in
  exists b c',
    CPU.step c = Some (b, c') /\
    List.length (CPU.regs c') = List.length (CPU.regs c) /\
    CPU.breakpoints c' = CPU.breakpoints c /\
    (forall k, k <> rd ins ->
       RegisterFile.read (CPU.regs c') k = RegisterFile.read (CPU.regs c) k) /\
    (mem_write ins = false -> CPU.mem c' = CPU.mem c) /\
    (CPU.halted c = true -> b = false /\ c' = c).
Proof.
  intros ins.
  pose proof (decoded_sane ins (decoded_decode _ _)) as Hs.
  unfold CPU.step. destruct (CPU.halted c) eqn:Hh.
  { exists false, c. repeat split; auto. }
  cbv zeta. unfold CPU.decode. fold ins.
  destruct (InsType.eqb (type ins) InsType.ECALL).
  { eexists. eexists. split; [reflexivity|]. cbn.
    repeat split; auto; discriminate. }
  destruct (register_read_total (CPU.regs c) _ (sane_rs1 _ Hs)) as [v1 ->].
  destruct (register_read_total (CPU.regs c) _ (sane_rs2 _ Hs)) as [v2 ->].
  unfold CPU.execute. cbv zeta.
  match goal with
  | |- context [ALU.execute ?o ?x ?y] =>
      destruct (alu_execute_total o x y) as [ar ->]
  end.
  match goal with
  | |- context [let '(_, _) := ?e in _] => destruct e as [npc ar']
  end.
  pose proof (memory_access_spec (CPU.mem c) ins ar' v2) as Hm.
  destruct (CPU.memory_access (CPU.mem c) ins ar' v2) as [mr m].
  cbn [snd] in Hm.
  destruct (writeback_spec (CPU.regs c) ins (if mem_to_reg ins then mr else ar')
              (sane_rd _ Hs)) as (r' & -> & Hl & Hk & _).
  destruct (CPU.has_breakpoint _ _); eexists; eexists;
    (split; [reflexivity|]); cbn; repeat split; auto; discriminate.
Qed.

(** *** The PC *)

Lemma imm_b_even raw : Decoder.imm_b raw mod 2 = 0.
Proof.
  unfold Decoder.imm_b. cbv zeta. rewrite !bits_arith by lia.
  pose proof (Z.mod_pos_bound (raw / 2 ^ 31) (2 ^ (31 - 31 + 1)) ltac:(lia)).
  pose proof (Z.mod_pos_bound (raw / 2 ^ 7) (2 ^ (7 - 7 + 1)) ltac:(lia)).
  pose proof (Z.mod_pos_bound (raw / 2 ^ 25) (2 ^ (30 - 25 + 1)) ltac:(lia)).
  pose proof (Z.mod_pos_bound (raw / 2 ^ 8) (2 ^ (11 - 8 + 1)) ltac:(lia)).
  set (b12 := (raw / 2 ^ 31) mod 2 ^ (31 - 31 + 1)) in *.
  set (b11 := (raw / 2 ^ 7) mod 2 ^ (7 - 7 + 1)) in *.
  set (b10_5 := (raw / 2 ^ 25) mod 2 ^ (30 - 25 + 1)) in *.
  set (b4_1 := (raw / 2 ^ 8) mod 2 ^ (11 - 8 + 1)) in *.
  rewrite !Z.shiftl_mul_pow2 by lia. rewrite !u32_small by lia.
  lor_to_add.
  rewrite sign_extend_arith by lia.
  match goal with |- context [?x <? ?y] => destruct (Z.ltb_spec x y) end;
    Z.div_mod_to_equations; lia.
Qed.

Lemma imm_j_even raw : Decoder.imm_j raw mod 2 = 0.
Proof.
  unfold Decoder.imm_j. cbv zeta. rewrite !bits_arith by lia.
  pose proof (Z.mod_pos_bound (raw / 2 ^ 31) (2 ^ (31 - 31 + 1)) ltac:(lia)).
  pose proof (Z.mod_pos_bound (raw / 2 ^ 12) (2 ^ (19 - 12 + 1)) ltac:(lia)).
  pose proof (Z.mod_pos_bound (raw / 2 ^ 20) (2 ^ (20 - 20 + 1)) ltac:(lia)).
  pose proof (Z.mod_pos_bound (raw / 2 ^ 21) (2 ^ (30 - 21 + 1)) ltac:(lia)).
  set (b20 := (raw / 2 ^ 31) mod 2 ^ (31 - 31 + 1)) in *.
  set (b19_12 := (raw / 2 ^ 12) mod 2 ^ (19 - 12 + 1)) in *.
  set (b11 := (raw / 2 ^ 20) mod 2 ^ (20 - 20 + 1)) in *.
  set (b10_1 := (raw / 2 ^ 21) mod 2 ^ (30 - 21 + 1)) in *.
  rewrite !Z.shiftl_mul_pow2 by lia. rewrite !u32_small by lia.
  lor_to_add.
  rewrite sign_extend_arith by lia.
  match goal with |- context [?x <? ?y] => destruct (Z.ltb_spec x y) end;
    Z.div_mod_to_equations; lia.
Qed.

Lemma clear_bit0 x :
  0 <= Z.land x (u32 (Z.lnot 1)) /\ Z.land x (u32 (Z.lnot 1)) mod 2 = 0 /\
  Z.land x (u32 (Z.lnot 1)) < 2 ^ 32.
Proof.
  change (u32 (Z.lnot 1)) with (Z.shiftl (Z.ones 31) 1).
  rewrite land_shifted_ones by lia.
  pose proof (Z.mod_pos_bound (x / 2 ^ 1) (2 ^ 31) ltac:(lia)).
  repeat split; [lia | apply Z.mod_mul; lia | lia].
Qed.

Lemma decode_targets raw pc :
  let ins := Decoder.decode raw pc in
  (jump ins = true -> type ins = InsType.JAL -> imm ins = Decoder.imm_j raw) /\
  (jump ins = false -> branch ins = true -> imm ins = Decoder.imm_b raw).
Proof.
  cbv zeta. decode_paths; cbn; split; intros; try discriminate; reflexivity.
Qed.

Lemma u32_even x : x mod 2 = 0 -> u32 x mod 2 = 0.
Proof. unfold u32. intros. Z.div_mod_to_equations. lia. Qed.

(** X19.  The PC of the single-cycle executor stays an even 32-bit word:
    sequential steps add 4, branch and jump offsets are even, and [jalr]
    clears bit 0 of its target.  (It need not stay a multiple of 4.) *)
Theorem cpu_pc_stays_even (c : CPU.t) (b : bool) (c' : CPU.t) :
  0 <= CPU.pc c < 2 ^ 32 -> CPU.pc c mod 2 = 0 ->
  CPU.step c = Some (b, c') ->
  0 <= CPU.pc c' < 2 ^ 32 /\ CPU.pc c' mod 2 = 0.
Proof.
  intros Hr He. unfold CPU.step.
  destruct (CPU.halted c); [intros [= _ <-]; auto|].
  cbv zeta. unfold CPU.decode.
  set (ins := Decoder.decode (CPU.fetch c) (CPU.pc c)).
  destruct (decode_targets (CPU.fetch c) (CPU.pc c)) as (Hj & Hb).
  cbv zeta in Hj, Hb. fold ins in Hj, Hb.
  destruct (InsType.eqb (type ins) InsType.ECALL);
    [intros [= _ <-]; auto|].
  destruct (RegisterFile.read _ _) as [v1|]; [|discriminate].
  destruct (RegisterFile.read _ _) as [v2|]; [|discriminate].
  destruct (CPU.execute _ _ _ _) as [ar|]; [|discriminate].
  cbn [mbind option_bind].
  assert (Hn : 0 <= u32 (CPU.pc c + 4) < 2 ^ 32 /\ u32 (CPU.pc c + 4) mod 2 = 0).
  { split; [apply u32_range|]. apply u32_even. Z.div_mod_to_equations. lia. }
  assert (Hpc : forall npc,
    0 <= npc < 2 ^ 32 /\ npc mod 2 = 0 ->
    forall ar0,
    (let '(mr, m) := CPU.memory_access (CPU.mem c) ins ar0 v2 in
     match CPU.writeback (CPU.regs c) ins (if mem_to_reg ins then mr else ar0) with
     | Some r =>
         let c' := CPU.mk m r npc (u64 (CPU.cycles c + 1))
                     (u64 (CPU.instructions c + 1)) false ins
                     (CPU.breakpoints c) in
         if CPU.has_breakpoint c' (CPU.pc c') then Some (false, c')
         else Some (true, c')
     | None => None
     end) = Some (b, c') ->
    0 <= CPU.pc c' < 2 ^ 32 /\ CPU.pc c' mod 2 = 0).
  { intros npc Hnpc ar0.
    destruct (CPU.memory_access _ _ _ _) as [mr m].
    destruct (CPU.writeback _ _ _) as [r|]; [|discriminate].
    cbv zeta. destruct (CPU.has_breakpoint _ _); intros [= _ <-]; exact Hnpc. }
  destruct (jump ins) eqn:Ej.
  - destruct (InsType.eqb (type ins) InsType.JAL) eqn:Et.
    + apply Hpc. split; [apply u32_range|]. apply u32_even.
      assert (Hty : type ins = InsType.JAL) by (destruct (type ins); try discriminate; reflexivity).
      rewrite (Hj eq_refl Hty).
      pose proof (imm_j_even (CPU.fetch c)). Z.div_mod_to_equations. lia.
    + destruct (InsType.eqb (type ins) InsType.JALR).
      * apply Hpc. pose proof (clear_bit0 (u32 (v1 + imm ins))). tauto.
      * apply Hpc. exact Hn.
  - destruct (branch ins) eqn:Eb.
    + destruct (ALU.branch_taken _ _ _).
      * apply Hpc. split; [apply u32_range|]. apply u32_even.
        rewrite (Hb eq_refl eq_refl).
        pose proof (imm_b_even (CPU.fetch c)). Z.div_mod_to_equations. lia.
      * apply Hpc. exact Hn.
    + apply Hpc. exact Hn.
Qed.

Lemma cpu_pc_stays_even_witness :
  let c := CPU.init (∅ : gmap Z Z) RegisterFile.reset in
  let c' := match CPU.step c with Some (_, c') => c' | None => c end in
  0 <= CPU.pc c' < 2 ^ 32 /\ CPU.pc c' mod 2 = 0.
Proof.
  intros c c'.
  apply (cpu_pc_stays_even c true c').
  - vm_compute. split; [discriminate | reflexivity].
  - reflexivity.
  - vm_compute. reflexivity.
Defined.

(* --------------------------------------------------------------------- *)
(** ** The statistics of the pipeline                                     *)
(* --------------------------------------------------------------------- *)

Lemma stage_wb_counters p p1 :
  Pipeline.stage_wb p = Some p1 -> counters p1 = counters p.
Proof.
  unfold Pipeline.stage_wb.
  destruct (negb _); [intros [= <-]; reflexivity|].
  cbv zeta.
  destruct (reg_write _ && _).
  - destruct (RegisterFile.write _ _ _) as [r|]; [|discriminate].
    destruct (InsType.eqb _ _); intros [= <-]; reflexivity.
  - destruct (InsType.eqb _ _); intros [= <-]; reflexivity.
Qed.

Lemma stage_mem_counters p :
  counters (Pipeline.stage_mem p) =
  (Pipeline.cycles p,
   if counted p then u64 (Pipeline.instructions p + 1)
   else Pipeline.instructions p,
   Pipeline.stalls p, Pipeline.flushes p, Pipeline.forwards p).
Proof.
  unfold Pipeline.stage_mem, counted.
  destruct (EX_MEM.valid _); cbn [negb andb]; [|reflexivity].
  cbv zeta.
  destruct (negb (InsType.eqb _ _) && negb (is_nop _));
    destruct (mem_write _); try reflexivity;
    destruct (type _); reflexivity.
Qed.

Lemma forward_a_counts p :
  Pipeline.forwards (snd (Pipeline.get_forward_a p)) =
  if Pipeline.forwarding p
     && negb (rs1 (ID_EX.ins (Pipeline.id_ex p)) =? 0)
     && (ex_mem_hit p (rs1 (ID_EX.ins (Pipeline.id_ex p)))
         || mem_wb_hit p (rs1 (ID_EX.ins (Pipeline.id_ex p))))
  then u64 (Pipeline.forwards p + 1) else Pipeline.forwards p.
Proof.
  unfold Pipeline.get_forward_a, ex_mem_hit, mem_wb_hit.
  destruct (Pipeline.forwarding p); cbn [negb andb]; [|reflexivity].
  cbv zeta. destruct (rs1 _ =? 0); cbn [negb andb]; [reflexivity|].
  destruct (EX_MEM.valid _ && _ && _); cbn [orb]; [reflexivity|].
  destruct (MEM_WB.valid _ && _ && _); reflexivity.
Qed.

Lemma forward_b_counts p :
  Pipeline.forwards (snd (Pipeline.get_forward_b p)) =
  if Pipeline.forwarding p
     && negb (rs2 (ID_EX.ins (Pipeline.id_ex p)) =? 0)
     && (ex_mem_hit p (rs2 (ID_EX.ins (Pipeline.id_ex p)))
         || mem_wb_hit p (rs2 (ID_EX.ins (Pipeline.id_ex p))))
  then u64 (Pipeline.forwards p + 1) else Pipeline.forwards p.
Proof.
  unfold Pipeline.get_forward_b, ex_mem_hit, mem_wb_hit.
  destruct (Pipeline.forwarding p); cbn [negb andb]; [|reflexivity].
  cbv zeta. destruct (rs2 _ =? 0); cbn [negb andb]; [reflexivity|].
  destruct (EX_MEM.valid _ && _ && _); cbn [orb]; [reflexivity|].
  destruct (MEM_WB.valid _ && _ && _); reflexivity.
Qed.

Lemma stage_ex_counters p p3 :
  Pipeline.stage_ex p = Some p3 ->
  Pipeline.cycles p3 = Pipeline.cycles p /\
  Pipeline.instructions p3 = Pipeline.instructions p /\
  Pipeline.stalls p3 = Pipeline.stalls p /\
  Pipeline.flushes p3 =
    (if EX_MEM.branch_taken (Pipeline.ex_mem p3)
     then u64 (Pipeline.flushes p + 2) else Pipeline.flushes p) /\
  Pipeline.forwards p3 =
    (if ID_EX.valid (Pipeline.id_ex p)
     then Pipeline.forwards
            (snd (Pipeline.get_forward_b (snd (Pipeline.get_forward_a p))))
     else Pipeline.forwards p).
Proof.
  unfold Pipeline.stage_ex.
  destruct (ID_EX.valid (Pipeline.id_ex p)) eqn:Hv; cbn [negb].
  2: { intros [= <-]. repeat split. }
  destruct (Pipeline.get_forward_a p) as [fa pa] eqn:Ha.
  destruct (get_forward_a_frame p) as [f1 Hf1]. rewrite Ha in Hf1.
  cbn [snd] in Hf1. subst pa.
  destruct (Pipeline.get_forward_b _) as [fb pb] eqn:Hb.
  destruct (get_forward_b_frame (Pipeline.set_forwards f1 p)) as [f2 Hf2].
  rewrite Hb in Hf2. cbn [snd] in Hf2 |- *. subst pb.
  destruct (ALU.execute _ _ _) as [ar|]; [|discriminate].
  destruct (jump (ID_EX.ins (Pipeline.id_ex p))) eqn:Hj;
    [ destruct (InsType.eqb _ InsType.JAL);
      [| destruct (InsType.eqb _ InsType.JALR)]
    | destruct (branch (ID_EX.ins (Pipeline.id_ex p))) eqn:Hbr;
      [ destruct (ALU.branch_taken _ _ _) |] ];
    intros [= <-]; repeat split.
Qed.

Lemma stage_id_counters p p4 :
  Pipeline.stage_id p = Some p4 -> counters p4 = counters p.
Proof.
  unfold Pipeline.stage_id.
  destruct (negb _); [intros [= <-]; reflexivity|].
  destruct (RegisterFile.read _ _) as [v1|]; [|discriminate].
  destruct (RegisterFile.read _ _) as [v2|]; [|discriminate].
  intros [= <-]. reflexivity.
Qed.

Lemma stage_if_counters p :
  counters (Pipeline.stage_if p) = counters p.
Proof.
  unfold Pipeline.stage_if. destruct (Pipeline.stalled p); reflexivity.
Qed.

(** The counters after writeback, memory and execute, which every cycle
    of a running pipeline goes through. *)
Lemma back_counters q pw pe :
  Pipeline.stage_wb q = Some pw ->
  Pipeline.stage_ex (Pipeline.stage_mem pw) = Some pe ->
  Pipeline.cycles pe = Pipeline.cycles q /\
  Pipeline.instructions pe =
    (if counted q then u64 (Pipeline.instructions q + 1)
     else Pipeline.instructions q) /\
  Pipeline.stalls pe = Pipeline.stalls q /\
  Pipeline.flushes pe =
    (if EX_MEM.branch_taken (Pipeline.ex_mem pe)
     then u64 (Pipeline.flushes q + 2) else Pipeline.flushes q) /\
  Pipeline.forwards pe =
    (let f1 := if forwarded q (rs1 (ID_EX.ins (Pipeline.id_ex q)))
               then u64 (Pipeline.forwards q + 1) else Pipeline.forwards q in
     if forwarded q (rs2 (ID_EX.ins (Pipeline.id_ex q)))
     then u64 (f1 + 1) else f1).
Proof.
  intros Hwb Hex.
  pose proof (stage_wb_counters _ _ Hwb) as Hc1.
  apply stage_wb_spec in Hwb.
  destruct Hwb as (_ & _ & Hde & Hem & _ & _ & _ & (_ & Hfw & _)).
  pose proof (stage_mem_counters pw) as Hc2.
  pose proof (stage_mem_spec pw) as Hmem. cbv zeta in Hmem.
  destruct Hmem as (_ & _ & Hde2 & Hem2 & _ & _ & _ & (_ & Hfw2 & _) & Hv & Hins & _).
  apply stage_ex_counters in Hex.
  destruct Hex as (E1 & E2 & E3 & E4 & E5).
  unfold counters in Hc1, Hc2.
  assert (Hcnt : counted pw = counted q) by (unfold counted; rewrite Hem; reflexivity).
  rewrite Hcnt in Hc2.
  injection Hc1 as C1 C2 C3 C4 C5. injection Hc2 as D1 D2 D3 D4 D5.
  split; [congruence|]. split; [rewrite E2, D2, C2; reflexivity|].
  split; [congruence|].
  split; [rewrite E4; destruct (EX_MEM.branch_taken _); congruence|].
  rewrite E5. set (p2 := Pipeline.stage_mem pw) in *.
  assert (Hshadow : forall rs, ex_mem_hit p2 rs || mem_wb_hit p2 rs = ex_mem_hit q rs).
  { intros rs. unfold ex_mem_hit, mem_wb_hit. rewrite Hv, Hins, Hem2, Hem.
    destruct (EX_MEM.valid (Pipeline.ex_mem q)); cbn [andb orb]; [|reflexivity].
    destruct (reg_write _ && _); reflexivity. }
  destruct (get_forward_a_frame p2) as [f1 Hf1].
  pose proof (forward_a_counts p2) as Ha.
  pose proof (forward_b_counts (snd (Pipeline.get_forward_a p2))) as Hb.
  rewrite Hf1 in Hb |- *. rewrite Hf1 in Ha.
  cbn [Pipeline.forwards Pipeline.set_forwards Pipeline.forwarding
       Pipeline.id_ex] in Ha, Hb.
  assert (Hmb : forall rs, ex_mem_hit (Pipeline.set_forwards f1 p2) rs
                           || mem_wb_hit (Pipeline.set_forwards f1 p2) rs
                           = ex_mem_hit q rs).
  { intros rs. rewrite <- Hshadow. reflexivity. }
  rewrite Hmb in Hb. rewrite Hshadow in Ha.
  rewrite Hde2, Hde in Ha, Hb |- *. rewrite Hfw2, Hfw in Ha, Hb.
  unfold forwarded. cbv zeta.
  destruct (ID_EX.valid (Pipeline.id_ex q));
    rewrite ?andb_true_r, ?andb_false_r; cbn [andb].
  - rewrite Hb, Ha, D5, C5. reflexivity.
  - congruence.
Qed.

(** X20.  The statistics after a cycle of a pipeline that is not halted:
    the cycle counter goes up by one; the stall flag is the load-use test
    made at the start of the cycle and the stall counter goes up by one
    exactly when it holds; the flush counter goes up by two exactly when
    EX/MEM leaves the cycle with a taken branch or jump; the instruction
    counter goes up by one exactly when the EX/MEM latch at the start of
    the cycle is valid and holds neither an [UNKNOWN] record nor a NOP;
    the forward counter goes up by one for each source register number of
    a valid ID/EX that is not 0 and equals the destination of a valid,
    register-writing EX/MEM, and only when forwarding is on.  All counters
    wrap at 2^64. *)
Theorem pipeline_statistics (p : Pipeline.t) (b : bool) (p' : Pipeline.t) :
  Pipeline.halted p = false ->
  Pipeline.cycle p = Some (b, p') ->
  let stall := Pipeline.detect_load_use_hazard p in
  Pipeline.cycles p' = u64 (Pipeline.cycles p + 1) /\
  Pipeline.stalled p' = stall /\
  Pipeline.stalls p' =
    (if stall then u64 (Pipeline.stalls p + 1) else Pipeline.stalls p) /\
  Pipeline.flushes p' =
    (if EX_MEM.branch_taken (Pipeline.ex_mem p')
     then u64 (Pipeline.flushes p + 2) else Pipeline.flushes p) /\
  Pipeline.instructions p' =
    (if counted p then u64 (Pipeline.instructions p + 1)
     else Pipeline.instructions p) /\
  Pipeline.forwards p' =
    (let f1 := if forwarded p (rs1 (ID_EX.ins (Pipeline.id_ex p)))
               then u64 (Pipeline.forwards p + 1) else Pipeline.forwards p in
     if forwarded p (rs2 (ID_EX.ins (Pipeline.id_ex p)))
     then u64 (f1 + 1) else f1).
Proof.
  intros Hh Hc stall. subst stall.
  assert (Hfin : forall q, option_map finish q = Some (b, p') ->
            exists q', q = Some q' /\
              p' = Pipeline.set_cycles (u64 (Pipeline.cycles q' + 1)) q').
  { intros [q'|]; [|discriminate]. cbn [option_map]. unfold finish.
    cbv zeta. destruct (Pipeline.has_breakpoint _ _); intros [= _ <-]; eauto. }
  destruct (Pipeline.detect_load_use_hazard p) eqn:Hs.
  - rewrite cycle_stalled in Hc by assumption.
    apply Hfin in Hc. destruct Hc as (q' & Hq & ->).
    unfold hold in Hq.
    destruct (Pipeline.stage_wb _) as [pw|] eqn:Hwb; [|discriminate].
    destruct (Pipeline.stage_ex _) as [pe|] eqn:Hex; [|discriminate].
    injection Hq as <-.
    pose proof (stage_wb_spec _ _ Hwb) as (_ & _ & _ & _ & _ & _ & _ & (_ & _ & S1 & _)).
    pose proof (stage_mem_spec pw) as Hmem. cbv zeta in Hmem.
    destruct Hmem as (_ & _ & _ & _ & _ & _ & _ & (_ & _ & S2 & _) & _).
    pose proof (stage_ex_spec _ _ Hex) as ((_ & _ & _ & _ & (_ & _ & S3 & _)) & _).
    destruct (back_counters _ _ _ Hwb Hex) as (B1 & B2 & B3 & B4 & B5).
    split; [cbn in B1 |- *; congruence|].
    split; [cbn in S1, S2, S3 |- *; congruence|].
    split; [exact B3|]. split; [exact B4|]. split; [exact B2 | exact B5].
  - rewrite cycle_not_stalled in Hc by assumption.
    apply Hfin in Hc. destruct Hc as (q' & Hq & ->).
    apply advance_spec in Hq. destruct Hq as (pw & pe & pi & Hwb & Hex & Hid & ->).
    pose proof (stage_wb_spec _ _ Hwb) as (_ & _ & _ & _ & _ & _ & _ & (_ & _ & S1 & _)).
    pose proof (stage_mem_spec pw) as Hmem. cbv zeta in Hmem.
    destruct Hmem as (_ & _ & _ & _ & _ & _ & _ & (_ & _ & S2 & _) & _).
    pose proof (stage_ex_spec _ _ Hex) as ((_ & _ & _ & _ & (_ & _ & S3 & _)) & _).
    destruct (back_counters _ _ _ Hwb Hex) as (B1 & B2 & B3 & B4 & B5).
    pose proof (stage_id_counters _ _ Hid) as Hc4.
    pose proof (stage_id_spec _ _ Hid) as (_ & _ & _ & E4 & _ & _ & _ & _ & (_ & _ & S4 & _) & _).
    assert (S5 : Pipeline.stalled pi = false) by (cbn in S1; congruence).
    pose proof (stage_if_counters pi) as Hc5.
    pose proof (stage_if_spec pi S5) as Hif. cbv zeta in Hif.
    destruct Hif as (_ & _ & _ & E5 & _ & _ & (_ & _ & S6 & _) & _).
    unfold counters in Hc4, Hc5.
    injection Hc4 as C1 C2 C3 C4 C5. injection Hc5 as D1 D2 D3 D4 D5.
    set (pf := Pipeline.stage_if pi) in *.
    change (Pipeline.cycles (Pipeline.set_cycles (u64 (Pipeline.cycles pf + 1)) pf))
      with (u64 (Pipeline.cycles pf + 1)).
    change (Pipeline.ex_mem (Pipeline.set_cycles (u64 (Pipeline.cycles pf + 1)) pf))
      with (Pipeline.ex_mem pf).
    rewrite E5, E4.
    split; [cbn in B1; congruence|].
    split; [cbn in S1 |- *; congruence|].
    split; [cbn; rewrite D3, C3; exact B3|].
    split; [cbn; rewrite D4, C4; exact B4|].
    split; [cbn; rewrite D2, C2; exact B2 | cbn; rewrite D5, C5; exact B5].
Qed.

Lemma pipeline_statistics_witness :
  let p := raw_dependency_state in
  let p' := match Pipeline.cycle p with Some (_, q) => q | None => p end in
  Pipeline.cycles p' = u64 (Pipeline.cycles p + 1) /\
  Pipeline.stalled p' = Pipeline.detect_load_use_hazard p /\
  Pipeline.stalls p' =
    (if Pipeline.detect_load_use_hazard p
     then u64 (Pipeline.stalls p + 1) else Pipeline.stalls p) /\
  Pipeline.flushes p' =
    (if EX_MEM.branch_taken (Pipeline.ex_mem p')
     then u64 (Pipeline.flushes p + 2) else Pipeline.flushes p) /\
  Pipeline.instructions p' =
    (if counted p then u64 (Pipeline.instructions p + 1)
     else Pipeline.instructions p) /\
  Pipeline.forwards p' =
    (let f1 := if forwarded p (rs1 (ID_EX.ins (Pipeline.id_ex p)))
               then u64 (Pipeline.forwards p + 1) else Pipeline.forwards p in
     if forwarded p (rs2 (ID_EX.ins (Pipeline.id_ex p)))
     then u64 (f1 + 1) else f1).
Proof.
  intros p p'.
  apply (pipeline_statistics p true p').
  - reflexivity.
  - vm_compute. reflexivity.
Defined.

(* --------------------------------------------------------------------- *)
(** ** Cycles never fault; the stall cycle                                *)
(* --------------------------------------------------------------------- *)

(** X21.  No exception escapes the pipeline: from a state whose three
    back latches hold default-constructed or decoded instruction records
    (a freshly constructed pipeline is one, whatever the memory and the
    register file), any number of calls of [cycle] return, and they end in
    such a state again. *)
Theorem pipeline_cycles_never_fault (p : Pipeline.t) (n : nat) :
  wf p -> exists p', Pipeline.cycles_n n p = Some p' /\ wf p'.
Proof.
  revert p. induction n as [|n IH]; intros p Hwf; cbn [Pipeline.cycles_n].
  - eauto.
  - destruct (cycle_total p Hwf) as (b & q & Hc). rewrite Hc.
    cbn [snd].
    apply IH. exact (wf_cycle p b q Hwf Hc).
Qed.

Lemma pipeline_cycles_never_fault_witness :
  exists p',
    Pipeline.cycles_n 7 (Pipeline.init branch_mem RegisterFile.reset) = Some p'
    /\ wf p'.
Proof.
  apply (pipeline_cycles_never_fault
           (Pipeline.init branch_mem RegisterFile.reset) 7).
  repeat split; left; reflexivity.
Defined.

(** X22.  The cycle in which the load-use test holds: fetch and decode are
    held back (IF/ID, [pc] and [next_pc] are as before), the load moves
    from ID/EX on into EX/MEM without redirecting the PC, ID/EX becomes a
    bubble, and the load-use test fails on the state after the cycle, so
    that a stall lasts one cycle. *)
Theorem load_use_stall_cycle (p : Pipeline.t) (b : bool) (p' : Pipeline.t) :
  wf p ->
  Pipeline.halted p = false ->
  Pipeline.detect_load_use_hazard p = true ->
  Pipeline.cycle p = Some (b, p') ->
  Pipeline.if_id p' = Pipeline.if_id p /\
  Pipeline.pc p' = Pipeline.pc p /\
  Pipeline.next_pc p' = Pipeline.next_pc p /\
  Pipeline.id_ex p' = ID_EX.flush /\
  EX_MEM.valid (Pipeline.ex_mem p') = true /\
  EX_MEM.ins (Pipeline.ex_mem p') = ID_EX.ins (Pipeline.id_ex p) /\
  EX_MEM.branch_taken (Pipeline.ex_mem p') = false /\
  Pipeline.detect_load_use_hazard p' = false.
Proof.
  intros (Hd & _ & _) Hh Hs Hc.
  destruct (detect_true p Hs) as (Hv & Hld).
  destruct (sane_load _ (decoded_sane _ Hd) Hld) as (Hj & Hbr).
  rewrite cycle_stalled in Hc by assumption.
  destruct (hold _) as [q|] eqn:Hq; [|discriminate].
  cbn [option_map] in Hc.
  assert (Hp' : p' = Pipeline.set_cycles (u64 (Pipeline.cycles q + 1)) q).
  { unfold finish in Hc. cbv zeta in Hc.
    destruct (Pipeline.has_breakpoint _ _); injection Hc as _ <-; reflexivity. }
  unfold hold in Hq.
  destruct (Pipeline.stage_wb _) as [pw|] eqn:Hwb; [|discriminate].
  destruct (Pipeline.stage_ex _) as [pe|] eqn:Hex; [|discriminate].
  injection Hq as <-.
  apply stage_wb_spec in Hwb.
  destruct Hwb as (_ & W1 & W2 & _ & _ & W3 & W4 & _).
  pose proof (stage_mem_spec pw) as Hmem. cbv zeta in Hmem.
  destruct Hmem as (_ & M1 & M2 & _ & M3 & M4 & _).
  apply stage_ex_spec in Hex. destruct Hex as (_ & Hcase).
  cbn in W1, W2, W3, W4.
  assert (Hfall : ex_falls_through (Pipeline.stage_mem pw) pe).
  { destruct Hcase as [Hc' | [Hc' | Hc']].
    - destruct Hc' as (Hv' & _). rewrite M2, W2, Hv in Hv'. discriminate.
    - exact Hc'.
    - destruct Hc' as (_ & _ & _ & _ & [Hj' | Hb'] & _);
        rewrite M2, W2 in *; congruence. }
  destruct Hfall as (_ & F1 & F2 & F3 & F4 & _ & F5 & F6).
  subst p'.
  split; [cbn; congruence|]. split; [cbn; congruence|].
  split; [cbn; congruence|]. split; [reflexivity|].
  split; [exact F2|]. split; [cbn; congruence|]. split; [exact F3|].
  apply detect_bubble. reflexivity.
Qed.

Lemma load_use_stall_cycle_witness :
  let p0 := Pipeline.init
              (Memory.write_block ∅ 0 [268435603; 40995; 41219; 1114515])
              RegisterFile.reset in
  let p := match Pipeline.cycles_n 4 p0 with Some q => q | None => p0 end in
  let p' := match Pipeline.cycle p with Some (_, q) => q | None => p end in
  Pipeline.if_id p' = Pipeline.if_id p /\
  Pipeline.pc p' = Pipeline.pc p /\
  Pipeline.next_pc p' = Pipeline.next_pc p /\
  Pipeline.id_ex p' = ID_EX.flush /\
  EX_MEM.valid (Pipeline.ex_mem p') = true /\
  EX_MEM.ins (Pipeline.ex_mem p') = ID_EX.ins (Pipeline.id_ex p) /\
  EX_MEM.branch_taken (Pipeline.ex_mem p') = false /\
  Pipeline.detect_load_use_hazard p' = false.
Proof.
  intros p0 p p'.
  apply (load_use_stall_cycle p true p').
  - apply reachable_wf. apply (reachable_cycles_n 4 p0 p).
    + apply reach_init.
    + vm_compute. reflexivity.
  - vm_compute. reflexivity.
  - vm_compute. reflexivity.
  - vm_compute. reflexivity.
Defined.

(* --------------------------------------------------------------------- *)
(** ** Breakpoints and [run]                                              *)
(* --------------------------------------------------------------------- *)

Lemma has_after_push l a b :
  existsb (Z.eqb b) (l ++ [a]) = (b =? a) || existsb (Z.eqb b) l.
Proof.
  rewrite existsb_app. cbn [existsb]. rewrite orb_false_r. apply orb_comm.
Qed.

Lemma has_after_remove l a b :
  existsb (Z.eqb b) (List.filter (fun x => negb (x =? a)) l)
  = negb (b =? a) && existsb (Z.eqb b) l.
Proof.
  induction l as [|x l IH]; cbn [List.filter existsb].
  - rewrite andb_false_r. reflexivity.
  - destruct (x =? a) eqn:Exa; cbn [negb existsb]; rewrite IH.
    + apply Z.eqb_eq in Exa. subst x.
      destruct (b =? a); reflexivity.
    + destruct (b =? x) eqn:Ebx; cbn [orb].
      * apply Z.eqb_eq in Ebx. subst x. rewrite Exa. reflexivity.
      * reflexivity.
Qed.

Lemma has_false_not_in l a :
  existsb (Z.eqb a) l = false -> ~ List.In a l.
Proof.
  intros H Hin.
  assert (Ht : existsb (Z.eqb a) l = true).
  { apply existsb_exists. exists a. split; [exact Hin | apply Z.eqb_refl]. }
  congruence.
Qed.

Lemma nodup_push (l : list Z) a :
  List.NoDup l -> existsb (Z.eqb a) l = false -> List.NoDup (l ++ [a]).
Proof.
  intros Hl Ha. apply has_false_not_in in Ha.
  induction Hl as [|x l Hx Hl IH]; cbn [app].
  - constructor; [intros [] | constructor].
  - constructor.
    + intros Hin. apply in_app_or in Hin. destruct Hin as [Hin | [-> | []]].
      * exact (Hx Hin).
      * apply Ha. left. reflexivity.
    + apply IH. intros Hin. apply Ha. right. exact Hin.
Qed.

Lemma nodup_remove (l : list Z) a :
  List.NoDup l -> List.NoDup (List.filter (fun x => negb (x =? a)) l).
Proof.
  induction 1 as [|x l Hx Hl IH]; cbn [List.filter].
  - constructor.
  - destruct (negb (x =? a)); [|exact IH].
    constructor; [|exact IH].
    intros Hin. apply filter_In in Hin. exact (Hx (proj1 Hin)).
Qed.

(** X23.  The breakpoints of the pipeline and of the single-cycle
    executor behave as a set: after [add_breakpoint a] exactly [a] and the
    former breakpoints are breakpoints, after [remove_breakpoint a] exactly
    the former ones other than [a], after [clear_breakpoints] none; a list
    without duplicates stays without duplicates under adding and
    removing. *)
Theorem breakpoints_form_a_set (a b : Z) :
  (forall p : Pipeline.t,
     Pipeline.has_breakpoint (Pipeline.add_breakpoint a p) b
       = (b =? a) || Pipeline.has_breakpoint p b /\
     Pipeline.has_breakpoint (Pipeline.remove_breakpoint a p) b
       = negb (b =? a) && Pipeline.has_breakpoint p b /\
     Pipeline.has_breakpoint (Pipeline.clear_breakpoints p) b = false /\
     (List.NoDup (Pipeline.breakpoints p) ->
      List.NoDup (Pipeline.breakpoints (Pipeline.add_breakpoint a p)) /\
      List.NoDup (Pipeline.breakpoints (Pipeline.remove_breakpoint a p)))) /\
  (forall c : CPU.t,
     CPU.has_breakpoint (CPU.add_breakpoint a c) b
       = (b =? a) || CPU.has_breakpoint c b /\
     CPU.has_breakpoint (CPU.remove_breakpoint a c) b
       = negb (b =? a) && CPU.has_breakpoint c b /\
     CPU.has_breakpoint (CPU.clear_breakpoints c) b = false /\
     (List.NoDup (CPU.breakpoints c) ->
      List.NoDup (CPU.breakpoints (CPU.add_breakpoint a c)) /\
      List.NoDup (CPU.breakpoints (CPU.remove_breakpoint a c)))).
Proof.
  split.
  - intros p.
    unfold Pipeline.add_breakpoint, Pipeline.remove_breakpoint,
      Pipeline.clear_breakpoints, Pipeline.has_breakpoint.
    cbn [Pipeline.breakpoints Pipeline.set_breakpoints].
    split; [|split; [apply has_after_remove|split; [reflexivity|]]].
    + destruct (existsb (Z.eqb a) (Pipeline.breakpoints p)) eqn:Ha.
      * destruct (b =? a) eqn:Eb; [|reflexivity].
        apply Z.eqb_eq in Eb. subst b. exact Ha.
      * cbn [Pipeline.breakpoints Pipeline.set_breakpoints].
        apply has_after_push.
    + intros Hn. split; [|apply nodup_remove; exact Hn].
      destruct (existsb (Z.eqb a) (Pipeline.breakpoints p)) eqn:Ha;
        [exact Hn|].
      cbn [Pipeline.breakpoints Pipeline.set_breakpoints].
      apply nodup_push; assumption.
  - intros c.
    unfold CPU.add_breakpoint, CPU.remove_breakpoint,
      CPU.clear_breakpoints, CPU.has_breakpoint.
    cbn [CPU.breakpoints].
    split; [|split; [apply has_after_remove|split; [reflexivity|]]].
    + destruct (existsb (Z.eqb a) (CPU.breakpoints c)) eqn:Ha.
      * destruct (b =? a) eqn:Eb; [|reflexivity].
        apply Z.eqb_eq in Eb. subst b. exact Ha.
      * cbn [CPU.breakpoints]. apply has_after_push.
    + intros Hn. split; [|apply nodup_remove; exact Hn].
      destruct (existsb (Z.eqb a) (CPU.breakpoints c)) eqn:Ha;
        [exact Hn|].
      cbn [CPU.breakpoints]. apply nodup_push; assumption.
Qed.

Lemma breakpoints_form_a_set_witness :
  let p := Pipeline.add_breakpoint 8 (Pipeline.init ∅ RegisterFile.reset) in
  List.NoDup (Pipeline.breakpoints (Pipeline.add_breakpoint 8 p)) /\
  List.NoDup (Pipeline.breakpoints (Pipeline.remove_breakpoint 8 p)).
Proof.
  intros p.
  destruct (breakpoints_form_a_set 8 8) as (Hp & _).
  destruct (Hp p) as (_ & _ & _ & Hn).
  apply Hn. constructor; [intros [] | constructor].
Defined.

(** X24.  When [run] returns, of the pipeline or of the single-cycle
    executor, the executor is halted or its PC is at a breakpoint. *)
Theorem run_stops (fuel : nat) :
  (forall p p' : Pipeline.t,
     Pipeline.run fuel p = Some p' ->
     Pipeline.halted p' = true \/
     Pipeline.has_breakpoint p' (Pipeline.pc p') = true) /\
  (forall c c' : CPU.t,
     CPU.run fuel c = Some c' ->
     CPU.halted c' = true \/ CPU.has_breakpoint c' (CPU.pc c') = true).
Proof.
  split.
  - induction fuel as [|fuel IH]; intros p p'; cbn [Pipeline.run];
      [discriminate|].
    destruct (Pipeline.cycle p) as [[b q]|] eqn:Hc; [|discriminate].
    cbn [fst snd].
    destruct b; [apply IH|]. intros [= <-].
    unfold Pipeline.cycle in Hc.
    destruct (Pipeline.halted p) eqn:Hh.
    { injection Hc as <-. left. exact Hh. }
    cbv zeta in Hc.
    match type of Hc with
    | match ?m with Some _ => _ | None => None end = _ =>
        destruct m as [r|]; [|discriminate]
    end.
    match type of Hc with
    | context [if ?c then _ else _] => destruct c eqn:Hb
    end.
    + injection Hc as <-. right. exact Hb.
    + injection Hc as Hn <-. left. cbn. destruct (Pipeline.halted r);
        [reflexivity | discriminate].
  - induction fuel as [|fuel IH]; intros c c'; cbn [CPU.run];
      [discriminate|].
    destruct (CPU.step c) as [[b q]|] eqn:Hc; [|discriminate].
    cbn [fst snd].
    destruct b; [apply IH|]. intros [= <-].
    unfold CPU.step in Hc.
    destruct (CPU.halted c) eqn:Hh.
    { injection Hc as <-. left. exact Hh. }
    cbv zeta in Hc.
    destruct (InsType.eqb _ _).
    { injection Hc as <-. left. reflexivity. }
    destruct (RegisterFile.read _ _) as [v1|]; [|discriminate].
    destruct (RegisterFile.read _ _) as [v2|]; [|discriminate].
    destruct (CPU.execute _ _ _ _) as [ar|]; [|discriminate].
    match type of Hc with
    | context [let '(_, _) := ?e in _] => destruct e as [npc ar']
    end.
    destruct (CPU.memory_access _ _ _ _) as [mr m].
    destruct (CPU.writeback _ _ _) as [r|]; [|discriminate].
    cbv zeta in Hc.
    match type of Hc with
    | context [if ?c then _ else _] => destruct c eqn:Hb
    end; [|discriminate].
    injection Hc as <-. right. exact Hb.
Qed.

Lemma run_stops_witness :
  let p := Pipeline.init (Memory.write_block ∅ 0 [115]) RegisterFile.reset in
  let p' := match Pipeline.run 9 p with Some q => q | None => p end in
  let c := CPU.add_breakpoint 8
             (CPU.init (Memory.write_block ∅ 0 [19; 19; 19; 115])
                RegisterFile.reset) in
  let c' := match CPU.run 9 c with Some q => q | None => c end in
  (Pipeline.halted p' = true \/
   Pipeline.has_breakpoint p' (Pipeline.pc p') = true) /\
  (CPU.halted c' = true \/ CPU.has_breakpoint c' (CPU.pc c') = true).
Proof.
  intros p p' c c'.
  destruct (run_stops 9) as (Hp & Hc).
  split.
  - apply (Hp p p'). vm_compute. reflexivity.
  - apply (Hc c c'). vm_compute. reflexivity.
Defined.

(* --------------------------------------------------------------------- *)
(** ** The hazard unit and the pipeline's own hazard logic                *)
(* --------------------------------------------------------------------- *)

Lemma forward_unit_agrees rs (ev ew mv mw : bool) (erd mrd : Z) :
  (if rs =? 0 then FwdNONE
   else if ev && ew && negb (erd =? 0) && (erd =? rs) then FwdEX_MEM
   else if mv && mw && negb (mrd =? 0) && (mrd =? rs) then FwdMEM_WB
   else FwdNONE)
  = (if rs =? 0 then FwdNONE
     else if ev && ew && (erd =? rs) then FwdEX_MEM
     else if mv && mw && (mrd =? rs) then FwdMEM_WB
     else FwdNONE).
Proof.
  destruct (rs =? 0) eqn:E0; [reflexivity|].
  apply Z.eqb_neq in E0.
  assert (H : forall x, negb (x =? 0) && (x =? rs) = (x =? rs)).
  { intros x. destruct (x =? rs) eqn:E; [|apply andb_false_r].
    apply Z.eqb_eq in E. subst x.
    apply Z.eqb_neq in E0. rewrite E0. reflexivity. }
  rewrite <- !andb_assoc, !H. reflexivity.
Qed.

Lemma load_use_unit_agrees (ld rs1_ rs2_ : Z) (w : bool) :
  (if ld =? 0 then false
   else
     let uses_rs1 := (rs1_ =? ld) && negb (rs1_ =? 0) in
     let uses_rs2 := (rs2_ =? ld) && negb (rs2_ =? 0) in
     let uses_rs2 :=
       if w then (rs2_ =? ld) && negb (rs2_ =? 0) else uses_rs2 in
     uses_rs1 || uses_rs2)
  = (if negb (ld =? 0) then
       if (ld =? rs1_) || (ld =? rs2_) then true else false
     else false).
Proof.
  cbv zeta. destruct (ld =? 0) eqn:E0; [reflexivity|]. cbn [negb].
  apply Z.eqb_neq in E0.
  assert (H : forall x, (x =? ld) && negb (x =? 0) = (ld =? x)).
  { intros x. rewrite (Z.eqb_sym ld x).
    destruct (x =? ld) eqn:E; [|reflexivity].
    apply Z.eqb_eq in E. subst x.
    apply Z.eqb_neq in E0. rewrite E0. reflexivity. }
  destruct w; rewrite !H; destruct (_ || _); reflexivity.
Qed.

(** X25.  The stand-alone hazard unit computes what the pipeline's own
    hazard logic computes: the stall signal when hazard detection is on
    and IF/ID is valid, the forwarding selections when forwarding is on;
    its RAW test holds exactly when it selects a forwarding path. *)
Theorem hazard_unit_agrees_with_pipeline (p : Pipeline.t) :
  (Pipeline.hazard_detection p = true ->
   IF_ID.valid (Pipeline.if_id p) = true ->
   HazardUnit.should_stall (Pipeline.if_id p) (Pipeline.id_ex p)
     = Pipeline.detect_load_use_hazard p) /\
  (Pipeline.forwarding p = true ->
   HazardUnit.get_forward_rs1 (Pipeline.id_ex p) (Pipeline.ex_mem p)
       (Pipeline.mem_wb p) = fst (Pipeline.get_forward_a p) /\
   HazardUnit.get_forward_rs2 (Pipeline.id_ex p) (Pipeline.ex_mem p)
       (Pipeline.mem_wb p) = fst (Pipeline.get_forward_b p)) /\
  (HazardUnit.detect_raw (rs1 (ID_EX.ins (Pipeline.id_ex p)))
       (Pipeline.ex_mem p) (Pipeline.mem_wb p) = true <->
   HazardUnit.get_forward_rs1 (Pipeline.id_ex p) (Pipeline.ex_mem p)
       (Pipeline.mem_wb p) <> FwdNONE) /\
  (HazardUnit.detect_raw (rs2 (ID_EX.ins (Pipeline.id_ex p)))
       (Pipeline.ex_mem p) (Pipeline.mem_wb p) = true <->
   HazardUnit.get_forward_rs2 (Pipeline.id_ex p) (Pipeline.ex_mem p)
       (Pipeline.mem_wb p) <> FwdNONE) /\
  HazardUnit.should_flush (Pipeline.ex_mem p)
    = EX_MEM.valid (Pipeline.ex_mem p) && Pipeline.detect_control_hazard p.
Proof.
  split; [|split; [|split; [|split]]].
  - intros Hd Hv.
    unfold HazardUnit.should_stall, HazardUnit.detect_load_use,
      Pipeline.detect_load_use_hazard.
    rewrite Hd, Hv. cbn [negb orb].
    destruct (ID_EX.valid (Pipeline.id_ex p)); cbn [negb andb orb];
      [|reflexivity].
    destruct (mem_read _); cbn [negb]; [|reflexivity].
    apply load_use_unit_agrees.
  - intros Hf.
    unfold HazardUnit.get_forward_rs1, HazardUnit.get_forward_rs2,
      Pipeline.get_forward_a, Pipeline.get_forward_b.
    rewrite Hf. cbn [negb]. cbv zeta.
    split.
    + rewrite forward_unit_agrees.
      repeat match goal with
             | |- context [if ?c then _ else _] => destruct c
             end; reflexivity.
    + rewrite forward_unit_agrees.
      repeat match goal with
             | |- context [if ?c then _ else _] => destruct c
             end; reflexivity.
  - unfold HazardUnit.detect_raw, HazardUnit.get_forward_rs1. cbv zeta.
    rewrite forward_unit_agrees.
    repeat match goal with
           | |- context [if ?c then _ else _] => destruct c
           end; split; congruence.
  - unfold HazardUnit.detect_raw, HazardUnit.get_forward_rs2. cbv zeta.
    rewrite forward_unit_agrees.
    repeat match goal with
           | |- context [if ?c then _ else _] => destruct c
           end; split; congruence.
  - reflexivity.
Qed.

Lemma hazard_unit_agrees_with_pipeline_witness :
  let p := raw_dependency_state in
  HazardUnit.should_stall (Pipeline.if_id p) (Pipeline.id_ex p)
    = Pipeline.detect_load_use_hazard p /\
  HazardUnit.get_forward_rs1 (Pipeline.id_ex p) (Pipeline.ex_mem p)
      (Pipeline.mem_wb p) = fst (Pipeline.get_forward_a p) /\
  HazardUnit.get_forward_rs2 (Pipeline.id_ex p) (Pipeline.ex_mem p)
      (Pipeline.mem_wb p) = fst (Pipeline.get_forward_b p).
Proof.
  intros p.
  destruct (hazard_unit_agrees_with_pipeline p) as (Hs & Hf & _).
  split; [apply Hs; reflexivity | apply Hf; reflexivity].
Defined.

(* --------------------------------------------------------------------- *)
(** ** Encoder against decoder: shifts, jumps and upper immediates        *)
(* --------------------------------------------------------------------- *)

Lemma handle_shift indet mnem ops src a :
  mnem = "slli"%string \/ mnem = "srli"%string \/ mnem = "srai"%string ->
  List.length ops = 3%nat ->
  Assembler.handle_instruction indet mnem ops src false a =
  Assembler.emit
    (Assembler.enc_r 19 (Assembler.parse_reg (Assembler.op ops 0))
       (if (mnem =? "slli")%string then 1 else 5)
       (Assembler.parse_reg (Assembler.op ops 1))
       (Z.land (default indet (Assembler.parse_imm (Assembler.op ops 2))) 0x1F)
       (if (mnem =? "srai")%string then 32 else 0)) src a.
Proof.
  intros Hm Hn. unfold Assembler.handle_instruction. rewrite Hn.
  destruct Hm as [-> | [-> | ->]]; reflexivity.
Qed.

Lemma decode_op_jal raw pc :
  Decoder.bits raw 6 0 = 111 ->
  Decoder.decode raw pc =
  set_jump true (set_reg_write true
    (set_imm (Decoder.imm_j raw) (set_format FmtJ (set_type InsType.JAL
      (mkInstruction raw InsType.ADDI FmtI (Decoder.get_rd raw)
         (Decoder.get_rs1 raw) (Decoder.get_rs2 raw) 0 false false false
         false false false false AluOp.NONE pc))))).
Proof. intros H. unfold Decoder.decode. rewrite H. reflexivity. Qed.

Lemma decode_op_jalr raw pc :
  Decoder.bits raw 6 0 = 103 ->
  Decoder.decode raw pc =
  set_alu_op AluOp.ADD (set_alu_src true (set_jump true
    (set_reg_write true
      (set_imm (Decoder.imm_i raw) (set_format FmtI (set_type InsType.JALR
        (mkInstruction raw InsType.ADDI FmtI (Decoder.get_rd raw)
           (Decoder.get_rs1 raw) (Decoder.get_rs2 raw) 0 false false false
           false false false false AluOp.NONE pc))))))).
Proof. intros H. unfold Decoder.decode. rewrite H. reflexivity. Qed.

Lemma enc_j_fields op rd_ imm_ :
  0 <= op < 128 -> 0 <= rd_ < 32 ->
  Decoder.bits (Assembler.enc_j op rd_ imm_) 6 0 = op /\
  Decoder.get_rd (Assembler.enc_j op rd_ imm_) = rd_.
Proof.
  intros Hop Hrd.
  unfold Assembler.enc_j. cbv zeta. mask_to_mod.
  rewrite !Z.shiftr_div_pow2 by lia.
  pose proof (Z.mod_pos_bound (imm_ / 2 ^ 20) (2 ^ 1) ltac:(lia)).
  pose proof (Z.mod_pos_bound (imm_ / 2 ^ 12) (2 ^ 8) ltac:(lia)).
  pose proof (Z.mod_pos_bound (imm_ / 2 ^ 11) (2 ^ 1) ltac:(lia)).
  pose proof (Z.mod_pos_bound (imm_ / 2 ^ 1) (2 ^ 10) ltac:(lia)).
  set (b20 := (imm_ / 2 ^ 20) mod 2 ^ 1) in *.
  set (b19_12 := (imm_ / 2 ^ 12) mod 2 ^ 8) in *.
  set (b11 := (imm_ / 2 ^ 11) mod 2 ^ 1) in *.
  set (b10_1 := (imm_ / 2 ^ 1) mod 2 ^ 10) in *.
  rewrite (shl_top _ 31), !shl_small by lia.
  lor_to_add.
  unfold Decoder.get_rd. rewrite !bits_arith by lia.
  unfold u32. split; Z.div_mod_to_equations; lia.
Qed.

Lemma handle_jal indet ops src a rd_ target :
  ops = [target] /\ rd_ = 1 \/
  (exists r, ops = [r; target] /\ rd_ = Assembler.parse_reg r) ->
  Assembler.handle_instruction indet "jal" ops src false a =
  match Assembler.parse_imm target with
  | Some off => Assembler.emit (Assembler.enc_j 111 rd_ off) src a
  | None =>
      match Assembler.labels a !! target with
      | Some addr =>
          Assembler.emit (Assembler.enc_j 111 rd_ (Assembler.rel addr a)) src a
      | None => Assembler.error ("Unknown label: " +:+ target) a
      end
  end.
Proof.
  intros [(-> & ->) | (r & -> & ->)]; reflexivity.
Qed.

Lemma handle_jalr indet ops src a :
  Assembler.handle_instruction indet "jalr" ops src false a =
  let '(rd, rs1, off) :=
    if (List.length ops =? 1)%nat
    then (1, Assembler.parse_reg (Assembler.op ops 0), 0)
    else if (List.length ops =? 2)%nat then
      let '(_, off, rs1) := Assembler.parse_mem (Assembler.op ops 1) 0 0 in
      (Assembler.parse_reg (Assembler.op ops 0), rs1, off)
    else if (List.length ops =? 3)%nat then
      (Assembler.parse_reg (Assembler.op ops 0),
       Assembler.parse_reg (Assembler.op ops 1),
       default 0 (Assembler.parse_imm (Assembler.op ops 2)))
    else (1, 0, 0) in
  Assembler.emit (Assembler.enc_i 103 rd 0 rs1 off) src a.
Proof.
  unfold Assembler.handle_instruction.
  destruct (List.length ops =? 1)%nat; destruct (List.length ops =? 2)%nat;
    destruct (List.length ops =? 3)%nat; reflexivity.
Qed.

Lemma handle_upper indet mnem ops src a :
  mnem = "lui"%string \/ mnem = "auipc"%string ->
  List.length ops = 2%nat ->
  Assembler.handle_instruction indet mnem ops src false a =
  Assembler.emit
    (Assembler.enc_u (if (mnem =? "lui")%string then 55 else 23)
       (Assembler.parse_reg (Assembler.op ops 0))
       (Assembler.shl (default indet (Assembler.parse_imm (Assembler.op ops 1)))
          12)) src a.
Proof.
  intros Hm Hn. unfold Assembler.handle_instruction. rewrite Hn.
  destruct Hm as [-> | ->]; reflexivity.
Qed.

(** X26.  A shift by a constant ([slli], [srli], [srai]) with two
    registers and a shift amount that parses as a number is assembled
    into one word, without an error; the decoder reads the word back as
    the kind and ALU operation of that name, with the same registers and
    the amount modulo 32 as immediate. *)
Theorem assembled_shift_decodes (indet : Z) (mnem : string)
    (ty : InsType.t) (aop : AluOp.t) (ops : list string) (src : string)
    (a : Assembler.t) (pc sh : Z) :
  Assembler.lookup mnem shift_kinds = Some (ty, aop) ->
  List.length ops = 3%nat ->
  0 <= Assembler.parse_reg (Assembler.op ops 0) < 32 ->
  0 <= Assembler.parse_reg (Assembler.op ops 1) < 32 ->
  Assembler.parse_imm (Assembler.op ops 2) = Some sh ->
  exists w,
    Assembler.text_out (Assembler.handle_instruction indet mnem ops src false a)
      = Assembler.text_out a ++ [w] /\
    Assembler.errors (Assembler.handle_instruction indet mnem ops src false a)
      = Assembler.errors a /\
    let i := Decoder.decode w pc in
    type i = ty /\ alu_op i = aop /\
    rd i = Assembler.parse_reg (Assembler.op ops 0) /\
    rs1 i = Assembler.parse_reg (Assembler.op ops 1) /\
    imm i = sh mod 32 /\
    reg_write i = true /\ alu_src i = true /\
    mem_read i = false /\ mem_write i = false /\
    branch i = false /\ jump i = false.
Proof.
  intros Hl Hn Hrd Hrs1 Hi.
  assert (Hm : mnem = "slli"%string \/ mnem = "srli"%string \/
               mnem = "srai"%string).
  { unfold Assembler.lookup, shift_kinds in Hl. cbn [List.find fst] in Hl.
    repeat match type of Hl with
           | context [(?s =? ?m)%string] =>
               destruct (String.eqb_spec s m); [subst m; auto|]
           end.
    discriminate Hl. }
  rewrite (handle_shift indet mnem ops src a Hm Hn). rewrite Hi.
  change (default indet (Some sh)) with sh.
  eexists. split; [reflexivity|]. split; [reflexivity|].
  set (rd_ := Assembler.parse_reg (Assembler.op ops 0)) in *.
  set (rs1_ := Assembler.parse_reg (Assembler.op ops 1)) in *.
  change 0x1F with (Z.ones 5). rewrite Z.land_ones by lia.
  change (2 ^ 5) with 32.
  pose proof (Z.mod_pos_bound sh 32 ltac:(lia)) as Hsh.
  set (k := sh mod 32) in *.
  assert (Hk : exists f3 f7,
             (if (mnem =? "slli")%string then 1 else 5) = f3 /\
             (if (mnem =? "srai")%string then 32 else 0) = f7 /\
             (f3 = 1 /\ f7 = 0 /\ ty = InsType.SLLI /\ aop = AluOp.SLL \/
              f3 = 5 /\ f7 = 0 /\ ty = InsType.SRLI /\ aop = AluOp.SRL \/
              f3 = 5 /\ f7 = 32 /\ ty = InsType.SRAI /\ aop = AluOp.SRA)).
  { destruct Hm as [-> | [-> | ->]]; injection Hl as <- <-;
      eexists; eexists; (split; [reflexivity|]); (split; [reflexivity|]);
      auto 10. }
  destruct Hk as (f3 & f7 & -> & -> & Hk).
  assert (Hf : 0 <= f3 < 8 /\ 0 <= f7 < 128) by lia.
  rewrite enc_r_value by lia.
  destruct (word_fields f7 k rs1_ f3 rd_ 19)
    as (E0 & E1 & E2 & E3 & E4 & E5); try lia.
  cbv zeta in *.
  set (w := f7 * 2 ^ 25 + k * 2 ^ 20 + rs1_ * 2 ^ 15 + f3 * 2 ^ 12 +
            rd_ * 2 ^ 7 + 19) in *.
  rewrite (decode_op_imm _ pc E0). rewrite E1, E2, E3, E4, E5.
  clearbody w. clear Hl Hi.
  destruct Hk as [(-> & -> & -> & ->) | [(-> & -> & -> & ->) | (-> & -> & -> & ->)]];
    cbn; repeat split.
Qed.

Lemma assembled_shift_decodes_witness :
  exists w,
    Assembler.text_out
      (Assembler.handle_instruction 0 "srai" ["a0"; "a1"; "35"]%string
         "srai a0, a1, 35" false Assembler.fresh) = [w] /\
    type (Decoder.decode w 0) = InsType.SRAI /\
    imm (Decoder.decode w 0) = 3.
Proof.
  destruct (assembled_shift_decodes 0 "srai" InsType.SRAI AluOp.SRA
              ["a0"; "a1"; "35"]%string "srai a0, a1, 35" Assembler.fresh
              0 35 eq_refl eq_refl)
    as (w & Ht & _ & Hty & _ & _ & _ & Hi & _);
    [vm_compute; split; [discriminate | reflexivity] ..
    | vm_compute; reflexivity |].
  exists w. split; [exact Ht|]. split; [exact Hty | exact Hi].
Defined.

(** X27.  [jal target] (linking in [ra]) and [jal rd, target] are
    assembled into one word that the decoder reads back as [JAL] with that
    destination and offset, when the target operand is one that
    [parse_imm] reads as an even offset on 21 signed bits, or one that
    [parse_imm] does not read as a number and that is a label of the
    symbol table at such a distance; for such a label the offset added to
    the address of the jump is the address of the label.  (A label that
    [parse_imm] reads as a number is taken as that number, not looked
    up.) *)
Theorem assembled_jal_decodes (indet : Z) (ops : list string) (src : string)
    (a : Assembler.t) (pc rd_ off_ : Z) (target : string) :
  (ops = [target] /\ rd_ = 1 \/
   exists r, ops = [r; target] /\ rd_ = Assembler.parse_reg r) ->
  0 <= rd_ < 32 ->
  (Assembler.parse_imm target = Some off_ \/
   Assembler.parse_imm target = None /\
   exists addr, Assembler.labels a !! target = Some addr /\
                off_ = Assembler.rel addr a) ->
  - 2 ^ 20 <= off_ < 2 ^ 20 -> off_ mod 2 = 0 ->
  exists w,
    Assembler.text_out (Assembler.handle_instruction indet "jal" ops src false a)
      = Assembler.text_out a ++ [w] /\
    let i := Decoder.decode w pc in
    type i = InsType.JAL /\ rd i = rd_ /\ imm i = off_ /\
    jump i = true /\ reg_write i = true /\ branch i = false /\
    mem_read i = false /\ mem_write i = false /\
    (forall addr,
       Assembler.parse_imm target = None ->
       Assembler.labels a !! target = Some addr ->
       u32 (Assembler.text_addr a + imm i) = u32 addr).
Proof.
  intros Hops Hrd Ht Hoff Hev.
  rewrite (handle_jal indet ops src a rd_ target Hops).
  assert (Hr : Decoder.imm_j (Assembler.enc_j 111 rd_ off_) = off_)
    by (apply imm_j_roundtrip; lia).
  destruct (enc_j_fields 111 rd_ off_ ltac:(lia) Hrd) as (E0 & E1).
  set (w := Assembler.enc_j 111 rd_ off_) in *.
  assert (Hemit :
    match Assembler.parse_imm target with
    | Some off => Assembler.emit (Assembler.enc_j 111 rd_ off) src a
    | None =>
        match Assembler.labels a !! target with
        | Some addr =>
            Assembler.emit (Assembler.enc_j 111 rd_ (Assembler.rel addr a))
              src a
        | None => Assembler.error ("Unknown label: " +:+ target) a
        end
    end = Assembler.emit w src a).
  { destruct Ht as [-> | (-> & addr & -> & ->)]; reflexivity. }
  rewrite Hemit. exists w. split; [reflexivity|].
  cbv zeta. rewrite (decode_op_jal _ pc E0). rewrite E1, Hr.
  assert (Htarget : forall addr,
             Assembler.parse_imm target = None ->
             Assembler.labels a !! target = Some addr ->
             u32 (Assembler.text_addr a + off_) = u32 addr).
  { intros addr Hp Hla.
    destruct Ht as [Hs | (_ & addr' & Hla' & ->)]; [congruence|].
    assert (addr' = addr) by congruence. subst addr'. apply rel_target. }
  clearbody w. cbn. repeat split. exact Htarget.
Qed.

Lemma assembled_jal_decodes_witness :
  let a := Assembler.set_labels (<["done"%string := 16]> ∅) Assembler.fresh in
  exists w,
    Assembler.text_out
      (Assembler.handle_instruction 0 "jal" ["done"]%string
         "jal done" false a) = [w] /\
    type (Decoder.decode w 0) = InsType.JAL /\
    rd (Decoder.decode w 0) = 1 /\
    imm (Decoder.decode w 0) = 16.
Proof.
  intros a.
  destruct (assembled_jal_decodes 0 ["done"]%string "jal done" a
              0 1 16 "done")
    as (w & Ht & Hty & Hrd & Hi & _).
  - left. split; reflexivity.
  - lia.
  - right. split; [vm_compute; reflexivity|].
    exists 16. split; vm_compute; reflexivity.
  - lia.
  - reflexivity.
  - exists w. split; [exact Ht|]. split; [exact Hty|].
    split; [exact Hrd | exact Hi].
Defined.

(** X28.  [jalr rs] (linking in [ra], offset 0), [jalr rd, offset(rs)] and
    [jalr rd, rs, offset] with an offset on 12 signed bits are assembled
    into one word, without an error, that the decoder reads back as [JALR]
    with that destination, base register and offset. *)
Theorem assembled_jalr_decodes (indet : Z) (ops : list string) (src : string)
    (a : Assembler.t) (pc rd_ rs1_ off_ : Z) :
  ((exists r, ops = [r] /\ rd_ = 1 /\ rs1_ = Assembler.parse_reg r /\
              off_ = 0) \/
   (exists d m ok, ops = [d; m] /\ rd_ = Assembler.parse_reg d /\
                   Assembler.parse_mem m 0 0 = (ok, off_, rs1_)) \/
   (exists d s o, ops = [d; s; o] /\ rd_ = Assembler.parse_reg d /\
                  rs1_ = Assembler.parse_reg s /\
                  Assembler.parse_imm o = Some off_)) ->
  0 <= rd_ < 32 -> 0 <= rs1_ < 32 -> - 2048 <= off_ < 2048 ->
  exists w,
    Assembler.text_out
      (Assembler.handle_instruction indet "jalr" ops src false a)
      = Assembler.text_out a ++ [w] /\
    Assembler.errors
      (Assembler.handle_instruction indet "jalr" ops src false a)
      = Assembler.errors a /\
    let i := Decoder.decode w pc in
    type i = InsType.JALR /\ alu_op i = AluOp.ADD /\
    rd i = rd_ /\ rs1 i = rs1_ /\ imm i = off_ /\
    jump i = true /\ reg_write i = true /\ alu_src i = true /\
    branch i = false /\ mem_read i = false /\ mem_write i = false.
Proof.
  intros Hops Hrd Hrs1 Hoff.
  rewrite handle_jalr.
  assert (Hw :
    (let '(rd, rs1, off) :=
       if (List.length ops =? 1)%nat
       then (1, Assembler.parse_reg (Assembler.op ops 0), 0)
       else if (List.length ops =? 2)%nat then
         let '(_, off, rs1) := Assembler.parse_mem (Assembler.op ops 1) 0 0 in
         (Assembler.parse_reg (Assembler.op ops 0), rs1, off)
       else if (List.length ops =? 3)%nat then
         (Assembler.parse_reg (Assembler.op ops 0),
          Assembler.parse_reg (Assembler.op ops 1),
          default 0 (Assembler.parse_imm (Assembler.op ops 2)))
       else (1, 0, 0) in
     Assembler.emit (Assembler.enc_i 103 rd 0 rs1 off) src a)
    = Assembler.emit (Assembler.enc_i 103 rd_ 0 rs1_ off_) src a).
  { destruct Hops as [(r & -> & -> & -> & ->)
                     | [(d & m & ok & -> & -> & Hm)
                       | (d & s & o & -> & -> & -> & Ho)]].
    - reflexivity.
    - cbn [List.length Nat.eqb Assembler.op nth]. rewrite Hm. reflexivity.
    - cbn [List.length Nat.eqb Assembler.op nth]. rewrite Ho. reflexivity. }
  rewrite Hw. eexists. split; [reflexivity|]. split; [reflexivity|].
  assert (Hr : Decoder.imm_i (Assembler.enc_i 103 rd_ 0 rs1_ off_) = off_)
    by (apply imm_i_roundtrip; lia).
  pose proof (enc_i_shape 103 rd_ 0 rs1_ off_ ltac:(lia) Hrd ltac:(lia) Hrs1)
    as Hv.
  set (w := Assembler.enc_i 103 rd_ 0 rs1_ off_) in *.
  destruct (word_fields (off_ mod 2 ^ 12 / 2 ^ 5) (off_ mod 2 ^ 5) rs1_ 0
              rd_ 103)
    as (E0 & E1 & E2 & E3 & E4 & E5);
    try lia; try (Z.div_mod_to_equations; lia).
  cbv zeta in *. rewrite <- Hv in E0, E1, E2, E3, E4, E5.
  rewrite (decode_op_jalr _ pc E0). rewrite E1, E3, Hr.
  clearbody w. cbn. repeat split.
Qed.

Lemma assembled_jalr_decodes_witness :
  exists w,
    Assembler.text_out
      (Assembler.handle_instruction 0 "jalr" ["t0"; "8(a0)"]%string
         "jalr t0, 8(a0)" false Assembler.fresh) = [w] /\
    type (Decoder.decode w 0) = InsType.JALR /\
    rd (Decoder.decode w 0) = 5 /\
    rs1 (Decoder.decode w 0) = 10 /\
    imm (Decoder.decode w 0) = 8.
Proof.
  destruct (assembled_jalr_decodes 0 ["t0"; "8(a0)"]%string "jalr t0, 8(a0)"
              Assembler.fresh 0 5 10 8)
    as (w & Ht & _ & Hty & _ & Hrd & Hrs & Hi & _).
  - right. left. exists "t0"%string, "8(a0)"%string, true.
    split; [reflexivity|]. split; vm_compute; reflexivity.
  - lia.
  - lia.
  - lia.
  - exists w. split; [exact Ht|]. split; [exact Hty|].
    split; [exact Hrd|]. split; [exact Hrs | exact Hi].
Defined.

(** X29.  [lui rd, imm] and [auipc rd, imm] with a register and a 20-bit
    constant are assembled into one word, without an error, that the
    decoder reads back as [LUI] (passing the constant through the ALU) or
    [AUIPC] (adding it), with that destination and the constant shifted
    into the upper 20 bits as immediate. *)
Theorem assembled_upper_decodes (indet : Z) (mnem : string)
    (ops : list string) (src : string) (a : Assembler.t) (pc imm_ : Z) :
  mnem = "lui"%string \/ mnem = "auipc"%string ->
  List.length ops = 2%nat ->
  0 <= Assembler.parse_reg (Assembler.op ops 0) < 32 ->
  Assembler.parse_imm (Assembler.op ops 1) = Some imm_ ->
  0 <= imm_ < 2 ^ 20 ->
  exists w,
    Assembler.text_out (Assembler.handle_instruction indet mnem ops src false a)
      = Assembler.text_out a ++ [w] /\
    Assembler.errors (Assembler.handle_instruction indet mnem ops src false a)
      = Assembler.errors a /\
    let i := Decoder.decode w pc in
    type i = (if (mnem =? "lui")%string then InsType.LUI else InsType.AUIPC) /\
    alu_op i = (if (mnem =? "lui")%string then AluOp.PASS_B else AluOp.ADD) /\
    rd i = Assembler.parse_reg (Assembler.op ops 0) /\
    imm i = s32 (imm_ * 2 ^ 12) /\
    reg_write i = true /\ alu_src i = true /\
    jump i = false /\ branch i = false /\
    mem_read i = false /\ mem_write i = false.
Proof.
  intros Hm Hn Hrd Hi Himm.
  rewrite (handle_upper indet mnem ops src a Hm Hn). rewrite Hi.
  change (default indet (Some imm_)) with imm_.
  eexists. split; [reflexivity|]. split; [reflexivity|].
  set (rd_ := Assembler.parse_reg (Assembler.op ops 0)) in *.
  assert (Hx : u32 (Assembler.shl imm_ 12) = imm_ * 2 ^ 12).
  { unfold Assembler.shl. rewrite u32_s32.
    rewrite Z.shiftl_mul_pow2 by lia. apply u32_small. lia. }
  destruct Hm as [-> | ->]; cbn [String.eqb Ascii.eqb Bool.eqb]; cbv iota.
  - destruct (enc_u_upper 55 rd_ (Assembler.shl imm_ 12) imm_
                ltac:(lia) Hrd Himm Hx) as (E0 & E1 & E2).
    cbv zeta in *.
    set (w := Assembler.enc_u 55 rd_ (Assembler.shl imm_ 12)) in *.
    rewrite (decode_op_lui _ pc E0). rewrite E1, E2.
    clearbody w. cbn. repeat split.
  - destruct (enc_u_upper 23 rd_ (Assembler.shl imm_ 12) imm_
                ltac:(lia) Hrd Himm Hx) as (E0 & E1 & E2).
    cbv zeta in *.
    set (w := Assembler.enc_u 23 rd_ (Assembler.shl imm_ 12)) in *.
    rewrite (decode_op_auipc _ pc E0). rewrite E1, E2.
    clearbody w. cbn. repeat split.
Qed.

Lemma assembled_upper_decodes_witness :
  exists w,
    Assembler.text_out
      (Assembler.handle_instruction 0 "lui" ["a0"; "0x12345"]%string
         "lui a0, 0x12345" false Assembler.fresh) = [w] /\
    type (Decoder.decode w 0) = InsType.LUI /\
    imm (Decoder.decode w 0) = 0x12345000.
Proof.
  destruct (assembled_upper_decodes 0 "lui" ["a0"; "0x12345"]%string
              "lui a0, 0x12345" Assembler.fresh 0 0x12345)
    as (w & Ht & _ & Hty & _ & _ & Hi & _).
  - left. reflexivity.
  - reflexivity.
  - vm_compute. split; [discriminate | reflexivity].
  - vm_compute. reflexivity.
  - lia.
  - exists w. split; [exact Ht|]. split; [exact Hty | exact Hi].
Defined.

(* --------------------------------------------------------------------- *)
(** ** The image the assembler builds and the loader writes               *)
(* --------------------------------------------------------------------- *)

Lemma io_emit w s a : word32 w -> image_ok a -> image_ok (Assembler.emit w s a).
Proof.
  intros Hw (Ht & Hd). split; [|exact Hd].
  cbn. apply List.Forall_app. split; [exact Ht|]. constructor; [exact Hw|constructor].
Qed.

Lemma io_push v a : image_ok a -> image_ok (Assembler.push_data v a).
Proof.
  intros (Ht & Hd). split; [exact Ht|].
  cbn. apply List.Forall_app. split; [exact Hd|].
  constructor; [|constructor]. apply Z.mod_pos_bound. lia.
Qed.

Lemma io_error m a : image_ok a -> image_ok (Assembler.error m a).
Proof. intros H. exact H. Qed.

Lemma io_reserve a : image_ok a -> image_ok (Assembler.reserve a).
Proof. intros H. exact H. Qed.

Lemma io_text_addr v a : image_ok a -> image_ok (Assembler.set_text_addr v a).
Proof. intros H. exact H. Qed.

Lemma io_data_addr v a : image_ok a -> image_ok (Assembler.set_data_addr v a).
Proof. intros H. exact H. Qed.

Lemma io_in_data v a : image_ok a -> image_ok (Assembler.set_in_data v a).
Proof. intros H. exact H. Qed.

Lemma io_line_num v a : image_ok a -> image_ok (Assembler.set_line_num v a).
Proof. intros H. exact H. Qed.

Lemma io_labels v a : image_ok a -> image_ok (Assembler.set_labels v a).
Proof. intros H. exact H. Qed.

Lemma io_emit_or_reserve fp w s a :
  word32 w -> image_ok a -> image_ok (Assembler.emit_or_reserve fp w s a).
Proof.
  intros Hw Ha. unfold Assembler.emit_or_reserve.
  destruct (negb fp); [apply io_emit; assumption | exact Ha].
Qed.

Lemma io_fold {A} (f : Assembler.t -> A -> Assembler.t) (l : list A) :
  (forall a x, image_ok a -> image_ok (f a x)) ->
  forall a, image_ok a -> image_ok (fold_left f l a).
Proof.
  intros Hf. induction l as [|x l IH]; intros a Ha; cbn; auto.
Qed.

Lemma word32_u32 x : word32 (u32 x).
Proof. apply u32_range. Qed.

Lemma word32_enc_u op rd imm : word32 (Assembler.enc_u op rd imm).
Proof.
  unfold Assembler.enc_u.
  apply lor_word; [apply lor_word; [apply land_word|] |];
    try apply u32_range. lia.
Qed.

Lemma word32_const w : (0 <=? w) && (w <? 2 ^ 32) = true -> word32 w.
Proof. unfold word32. lia. Qed.

(** One step of the walk through a handler, from the outside in. *)
Ltac image_step :=
  match goal with
  | |- image_ok (snd (_, _)) => cbn [snd]
  | |- image_ok (snd (if ?c then _ else _)) => destruct c
  | |- image_ok (snd (match ?x with _ => _ end)) => destruct x
  | |- image_ok (if ?c then _ else _) => destruct c
  | |- image_ok (match ?x with _ => _ end) => destruct x
  | |- image_ok (Assembler.emit _ _ _) => apply io_emit
  | |- image_ok (Assembler.emit_or_reserve _ _ _ _) =>
      apply io_emit_or_reserve
  | |- image_ok (Assembler.error _ _) => apply io_error
  | |- image_ok (Assembler.reserve _) => apply io_reserve
  | |- image_ok (Assembler.set_text_addr _ _) => apply io_text_addr
  | |- image_ok (Assembler.set_data_addr _ _) => apply io_data_addr
  | |- image_ok (Assembler.set_in_data _ _) => apply io_in_data
  | |- image_ok (Assembler.set_labels _ _) => apply io_labels
  | |- image_ok (Assembler.push_data _ _) => apply io_push
  | |- word32 (u32 _) => apply word32_u32
  | |- word32 (Assembler.enc_u _ _ _) => apply word32_enc_u
  | |- word32 (Assembler.enc_r _ _ _ _ _ _) => apply word32_u32
  | |- word32 (Assembler.enc_i _ _ _ _ _) => apply word32_u32
  | |- word32 (Assembler.enc_s _ _ _ _ _) => apply word32_u32
  | |- word32 (Assembler.enc_b _ _ _ _ _) => apply word32_u32
  | |- word32 (Assembler.enc_j _ _ _) => apply word32_u32
  | |- word32 _ => apply word32_const; reflexivity
  end.

Lemma io_pseudo mnem ops src fp a :
  image_ok a -> image_ok (snd (Assembler.handle_pseudo mnem ops src fp a)).
Proof.
  intros Ha.
  unfold Assembler.handle_pseudo, Assembler.branch_label,
    Assembler.jump_label.
  cbv zeta. repeat image_step; exact Ha.
Qed.

Lemma io_real indet mnem ops src fp a :
  image_ok a -> image_ok (Assembler.handle_instruction indet mnem ops src fp a).
Proof.
  intros Ha. unfold Assembler.handle_instruction.
  cbv zeta. repeat image_step; exact Ha.
Qed.

Lemma io_align_text al fp fuel : forall a a',
  image_ok a -> Assembler.align_text fuel al fp a = Some a' -> image_ok a'.
Proof.
  induction fuel as [|fuel IH]; intros a a' Ha; cbn [Assembler.align_text];
    destruct (_ =? 0); try discriminate; try (intros [= <-]; exact Ha).
  apply IH. apply io_emit_or_reserve; [|exact Ha].
  apply word32_const. reflexivity.
Qed.

Lemma io_align_data al fp fuel : forall a a',
  image_ok a -> Assembler.align_data fuel al fp a = Some a' -> image_ok a'.
Proof.
  induction fuel as [|fuel IH]; intros a a' Ha; cbn [Assembler.align_data];
    destruct (_ =? 0); try discriminate; try (intros [= <-]; exact Ha).
  apply IH. apply io_data_addr. destruct (negb fp); [apply io_push|]; exact Ha.
Qed.

Lemma io_items fp a s :
  image_ok a ->
  image_ok (Assembler.word_item fp a s) /\
  image_ok (Assembler.half_item fp a s) /\
  image_ok (Assembler.byte_item fp a s).
Proof.
  intros Ha.
  unfold Assembler.word_item, Assembler.half_item, Assembler.byte_item.
  cbv zeta. cbn [fold_left].
  split; [|split]; repeat image_step; exact Ha.
Qed.

Lemma io_directive line fp a a' :
  image_ok a -> Assembler.handle_directive line fp a = Some a' -> image_ok a'.
Proof.
  intros Ha. unfold Assembler.handle_directive.
  destruct (Assembler.split line " ") as [|p0 args];
    [intros [= <-]; exact Ha|].
  cbv zeta.
  repeat match goal with
         | |- (if ?c then _ else _) = _ -> _ =>
             destruct c;
               [ try (intros [= <-]; first
                        [ exact Ha
                        | apply io_in_data; exact Ha
                        | apply io_fold; [intros; apply io_items; assumption
                                         | exact Ha] ]) |]
         end.
  - repeat match goal with
           | |- match ?x with _ => _ end = _ -> _ => destruct x
           end; intros [= <-]; try exact Ha;
      repeat image_step;
      try (apply io_fold; [intros; apply io_push; assumption|]);
      exact Ha.
  - repeat match goal with
           | |- match ?x with _ => _ end = _ -> _ => destruct x
           end; intros [= <-]; try exact Ha;
      repeat image_step;
      try (apply io_fold; [intros; apply io_push; assumption|]);
      exact Ha.
  - destruct args as [|s1 args]; [intros [= <-]; exact Ha|].
    destruct (Assembler.parse_imm s1); [|intros [= <-]; exact Ha].
    destruct (_ || _); [discriminate|].
    destruct (Assembler.in_data a);
      [apply io_align_data | apply io_align_text]; exact Ha.
  - intros [= <-]. exact Ha.
Qed.

Lemma io_line indet line fp a a' :
  image_ok a -> Assembler.process_line indet line fp a = Some a' ->
  image_ok a'.
Proof.
  intros Ha. unfold Assembler.process_line. cbv zeta.
  destruct (_ =? EmptyString)%string; [intros [= <-]; exact Ha|].
  assert (Hb : forall rest b,
             image_ok b ->
             match rest with
             | EmptyString => Some b
             | String "." _ => Assembler.handle_directive rest fp b
             | _ =>
                 if negb (Assembler.in_data b) then
                   let '(mnem, ops) := Assembler.mnemonic_operands rest in
                   let '(is_pseudo, a') :=
                     Assembler.handle_pseudo mnem ops line fp b in
                   if negb is_pseudo
                   then Some (Assembler.handle_instruction indet mnem ops
                                line fp b)
                   else Some a'
                 else Some b
             end = Some a' -> image_ok a').
  { intros rest b Hk.
    destruct rest as [|c rest]; [intros [= <-]; exact Hk|].
    rewrite dot_match. destruct (Ascii.eqb c ".").
    { apply io_directive. exact Hk. }
    destruct (negb _); [|intros [= <-]; exact Hk].
    destruct (Assembler.mnemonic_operands _) as [mnem ops].
    pose proof (io_pseudo mnem ops line fp b Hk) as Hp.
    destruct (Assembler.handle_pseudo mnem ops line fp b) as [f b'].
    destruct f; cbn [negb]; intros [= <-].
    - exact Hp.
    - apply io_real. exact Hk. }
  destruct (Assembler.label_prefix _) as [[label rest]|]; apply Hb;
    [destruct fp; [apply io_labels|]; exact Ha | exact Ha].
Qed.

Lemma io_sweep indet fp lines : forall a a',
  image_ok a -> Assembler.sweep indet fp lines a = Some a' -> image_ok a'.
Proof.
  induction lines as [|l ls IH]; intros a a' Ha; cbn [Assembler.sweep].
  { intros [= <-]. exact Ha. }
  destruct (Assembler.process_line indet l fp _) as [b|] eqn:E;
    [|discriminate].
  apply IH. apply io_line in E; [exact E|]. apply io_line_num. exact Ha.
Qed.

(** The image a run of the assembler returns. *)
Lemma assemble_image indet src res :
  Assembler.assemble indet src = Some res ->
  List.Forall word32 (Assembler.text res) /\
  List.Forall byte8 (Assembler.data res) /\
  Assembler.res_text_addr res = Memory.TEXT_BASE /\
  Assembler.res_data_addr res = Memory.DATA_BASE.
Proof.
  unfold Assembler.assemble. cbv zeta.
  destruct (Assembler.sweep indet true _ _) as [a1|] eqn:E1; [|discriminate].
  destruct (Assembler.sweep indet false _ _) as [a2|] eqn:E2; [|discriminate].
  intros [= <-]. cbn.
  apply io_sweep in E1; [|split; constructor].
  apply io_sweep in E2; [|exact E1].
  destruct E2 as (Ht & Hd). auto.
Qed.

Lemma write_bytes_other bs : forall m a b,
  (forall k, 0 <= k < Z.of_nat (List.length bs) -> b <> u32 (a + k)) ->
  0 <= a < 2 ^ 32 ->
  Memory.read_byte (Memory.write_bytes m a bs) b = Memory.read_byte m b.
Proof.
  induction bs as [|x bs IH]; intros m a b Hb Ha; cbn [Memory.write_bytes];
    [reflexivity|].
  cbn [List.length] in Hb.
  rewrite IH.
  - apply read_write_byte_ne.
    intros ->. apply (Hb 0); [lia|].
    rewrite Z.add_0_r, u32_small by lia. reflexivity.
  - intros k Hk. rewrite u32_add_l.
    replace (a + 1 + k) with (a + (1 + k)) by lia. apply Hb. lia.
  - apply u32_range.
Qed.

Lemma write_bytes_read bs : forall m a j b,
  0 <= a < 2 ^ 32 ->
  Z.of_nat (List.length bs) <= 2 ^ 32 ->
  bs !! j = Some b ->
  Memory.read_byte (Memory.write_bytes m a bs) (u32 (a + Z.of_nat j))
  = b mod 2 ^ 8.
Proof.
  induction bs as [|x bs IH]; intros m a j b Ha Hl Hj; [discriminate|].
  cbn [Memory.write_bytes]. cbn [List.length] in Hl.
  destruct j as [|j].
  - injection Hj as ->. change (Z.of_nat 0) with 0.
    rewrite Z.add_0_r. rewrite (u32_small a) by lia.
    rewrite write_bytes_other.
    + apply read_write_byte_eq.
    + intros k Hk. rewrite u32_add_l. unfold u32.
      Z.div_mod_to_equations. lia.
    + apply u32_range.
  - cbn in Hj.
    replace (u32 (a + Z.of_nat (S j)))
      with (u32 (u32 (a + 1) + Z.of_nat j))
      by (rewrite u32_add_l; f_equal; lia).
    apply IH; [apply u32_range | lia | exact Hj].
Qed.

(** X30.  After a successful [load_source] the memory holds the program
    the assembler returned: every text word is a 32-bit word, and
    [read_word] at [TEXT_BASE] plus four times its index returns it (when
    the text ends below the data segment and the data does not run over
    the end of the address space); every data byte is a byte, and
    [read_byte] at [DATA_BASE] plus its index returns it; the stack
    pointer x2 reads [STACK_TOP] and every other register reads 0. *)
Theorem loaded_program_image (indet : Z) (source : string) (m : gmap Z Z)
    (r : list Z) :
  Emulator.load_source indet source = Some (m, r) ->
  exists res,
    Assembler.assemble indet source = Some res /\
    Assembler.success res = true /\
    (forall k, 0 <= k < 32 ->
       RegisterFile.read r k
       = Some (if k =? 2 then Memory.STACK_TOP else 0)) /\
    (Z.of_nat (List.length (Assembler.data res)) <= 2 ^ 32 ->
     forall j b, Assembler.data res !! j = Some b ->
       0 <= b < 2 ^ 8 /\
       Memory.read_byte m (u32 (Memory.DATA_BASE + Z.of_nat j)) = b) /\
    (4 * Z.of_nat (List.length (Assembler.text res)) <= Memory.DATA_BASE ->
     Z.of_nat (List.length (Assembler.data res))
       <= 2 ^ 32 - Memory.DATA_BASE ->
     forall i w, Assembler.text res !! i = Some w ->
       0 <= w < 2 ^ 32 /\
       Memory.read_word m (Memory.TEXT_BASE + 4 * Z.of_nat i) = w).
Proof.
  unfold Emulator.load_source.
  destruct (Assembler.assemble indet source) as [res|] eqn:Hasm;
    [|discriminate].
  destruct (Assembler.success res) eqn:Hok; cbn [negb]; [|discriminate].
  cbv zeta.
  destruct (assemble_image indet source res Hasm) as (Hw & Hb & -> & ->).
  change (RegisterFile.write RegisterFile.reset 2 Memory.STACK_TOP)
    with (Some (<[2%nat := Memory.STACK_TOP]> (replicate 32 0))).
  intros [= <- <-].
  exists res. split; [reflexivity|]. split; [exact Hok|].
  split; [|split].
  - intros k Hk. unfold RegisterFile.read, NUM_REGISTERS.
    destruct (Z.ltb_spec k 0) as [Hn|_]; [lia|].
    destruct (Z.geb_spec k 32) as [Hg|_]; [lia|]. cbn [orb].
    destruct (Z.eqb_spec k 0) as [->|Hk0]; [reflexivity|].
    destruct (Z.eqb_spec k 2) as [->|Hk2]; [reflexivity|].
    remember (Z.to_nat k) as n eqn:En.
    do 32 (destruct n as [|n]; [first [reflexivity | exfalso; lia] |]).
    exfalso. lia.
  - intros Hl j b Hj.
    assert (Hbyte : byte8 b).
    { exact (Forall_lookup_1 _ _ _ _ Hb Hj). }
    split; [exact Hbyte|].
    rewrite (write_bytes_read _ _ _ j b); [| unfold Memory.DATA_BASE; lia
                                           | exact Hl | exact Hj].
    apply Z.mod_small. exact Hbyte.
  - intros Ht Hd i w Hi.
    assert (Hword : word32 w).
    { exact (Forall_lookup_1 _ _ _ _ Hw Hi). }
    split; [exact Hword|].
    pose proof (lookup_lt_Some _ _ _ Hi) as Hlt.
    unfold Memory.TEXT_BASE, Memory.DATA_BASE in *.
    rewrite Z.add_0_l.
    rewrite (read_word_same
               (Memory.write_block Memory.reset 0 (Assembler.text res))).
    + rewrite <- (u32_small (4 * Z.of_nat i)) by lia.
      rewrite <- (Z.add_0_l (4 * Z.of_nat i)).
      apply write_block_read; [lia | lia | exact Hi | exact Hword].
    + intros k Hk. apply write_bytes_other; [|lia].
      intros k' Hk'. unfold u32. Z.div_mod_to_equations. lia.
    + lia.
Qed.

Lemma loaded_program_image_witness :
  let mr := match Emulator.load_source 0 load_use_source with
            | Some x => x
            | None => (∅, [])
            end in
  exists res,
    Assembler.assemble 0 load_use_source = Some res /\
    Assembler.success res = true /\
    (forall k, 0 <= k < 32 ->
       RegisterFile.read (snd mr) k
       = Some (if k =? 2 then Memory.STACK_TOP else 0)) /\
    (Z.of_nat (List.length (Assembler.data res)) <= 2 ^ 32 ->
     forall j b, Assembler.data res !! j = Some b ->
       0 <= b < 2 ^ 8 /\
       Memory.read_byte (fst mr) (u32 (Memory.DATA_BASE + Z.of_nat j)) = b) /\
    (4 * Z.of_nat (List.length (Assembler.text res)) <= Memory.DATA_BASE ->
     Z.of_nat (List.length (Assembler.data res))
       <= 2 ^ 32 - Memory.DATA_BASE ->
     forall i w, Assembler.text res !! i = Some w ->
       0 <= w < 2 ^ 32 /\
       Memory.read_word (fst mr) (Memory.TEXT_BASE + 4 * Z.of_nat i) = w).
Proof.
  intros mr.
  apply (loaded_program_image 0 load_use_source (fst mr) (snd mr)).
  vm_compute. reflexivity.
Defined.
